(* ===== verification/_CoqProject ===== *)
-Q . S2P
Prelude.v
Machine.v
Scalar.v
Argmax.v
Numerics.v
Board.v
Bitcrush.v
Effects.v
RingMod.v
Qpsk.v
QpskDetect.v
ModemSpec.v
Monitor.v
Radar.v
Radar2.v
MatchedFilter.v
Transforms.v
FreqShift.v
ShiftPeak.v
FastConv.v
OverlapAdd.v
Loops.v
System.v
Preempt.v
Overflow.v
