(* ===== verification/Prelude.v ===== *)
(** * Verification of the SSY130 project-1B audio demonstrator ([src/asp_proj_ofdm_stud/src/example.c])

    ** The program

    [example.c] is the application layer of a block-synchronous audio board.
    A driver calls one handler per block period; the handler reads one block
    of [AUDIO_BLOCKSIZE] samples from the microphone and/or the waveform
    generator, updates the global state of the selected mode and writes one
    block to each of the two output channels.  The mode is chosen at build
    time ([SYSMODE]):

    - [SYSMODE_TEST1], [SYSMODE_MONITOR]: pass-through, and a key-driven
      saturating counter;
    - [SYSMODE_TEST2]: the effect rack.  A key selects no effect, the flanger
      (a FIR filter whose single moving tap sweeps one index per block), the
      ring modulator (product with a sine whose frequency sweeps by a fixed
      step per block) or the bit-crusher (scale, round, rescale); ['+'] and
      ['-'] move the bit-crusher depth inside [1, 5]; the push button toggles
      the input source;
    - [SYSMODE_TEST3]: frequency shift in the transform domain (filter,
      window, transform, move the bins up, mirror, transform back) with a
      periodic report of the largest bin;
    - [SYSMODE_TEST4]: the QPSK modem (grey-coded transmit, one symbol per
      block, and a maximum-power detector over the four candidate symbols);
    - [SYSMODE_RADAR], [SYSMODE_RADAR2]: chirp ranging by correlation,
      single-shot and averaged;
    - [SYSMODE_FFT]: FIR filtering of the waveform by fast convolution with
      overlap-add.

    The handlers call the CMSIS-DSP vector library ([arm_*_f32]), the board's
    sources and sinks, the serial port, the system timer and [printf]; none
    of these is under [src/].

    ** The development

    - [Prelude] (this file): the tactics and hint databases of the
      development, bounds-checked C array access ([load], [store]: an access
      out of range is undefined behaviour in C and [None] here), and the
      block-synchronous driver ([run]) with its invariant principles
      ([run_invariant], [run_indexed], [run_trace]) and the C [for] loop
      over an index range ([for_each], with [for_each_invariant] and, for
      a loop that fills an array, [for_each_fill]).
    - [Scalar]: the arithmetic of the sample type.  C's [float] is abstracted
      by the class [Scalar] (operations) and [ScalarLaws] (an ordered field
      with an integer floor); the rationals [Qc] are the executable instance.
      Rounding error of binary32 is not modelled: every theorem that uses
      [ScalarLaws] is about exact arithmetic.
    - [Argmax]: the scan that keeps the first largest element, shared by the
      detector of the modem and the peak search of the radar.
    - [Numerics]: the CMSIS-DSP calls the handlers make, as list functions in
      the library's documented accumulation order (modelled from the CMSIS
      documentation: the library is not under [src/]).
    - [Board]: the compile-time configuration ([config.h]), the per-block
      outputs of a handler ([block_out]), the sinks and the system timer.
    - [Bitcrush]: the quantiser of the bit-crusher, [bitcrush] (lines
      205-220), and its theory.
    - [Effects]: [SYSMODE_TEST2].  [test2_state] holds the globals of lines
      42-83; [example_test2] is the handler of lines 109-230, composed of
      [test2_key] (the key switch) and [test2_effect] (the effect switch:
      [test2_flanger] with the index update [flanger_next], [test2_ringmod]
      with the carrier update [ring_mod_next], and [bitcrush] of
      [Bitcrush]);
      [example_test2_btnpress] is lines 85-93.
    - [RingMod]: the carrier sweep of the ring modulator along a run: the
      band [ring_lo], [ring_hi] of lines 193 and 198, the invariant
      [ring_ok] and the number of blocks after which the sweep turns.
    - [Qpsk]: [SYSMODE_TEST4].  [test4_state] holds the globals of lines
      373-383 and the statics of [example_test4]; [example_test4] is the
      handler of lines 411-578, composed of [test4_arm] (a new message),
      [test4_transmit] and [test4_advance] (the output block and the cursor)
      and [test4_receive] (the receive window and the detector
      [qpsk_detect], the loop of lines 504-556); [example_test4_btnpress]
      is lines 580-583 and [test4_step] interleaves the two handlers.
    - [QpskDetect]: the theory of the detector: the score of a candidate
      against a block of the transmitter, and against silence.
    - [ModemSpec]: the protocol of the transmitter on its own, a labelled
      transition relation [modem_step] over a request flag and a phase
      ([tx_idle] or [tx_sending k]) with its runs [modem_trace], its
      executable form [modem_next], and the abstraction [modem_of] from the
      globals of [SYSMODE_TEST4] to the states of the protocol.
    - [Monitor]: [SYSMODE_TEST1] and [SYSMODE_MONITOR].
    - [Radar]: [SYSMODE_RADAR].  [radar_state] holds the globals of lines
      668-675 and the statics of [example_radar]; [example_radar_init] is
      lines 677-691 with its loop body [radar_init_body]; [example_radar] is
      the handler of lines 693-741, composed of the trigger countdown, the
      detection [radar_detect] (correlation [radar_corr], peak search
      [peak_search], report, key switch [radar_key]) and the transmit timer.
      The constants of [config.h] the mode uses are the class [RadarConfig];
      [arm_sin_f32] is the class [Trig].
    - [Radar2]: [SYSMODE_RADAR2], lines 746-821, in the same shape:
      [example_radar2_init], [example_radar2] with the report [radar2_print]
      of the averaging window.
    - [MatchedFilter]: the theory of the detection of both radars.  [echo]
      is a microphone block that holds the waveform after a delay, [energy]
      and [dot] are the sum of squares and the inner product that the
      samples of [arm_correlate_f32] are, and [echo_index] is the index of
      [corr_result] at which an echo of a given delay stands.
    - [Transforms]: the spectral calls of CMSIS-DSP.  The products and the
      maximum ([arm_cmplx_mag_squared_f32], [arm_cmplx_mult_cmplx_f32],
      [arm_max_f32]) are list functions; the transforms [arm_cfft_f32] and
      [arm_rfft_fast_f32] are parameters (classes [Cfft] and [Rfft]) of which
      only the length laws ([CfftLaws], [RfftLaws]) are assumed.
    - [FreqShift]: [SYSMODE_TEST3].  [test3_state] holds the globals of lines
      240-274, [test3_lp_filt_coeffs] is the table of line 238;
      [example_test3_init] is lines 276-280 and [example_test3] the handler
      of lines 282-358, composed of the filter and the window, the four
      loops ([test3_pack], [test3_shift], [test3_mirror], [test3_real]),
      the two transforms and the report [test3_report].  The shift
      [TEST3_FREQSHIFT_BINS] is a field of [ShiftConfig] ([shipped_shift] has
      the value of line 247), and [ShiftConfigOk] is what the build checks.
    - [ShiftPeak]: the report of [SYSMODE_TEST3] before and after the shift:
      [bin_mags] is the array [mag] of lines 346-347 and [report_of] the
      line printed for the pair [arm_max_f32] returns.
    - [FastConv]: [SYSMODE_FFT].  [fft_state] holds the globals of lines
      897-903, [lp_filter] is the table of lines 830-895;
      [example_fft_init] is lines 905-912 and [example_fft] the handler of
      lines 914-934, composed of the padding [fft_input], the product of the
      spectra [fft_product], the inverse transform and the overlap-add loop
      [overlap_add] with its body [overlap_body].  [fft_equiv] relates the
      states the handler cannot tell apart, and [example_fft] is [Proper]
      for it.
    - [OverlapAdd]: the reference the overlap-add loop is proved against,
      the convolution [lin_conv] of a signal with the taps of a filter
      ([fir_at] is one output sample), and the time-domain filter
      [arm_fir_f32] of [Numerics] along a stream of blocks ([fir_step]).
    - [System]: the modes behind one interface.  A [mode] is the group of
      handlers of one value of [SYSMODE] (initialisation, block handler,
      button handler; [example_test2_init] is lines 95-107), [example_mode]
      selects the group as the build does, and the driver is a list of
      [event]s, a press of the button or a block period, run by [mode_run]
      after the initialisation.  The class [ModeSafe] states what a mode
      owes the driver (an invariant that the initialisation establishes and
      both handlers keep, and two blocks of the block size per period); the
      theorem about runs is proved against the class, and one instance per
      mode discharges it from the lemmas of the file of the mode.
    - [Machine]: C integers at their width.  A type [c_int] is a signedness
      and a number of bits; [fits] is its range, [c_incr], [c_decr] and
      [c_add] are [i++], [--i] and [i += d] at a type (a signed result out
      of range is undefined, an unsigned one wraps round), and [c_for] is
      the statement [for(i = 0; i < n; i++)] as it is written, with fuel and
      the three outcomes [out_of_fuel], [undefined] and [finished].
    - [Loops]: the twelve [for] statements of [example.c] (lines 214, 302,
      317, 326, 335, 388, 507, 687, 707, 770, 789 and 926), each a
      [for_loop]: the declared type of its index, its bound and the body the
      file of its mode models it with; [example_loops] lists them.
    - [Overflow]: the statements that update an integer global
      ([bitcrush_depth], [flanger_delay_idx], [curr_symbol], [count_1],
      [radar_trig_delay], [max_i_average], [radar_print_cnt]) at the
      declared type, and, per mode, the list of its integer globals with
      their types ([ModeInts], a class over [ModeSafe] with one instance
      per mode).
    - [Preempt]: the button interrupt inside a block handler.  A handler is
      cut into [stage]s at the points where the interrupt can land (for
      [example_test2]: the read of the source, lines 110-116, the key
      switch, lines 118-154, and the effect, lines 156-229; for
      [example_test4]: the [ATOMIC] latch of line 419, the arming of lines
      420-425, the transmitter, lines 427-475, the cursor, lines 477-484,
      and the receiver, lines 487-577); a schedule is a list of stages and
      interrupts, [run_sched] runs it on the globals and the locals of the
      call, and [sched_equiv] relates schedules with the same results up to
      the order of the printed lines.

    A handler is a function [state -> inputs -> option (state * outputs)];
    [None] means that the C code would have read or written outside an array.
    The safety theorems show that this never happens from the initial state.
    What a handler reads from the board (blocks of the sources, a character
    of the serial port, readings of the clock) is its input record; the clock
    is read at several places of [example_test4], and each reading is a
    field of its own.

    ** What the theorems show

    - Flanger ([Effects]): the swept index stays in [0, FLANGER_TAPS-2],
      moves by exactly one per block and reverses exactly at the ends; along
      a run it is a triangle wave; the coefficient vector is the fixed
      direct tap plus the moving tap; the FIR output is the two-tap comb
      [x[n]/2 + x[n-d]/2].
    - Ring modulator ([RingMod]): the carrier moves by one step per block,
      stays within one step of its band, and does leave the band itself on
      the board (a divergence from the documentation); the sweep always
      turns: the direction flag flips within [n] blocks as soon as [n]
      steps are longer than the band and one step ([ring_mod_sweep_turns],
      314 blocks on the board).
    - Bit-crusher ([Effects], [Bitcrush]): the depth is clamped to [1, 5];
      the output lies on the grid of spacing [2^(1-depth)], crushing is
      idempotent, and depth 1 leaves the three levels -1, 0, 1.
    - Key handling ([Effects]): what each key does to the state and the log.
    - The whole of [SYSMODE_TEST2]: no run from the initial state reads or
      writes outside an array, and the invariant of the mode holds.
    - QPSK transmitter ([Qpsk]): no run of button presses and blocks indexes
      the message out of range or prints the error report; after a button
      press the cursor walks the message once, one symbol per block, and
      idles; a request during a message restarts it; served on time, the
      receive window lasts exactly one message; the branch that disables the
      receiver is dead.
    - QPSK detector ([QpskDetect]): the loop returns the first candidate of
      maximal score; the transmit map and the candidate table agree; a block
      that carries a symbol is decoded as that symbol when the references
      separate the diagonals from the axes; over a loop without delay the
      modem decodes its own message; on a silent block the detector still
      answers symbol 0 or symbol 1, because it has no threshold; over a loop
      that delays the signal by one block the first period decodes the
      silence, every later one the symbol of the period before, and the
      last symbol is lost because the window has closed.
    - Protocol of the modem ([ModemSpec]): the protocol is deterministic,
      keeps its phase inside the message, and after a request sends the
      whole message, one symbol per block period, and falls idle (by
      induction on its runs); the handlers implement it: every sequence of
      button presses and block periods is matched step by step by a run of
      the protocol whose labels the outputs carry ([test4_refines_modem], a
      forward simulation).
    - Monitor ([Monitor]): the counter of [SYSMODE_MONITOR] saturates, and
      its outputs are silent.
    - Radar ([Radar]): the initialisation leaves the chirp in the waveform
      and, at its offset, in the transmit block; no run reads or writes
      outside an array; a detection runs in the third call after a
      transmission; the peak search returns the first largest positive
      sample, or index 0 when there is none; after a calibration the report
      is the distance of the peak from the calibrated one.
    - Matched filter ([MatchedFilter]): for a waveform that is not silent
      and a block that holds it after [d] samples of silence, the magnitude
      of the correlation is the energy of the waveform at index
      [AUDIO_BLOCKSIZE - 1 + d] and strictly less everywhere else
      (Cauchy-Schwarz in an ordered field, strict because the window of any
      other lag covers a sample of silence where the waveform is not
      silent), so the peak search returns that index; after a calibration
      on the undelayed waveform the reported distance of an echo delayed by
      [d] samples is [d * 343 / AUDIO_SAMPLE_RATE]; the averaging radar
      reports the same index for a window of such echoes; and from the
      initialised state a loop-back of the transmitted block is detected in
      the fourth call at index [AUDIO_BLOCKSIZE - 1 + RADAR_OFFSET].
    - Averaging radar ([Radar2]): no run reads or writes outside an array;
      the correlation buffer that is never cleared is harmless, because the
      samples the correlation does not write stay zero; the report is printed
      once per window and carries the averages of that window.
    - Spectral shifter ([FreqShift]): no run leaves an array, and the four
      loops write every element of the local arrays they fill; one call, as
      a composition of list functions; the shift loop moves the bins up but
      zeroes one float too many (the real part of bin 0 is lost); the mirror
      loop exchanges real and imaginary parts instead of conjugating, so the
      array given to the inverse transform is not Hermitian; the report
      names the first largest of all bins; the coefficient table has one
      initialiser less than taps; the packing loop and the real-part loop
      are inverse to each other.
    - Peak of the shifted spectrum ([ShiftPeak]): when the spectrum has its
      only largest bin at [p], above bin 0 and with [p] plus the shift below
      the middle, the report on the shifted and mirrored array names bin
      [p] plus the shift with the same amplitude: in spite of the two
      defects above the shifter moves the reported peak by the shift.
    - Overlap-add filter ([FastConv], [OverlapAdd]): the overlap-add loop is
      correct: fed with the convolutions of the blocks it outputs the
      convolution of the stream ([overlap_add_fir], a refinement of
      [lin_conv]), which is also what [arm_fir_f32] outputs block after
      block ([overlap_add_matches_arm_fir]); one call, as a composition of
      list functions; the arrays kept between calls other than [H] and
      [saved] are scratch space ([fft_scratch_harmless]); no run leaves an
      array when the block is at least as long as the filter, and the first
      call does when it is shorter; the product of the spectra mishandles
      the first pair of the packed transform.

    - The system ([System]): for every value of [SYSMODE], every sequence
      of button presses and block periods after the initialisation is
      defined, keeps the invariant of the mode and writes two blocks of the
      block size per period ([system_run_safe], proved once against
      [ModeSafe]); in [SYSMODE_TEST2] a press of the button makes the next
      period process the other source ([test2_button_swaps]).
    - Termination ([Machine], [Loops]): a [for] statement whose bound is a
      value of the type of its index finishes after one test more than the
      bound and computes the iteration over the index range
      ([c_for_terminates]), more fuel never changes an outcome, and a loop
      whose bound is not a value of the type of its index never finishes
      ([c_for_never_finishes]: the index overflows or wraps round first);
      every loop of [example.c] is of the first kind when the arrays have
      fewer than 2^31 elements ([example_loops_terminate]), and the loops
      run as written compute what the models of the handlers compute
      ([peak_loop_run], [bitcrush_loop_run], [detect_for_run]).
    - Overflow ([Overflow]): each update of an integer global, at its
      declared type, is defined on the invariant of its mode and is the
      update of the model; the comparison of the cursor of the modem with
      [NUMEL(qpsk_msg) - 1] is unsigned, and is the bound of the message
      only because the message is not empty; the sum of the peak indices of
      the averaging radar is an [int] when [RADAR_PRINT_DELAY] indices sum
      to one ([radar2_sum_width]) and overflows past it; along every run of
      every mode every integer global is a value of its type
      ([system_ints_fit]).
    - Preemption ([Preempt]): an interrupt moves to the right across a stage
      that commutes with it, so a schedule whose stages after the first all
      commute with the interrupt is a linear one ([sched_linear]: the
      interrupts that land before the first stage, the handler, the other
      interrupts), and a linear schedule is a sequence of events of
      [System] ([linear_events]).  The stages of [example_test2] after the
      read of the source and those of [example_test4] after the latch
      commute with the button handler: a block period preempted anywhere
      ends as a sequence of atomic events does ([test2_preemption],
      [test4_preemption]).  The latch needs its [ATOMIC] section: a press
      between its two statements is lost ([test4_latch_atomic]).

    ** Bounds

    Samples are exact rationals.  In the files of the modes integers are
    [Z] and a loop is [for_each] over the index range; [Overflow] and
    [Loops] show that nothing is lost by either: every integer global stays
    a value of its C type, and every [for] statement, run as written on an
    index of its declared type, finishes with the result of [for_each].
    The types [int_fast8_t], [int_fast16_t] and [int_fast32_t] are taken at
    the least width the C standard allows them (a value that fits a type
    fits every wider one, [fits_wider]); [int] and [size_t] have the 32
    bits of the board.  Fuel is used by [c_for] only, one unit per test of
    the loop condition: a loop of bound [n] needs [n + 1] units, and the
    termination theorems are stated for every amount above [n].  The
    handlers themselves are total functions.  The executable examples use
    a block size of 4 ([small_config]) so that they evaluate quickly; the overshoot of the ring
    modulator is computed with the shipped configuration ([board_config]),
    whose step it depends on.  The examples of [FreqShift] use a block size
    of 32, the smallest the build of that mode accepts with the shipped
    shift, and those of [FastConv] and [System] a block size of 64, the
    length of the filter.  The eventuality of the ring modulator is bounded:
    the number of blocks is given by the width of the band and the step.

    ** Not modelled

    The sources, sinks, timer, serial port and [printf] are inputs and
    outputs of the handlers (their implementation is the board support
    package); the timer is an unbounded count of microseconds.  The
    generators [blocks_gen_sin] and [blocks_gen_cos] are not modelled: the
    reference blocks of the modem are arguments of [example_test4_init], and
    the theorems about decoding assume of them only what they use.
    [arm_sin_f32] is a parameter of the radar (the class [Trig]): the
    theorems hold for every sine, and say nothing of the spectrum of the
    chirp.  The transforms [arm_cfft_f32] and [arm_rfft_fast_f32] are
    parameters too, as is [sqrt]: the theorems about [SYSMODE_TEST3] and
    [SYSMODE_FFT] describe what the handlers do to the arrays around the
    transforms and hold for any transform that keeps the length; that the
    transform of CMSIS-DSP is the discrete Fourier transform, and what
    follows from it (the spectrum of a tone, the convolution theorem), is
    not modelled.  The window written by [windows_blackman] is an argument
    of [example_test3_init].  The driver that calls the handlers ([main.c],
    the interrupt of the button, the audio DMA) is not under [src/]: the
    order of its calls is the list of events of [System].  [Preempt] lets
    the button interrupt land between the statement groups of the handlers
    of [SYSMODE_TEST2] and [SYSMODE_TEST4], the two modes with a button
    handler that writes a global; an interrupt inside a statement group
    (inside a call of CMSIS-DSP, say) is not modelled as such, and is
    covered only because no such group reads what the interrupt writes
    after its first statement.  The block callback is assumed not to
    preempt itself, and the time a handler takes against the block period
    is not modelled.  The system timer is an unbounded count: its
    wrap-around ([systime.h] is not under [src/]) is not modelled.  The
    theorems of [MatchedFilter] are about a noise-free echo in exact
    arithmetic; noise, and the rounding of binary32, are not modelled.
    Every handler of [example.c] is modelled. *)

From Stdlib Require Export ZArith Lia Ascii.
From stdpp Require Export base tactics option list numbers strings.

#[global] Open Scope Z_scope.

(** * Automation *)

(** [dsp] collects the lemmas that close the routine side conditions of the
    development (lengths, bounds of array accesses). *)
Create HintDb dsp discriminated.

(** Rewriting database for list lengths. *)
Create Rewrite HintDb len.
#[export] Hint Rewrite @length_replicate @length_insert @length_app @length_take
  @length_drop @length_fmap @length_zip_with @length_seq @length_cons : len.

(** [len] normalises and solves a goal about list lengths. *)
Ltac len := autorewrite with len in *; simpl in *; try lia.

(** [lens] is [len] without simplification, for goals whose constants must
    stay folded. *)
Ltac lens := autorewrite with len in *; try lia.

(** [lia_div] is [lia] for goals with division and remainder by constants. *)
Ltac lia_div := zify; Z.to_euclidean_division_equations; lia.

(** [case_if] splits on the first [if] of the goal, keeping the equation. *)
Ltac case_if :=
  match goal with
  | |- context [if ?b then _ else _] => destruct b eqn:?
  end.

(** [simpl_option] opens a successful monadic step in the hypotheses. *)
Ltac simpl_option :=
  repeat match goal with
  | H : Some _ = Some _ |- _ => injection H as H; subst
  | H : None = Some _ |- _ => discriminate H
  | H : Some _ = None |- _ => discriminate H
  | H : (_ ≫= _) = Some _ |- _ => apply bind_Some in H as (? & ? & H)
  | H : (_, _) = (_, _) |- _ => injection H as ? ?; subst
  end.

Lemma half_double (n : nat) : (2 * n / 2)%nat = n.
Proof. rewrite Nat.mul_comm. by apply Nat.div_mul. Qed.

(** * C arrays *)

(** A C array is a list; an index is a C integer.  [load] and [store] are
    the accesses [a[i]] and [a[i] = v]: outside [0, length a) the C access
    is undefined, and the model returns [None]. *)
Section Array.
Context {A : Type}.

Definition in_bounds (a : list A) (i : Z) : Prop := 0 ≤ i < Z.of_nat (length a).

#[global] Instance in_bounds_dec a i : Decision (in_bounds a i).
Proof. unfold in_bounds. apply _. Defined.

Definition load (a : list A) (i : Z) : option A :=
  if decide (in_bounds a i) then a !! Z.to_nat i else None.

Definition store (a : list A) (i : Z) (v : A) : option (list A) :=
  if decide (in_bounds a i) then Some (<[Z.to_nat i := v]> a) else None.

Lemma load_Some a i : in_bounds a i → is_Some (load a i).
Proof.
  intros Hb. unfold load. rewrite decide_True by done.
  apply lookup_lt_is_Some. unfold in_bounds in Hb. lia.
Qed.

Lemma load_lookup a i x : load a i = Some x ↔ in_bounds a i ∧ a !! Z.to_nat i = Some x.
Proof. unfold load. destruct (decide (in_bounds a i)); intuition congruence. Qed.

Lemma load_default a i d :
  in_bounds a i → load a i = Some (default d (a !! Z.to_nat i)).
Proof.
  intros Hb. destruct (load_Some a i Hb) as [x Hx]. rewrite Hx.
  apply load_lookup in Hx as [_ ->]. done.
Qed.

Lemma load_None a i : load a i = None ↔ ¬ in_bounds a i.
Proof.
  split.
  - intros Hl Hb. destruct (load_Some a i Hb) as [x Hx]. congruence.
  - intros Hb. unfold load. by rewrite decide_False.
Qed.

Lemma store_Some a i v : in_bounds a i → store a i v = Some (<[Z.to_nat i := v]> a).
Proof. intros Hb. unfold store. by rewrite decide_True. Qed.

Lemma store_None a i v : store a i v = None ↔ ¬ in_bounds a i.
Proof. unfold store. destruct (decide (in_bounds a i)); naive_solver. Qed.

Lemma store_inv a i v a' :
  store a i v = Some a' → in_bounds a i ∧ a' = <[Z.to_nat i := v]> a.
Proof. unfold store. destruct (decide (in_bounds a i)); naive_solver. Qed.

Lemma store_length a i v a' : store a i v = Some a' → length a' = length a.
Proof. intros [_ ->]%store_inv. apply length_insert. Qed.

Lemma load_store_eq a i v a' : store a i v = Some a' → load a' i = Some v.
Proof.
  intros [Hb ->]%store_inv. apply load_lookup. unfold in_bounds in *.
  rewrite length_insert. split; [done|]. apply list_lookup_insert_eq. lia.
Qed.

Lemma load_store_ne a i j v a' :
  store a i v = Some a' → i ≠ j → load a' j = load a j.
Proof.
  intros [Hb ->]%store_inv Hij. unfold load.
  destruct (decide (in_bounds _ j)) as [H1|H1], (decide (in_bounds a j)) as [H2|H2];
    unfold in_bounds in *; rewrite ?length_insert in *; try done; try lia.
  apply list_lookup_insert_ne. lia.
Qed.

(** Access right after a known prefix. *)
Lemma store_middle (l1 l2 : list A) (d x : A) :
  store (l1 ++ d :: l2) (Z.of_nat (length l1)) x = Some (l1 ++ x :: l2).
Proof.
  rewrite store_Some by (unfold in_bounds; rewrite length_app; simpl; lia).
  by rewrite Nat2Z.id, insert_app_r_alt, Nat.sub_diag.
Qed.

Lemma load_middle (l1 l2 : list A) (x : A) :
  load (l1 ++ x :: l2) (Z.of_nat (length l1)) = Some x.
Proof.
  apply load_lookup. split.
  - unfold in_bounds. rewrite length_app. simpl. lia.
  - rewrite Nat2Z.id. apply list_lookup_middle. done.
Qed.

(** The same accesses at a natural index. *)
Lemma load_nat a (i : nat) x : a !! i = Some x → load a (Z.of_nat i) = Some x.
Proof.
  intros Hx. apply load_lookup. rewrite Nat2Z.id. split; [|done].
  apply lookup_lt_Some in Hx. unfold in_bounds. lia.
Qed.

Lemma load_at (l1 l2 : list A) (x : A) (i : nat) :
  length l1 = i → load (l1 ++ x :: l2) (Z.of_nat i) = Some x.
Proof. intros <-. apply load_middle. Qed.

Lemma store_at (l1 l2 : list A) (d x : A) (i : nat) :
  length l1 = i → store (l1 ++ d :: l2) (Z.of_nat i) x = Some (l1 ++ x :: l2).
Proof. intros <-. apply store_middle. Qed.

End Array.

#[export] Hint Resolve load_Some store_Some : dsp.

(** * Loops with undefined behaviour *)

(** [for_each body ixs s] runs [body] for each element of [ixs] in order,
    threading the state, and stops at the first undefined step: a C [for]
    loop whose body accesses arrays. *)
Section ForEach.
Context {St I : Type} (body : St → I → option St).

Fixpoint for_each (ixs : list I) (s : St) : option St :=
  match ixs with
  | [] => Some s
  | i :: ixs' => s' ← body s i; for_each ixs' s'
  end.

Lemma for_each_app ixs1 ixs2 s :
  for_each (ixs1 ++ ixs2) s = s' ← for_each ixs1 s; for_each ixs2 s'.
Proof.
  revert s. induction ixs1 as [|i ixs1 IH]; intros s; simpl; [done|].
  destruct (body s i); simpl; [apply IH|done].
Qed.

(** The invariant principle: [inv k] holds before iteration [k]. *)
Lemma for_each_invariant (inv : nat → St → Prop) (ixs : list I) :
  (∀ k s i, ixs !! k = Some i → inv k s → ∃ s', body s i = Some s' ∧ inv (S k) s') →
  ∀ s, inv 0%nat s → ∃ s', for_each ixs s = Some s' ∧ inv (length ixs) s'.
Proof.
  revert inv. induction ixs as [|i ixs IH]; intros inv Hstep s Hs; simpl.
  - by exists s.
  - destruct (Hstep 0%nat s i eq_refl Hs) as (s1 & -> & Hs1). simpl.
    apply (IH (inv ∘ S)); [|done]. intros k s' j Hk. by apply (Hstep (S k)).
Qed.

End ForEach.

(** A loop that writes element [k] of an array in iteration [k] leaves the
    written prefix followed by the rest of the array. *)
Lemma for_each_fill {A : Type} (f : nat → A)
    (body : list A → nat → option (list A)) (n : nat) (init : list A) :
  (n ≤ length init)%nat →
  (∀ k s, (k < n)%nat → length s = length init →
     body s k = store s (Z.of_nat k) (f k)) →
  for_each body (seq 0 n) init = Some ((f <$> seq 0 n) ++ drop n init).
Proof.
  intros Hn Hbody.
  destruct (for_each_invariant body
    (λ k s, s = (f <$> seq 0 k) ++ drop k init) (seq 0 n)) with (s := init)
    as (s' & -> & ->); [|done|by rewrite length_seq].
  intros k s i [-> Hk]%lookup_seq ->. simpl in *.
  destruct (lookup_lt_is_Some_2 init k) as [d Hd]; [lia|].
  exists ((f <$> seq 0 (S k)) ++ drop (S k) init). split; [|done].
  rewrite Hbody by len.
  rewrite (drop_S _ _ _ Hd), seq_S, fmap_app. simpl. rewrite <- app_assoc. simpl.
  pose proof (store_middle (f <$> seq 0 k) (drop (S k) init) d (f k)) as Hst.
  by rewrite length_fmap, length_seq in Hst.
Qed.

(** * The block-synchronous driver *)

(** The driver calls the handler of the selected mode once per block period
    with that period's inputs.  [run] is that loop over a finite prefix of
    the input stream: it threads the state, collects the outputs and stops at
    the first undefined access. *)
Section Driver.
Context {St In Out : Type} (step : St → In → option (St * Out)).

Fixpoint run (s : St) (ins : list In) : option (St * list Out) :=
  match ins with
  | [] => Some (s, [])
  | i :: ins' =>
      '(s1, o) ← step s i;
      '(s2, os) ← run s1 ins';
      Some (s2, o :: os)
  end.

(** The states the handler can be in at a block boundary. *)
Inductive reachable (valid : In → Prop) (init : St) : St → Prop :=
  | reachable_init : reachable valid init init
  | reachable_step s i s' o :
      reachable valid init s → valid i → step s i = Some (s', o) →
      reachable valid init s'.

Lemma run_app s ins1 ins2 :
  run s (ins1 ++ ins2) =
    '(s1, os1) ← run s ins1; '(s2, os2) ← run s1 ins2; Some (s2, os1 ++ os2).
Proof.
  revert s. induction ins1 as [|i ins1 IH]; intros s; simpl.
  - by destruct (run s ins2) as [[??]|].
  - destruct (step s i) as [[s1 o]|]; simpl; [|done].
    rewrite IH. destruct (run s1 ins1) as [[s2 os]|]; simpl; [|done].
    by destruct (run s2 ins2) as [[??]|].
Qed.

(** The invariant principle: an invariant that every defined step keeps, and
    under which every step on valid inputs is defined, holds along the whole
    run, and the run is defined and yields one output per input. *)
Lemma run_invariant (valid : In → Prop) (inv : St → Prop) :
  (∀ s i, inv s → valid i → ∃ s' o, step s i = Some (s', o) ∧ inv s') →
  ∀ ins s, inv s → Forall valid ins →
  ∃ s' os, run s ins = Some (s', os) ∧ inv s' ∧ length os = length ins.
Proof.
  intros Hstep. induction ins as [|i ins IH]; intros s Hs Hv; simpl.
  - by exists s, [].
  - inversion_clear Hv as [|?? Hi Hv'].
    destruct (Hstep s i Hs Hi) as (s1 & o & Hst & Hs1).
    destruct (IH s1 Hs1 Hv') as (s2 & os & Hrun & Hs2 & Hlen).
    exists s2, (o :: os). rewrite Hst. simpl. rewrite Hrun. simpl. auto with lia.
Qed.

(** A run along a known trajectory: when step [k] takes state [σ k] to
    [σ (k + 1)] with output [o k] on the [k]-th input, the run from [σ 0] ends
    in [σ (length ins)] with those outputs. *)
Lemma run_trace (σ : nat → St) (o : nat → Out) ins :
  (∀ k i, ins !! k = Some i → step (σ k) i = Some (σ (S k), o k)) →
  run (σ 0%nat) ins = Some (σ (length ins), o <$> seq 0 (length ins)).
Proof.
  revert σ o. induction ins as [|i ins IH]; intros σ o Hstep; [done|].
  simpl. rewrite (Hstep 0%nat i) by done. simpl.
  change (σ 1%nat) with ((σ ∘ S) 0%nat).
  rewrite (IH (σ ∘ S) (o ∘ S)) by (intros k j Hk; by apply (Hstep (S k))).
  simpl. by rewrite <- fmap_S_seq, <- list_fmap_compose.
Qed.

(** The indexed invariant principle: [R k] describes the state before the
    [k]-th input and [G k] the [k]-th output. *)
Lemma run_indexed (R : nat → St → Prop) (G : nat → Out → Prop) ins :
  (∀ k s i, ins !! k = Some i → R k s →
     ∃ s' o, step s i = Some (s', o) ∧ R (S k) s' ∧ G k o) →
  ∀ s, R 0%nat s →
  ∃ s' os, run s ins = Some (s', os) ∧ R (length ins) s' ∧
           length os = length ins ∧ ∀ k o, os !! k = Some o → G k o.
Proof.
  revert R G. induction ins as [|i ins IH]; intros R G Hstep s Hs; simpl.
  - exists s, []. by split_and!.
  - destruct (Hstep 0%nat s i eq_refl Hs) as (s1 & o & Hst & Hs1 & Ho).
    destruct (IH (R ∘ S) (G ∘ S)) with (s := s1)
      as (s2 & os & Hrun & Hs2 & Hlen & Hos); [|done|].
    { intros k s' j Hk. by apply (Hstep (S k)). }
    exists s2, (o :: os). rewrite Hst. simpl. rewrite Hrun. simpl.
    split_and!; [done|done|by f_equal|]. intros [|k] o'; simpl; [naive_solver|].
    apply Hos.
Qed.

(** Runs from related states: when the handler takes states related by [R]
    to related states with equal outputs, so does every run. *)
Lemma run_proper (R : relation St) (valid : In → Prop) :
  (∀ s1 s2 i, R s1 s2 → valid i →
     option_Forall2 (prod_relation R (=)) (step s1 i) (step s2 i)) →
  ∀ ins s1 s2, R s1 s2 → Forall valid ins →
  option_Forall2 (prod_relation R (=)) (run s1 ins) (run s2 ins).
Proof.
  intros Hstep. induction ins as [|i ins IH]; intros s1 s2 Hs Hv; simpl.
  { by constructor. }
  inversion_clear Hv as [|?? Hi Hv'].
  destruct (Hstep s1 s2 i Hs Hi) as [[t1 o1] [t2 o2] [Ht Ho]|]; simpl in *; [|constructor].
  destruct (IH t1 t2 Ht Hv') as [[u1 os1] [u2 os2] [Hu Hos]|]; simpl in *;
    constructor. split; simpl; [done|congruence].
Qed.

Lemma reachable_invariant (valid : In → Prop) (inv : St → Prop) init :
  inv init →
  (∀ s i s' o, inv s → valid i → step s i = Some (s', o) → inv s') →
  ∀ s, reachable valid init s → inv s.
Proof. intros Hinit Hstep s Hr. induction Hr; eauto. Qed.

Lemma run_reachable (valid : In → Prop) init ins s os :
  Forall valid ins → run init ins = Some (s, os) → reachable valid init s.
Proof.
  intros Hv. assert (Hgen : ∀ s0, reachable valid init s0 →
    run s0 ins = Some (s, os) → reachable valid init s); [|by apply Hgen; constructor].
  clear - Hv. revert os. induction Hv as [|i ins Hi Hv IH]; intros os s0 Hr Hrun; simpl in *.
  - by simplify_eq.
  - destruct (step s0 i) as [[s1 o]|] eqn:Hs; simpl in *; [|done].
    destruct (run s1 ins) as [[s2 os']|] eqn:Hr'; simpl in *; [|done].
    simplify_eq. eapply IH; [|done]. by eapply reachable_step.
Qed.

End Driver.
