(* ===== verification/Machine.v ===== *)
(** * Machine: C integers at their width, and the [for] statement

    The handlers of [example.c] count with [int], [int_fast8_t],
    [int_fast16_t], [int_fast32_t] and [uint32_t].  The files of the modes
    model these variables as unbounded integers; this file has what is
    needed to show that nothing is lost by that: the range of a C integer
    type ([fits]), the increment at a width ([c_incr]: a signed increment
    past the largest value is undefined, an unsigned one wraps round), and
    the [for] statement as it is written, an index variable that is tested,
    used by the body and incremented ([c_for]).

    A [for] statement need not terminate, so [c_for] takes fuel, one unit
    per test of the condition, and has three outcomes: the loop ran out of
    fuel, it ran into undefined behaviour, or it finished in a state.  The
    theorems: a loop whose bound fits the type of its index finishes after
    one test more than the bound, and computes what [for_each] of [Prelude]
    computes over the index range ([c_for_terminates]); more fuel never
    changes an outcome ([c_for_fuel_mono]); and a loop whose bound does not
    fit the type of its index never finishes ([c_for_never_finishes]), so
    the hypothesis of the first theorem is not vacuous. *)

From S2P Require Import Prelude.

(** * Integer types *)

(** A C integer type: its signedness and its width in bits. *)
Record c_int := CInt {
  c_signed : bool;
  c_bits : Z;
}.

#[export] Instance c_int_eq_dec : EqDecision c_int.
Proof. solve_decision. Defined.

(** The integer types of [example.c].  [int] has 32 bits on the board; the
    [fast] types are taken at the least width the C standard allows them,
    and a value that fits a type fits every wider one ([fits_wider]). *)
Definition c_int_t : c_int := CInt true 32.
Definition int_fast8_t : c_int := CInt true 8.
Definition int_fast16_t : c_int := CInt true 16.
Definition int_fast32_t : c_int := CInt true 32.
Definition uint32_t : c_int := CInt false 32.

Definition int_min (t : c_int) : Z :=
  if c_signed t then - 2 ^ (c_bits t - 1) else 0.

Definition int_max (t : c_int) : Z :=
  if c_signed t then 2 ^ (c_bits t - 1) - 1 else 2 ^ c_bits t - 1.

(** A value that a variable of the type can hold. *)
Definition fits (t : c_int) (z : Z) : Prop := int_min t ≤ z ≤ int_max t.

#[export] Instance fits_dec t z : Decision (fits t z).
Proof. unfold fits. apply _. Defined.

(** The value stored by an assignment to an unsigned variable. *)
Definition wrap (t : c_int) (z : Z) : Z := z mod 2 ^ c_bits t.

(** [i++] at a type: undefined past the largest value of a signed type,
    wrapping round to zero at an unsigned one. *)
Definition c_incr (t : c_int) (i : Z) : option Z :=
  if c_signed t then (if decide (i < int_max t) then Some (i + 1) else None)
  else Some (wrap t (i + 1)).

(** [--i] at a type. *)
Definition c_decr (t : c_int) (i : Z) : option Z :=
  if c_signed t then (if decide (int_min t < i) then Some (i - 1) else None)
  else Some (wrap t (i - 1)).

(** [i += d] at a type. *)
Definition c_add (t : c_int) (i d : Z) : option Z :=
  if c_signed t then (if decide (fits t (i + d)) then Some (i + d) else None)
  else Some (wrap t (i + d)).

Lemma int_max_int : int_max c_int_t = 2147483647.
Proof. reflexivity. Qed.

Lemma int_max_fast32 : int_max int_fast32_t = 2147483647.
Proof. reflexivity. Qed.

Section Integers.
Implicit Types (t : c_int) (i z : Z).

Lemma fits_wider t t' z :
  c_signed t = c_signed t' → 0 < c_bits t ≤ c_bits t' → fits t z → fits t' z.
Proof.
  unfold fits, int_min, int_max. intros <- Hb.
  assert (2 ^ (c_bits t - 1) ≤ 2 ^ (c_bits t' - 1)) by (apply Z.pow_le_mono_r; lia).
  assert (2 ^ c_bits t ≤ 2 ^ c_bits t') by (apply Z.pow_le_mono_r; lia).
  destruct (c_signed t); lia.
Qed.

Lemma int_min_nonpos t : int_min t ≤ 0.
Proof.
  unfold int_min. destruct (c_signed t); [|done].
  pose proof (Z.pow_nonneg 2 (c_bits t - 1)). lia.
Qed.

Lemma wrap_fits t z : 0 ≤ c_bits t → c_signed t = false → fits t z → wrap t z = z.
Proof.
  unfold fits, wrap, int_min, int_max. intros Hb ->. intros. apply Z.mod_small. lia.
Qed.

Lemma wrap_range t z : 0 ≤ c_bits t → c_signed t = false → fits t (wrap t z).
Proof.
  unfold fits, wrap, int_min, int_max. intros Hb ->.
  pose proof (Z.mod_pos_bound z (2 ^ c_bits t)). lia.
Qed.

(** Inside the range the increment is the increment of the integers. *)
Lemma c_incr_fits t i :
  0 ≤ c_bits t → int_min t ≤ i < int_max t → c_incr t i = Some (i + 1).
Proof.
  unfold c_incr. intros Hb Hi. destruct (c_signed t) eqn:Hs.
  - by rewrite decide_True by lia.
  - rewrite wrap_fits; [done..|]. unfold fits. lia.
Qed.

Lemma c_decr_fits t i :
  0 ≤ c_bits t → int_min t < i ≤ int_max t → c_decr t i = Some (i - 1).
Proof.
  unfold c_decr. intros Hb Hi. destruct (c_signed t) eqn:Hs.
  - by rewrite decide_True by lia.
  - rewrite wrap_fits; [done..|]. unfold fits. lia.
Qed.

Lemma c_add_fits t i d : 0 ≤ c_bits t → fits t (i + d) → c_add t i d = Some (i + d).
Proof.
  unfold c_add. intros Hb Hi. destruct (c_signed t) eqn:Hs.
  - by rewrite decide_True.
  - by rewrite wrap_fits.
Qed.

(** Whatever the increment does, the index stays a value of its type. *)
Lemma c_incr_range t i i' :
  0 ≤ c_bits t → fits t i → c_incr t i = Some i' → fits t i'.
Proof.
  unfold c_incr. intros Hb Hi. destruct (c_signed t) eqn:Hs.
  - case_decide; [|done]. intros; simplify_eq. unfold fits in *. lia.
  - intros; simplify_eq. by apply wrap_range.
Qed.

End Integers.

(** * The [for] statement *)

(** How a loop ends. *)
Inductive outcome (St : Type) :=
  | out_of_fuel
  | undefined
  | finished (s : St).
Arguments out_of_fuel {St}.
Arguments undefined {St}.
Arguments finished {St} _.

#[export] Instance outcome_eq_dec `{EqDecision St} : EqDecision (outcome St).
Proof. solve_decision. Defined.

(** The outcome of a computation that needs no fuel. *)
Definition outcome_of {St : Type} (r : option St) : outcome St :=
  match r with Some s => finished s | None => undefined end.

Section For.
Context {St : Type}.

(** [for (...; i < n; i++) body] from the index [i] and the state [s], with
    an index of type [t].  The body sees the index as an array index; it is
    undefined when it leaves an array.  One unit of fuel pays for one test
    of the condition. *)
Fixpoint c_for (t : c_int) (n : Z) (body : St → nat → option St)
    (fuel : nat) (i : Z) (s : St) : outcome St :=
  match fuel with
  | O => out_of_fuel
  | S fuel' =>
      if decide (i < n) then
        match body s (Z.to_nat i) with
        | None => undefined
        | Some s' =>
            match c_incr t i with
            | None => undefined
            | Some i' => c_for t n body fuel' i' s'
            end
        end
      else finished s
  end.

Context (t : c_int) (n : Z) (body : St → nat → option St).
Implicit Types (fuel k : nat) (i : Z) (s : St).

(** From an index in range, [k] iterations away from the bound, the loop
    finishes with any fuel above [k] and is the loop over the index range. *)
Lemma c_for_seq k : ∀ fuel i s,
  0 ≤ c_bits t → 0 ≤ i → i + Z.of_nat k = n → n ≤ int_max t → (k < fuel)%nat →
  c_for t n body fuel i s = outcome_of (for_each body (seq (Z.to_nat i) k) s).
Proof.
  induction k as [|k IH]; intros [|fuel] i s Hb Hi Hk Hn Hf; try lia; simpl.
  - by rewrite decide_False by lia.
  - rewrite decide_True by lia. destruct (body s (Z.to_nat i)) as [s'|]; [|done].
    rewrite c_incr_fits by (done || (pose proof (int_min_nonpos t); lia)). simpl.
    rewrite IH by lia. by replace (Z.to_nat (i + 1)) with (S (Z.to_nat i)) by lia.
Qed.

(** Termination: a loop from 0 whose bound fits the type of its index
    finishes within one test more than the bound. *)
Lemma c_for_terminates fuel s :
  0 ≤ c_bits t → 0 ≤ n ≤ int_max t → (Z.to_nat n < fuel)%nat →
  c_for t n body fuel 0 s = outcome_of (for_each body (seq 0 (Z.to_nat n)) s).
Proof. intros. by rewrite (c_for_seq (Z.to_nat n)) by lia. Qed.

(** More fuel does not change the outcome of a loop that had enough. *)
Lemma c_for_fuel_mono fuel : ∀ fuel' i s,
  c_for t n body fuel i s ≠ out_of_fuel → (fuel ≤ fuel')%nat →
  c_for t n body fuel' i s = c_for t n body fuel i s.
Proof.
  induction fuel as [|fuel IH]; intros [|fuel'] i s Hr Hf; try done; try lia.
  simpl in *. case_decide; [|done].
  destruct (body s (Z.to_nat i)); [|done]. destruct (c_incr t i); [|done].
  apply IH; [done|lia].
Qed.

(** A bound that the index cannot reach: the loop never finishes.  With a
    signed index it runs into the undefined increment, with an unsigned one
    the index wraps round and the loop runs for ever. *)
Lemma c_for_never_finishes fuel : ∀ i s s',
  0 ≤ c_bits t → int_max t < n → fits t i →
  c_for t n body fuel i s ≠ finished s'.
Proof.
  induction fuel as [|fuel IH]; intros i s s' Hb Hn Hi; simpl; [done|].
  rewrite decide_True by (unfold fits in Hi; lia).
  destruct (body s (Z.to_nat i)); [|done].
  destruct (c_incr t i) as [i'|] eqn:E; [|done].
  apply IH; [done..|]. by eapply c_incr_range.
Qed.

(** With an unsigned index and a body that is always defined, such a loop
    uses up any fuel. *)
Lemma c_for_diverges fuel : ∀ i s,
  0 ≤ c_bits t → c_signed t = false → int_max t < n → fits t i →
  (∀ s k, is_Some (body s k)) →
  c_for t n body fuel i s = out_of_fuel.
Proof.
  induction fuel as [|fuel IH]; intros i s Hb Hs Hn Hi Hbody; simpl; [done|].
  rewrite decide_True by (unfold fits in Hi; lia).
  destruct (Hbody s (Z.to_nat i)) as [s' ->].
  unfold c_incr. rewrite Hs. apply IH; [done..|by apply wrap_range|done].
Qed.

End For.

(** * Loops as data *)

(** A [for] statement from 0: the type of its index, its bound and its
    body. *)
Record for_loop (St : Type) := ForLoop {
  loop_index : c_int;
  loop_bound : Z;
  loop_body : St → nat → option St;
}.
Arguments ForLoop {St} _ _ _.
Arguments loop_index {St} _.
Arguments loop_bound {St} _.
Arguments loop_body {St} _ _ _.

Section Loop.
Context {St : Type}.
Implicit Types (l : for_loop St) (s : St).

(** The statement, run with fuel. *)
Definition run_loop l (fuel : nat) s : outcome St :=
  c_for (loop_index l) (loop_bound l) (loop_body l) fuel 0 s.

(** What the files of the modes take the loop to be: the body over the
    index range, with unbounded indices. *)
Definition loop_ref l s : option St :=
  for_each (loop_body l) (seq 0 (Z.to_nat (loop_bound l))) s.

(** The bound of the loop is a value of the type of its index. *)
Definition loop_ok l : Prop :=
  0 ≤ c_bits (loop_index l) ∧ 0 ≤ loop_bound l ≤ int_max (loop_index l).

#[export] Instance loop_ok_dec l : Decision (loop_ok l).
Proof. unfold loop_ok. apply _. Defined.

Lemma run_loop_ref l fuel s :
  loop_ok l → (Z.to_nat (loop_bound l) < fuel)%nat →
  run_loop l fuel s = outcome_of (loop_ref l s).
Proof. intros [??] ?. by apply c_for_terminates. Qed.

End Loop.
