(* ===== verification/Scalar.v ===== *)
(** * Scalar: the arithmetic of the sample type

    Every sample, coefficient and frequency of [example.c] is a C [float].
    The model is parametric in the sample type: [Scalar] lists the operations
    the handlers use ([+], [-], [*], [/], unary minus, [<], the conversion of
    an integer, and the integer floor from which C's [round] is defined), and
    [ScalarLaws] states that they form an ordered field in which every
    element lies between two consecutive integers.  The handlers are written
    against [Scalar] alone; theorems that need arithmetic facts assume
    [ScalarLaws], and the canonical rationals [Qc] satisfy both, so the model
    runs and the laws are consistent.

    This file also carries the order lemmas the components share and the
    tactics [s_sign], [s_by] and [s_lin] that replace linear-arithmetic
    automation over the abstract field. *)

From Stdlib Require Import QArith Qcanon Qround Field.
From S2P Require Import Prelude.

(** * Operations *)

Class Scalar (A : Type) := {
  s0 : A;
  s1 : A;
  sadd : A → A → A;
  ssub : A → A → A;
  smul : A → A → A;
  sdiv : A → A → A;
  sopp : A → A;
  sinv : A → A;
  sltb : A → A → bool;
  sofZ : Z → A;
  sfloor : A → Z;
}.

#[global] Hint Mode Scalar ! : typeclass_instances.

Infix "+ₛ" := sadd (at level 50, left associativity).
Infix "-ₛ" := ssub (at level 50, left associativity).
Infix "*ₛ" := smul (at level 40, left associativity).
Infix "/ₛ" := sdiv (at level 40, left associativity).
Notation "-ₛ x" := (sopp x) (at level 35, right associativity).
Notation "x <ₛ y" := (sltb x y = true) (at level 70, no associativity).
Notation "x ≤ₛ y" := (sltb y x = false) (at level 70, no associativity).

Section Ops.
Context {A : Type} `{Scalar A}.

(** The remaining C comparisons, from [<]. *)
Definition sgtb (x y : A) : bool := sltb y x.
Definition sleb (x y : A) : bool := negb (sltb y x).
Definition sgeb (x y : A) : bool := negb (sltb x y).

(** [0.5f]. *)
Definition shalf : A := s1 /ₛ sofZ 2.

(** [fabsf]. *)
Definition sabs (x : A) : A := if sltb x s0 then -ₛ x else x.

(** C's [round]: to the nearest integer, halfway cases away from zero. *)
Definition sround (x : A) : A :=
  if sltb x s0 then -ₛ sofZ (sfloor (-ₛ x +ₛ shalf))
  else sofZ (sfloor (x +ₛ shalf)).

(** [x] is the image of an integer. *)
Definition is_int (x : A) : Prop := ∃ n : Z, x = sofZ n.

End Ops.

(** * Laws *)

Class ScalarLaws (A : Type) `{Scalar A} : Prop := {
  s_field : field_theory s0 s1 sadd smul ssub sopp sdiv sinv (@eq A);
  s_lt_irrefl (x : A) : sltb x x = false;
  s_lt_trans (x y z : A) : x <ₛ y → y <ₛ z → x <ₛ z;
  s_le_antisym (x y : A) : x ≤ₛ y → y ≤ₛ x → x = y;
  s_add_lt_l (x y z : A) : x <ₛ y → z +ₛ x <ₛ z +ₛ y;
  s_mul_pos (x y : A) : s0 <ₛ x → s0 <ₛ y → s0 <ₛ x *ₛ y;
  sofZ_1 : sofZ 1 = s1 :> A;
  sofZ_add (m n : Z) : sofZ (m + n) = sofZ m +ₛ sofZ n :> A;
  s_floor_spec (x : A) : sofZ (sfloor x) ≤ₛ x ∧ x <ₛ sofZ (sfloor x + 1);
}.

(** * The rationals *)

#[export] Instance Qc_scalar : Scalar Qc := {|
  s0 := 0%Qc;
  s1 := 1%Qc;
  sadd := Qcplus;
  ssub := Qcminus;
  smul := Qcmult;
  sdiv := Qcdiv;
  sopp := Qcopp;
  sinv := Qcinv;
  sltb x y := bool_decide (Qclt x y);
  sofZ := Qc_of_Z;
  sfloor x := Qfloor (this x);
|}.

(** A rational from a numerator and a denominator, for concrete inputs. *)
Definition qc (n : Z) (d : positive) : Qc := Q2Qc (Qmake n d).

Lemma Qc_of_Z_add (m n : Z) : Qc_of_Z (m + n) = Qcplus (Qc_of_Z m) (Qc_of_Z n).
Proof.
  apply Qc_is_canon. cbn [this Qc_of_Z Q2Qc Qcplus].
  rewrite !Qred_correct, inject_Z_plus. reflexivity.
Qed.

Lemma Qc_floor_spec (x : Qc) :
  ¬ Qclt x (Qc_of_Z (Qfloor (this x))) ∧ Qclt x (Qc_of_Z (Qfloor (this x) + 1)).
Proof.
  unfold Qclt, Qc_of_Z. cbn [this Q2Qc]. split.
  - apply Qle_not_lt, Qfloor_le.
  - apply Qlt_floor.
Qed.

#[export] Instance Qc_laws : ScalarLaws Qc.
Proof.
  split; simpl.
  - exact Qcft.
  - intros x. apply bool_decide_eq_false_2. intros Hx. by apply Qclt_not_eq in Hx.
  - intros x y z ?%bool_decide_eq_true_1 ?%bool_decide_eq_true_1.
    apply bool_decide_eq_true_2. by eapply Qclt_trans.
  - intros x y ?%bool_decide_eq_false_1 ?%bool_decide_eq_false_1.
    apply Qcle_antisym; by apply Qcnot_lt_le.
  - intros x y z ?%bool_decide_eq_true_1.
    apply bool_decide_eq_true_2. by apply Qcplus_lt_mono_l.
  - intros x y ?%bool_decide_eq_true_1 ?%bool_decide_eq_true_1.
    apply bool_decide_eq_true_2. by apply Qcmult_pos_pos.
  - apply Z2Qc_inj_1.
  - apply Qc_of_Z_add.
  - intros x. destruct (Qc_floor_spec x) as [H1 H2]. split.
    + by apply bool_decide_eq_false_2.
    + by apply bool_decide_eq_true_2.
Qed.

(** * Order lemmas *)

Section Order.
Context {A : Type} `{ScalarLaws A}.
Add Field scalar_order_field : s_field.
Implicit Types x y z p q : A.

Lemma sle_refl x : x ≤ₛ x.
Proof. apply s_lt_irrefl. Qed.

Lemma slt_irrefl x : ¬ x <ₛ x.
Proof. by rewrite s_lt_irrefl. Qed.

Lemma slt_le x y : x <ₛ y → x ≤ₛ y.
Proof.
  intros Hxy. destruct (sltb y x) eqn:Hyx; [|done].
  destruct (slt_irrefl x). by eapply s_lt_trans.
Qed.

Lemma sle_lt_or_eq x y : x ≤ₛ y → x <ₛ y ∨ x = y.
Proof.
  intros Hxy. destruct (sltb x y) eqn:Hlt; [by left|right].
  by apply s_le_antisym.
Qed.

Lemma sle_lt_trans x y z : x ≤ₛ y → y <ₛ z → x <ₛ z.
Proof. intros [Hxy| ->]%sle_lt_or_eq Hyz; [by eapply s_lt_trans|done]. Qed.

Lemma slt_le_trans x y z : x <ₛ y → y ≤ₛ z → x <ₛ z.
Proof. intros Hxy [Hyz| <-]%sle_lt_or_eq; [by eapply s_lt_trans|done]. Qed.

Lemma sle_trans x y z : x ≤ₛ y → y ≤ₛ z → x ≤ₛ z.
Proof.
  intros [Hxy| ->]%sle_lt_or_eq Hyz; [|done].
  apply slt_le. by eapply slt_le_trans.
Qed.

Lemma slt_not_le x y : x <ₛ y → ¬ y ≤ₛ x.
Proof. intros Hxy Hyx. congruence. Qed.

Lemma s_add_lt_r x y z : x <ₛ y → x +ₛ z <ₛ y +ₛ z.
Proof.
  intros Hxy. replace (x +ₛ z) with (z +ₛ x) by ring.
  replace (y +ₛ z) with (z +ₛ y) by ring. by apply s_add_lt_l.
Qed.

Lemma s_add_le_l x y z : x ≤ₛ y → z +ₛ x ≤ₛ z +ₛ y.
Proof.
  intros [Hxy| ->]%sle_lt_or_eq; [|apply sle_refl].
  by apply slt_le, s_add_lt_l.
Qed.

(** An order fact is the sign of a difference: [x < y] iff [0 < y - x]. *)
Lemma slt_sub_pos x y : x <ₛ y → s0 <ₛ y -ₛ x.
Proof.
  intros Hxy. apply (s_add_lt_r _ _ (-ₛ x)) in Hxy.
  by replace (x +ₛ -ₛ x) with (s0 : A) in Hxy by ring;
     replace (y +ₛ -ₛ x) with (y -ₛ x) in Hxy by ring.
Qed.

Lemma sle_sub_nonneg x y : x ≤ₛ y → s0 ≤ₛ y -ₛ x.
Proof.
  intros [Hxy| ->]%sle_lt_or_eq; [by apply slt_le, slt_sub_pos|].
  replace (y -ₛ y) with (s0 : A) by ring. apply sle_refl.
Qed.

Lemma slt_by p x y : s0 <ₛ p → y = x +ₛ p → x <ₛ y.
Proof.
  intros Hp ->. apply (s_add_lt_l _ _ x) in Hp.
  by replace (x +ₛ s0) with x in Hp by ring.
Qed.

Lemma sle_by p x y : s0 ≤ₛ p → y = x +ₛ p → x ≤ₛ y.
Proof.
  intros Hp ->. apply (s_add_le_l _ _ x) in Hp.
  by replace (x +ₛ s0) with x in Hp by ring.
Qed.

Lemma spos_add p q : s0 <ₛ p → s0 <ₛ q → s0 <ₛ p +ₛ q.
Proof.
  intros Hp Hq. eapply s_lt_trans; [exact Hp|].
  apply (slt_by q); [done|ring].
Qed.

Lemma spos_nonneg_add p q : s0 <ₛ p → s0 ≤ₛ q → s0 <ₛ p +ₛ q.
Proof.
  intros Hp Hq. eapply slt_le_trans; [exact Hp|].
  apply (sle_by q); [done|ring].
Qed.

Lemma snonneg_pos_add p q : s0 ≤ₛ p → s0 <ₛ q → s0 <ₛ p +ₛ q.
Proof. intros Hp Hq. replace (p +ₛ q) with (q +ₛ p) by ring. by apply spos_nonneg_add. Qed.

Lemma snonneg_add p q : s0 ≤ₛ p → s0 ≤ₛ q → s0 ≤ₛ p +ₛ q.
Proof.
  intros Hp Hq. eapply sle_trans; [exact Hp|].
  apply (sle_by q); [done|ring].
Qed.

Lemma slt_opp x y : x <ₛ y → -ₛ y <ₛ -ₛ x.
Proof. intros Hxy%slt_sub_pos. apply (slt_by (y -ₛ x)); [done|ring]. Qed.

Lemma sle_opp x y : x ≤ₛ y → -ₛ y ≤ₛ -ₛ x.
Proof. intros Hxy%sle_sub_nonneg. apply (sle_by (y -ₛ x)); [done|ring]. Qed.

Lemma s_mul_nonneg x y : s0 ≤ₛ x → s0 ≤ₛ y → s0 ≤ₛ x *ₛ y.
Proof.
  intros [Hx| <-]%sle_lt_or_eq [Hy| <-]%sle_lt_or_eq.
  - by apply slt_le, s_mul_pos.
  - replace (x *ₛ s0) with (s0 : A) by ring. apply sle_refl.
  - replace (s0 *ₛ y) with (s0 : A) by ring. apply sle_refl.
  - replace (s0 *ₛ s0) with (s0 : A) by ring. apply sle_refl.
Qed.

Lemma s_mul_lt_l x y z : s0 <ₛ z → x <ₛ y → z *ₛ x <ₛ z *ₛ y.
Proof.
  intros Hz Hxy%slt_sub_pos. apply (slt_by (z *ₛ (y -ₛ x))); [|ring].
  by apply s_mul_pos.
Qed.

Lemma s_mul_le_l x y z : s0 ≤ₛ z → x ≤ₛ y → z *ₛ x ≤ₛ z *ₛ y.
Proof.
  intros Hz Hxy%sle_sub_nonneg. apply (sle_by (z *ₛ (y -ₛ x))); [|ring].
  by apply s_mul_nonneg.
Qed.

Lemma s_lt_0_1 : (s0 : A) <ₛ s1.
Proof.
  destruct (sltb (s0 : A) s1) eqn:H01; [done|].
  apply sle_lt_or_eq in H01 as [H10|H10].
  - pose proof (slt_opp _ _ H10) as Hn.
    replace (-ₛ s0) with (s0 : A) in Hn by ring.
    pose proof (s_mul_pos _ _ Hn Hn) as Hsq.
    replace (-ₛ s1 *ₛ -ₛ s1) with (s1 : A) in Hsq by ring.
    destruct (slt_irrefl (s0 : A)). by eapply s_lt_trans.
  - by destruct (F_1_neq_0 s_field).
Qed.

Lemma s_inv_pos x : s0 <ₛ x → s0 <ₛ sinv x.
Proof.
  intros Hx. assert (Hx0 : x ≠ s0) by (intros ->; by apply slt_irrefl in Hx).
  destruct (sltb s0 (sinv x)) eqn:Hi; [done|].
  apply sle_opp in Hi. replace (-ₛ s0) with (s0 : A) in Hi by ring.
  pose proof (s_mul_nonneg _ _ Hi (slt_le _ _ Hx)) as Hm.
  replace (-ₛ sinv x *ₛ x) with (-ₛ (sinv x *ₛ x)) in Hm by ring.
  rewrite (Finv_l s_field) in Hm by done.
  apply sle_opp in Hm. replace (-ₛ -ₛ s1) with (s1 : A) in Hm by ring.
  replace (-ₛ s0) with (s0 : A) in Hm by ring.
  by rewrite s_lt_0_1 in Hm.
Qed.

Lemma s_div_pos x y : s0 <ₛ x → s0 <ₛ y → s0 <ₛ x /ₛ y.
Proof.
  intros Hx Hy. rewrite (Fdiv_def s_field). by apply s_mul_pos, s_inv_pos.
Qed.

End Order.

(** * Linear order automation

    Over an abstract ordered field there is no [lra].  A linear consequence
    [x < y] of hypotheses [a_i < b_i] (or [≤]) is proved by exhibiting
    [y - x] as the sum of the differences [b_i - a_i]: [s_sign] shows that
    the sum has the right sign and [ring] that it is the difference.
    [s_by p] takes the sum [p] from the user; [s_lin] searches for it among
    the hypotheses (up to three of them). *)

(** [s_sign] proves [0 < p] or [0 ≤ p] for a sum [p] of differences, products
    and inverses whose signs are hypotheses. *)
Ltac s_sign :=
  lazymatch goal with
  | |- sltb s0 (sadd _ _) = true =>
      first [ apply spos_add; s_sign | apply spos_nonneg_add; s_sign
            | apply snonneg_pos_add; s_sign ]
  | |- sltb (sadd _ _) s0 = false => apply snonneg_add; s_sign
  | |- sltb s0 (ssub _ _) = true =>
      first [ assumption | apply slt_sub_pos; assumption ]
  | |- sltb (ssub _ _) s0 = false =>
      first [ assumption | apply sle_sub_nonneg; first [assumption | apply sle_refl | apply slt_le; assumption]
            | apply slt_le; first [assumption | apply slt_sub_pos; assumption] ]
  | |- sltb s0 (smul _ _) = true => first [assumption | apply s_mul_pos; s_sign]
  | |- sltb (smul _ _) s0 = false =>
      first [assumption | apply s_mul_nonneg; s_sign | apply slt_le; s_sign]
  | |- sltb s0 (sinv _) = true => first [assumption | apply s_inv_pos; s_sign]
  | |- sltb s0 (sdiv _ _) = true => first [assumption | apply s_div_pos; s_sign]
  | |- sltb s0 s1 = true => apply s_lt_0_1
  | |- sltb _ _ = true => assumption
  | |- sltb _ _ = false => first [assumption | apply sle_refl | apply slt_le; s_sign]
  end.

Ltac s_by p :=
  lazymatch goal with
  | |- sltb _ _ = true => apply (slt_by p); [s_sign | ring]
  | |- sltb _ _ = false => apply (sle_by p); [s_sign | ring]
  end.

Ltac s_diff H :=
  lazymatch type of H with
  | sltb ?a ?b = true => constr:(ssub b a)
  | sltb ?b ?a = false => constr:(ssub b a)
  end.

Ltac s_lin :=
  first
  [ assumption
  | apply sle_refl
  | apply slt_le; assumption
  | match goal with
    | H1 : sltb _ _ = _ |- _ => let d1 := s_diff H1 in s_by d1
    end
  | match goal with
    | H1 : sltb _ _ = _, H2 : sltb _ _ = _ |- _ =>
        let d1 := s_diff H1 in let d2 := s_diff H2 in s_by (sadd d1 d2)
    end
  | match goal with
    | H1 : sltb _ _ = _, H2 : sltb _ _ = _, H3 : sltb _ _ = _ |- _ =>
        let d1 := s_diff H1 in let d2 := s_diff H2 in let d3 := s_diff H3 in
        s_by (sadd (sadd d1 d2) d3)
    end ].

(** * Squares *)

Section Squares.
Context {A : Type} `{ScalarLaws A}.
Add Field scalar_square_field : s_field.
Implicit Types x y : A.

Lemma s_square_zero x : x *ₛ x ≤ₛ s0 → x = s0.
Proof.
  intros Ha. apply s_le_antisym.
  - destruct (sltb s0 x) eqn:Hp; [|done].
    pose proof (s_mul_pos _ _ Hp Hp). congruence.
  - destruct (sltb x s0) eqn:Hn; [|done].
    apply slt_opp in Hn. replace (-ₛ s0) with (s0 : A) in Hn by ring.
    pose proof (s_mul_pos _ _ Hn Hn) as Hsq.
    replace (-ₛ x *ₛ -ₛ x) with (x *ₛ x) in Hsq by ring. congruence.
Qed.

Lemma s_square_nonneg x : s0 ≤ₛ x *ₛ x.
Proof.
  destruct (sltb (x *ₛ x) s0) eqn:Ha; [|done].
  rewrite (s_square_zero x) in Ha by (by apply slt_le).
  replace (s0 *ₛ s0) with (s0 : A) in Ha by ring. by apply slt_irrefl in Ha.
Qed.

Lemma s_square_pos x : x ≠ s0 → s0 <ₛ x *ₛ x.
Proof.
  intros Ha. destruct (sltb s0 (x *ₛ x)) eqn:Hsq; [done|].
  destruct Ha. by apply s_square_zero.
Qed.

Lemma s_double_lt x y : x +ₛ x <ₛ y +ₛ y → x <ₛ y.
Proof.
  intros H2. destruct (sltb x y) eqn:Hxy; [done|].
  assert (y +ₛ y ≤ₛ x +ₛ x) by (s_by ((x -ₛ y) +ₛ (x -ₛ y))). congruence.
Qed.

End Squares.

(** * Integers inside the field, floor and rounding *)

Section Integers.
Context {A : Type} `{ScalarLaws A}.
Add Field scalar_int_field : s_field.
Implicit Types x y : A.
Implicit Types m n : Z.

Lemma sofZ_0 : sofZ 0 = s0 :> A.
Proof.
  pose proof (sofZ_add (A:=A) 0 0) as E. change (0 + 0) with 0 in E.
  transitivity ((sofZ 0 +ₛ sofZ 0) -ₛ sofZ 0 : A); [ring|]. rewrite <- E. ring.
Qed.

Lemma sofZ_opp n : sofZ (- n) = -ₛ sofZ n :> A.
Proof.
  pose proof (sofZ_add (A:=A) n (- n)) as E.
  rewrite Z.add_opp_diag_r, sofZ_0 in E.
  transitivity ((sofZ n +ₛ sofZ (- n)) -ₛ sofZ n : A); [ring|]. rewrite <- E. ring.
Qed.

Lemma sofZ_sub m n : sofZ (m - n) = sofZ m -ₛ sofZ n :> A.
Proof.
  rewrite <- Z.add_opp_r, sofZ_add, sofZ_opp. ring.
Qed.

Lemma sofZ_succ n : sofZ (n + 1) = sofZ n +ₛ s1 :> A.
Proof. by rewrite sofZ_add, sofZ_1. Qed.

Lemma sofZ_2 : sofZ 2 = s1 +ₛ s1 :> A.
Proof. change 2 with (1 + 1). by rewrite sofZ_add, sofZ_1. Qed.

Lemma sofZ_pos n : 0 < n → (s0 : A) <ₛ sofZ n.
Proof.
  intros Hn. replace n with (Z.of_nat (Z.to_nat (n - 1)) + 1) by lia.
  induction (Z.to_nat (n - 1)) as [|k IH].
  - change (Z.of_nat 0 + 1) with 1. rewrite sofZ_1. apply s_lt_0_1.
  - rewrite Nat2Z.inj_succ, <- Z.add_1_r, sofZ_succ.
    apply spos_add; [exact IH|apply s_lt_0_1].
Qed.

Lemma sofZ_lt m n : m < n → (sofZ m : A) <ₛ sofZ n.
Proof.
  intros Hmn. apply (slt_by (sofZ (n - m))); [apply sofZ_pos; lia|].
  rewrite sofZ_sub. ring.
Qed.

Lemma sofZ_le m n : m ≤ n → (sofZ m : A) ≤ₛ sofZ n.
Proof.
  intros Hmn. destruct (decide (m = n)) as [->|]; [apply sle_refl|].
  apply slt_le, sofZ_lt. lia.
Qed.

Lemma sofZ_lt_inv m n : (sofZ m : A) <ₛ sofZ n → m < n.
Proof.
  intros Hlt. destruct (decide (m < n)) as [|Hge]; [done|].
  assert (n ≤ m) as Hle%sofZ_le by lia. congruence.
Qed.

Lemma sofZ_le_inv m n : (sofZ m : A) ≤ₛ sofZ n → m ≤ n.
Proof.
  intros Hle. destruct (decide (m ≤ n)) as [|Hgt]; [done|].
  assert (n < m) as Hlt%sofZ_lt by lia. congruence.
Qed.

Lemma sofZ_inj m n : sofZ m = sofZ n :> A → m = n.
Proof.
  intros E. apply Z.le_antisymm; apply sofZ_le_inv; rewrite E; apply sle_refl.
Qed.

Lemma sofZ_mul m n : sofZ (m * n) = sofZ m *ₛ sofZ n :> A.
Proof.
  induction m as [|m IH|m IH] using Z.peano_ind.
  - rewrite Z.mul_0_l, sofZ_0. ring.
  - rewrite Z.mul_succ_l, sofZ_add, IH, <- Z.add_1_r, sofZ_succ. ring.
  - rewrite Z.mul_pred_l, sofZ_sub, IH, <- Z.sub_1_r, sofZ_sub, sofZ_1. ring.
Qed.

Lemma sofZ_neq_0 n : n ≠ 0 → (sofZ n : A) ≠ s0.
Proof. intros Hn E. rewrite <- sofZ_0 in E. by apply sofZ_inj in E. Qed.

(** ** Floor *)

Lemma sfloor_unique n x : sofZ n ≤ₛ x → x <ₛ sofZ (n + 1) → sfloor x = n.
Proof.
  intros Hlo Hhi. destruct (s_floor_spec x) as [Flo Fhi].
  assert (sfloor x < n + 1).
  { apply sofZ_lt_inv. by eapply sle_lt_trans. }
  assert (n < sfloor x + 1).
  { apply sofZ_lt_inv. by eapply sle_lt_trans. }
  lia.
Qed.

Lemma sfloor_range a b x : sofZ a ≤ₛ x → x <ₛ sofZ b → a ≤ sfloor x < b.
Proof.
  intros Hlo Hhi. destruct (s_floor_spec x) as [Flo Fhi]. split.
  - assert (a < sfloor x + 1); [|lia].
    apply sofZ_lt_inv. by eapply sle_lt_trans.
  - apply sofZ_lt_inv. by eapply sle_lt_trans.
Qed.

Lemma sfloor_sofZ n : sfloor (sofZ n : A) = n.
Proof. apply sfloor_unique; [apply sle_refl|apply sofZ_lt; lia]. Qed.

(** ** One half *)

Lemma shalf_double : shalf +ₛ shalf = s1 :> A.
Proof.
  unfold shalf. rewrite (Fdiv_def s_field).
  transitivity (sinv (sofZ 2) *ₛ (s1 +ₛ s1) : A); [ring|].
  rewrite <- sofZ_2. apply (Finv_l s_field), sofZ_neq_0. lia.
Qed.

Lemma shalf_pos : (s0 : A) <ₛ shalf.
Proof. unfold shalf. apply s_div_pos; [apply s_lt_0_1|apply sofZ_pos; lia]. Qed.

Lemma shalf_lt_1 : (shalf : A) <ₛ s1.
Proof. pose proof shalf_pos. apply (slt_by shalf); [done|]. by rewrite shalf_double. Qed.

Lemma sfloor_add_half n : sfloor (sofZ n +ₛ shalf : A) = n.
Proof.
  pose proof shalf_pos as Hp. pose proof shalf_lt_1 as Hl.
  apply sfloor_unique.
  - apply (sle_by shalf); [by apply slt_le|ring].
  - rewrite sofZ_succ. apply (slt_by (s1 -ₛ shalf)); [s_sign|ring].
Qed.

(** ** Absolute value *)

Lemma sabs_nonneg_eq x : s0 ≤ₛ x → sabs x = x.
Proof. intros Hx. unfold sabs. by rewrite Hx. Qed.

Lemma sabs_neg_eq x : x <ₛ s0 → sabs x = -ₛ x.
Proof. intros Hx. unfold sabs. by rewrite Hx. Qed.

Lemma sabs_nonneg x : s0 ≤ₛ sabs x.
Proof.
  unfold sabs. destruct (sltb x s0) eqn:Hx; [|done].
  apply slt_le. apply slt_opp in Hx. by replace (-ₛ s0) with (s0 : A) in Hx by ring.
Qed.

Lemma sabs_0 : sabs (s0 : A) = s0.
Proof. apply sabs_nonneg_eq, sle_refl. Qed.

Lemma sabs_opp x : sabs (-ₛ x) = sabs x.
Proof.
  unfold sabs. destruct (sltb x s0) eqn:Hx, (sltb (-ₛ x) s0) eqn:Hn; try ring.
  - apply slt_opp in Hn. replace (-ₛ s0) with (s0 : A) in Hn by ring.
    replace (-ₛ -ₛ x) with x in Hn by ring.
    destruct (slt_irrefl x). by eapply s_lt_trans.
  - apply sle_opp in Hn. replace (-ₛ s0) with (s0 : A) in Hn by ring.
    replace (-ₛ -ₛ x) with x in Hn by ring.
    rewrite (s_le_antisym x s0) by done. ring.
Qed.

Lemma sabs_double x : sabs (x +ₛ x) = sabs x +ₛ sabs x.
Proof.
  unfold sabs. destruct (sltb x s0) eqn:Hx.
  - assert (x +ₛ x <ₛ s0) as -> by (s_by ((s0 -ₛ x) +ₛ (s0 -ₛ x))). ring.
  - assert (s0 ≤ₛ x +ₛ x) as -> by (s_by ((x -ₛ s0) +ₛ (x -ₛ s0))). done.
Qed.

Lemma sabs_mul_pos c x : s0 ≤ₛ c → sabs (c *ₛ x) = c *ₛ sabs x.
Proof.
  intros Hc. unfold sabs. destruct (sltb x s0) eqn:Hx.
  - destruct (sltb (c *ₛ x) s0) eqn:Hcx; [ring|].
    apply sle_lt_or_eq in Hc as [Hc| <-]; [|ring].
    pose proof (s_mul_lt_l _ _ _ Hc Hx) as Hlt.
    replace (c *ₛ s0) with (s0 : A) in Hlt by ring. congruence.
  - destruct (sltb (c *ₛ x) s0) eqn:Hcx; [|done].
    pose proof (s_mul_nonneg _ _ Hc Hx). congruence.
Qed.

(** ** C's [round] *)

Lemma sround_is_int x : is_int (sround x).
Proof.
  unfold sround. destruct (sltb x s0); eexists; [|done].
  symmetry. apply sofZ_opp.
Qed.

Lemma sround_sofZ n : sround (sofZ n : A) = sofZ n.
Proof.
  unfold sround. destruct (sltb (sofZ n) s0) eqn:Hn.
  - rewrite <- (sofZ_opp n), sfloor_add_half, sofZ_opp. ring.
  - by rewrite sfloor_add_half.
Qed.

Lemma sround_int x : is_int x → sround x = x.
Proof. intros [n ->]. apply sround_sofZ. Qed.

(** A sample of magnitude at most one rounds to -1, 0 or 1. *)
Lemma sround_unit x :
  -ₛ s1 ≤ₛ x → x ≤ₛ s1 → sround x = -ₛ s1 ∨ sround x = s0 ∨ sround x = s1.
Proof.
  intros Hlo Hhi. pose proof shalf_pos as Hp. pose proof shalf_lt_1 as Hl.
  pose proof s_lt_0_1 as H01. unfold sround.
  destruct (sltb x s0) eqn:Hx.
  - assert (0 ≤ sfloor (-ₛ x +ₛ shalf) < 2) as Hf.
    { apply sfloor_range.
      - rewrite sofZ_0. s_by ((s0 -ₛ x) +ₛ (shalf -ₛ s0)).
      - rewrite sofZ_2. s_by ((x -ₛ -ₛ s1) +ₛ (s1 -ₛ shalf)). }
    assert (sfloor (-ₛ x +ₛ shalf) = 0 ∨ sfloor (-ₛ x +ₛ shalf) = 1) as [-> | ->] by lia.
    + right; left. rewrite sofZ_0. ring.
    + left. by rewrite sofZ_1.
  - assert (0 ≤ sfloor (x +ₛ shalf) < 2) as Hf.
    { apply sfloor_range.
      - rewrite sofZ_0. s_by ((x -ₛ s0) +ₛ (shalf -ₛ s0)).
      - rewrite sofZ_2. s_by ((s1 -ₛ x) +ₛ (s1 -ₛ shalf)). }
    assert (sfloor (x +ₛ shalf) = 0 ∨ sfloor (x +ₛ shalf) = 1) as [-> | ->] by lia.
    + right; left. apply sofZ_0.
    + right; right. apply sofZ_1.
Qed.

End Integers.

#[export] Hint Resolve sofZ_pos sofZ_lt sofZ_le shalf_pos shalf_lt_1 sabs_nonneg
  sround_is_int : dsp.
