(* ===== verification/Argmax.v ===== *)
(** * Argmax: the running maximum of a scan

    Two loops of [example.c] scan a sequence of candidates and keep the best
    value seen so far together with the candidate that gave it, replacing
    the pair only when a candidate is strictly better: the symbol detector
    of the modem and the peak search of the radar.  This file has the loop
    ([scan_max]) over an arbitrary type of candidates and what it computes:
    the first candidate of maximal value. *)

From S2P Require Import Prelude Scalar.

Section Scan.
Context {A : Type} {SA : Scalar A} {K : Type}.

(** One comparison: [acc] is the best value so far (or [None] for a start
    below every value) and the candidate that gave it. *)
Definition max_update (acc : option A * K) (k : K) (v : A) : option A * K :=
  match acc.1 with
  | Some m => if sgtb v m then (Some v, k) else acc
  | None => (Some v, k)
  end.

(** The scan of the candidates [keys] with values [f], from [acc]. *)
Definition scan_max (f : K → A) (keys : list K) (acc : option A * K) :
    option A * K :=
  foldl (λ acc k, max_update acc k (f k)) acc keys.

(** [k] is the first element of [keys] with the largest value of [f]. *)
Definition first_max (f : K → A) (keys : list K) (k : K) : Prop :=
  ∃ l1 l2, keys = l1 ++ k :: l2 ∧
    Forall (λ t, f t <ₛ f k) l1 ∧ Forall (λ t, f t ≤ₛ f k) l2.

(** What a scan of [keys] from [acc] has computed: either no candidate beat
    the initial value, or the result is the first maximum of the candidates
    and beats it. *)
Definition loop_result (f : K → A) (acc : option A * K) (keys : list K)
    (res : option A * K) : Prop :=
  (res = acc ∧
   match acc.1 with
   | Some m => Forall (λ t, f t ≤ₛ m) keys
   | None => keys = []
   end) ∨
  (∃ k, res = (Some (f k), k) ∧ first_max f keys k ∧
        ∀ m, acc.1 = Some m → m <ₛ f k).

End Scan.

Section ScanLaws.
Context {A : Type} {SA : Scalar A} {SL : ScalarLaws A} {K : Type}.
Implicit Types (f : K → A) (keys : list K) (acc res : option A * K) (k t : K).

Lemma first_max_cons_lt f t keys k :
  f t <ₛ f k → first_max f keys k → first_max f (t :: keys) k.
Proof.
  intros Ht (l1 & l2 & -> & H1 & H2). exists (t :: l1), l2.
  split_and!; [done| |done]. by constructor.
Qed.

Lemma first_max_head f t keys :
  Forall (λ u, f u ≤ₛ f t) keys → first_max f (t :: keys) t.
Proof. intros Hs. by exists [], keys. Qed.

Lemma first_max_elem_of f keys k : first_max f keys k → k ∈ keys.
Proof. intros (l1 & l2 & -> & _). apply elem_of_app. right. by left. Qed.

(** The first maximum bounds every candidate. *)
Lemma first_max_bound f keys k t : first_max f keys k → t ∈ keys → f t ≤ₛ f k.
Proof.
  intros (l1 & l2 & -> & H1 & H2). rewrite Forall_forall in H1, H2.
  intros [Hin | [->|Hin]%elem_of_cons]%elem_of_app.
  - by apply slt_le, H1.
  - apply sle_refl.
  - by apply H2.
Qed.

(** One comparison of the loop. *)
Lemma max_update_cases acc t (v : A) :
  (max_update acc t v = (Some v, t) ∧ ∀ m, acc.1 = Some m → m <ₛ v) ∨
  (max_update acc t v = acc ∧ ∃ m, acc.1 = Some m ∧ v ≤ₛ m).
Proof.
  unfold max_update, sgtb. destruct acc as [[m|] b]; simpl.
  - destruct (sltb m v) eqn:Hmv; [left|right].
    + split; [done|]. by intros ? [= <-].
    + split; [done|]. by exists m.
  - left. by split.
Qed.

(** The loop invariant. *)
Lemma scan_max_spec f keys : ∀ acc, loop_result f acc keys (scan_max f keys acc).
Proof.
  induction keys as [|t keys IH]; intros acc.
  { left. split; [done|]. by destruct acc.1. }
  unfold scan_max. simpl. fold (scan_max f keys (max_update acc t (f t))).
  specialize (IH (max_update acc t (f t))).
  destruct (max_update_cases acc t (f t)) as [[Hu Hacc] | [Hu (m & Hm & Hle)]];
    rewrite Hu in *;
    destruct IH as [[-> Hall] | (k & -> & Hfm & Hk)]; simpl in *.
  - right. exists t. split_and!; [done|by apply first_max_head|done].
  - right. exists k. split_and!; [done| |].
    + apply first_max_cons_lt; [|done]. by apply Hk.
    + intros m Hm. eapply s_lt_trans; [by apply Hacc|by apply Hk].
  - left. split; [done|]. rewrite Hm in *. by constructor.
  - right. exists k. split_and!; [done| |done].
    apply first_max_cons_lt; [|done]. eapply sle_lt_trans; [done|by apply Hk].
Qed.

(** A scan that starts below every value finds the first maximum. *)
Lemma scan_max_first f keys (k0 : K) :
  keys ≠ [] →
  ∃ k, scan_max f keys (None, k0) = (Some (f k), k) ∧ first_max f keys k.
Proof.
  intros Hne. destruct (scan_max_spec f keys (None, k0))
    as [[_ ?] | (k & -> & Hfm & _)]; [done|by exists k].
Qed.

(** A strict maximum is the first maximum. *)
Lemma first_max_strict `{!EqDecision K} f keys k k' :
  first_max f keys k' → k ∈ keys →
  (∀ t, t ∈ keys → t ≠ k → f t <ₛ f k) → k' = k.
Proof.
  intros Hfm Hin Hstrict.
  destruct (decide (k' = k)) as [|Hne]; [done|]. exfalso.
  eapply slt_not_le; [|by eapply (first_max_bound f keys k' k)].
  apply Hstrict; [|done]. by eapply first_max_elem_of.
Qed.

End ScanLaws.

(** * The maximum of an array and its index *)

Section Indexed.
Context {A : Type} {SA : Scalar A} {SL : ScalarLaws A}.
Implicit Types (l c : list A) (i j : nat) (m x : A).

(** The samples of an array with their indices, from index [i]. *)
Definition indexed i l : list (nat * A) := zip (seq i (length l)) l.

Lemma indexed_cons i x l : indexed i (x :: l) = (i, x) :: indexed (S i) l.
Proof. done. Qed.

Lemma indexed_snd i l : (indexed i l).*2 = l.
Proof. apply snd_zip. by rewrite length_seq. Qed.

Lemma indexed_fst i l : (indexed i l).*1 = seq i (length l).
Proof. apply fst_zip. by rewrite length_seq. Qed.

(** The first maximum of the indexed samples splits the array. *)
Lemma first_max_indexed i l (k : nat * A) :
  first_max snd (indexed i l) k →
  ∃ c1 c2, l = c1 ++ k.2 :: c2 ∧ k.1 = (i + length c1)%nat ∧
    Forall (λ x, x <ₛ k.2) c1 ∧ Forall (λ x, x ≤ₛ k.2) c2.
Proof.
  intros (l1 & l2 & Heq & H1 & H2). exists (l1.*2), (l2.*2).
  split_and!; [| |by apply Forall_fmap..].
  - by rewrite <- (indexed_snd i l), Heq, fmap_app, fmap_cons.
  - pose proof (indexed_fst i l) as Hf. rewrite Heq, fmap_app, fmap_cons in Hf.
    assert (seq i (length l) !! length l1 = Some k.1) as [-> _]%lookup_seq.
    { rewrite <- Hf, <- (length_fmap fst l1). apply list_lookup_middle. done. }
    by rewrite length_fmap.
Qed.

(** The scan of an array from the pair [(j, m)]: either no sample exceeds
    [m], or the result is the first largest sample, which exceeds [m], with
    its index. *)
Lemma scan_indexed_spec i l j m :
  let r := scan_max snd (indexed i l) (Some m, (j, m)) in
  (r = (Some m, (j, m)) ∧ Forall (λ x, x ≤ₛ m) l) ∨
  (∃ c1 x c2, l = c1 ++ x :: c2 ∧ r = (Some x, ((i + length c1)%nat, x)) ∧
     m <ₛ x ∧ Forall (λ y, y <ₛ x) c1 ∧ Forall (λ y, y ≤ₛ x) c2).
Proof.
  simpl. destruct (scan_max_spec snd (indexed i l) (Some m, (j, m)))
    as [[-> Hall] | ([k x] & -> & Hfm & Hk)]; simpl in *.
  - left. split; [done|]. rewrite <- (indexed_snd i l). by apply Forall_fmap.
  - right. destruct (first_max_indexed i l _ Hfm) as (c1 & c2 & -> & Hk1 & H1 & H2).
    simpl in *. subst k. exists c1, x, c2. split_and!; try done. by apply Hk.
Qed.

End Indexed.
