(* ===== verification/Numerics.v ===== *)
(** * Numerics: the CMSIS-DSP calls of the handlers

    [example.c] calls the vector routines of CMSIS-DSP ([arm_math.h]) and
    [vector_mean] of [util.h].  Neither is under [src/]; they are modelled
    here from the library's documentation, as list functions over the sample
    type, in the accumulation order of the reference C implementation.  Every
    routine takes the block size as its last argument, as in C; a source
    shorter than the block size is outside the model's use (the handlers'
    buffers all have [AUDIO_BLOCKSIZE] elements). *)

From Stdlib Require Import Field.
From S2P Require Import Prelude Scalar.

Section Vectors.
Context {A : Type} `{Scalar A}.
Implicit Types (x y : A) (v w : list A) (n : nat).

(** [arm_fill_f32(value, pDst, blockSize)]. *)
Definition arm_fill_f32 (value : A) (blockSize : nat) : list A :=
  replicate blockSize value.

(** [arm_copy_f32(pSrc, pDst, blockSize)]. *)
Definition arm_copy_f32 (pSrc : list A) (blockSize : nat) : list A :=
  take blockSize pSrc.

(** [arm_add_f32]: [pDst[n] = pSrcA[n] + pSrcB[n]]. *)
Definition arm_add_f32 (pSrcA pSrcB : list A) (blockSize : nat) : list A :=
  take blockSize (zip_with sadd pSrcA pSrcB).

(** [arm_mult_f32]: [pDst[n] = pSrcA[n] * pSrcB[n]]. *)
Definition arm_mult_f32 (pSrcA pSrcB : list A) (blockSize : nat) : list A :=
  take blockSize (zip_with smul pSrcA pSrcB).

(** [arm_scale_f32]: [pDst[n] = pSrc[n] * scale]. *)
Definition arm_scale_f32 (pSrc : list A) (scale : A) (blockSize : nat) : list A :=
  take blockSize ((λ x, x *ₛ scale) <$> pSrc).

(** [arm_abs_f32]: [pDst[n] = fabsf(pSrc[n])]. *)
Definition arm_abs_f32 (pSrc : list A) (blockSize : nat) : list A :=
  take blockSize (sabs <$> pSrc).

(** The running sum of a vector, accumulator first, from zero. *)
Definition vector_sum (v : list A) : A := fold_left sadd v s0.

(** [vector_mean(v, n)] of [util.h]: the sum of the first [n] elements over
    [n]. *)
Definition vector_mean (v : list A) (n : nat) : A :=
  vector_sum (take n v) /ₛ sofZ (Z.of_nat n).

(** One output sample of a FIR filter: [acc += x[i] * b[i]] over the taps,
    in increasing [i], from zero. *)
Definition fir_acc (pCoeffs window : list A) : A :=
  fold_left (λ acc p, acc +ₛ p.1 *ₛ p.2) (zip window pCoeffs) s0.

(** [arm_fir_f32(S, pSrc, pDst, blockSize)].  The instance [S] points to the
    coefficient array (stored in time-reversed order) and to the state array
    of [numTaps + blockSize - 1] samples, whose first [numTaps - 1] entries
    are the history.  The call appends the block to the history, computes
    [pDst[n] = Σ_i pCoeffs[i] * buf[n + i]], and moves the last
    [numTaps - 1] samples of the buffer to its start.  The result is the
    output block and the new content of the state array. *)
Definition arm_fir_f32 (numTaps : nat) (pCoeffs pState pSrc : list A)
    (blockSize : nat) : list A * list A :=
  let buf := take (numTaps - 1) pState ++ take blockSize pSrc in
  let pDst := (λ n, fir_acc pCoeffs (drop n buf)) <$> seq 0 blockSize in
  (pDst, drop blockSize buf ++ take blockSize pSrc).

(** One product of the correlation sum for output sample [m]:
    [a[k] * b[k + (length b - 1) - m]], zero where [b] has no such sample. *)
Definition corr_term (b : list A) (m k : nat) (x : A) : A :=
  if decide (m ≤ k + (length b - 1))%nat
  then x *ₛ default s0 (b !! (k + (length b - 1) - m)%nat)
  else s0.

(** Output sample [m] of the correlation of [a] with [b]: [m = 0] pairs
    [a[0]] with the last sample of [b], [m = length b - 1] is lag zero. *)
Definition corr_at (a b : list A) (m : nat) : A :=
  vector_sum (imap (corr_term b m) a).

(** [arm_correlate_f32(pSrcA, srcALen, pSrcB, srcBLen, pDst)].  The
    destination has [2 * max(srcALen, srcBLen) - 1] samples, of which the
    call writes [srcALen + srcBLen - 1]: when [pSrcB] is the shorter input
    the result starts at index [srcALen - srcBLen] and the samples before it
    are left as they were; when [pSrcA] is the shorter one the inputs are
    swapped and the result is written backwards from index
    [srcALen + srcBLen - 2], the samples after it being left as they
    were. *)
Definition arm_correlate_f32 (pSrcA : list A) (srcALen : nat)
    (pSrcB : list A) (srcBLen : nat) (pDst : list A) : list A :=
  let a := take srcALen pSrcA in
  let b := take srcBLen pSrcB in
  let n := (srcALen + srcBLen - 1)%nat in
  if decide (srcBLen ≤ srcALen)%nat then
    let j := (srcALen - srcBLen)%nat in
    take j pDst ++ (corr_at a b <$> seq 0 n) ++ drop (j + n) pDst
  else
    reverse (corr_at b a <$> seq 0 n) ++ drop n pDst.

End Vectors.

(** * Lengths *)

Section Lengths.
Context {A : Type} `{Scalar A}.
Implicit Types (v w : list A) (n : nat).

Lemma length_arm_fill (x : A) n : length (arm_fill_f32 x n) = n.
Proof. apply length_replicate. Qed.

Lemma length_arm_copy v n : (n ≤ length v)%nat → length (arm_copy_f32 v n) = n.
Proof. unfold arm_copy_f32. rewrite length_take. lia. Qed.

Lemma length_arm_add v w n :
  (n ≤ length v)%nat → (n ≤ length w)%nat → length (arm_add_f32 v w n) = n.
Proof. unfold arm_add_f32. rewrite length_take, length_zip_with. lia. Qed.

Lemma length_arm_mult v w n :
  (n ≤ length v)%nat → (n ≤ length w)%nat → length (arm_mult_f32 v w n) = n.
Proof. unfold arm_mult_f32. rewrite length_take, length_zip_with. lia. Qed.

Lemma length_arm_scale v (c : A) n :
  (n ≤ length v)%nat → length (arm_scale_f32 v c n) = n.
Proof. unfold arm_scale_f32. rewrite length_take, length_fmap. lia. Qed.

Lemma length_arm_abs v n : (n ≤ length v)%nat → length (arm_abs_f32 v n) = n.
Proof. unfold arm_abs_f32. rewrite length_take, length_fmap. lia. Qed.

Lemma length_arm_fir_out numTaps (c s x : list A) n :
  length (arm_fir_f32 numTaps c s x n).1 = n.
Proof. simpl. by rewrite length_fmap, length_seq. Qed.

Lemma length_arm_fir_state numTaps (c s x : list A) n :
  (numTaps - 1 ≤ length s)%nat → (n ≤ length x)%nat →
  length (arm_fir_f32 numTaps c s x n).2 = (numTaps - 1 + n)%nat.
Proof.
  intros Hs Hx. simpl.
  rewrite length_app, length_drop, length_app, !length_take. lia.
Qed.

Lemma length_arm_correlate (a b dst : list A) la lb :
  (2 * (la `max` lb) - 1 ≤ length dst)%nat →
  length (arm_correlate_f32 a la b lb dst) = length dst.
Proof.
  intros Hd. unfold arm_correlate_f32. case_decide.
  - rewrite !length_app, length_take, length_fmap, length_seq, length_drop. lia.
  - rewrite length_app, length_reverse, length_fmap, length_seq, length_drop. lia.
Qed.

(** Full-length blocks: the block-size argument is the length. *)
Lemma arm_copy_all v : arm_copy_f32 v (length v) = v.
Proof. apply firstn_all. Qed.

Lemma lookup_arm_mult v w n i :
  (i < n)%nat →
  arm_mult_f32 v w n !! i = (v !! i) ≫= λ x, (w !! i) ≫= λ y, Some (x *ₛ y).
Proof.
  intros Hi. unfold arm_mult_f32. rewrite lookup_take_lt by done.
  rewrite lookup_zip_with. by destruct (v !! i), (w !! i).
Qed.

Lemma lookup_arm_scale v (c : A) n i :
  (i < n)%nat → arm_scale_f32 v c n !! i = (λ x, x *ₛ c) <$> v !! i.
Proof.
  intros Hi. unfold arm_scale_f32. rewrite lookup_take_lt by done.
  apply list_lookup_fmap.
Qed.

Lemma lookup_arm_fir numTaps (c s x : list A) n i :
  (i < n)%nat →
  (arm_fir_f32 numTaps c s x n).1 !! i =
    Some (fir_acc c (drop i (take (numTaps - 1) s ++ take n x))).
Proof.
  intros Hi. simpl. rewrite list_lookup_fmap, lookup_seq_lt by done. done.
Qed.

End Lengths.

#[export] Hint Rewrite @length_arm_fill @length_arm_fir_out : len.
#[export] Hint Rewrite @length_arm_copy @length_arm_add @length_arm_mult
  @length_arm_scale @length_arm_abs @length_arm_fir_state using lia : len.

(** * The FIR accumulation in a lawful field *)

Section Fir.
Context {A : Type} `{ScalarLaws A}.
Add Field numerics_fir_field : s_field.
Implicit Types (x y a : A) (c w : list A).

Lemma fir_fold_acc (l : list (A * A)) a :
  fold_left (λ acc p, acc +ₛ p.1 *ₛ p.2) l a =
  a +ₛ fold_left (λ acc p, acc +ₛ p.1 *ₛ p.2) l s0.
Proof.
  revert a. induction l as [|p l IH]; intros a; simpl; [ring|].
  rewrite IH, (IH (s0 +ₛ _)). ring.
Qed.

Lemma fir_acc_nil_l w : fir_acc [] w = s0.
Proof. unfold fir_acc. by destruct w. Qed.

Lemma fir_acc_nil_r c : fir_acc c [] = s0.
Proof. done. Qed.

Lemma fir_acc_cons x y c w : fir_acc (y :: c) (x :: w) = x *ₛ y +ₛ fir_acc c w.
Proof. unfold fir_acc. simpl. rewrite fir_fold_acc. ring. Qed.

Lemma fir_acc_zero n w : fir_acc (replicate n s0) w = s0.
Proof.
  revert w. induction n as [|n IH]; intros [|x w]; simpl; try done.
  rewrite fir_acc_cons, IH. ring.
Qed.

(** Changing one coefficient changes the output by the sample it weighs. *)
Lemma fir_acc_insert c w (i : nat) a ci wi :
  c !! i = Some ci → w !! i = Some wi →
  fir_acc (<[i := a]> c) w = fir_acc c w +ₛ wi *ₛ (a -ₛ ci).
Proof.
  revert c w. induction i as [|i IH]; intros [|y c] [|x w] Hc Hw; simplify_eq/=.
  - rewrite !fir_acc_cons. ring.
  - rewrite !fir_acc_cons, (IH c w) by done. ring.
Qed.

End Fir.

(** * Sums and means in a lawful field *)

Section Sums.
Context {A : Type} `{ScalarLaws A}.
Add Field numerics_sums_field : s_field.
Implicit Types (x a : A) (v : list A).

Lemma vector_sum_acc v a : fold_left sadd v a = a +ₛ vector_sum v.
Proof.
  unfold vector_sum. revert a. induction v as [|x v IH]; intros a; simpl; [ring|].
  rewrite IH, (IH (s0 +ₛ x)). ring.
Qed.

Lemma vector_sum_cons x v : vector_sum (x :: v) = x +ₛ vector_sum v.
Proof. unfold vector_sum at 1. simpl. rewrite vector_sum_acc. ring. Qed.

Lemma vector_sum_scale {B} (f : B → A) a (l : list B) :
  vector_sum ((λ b, a *ₛ f b) <$> l) = a *ₛ vector_sum (f <$> l).
Proof.
  induction l as [|b l IH]; [unfold vector_sum; simpl; ring|].
  rewrite !fmap_cons, !vector_sum_cons, IH. ring.
Qed.

Lemma vector_sum_zero {B} (l : list B) : vector_sum ((λ _, s0 : A) <$> l) = s0.
Proof.
  induction l as [|b l IH]; [done|]. rewrite fmap_cons, vector_sum_cons, IH. ring.
Qed.

Lemma vector_sum_nonneg v : Forall (λ x, s0 ≤ₛ x) v → s0 ≤ₛ vector_sum v.
Proof.
  induction 1 as [|x v Hx Hv IH]; [apply sle_refl|].
  rewrite vector_sum_cons. by apply snonneg_add.
Qed.

(** The mean of a whole vector. *)
Lemma vector_mean_all v :
  vector_mean v (length v) = vector_sum v /ₛ sofZ (Z.of_nat (length v)).
Proof. unfold vector_mean. by rewrite firstn_all. Qed.

(** Pointwise operations on two images of the same list. *)
Lemma arm_add_fmap {B} (f g : B → A) (l : list B) :
  arm_add_f32 (f <$> l) (g <$> l) (length l) = (λ b, f b +ₛ g b) <$> l.
Proof.
  unfold arm_add_f32. rewrite zip_with_fmap_l, zip_with_fmap_r, zip_with_diag.
  apply take_ge. by rewrite length_fmap.
Qed.

Lemma arm_abs_fmap {B} (f : B → A) (l : list B) :
  arm_abs_f32 (f <$> l) (length l) = (λ b, sabs (f b)) <$> l.
Proof.
  unfold arm_abs_f32. rewrite <- list_fmap_compose.
  apply take_ge. by rewrite length_fmap.
Qed.

Lemma arm_scale_all v a : arm_scale_f32 v a (length v) = (λ x, x *ₛ a) <$> v.
Proof. unfold arm_scale_f32. apply take_ge. by rewrite length_fmap. Qed.

End Sums.
