(* ===== verification/Board.v ===== *)
(** * Board: the compile-time configuration and the shape of a handler

    [config.h] fixes the block size and the sample rate; the file is not
    under [src/], so the two constants are parameters of the model
    ([Config]), with the values the course project ships as [board_config]
    and a small configuration for executable examples.  A handler reads its
    inputs from the board's sources and the serial port and writes two output
    blocks and diagnostic lines: [block_out] is what one call produces. *)

From S2P Require Import Prelude Scalar.

(** [AUDIO_BLOCKSIZE] and [AUDIO_SAMPLE_RATE] of [config.h]. *)
Class Config := {
  AUDIO_BLOCKSIZE : nat;
  AUDIO_SAMPLE_RATE : Z;
}.

(** Both are positive in every build. *)
Class ConfigOk `{Config} : Prop := {
  blocksize_pos : (0 < AUDIO_BLOCKSIZE)%nat;
  sample_rate_pos : 0 < AUDIO_SAMPLE_RATE;
}.

Definition board_config : Config :=
  {| AUDIO_BLOCKSIZE := 256; AUDIO_SAMPLE_RATE := 16000 |}.

Definition small_config : Config :=
  {| AUDIO_BLOCKSIZE := 4; AUDIO_SAMPLE_RATE := 16000 |}.

Lemma board_config_ok : @ConfigOk board_config.
Proof. split; simpl; lia. Qed.

Lemma small_config_ok : @ConfigOk small_config.
Proof. split; simpl; lia. Qed.

(** What one call of a handler writes: the block sent to
    [blocks_sinks_leftout], the block sent to [blocks_sinks_rightout], and
    the lines printed, in order. *)
Record block_out (A M : Type) := BlockOut {
  out_left : list A;
  out_right : list A;
  out_log : list M;
}.
Arguments BlockOut {A M} _ _ _.
Arguments out_left {A M} _.
Arguments out_right {A M} _.
Arguments out_log {A M} _.

(** [board_get_usart_char(&key)]: at most one character per call. *)
Definition usart_char := option ascii.

(** A block of the board's sources has [AUDIO_BLOCKSIZE] samples. *)
Definition is_block `{Config} {A : Type} (v : list A) : Prop :=
  length v = AUDIO_BLOCKSIZE.

(** The duration of one block in microseconds ([AUDIO_BLOCKTIME_s] of
    [config.h], scaled by [S2US]). *)
Definition AUDIO_BLOCKTIME_us `{Config} : Z :=
  Z.of_nat AUDIO_BLOCKSIZE * 1000000 / AUDIO_SAMPLE_RATE.

(** * The system timer

    [systime.h] is not under [src/].  A [systime_t] is a time in
    microseconds; [systime_get_delay(d)] reads the clock and returns the time
    [d] microseconds from now, [systime_get_delay_passed(t)] reads the clock
    and says whether [t] has been reached.  Every call reads the clock, so
    the model takes the reading as an argument; the counter is not modelled
    at its machine width. *)
Definition systime_t := Z.

Definition systime_get_delay (now : systime_t) (delay_us : Z) : systime_t :=
  now + delay_us.

Definition systime_get_delay_passed (now : systime_t) (t : systime_t) : bool :=
  bool_decide (t ≤ now).

Lemma delay_passed now t : t ≤ now → systime_get_delay_passed now t = true.
Proof. intros. by apply bool_decide_eq_true. Qed.

Lemma delay_not_passed now t : now < t → systime_get_delay_passed now t = false.
Proof. intros. apply bool_decide_eq_false. lia. Qed.

(** * The sinks

    [blocks_sinks_leftout] and [blocks_sinks_rightout] copy a block to the
    output buffer of their channel; a second call in the same block period
    overwrites the first.  [silent_out] is the state of the sinks before a
    handler has written anything. *)
Definition silent_out {A M : Type} : block_out A M := BlockOut [] [] [].

Definition blocks_sinks_leftout {A M : Type} (v : list A) (o : block_out A M) :
    block_out A M :=
  BlockOut v (out_right o) (out_log o).

Definition blocks_sinks_rightout {A M : Type} (v : list A) (o : block_out A M) :
    block_out A M :=
  BlockOut (out_left o) v (out_log o).

(** [printf]: one more line of the log. *)
Definition print_line {A M : Type} (m : M) (o : block_out A M) : block_out A M :=
  BlockOut (out_left o) (out_right o) (out_log o ++ [m]).

(** Several lines, in order. *)
Definition print_lines {A M : Type} (ms : list M) (o : block_out A M) :
    block_out A M :=
  foldl (λ o m, print_line m o) o ms.

Lemma print_lines_spec {A M : Type} (ms : list M) (o : block_out A M) :
  print_lines ms o = BlockOut (out_left o) (out_right o) (out_log o ++ ms).
Proof.
  unfold print_lines. revert o.
  induction ms as [|m ms IH]; intros [l r log]; simpl; [by rewrite app_nil_r|].
  rewrite IH. simpl. by rewrite <- app_assoc.
Qed.
