(* ===== verification/Bitcrush.v ===== *)
(** * Bitcrush: the quantiser of the bit-crusher

    [bitcrush] is [case test2_effect_bitcrush] of [example_test2] (lines
    205-220 of [example.c]).  Every output sample is the input scaled by
    [2^(depth-1)], rounded to an integer and scaled back, so the output lies
    on the grid of spacing [2^(1-depth)] and crushing a crushed block changes
    nothing. *)

From Stdlib Require Import Field Qcanon.
From S2P Require Import Prelude Scalar Numerics Board.

Section Bitcrush.
Context {A : Type} {SA : Scalar A} {SL : ScalarLaws A} {CFG : Config}.
Add Field bitcrush_field : s_field.
Implicit Types (x : list A) (v y : A) (d : Z).

(** [case test2_effect_bitcrush] (lines 205-220): scale by [1 << (depth-1)],
    round every sample, scale back. *)
Definition bitcrush (depth : Z) (inpdata : list A) : list A :=
  let scaled_sig := arm_scale_f32 inpdata (sofZ (Z.shiftl 1 (depth - 1))) AUDIO_BLOCKSIZE in
  let scaled_sig := sround <$> scaled_sig in
  arm_scale_f32 scaled_sig (s1 /ₛ sofZ (Z.shiftl 1 (depth - 1))) AUDIO_BLOCKSIZE.

(** The scale factor [1 << (depth - 1)], as a sample. *)
Definition crush_scale d : A := sofZ (Z.shiftl 1 (d - 1)).

(** What the bit-crusher does to one sample. *)
Definition crush_sample d v : A :=
  sround (v *ₛ crush_scale d) *ₛ (s1 /ₛ crush_scale d).

Lemma bitcrush_fmap d x :
  bitcrush d x = crush_sample d <$> take AUDIO_BLOCKSIZE x.
Proof.
  unfold bitcrush, arm_scale_f32, crush_sample, crush_scale.
  rewrite <- !fmap_take, take_take, Nat.min_id, <- !list_fmap_compose. done.
Qed.

Lemma crush_scale_pos d : 1 ≤ d → (s0 : A) <ₛ crush_scale d.
Proof.
  intros Hd. apply sofZ_pos. rewrite Z.shiftl_1_l. apply Z.pow_pos_nonneg; lia.
Qed.

Lemma crush_scale_neq d : 1 ≤ d → crush_scale d ≠ (s0 : A).
Proof.
  intros Hd E. pose proof (crush_scale_pos d Hd) as Hp. rewrite E in Hp.
  by apply slt_irrefl in Hp.
Qed.

(** Scaled back up, a crushed sample is the rounded integer. *)
Lemma crush_sample_scaled d v :
  1 ≤ d → crush_sample d v *ₛ crush_scale d = sround (v *ₛ crush_scale d).
Proof.
  intros Hd. unfold crush_sample. field. by apply crush_scale_neq.
Qed.

Lemma crush_sample_idem d v :
  1 ≤ d → crush_sample d (crush_sample d v) = crush_sample d v.
Proof.
  intros Hd. unfold crush_sample at 1.
  rewrite crush_sample_scaled by done.
  by rewrite sround_int by apply sround_is_int.
Qed.

Lemma crush_sample_depth1 v : crush_sample 1 v = sround v.
Proof.
  unfold crush_sample, crush_scale. change (Z.shiftl 1 (1 - 1)) with 1.
  rewrite sofZ_1. replace (v *ₛ s1) with v by ring. field.
  apply (F_1_neq_0 s_field).
Qed.

(** Crushing is idempotent: a block that has been crushed at depth
    [d ≥ 1] is left unchanged by crushing it again at the same depth. *)
Theorem bitcrush_idempotent d x :
  1 ≤ d → bitcrush d (bitcrush d x) = bitcrush d x.
Proof.
  intros Hd. rewrite !bitcrush_fmap, <- fmap_take, take_take, Nat.min_id.
  rewrite <- list_fmap_compose. apply list_fmap_ext. intros _ v _. simpl.
  by apply crush_sample_idem.
Qed.

(** Every output sample of the bit-crusher lies on the grid of spacing
    [2^(1-d)]: multiplied by [2^(d-1)] it is an integer, namely the rounded
    scaled input. *)
Theorem bitcrush_grid d x y :
  1 ≤ d → y ∈ bitcrush d x → is_int (y *ₛ sofZ (2 ^ (d - 1))).
Proof.
  intros Hd. rewrite bitcrush_fmap. intros (v & -> & _)%list_elem_of_fmap.
  rewrite <- Z.shiftl_1_l. fold (crush_scale d).
  rewrite crush_sample_scaled by done. apply sround_is_int.
Qed.

(** At depth 1 a block of samples in [-1, 1] is crushed to samples that
    are each -1, 0 or 1. *)
Theorem bitcrush_depth1_levels x y :
  Forall (λ v, -ₛ s1 ≤ₛ v ∧ v ≤ₛ s1) x →
  y ∈ bitcrush 1 x → y = -ₛ s1 ∨ y = s0 ∨ y = s1.
Proof.
  intros Hx. rewrite bitcrush_fmap. intros (v & -> & Hv)%list_elem_of_fmap.
  rewrite crush_sample_depth1.
  apply (Forall_take _ AUDIO_BLOCKSIZE) in Hx. rewrite Forall_forall in Hx.
  destruct (Hx v Hv) as [Hlo Hhi]. by apply sround_unit.
Qed.

End Bitcrush.

Definition crush_block : list Qc := [qc 1 3; qc (-7) 8; qc 5 8; qc 0 1].

Lemma bitcrush_idempotent_witness :
  bitcrush (CFG:=small_config) 3 (bitcrush (CFG:=small_config) 3 crush_block)
  = bitcrush (CFG:=small_config) 3 crush_block.
Proof. by apply (bitcrush_idempotent (CFG:=small_config) 3 crush_block). Defined.

Lemma crush_block_lookup d (i : nat) (y : Qc) :
  (this <$> bitcrush (CFG:=small_config) d crush_block !! i) = Some (this y) →
  y ∈ bitcrush (CFG:=small_config) d crush_block.
Proof.
  intros Hy. apply (list_elem_of_lookup_2 _ i).
  destruct (_ !! i) as [z|]; [|done]. injection Hy as Hy.
  f_equal. apply Qc_is_canon. by rewrite Hy.
Qed.

Lemma bitcrush_grid_witness :
  is_int (qc 3 4 *ₛ sofZ (2 ^ (3 - 1))).
Proof.
  apply (bitcrush_grid (CFG:=small_config) 3 crush_block (qc 3 4)); [done|].
  by apply (crush_block_lookup _ 2).
Defined.

Lemma bitcrush_depth1_levels_witness :
  qc (-1) 1 = -ₛ s1 ∨ qc (-1) 1 = s0 ∨ qc (-1) 1 = s1.
Proof.
  apply (bitcrush_depth1_levels (CFG:=small_config) crush_block (qc (-1) 1)).
  - repeat constructor.
  - by apply (crush_block_lookup _ 1).
Defined.
