(* ===== verification/Effects.v ===== *)
(** * Effects: the effect rack of [SYSMODE_TEST2]

    The globals of lines 42-83 of [example.c] are the fields of
    [test2_state]; [example_test2] is the block handler of lines 109-230 and
    [example_test2_btnpress] the button handler of lines 85-93.  The FIR
    instance [flanger_s] points to [flanger_coeffs] and [flanger_state], so
    the filter reads whatever the handler last wrote to the coefficients:
    the model passes the two arrays of the state to [arm_fir_f32].  The
    bit-crusher of lines 205-220 is [bitcrush] of [Bitcrush]. *)

From Stdlib Require Import Field Qcanon.
From S2P Require Import Prelude Scalar Numerics Board Bitcrush.

(** * State *)

(** [enum test2_effect_e] (line 42), with its count enumerator. *)
Inductive test2_effect_e :=
  | test2_effect_none
  | test2_effect_flanger
  | test2_effect_ringmod
  | test2_effect_bitcrush
  | TEST2_EFFECT_NUM.

#[export] Instance test2_effect_eq_dec : EqDecision test2_effect_e.
Proof. solve_decision. Defined.

Definition TEST2_EFFECT_FIRST : test2_effect_e := test2_effect_none.

Definition BITCRUSH_MAXDEPTH : Z := 5.
Definition BITCRUSH_MINDEPTH : Z := 1.
Definition FLANGER_TAPS : Z := 256.

(** The lines the handlers of this mode print. *)
Inductive test2_msg :=
  | msg_src_mic
  | msg_src_wave
  | msg_usage
  | msg_invalid_key
  | msg_switch (e : test2_effect_e)
  | msg_depth (d : Z).

Section Test2.
Context {A : Type} {SA : Scalar A} {CFG : Config}.

Definition RING_MOD_CARRIER_CENTER : A := sofZ 750.
Definition RING_MOD_CARRIER_WIDTH : A := sofZ 1000.
Definition RING_MOD_CARRIER_SWEEPTIME : A := sofZ 10.
Definition RING_MOD_CARRIER_DELTA : A :=
  sofZ 2 *ₛ RING_MOD_CARRIER_WIDTH *ₛ sofZ (Z.of_nat AUDIO_BLOCKSIZE)
  /ₛ (RING_MOD_CARRIER_SWEEPTIME *ₛ sofZ AUDIO_SAMPLE_RATE).

(** The globals of the mode.  [trig_freq] is the frequency last given to
    [blocks_sources_trig_setfreq]. *)
Record test2_state := Test2State {
  curr_effect : test2_effect_e;
  audio_src_mic : bool;
  bitcrush_depth : Z;
  flanger_coeffs : list A;
  flanger_state : list A;
  flanger_delay_idx : Z;
  flanger_neg : bool;
  ring_mod_carrier : A;
  ring_mod_carrier_pos : bool;
  trig_freq : A;
}.

Definition set_effect (st : test2_state) (e : test2_effect_e) : test2_state :=
  Test2State e (audio_src_mic st) (bitcrush_depth st) (flanger_coeffs st)
    (flanger_state st) (flanger_delay_idx st) (flanger_neg st)
    (ring_mod_carrier st) (ring_mod_carrier_pos st) (trig_freq st).

Definition set_src (st : test2_state) (mic : bool) : test2_state :=
  Test2State (curr_effect st) mic (bitcrush_depth st) (flanger_coeffs st)
    (flanger_state st) (flanger_delay_idx st) (flanger_neg st)
    (ring_mod_carrier st) (ring_mod_carrier_pos st) (trig_freq st).

Definition set_depth (st : test2_state) (d : Z) : test2_state :=
  Test2State (curr_effect st) (audio_src_mic st) d (flanger_coeffs st)
    (flanger_state st) (flanger_delay_idx st) (flanger_neg st)
    (ring_mod_carrier st) (ring_mod_carrier_pos st) (trig_freq st).

Definition set_flanger (st : test2_state) (coeffs fstate : list A) (idx : Z)
    (neg : bool) : test2_state :=
  Test2State (curr_effect st) (audio_src_mic st) (bitcrush_depth st) coeffs
    fstate idx neg (ring_mod_carrier st) (ring_mod_carrier_pos st) (trig_freq st).

Definition set_ring_mod (st : test2_state) (carrier : A) (pos : bool) : test2_state :=
  Test2State (curr_effect st) (audio_src_mic st) (bitcrush_depth st)
    (flanger_coeffs st) (flanger_state st) (flanger_delay_idx st)
    (flanger_neg st) carrier pos carrier.

(** The initialisers of lines 45-83 followed by [example_test2_init] (lines
    95-107): the FIR state is cleared and the generator is set to the
    initial carrier. *)
Definition test2_init : test2_state := {|
  curr_effect := TEST2_EFFECT_FIRST;
  audio_src_mic := true;
  bitcrush_depth := BITCRUSH_MAXDEPTH;
  flanger_coeffs := replicate (Z.to_nat (FLANGER_TAPS - 1)) s0 ++ [shalf];
  flanger_state := replicate (Z.to_nat FLANGER_TAPS + AUDIO_BLOCKSIZE - 1) s0;
  flanger_delay_idx := FLANGER_TAPS - 2;
  flanger_neg := true;
  ring_mod_carrier := RING_MOD_CARRIER_CENTER;
  ring_mod_carrier_pos := false;
  trig_freq := RING_MOD_CARRIER_CENTER;
|}.

(** * Handlers *)

(** [example_test2_btnpress] (lines 85-93). *)
Definition example_test2_btnpress (st : test2_state) : test2_state * list test2_msg :=
  let mic := negb (audio_src_mic st) in
  (set_src st mic, [if mic then msg_src_mic else msg_src_wave]).

(** The key switch (lines 119-154). *)
Definition test2_key (st : test2_state) (key : usart_char) : test2_state * list test2_msg :=
  match key with
  | None => (st, [])
  | Some k =>
      if decide (k = "n"%char) then
        (set_effect st test2_effect_none, [msg_switch test2_effect_none])
      else if decide (k = "f"%char) then
        (set_effect st test2_effect_flanger, [msg_switch test2_effect_flanger])
      else if decide (k = "r"%char) then
        (set_effect st test2_effect_ringmod, [msg_switch test2_effect_ringmod])
      else if decide (k = "b"%char) then
        (set_effect st test2_effect_bitcrush, [msg_switch test2_effect_bitcrush])
      else if decide (k = "+"%char) then
        let d := if decide (bitcrush_depth st < BITCRUSH_MAXDEPTH)
                 then bitcrush_depth st + 1 else bitcrush_depth st in
        (set_depth st d, [msg_depth d])
      else if decide (k = "-"%char) then
        let d := if decide (bitcrush_depth st > BITCRUSH_MINDEPTH)
                 then bitcrush_depth st - 1 else bitcrush_depth st in
        (set_depth st d, [msg_depth d])
      else (st, [msg_invalid_key])
  end.

(** The index update of the flanger (lines 168-177): one step down until
    zero is reached, then one step up until [FLANGER_TAPS - 2]. *)
Definition flanger_next (idx : Z) (neg : bool) : Z * bool :=
  if neg then
    let idx' := idx - 1 in (idx', if decide (idx' ≤ 0) then false else neg)
  else
    let idx' := idx + 1 in
    (idx', if decide (FLANGER_TAPS - 2 ≤ idx') then true else neg).

(** [case test2_effect_flanger] (lines 163-181): filter with the current
    coefficients, clear the moving tap, move it, set it again. *)
Definition test2_flanger (st : test2_state) (inpdata : list A) :
    option (test2_state * list A) :=
  let '(output, fstate) :=
    arm_fir_f32 (Z.to_nat FLANGER_TAPS) (flanger_coeffs st) (flanger_state st)
      inpdata AUDIO_BLOCKSIZE in
  coeffs1 ← store (flanger_coeffs st) (flanger_delay_idx st) s0;
  let '(idx, neg) := flanger_next (flanger_delay_idx st) (flanger_neg st) in
  coeffs2 ← store coeffs1 idx shalf;
  Some (set_flanger st coeffs2 fstate idx neg, output).

(** The carrier update of the ring modulator (lines 191-201). *)
Definition ring_mod_next (carrier : A) (pos : bool) : A * bool :=
  if pos then
    let c := carrier +ₛ RING_MOD_CARRIER_DELTA in
    (c, if sltb (RING_MOD_CARRIER_CENTER +ₛ shalf *ₛ RING_MOD_CARRIER_WIDTH) c
        then false else pos)
  else
    let c := carrier -ₛ RING_MOD_CARRIER_DELTA in
    (c, if sltb c (RING_MOD_CARRIER_CENTER -ₛ shalf *ₛ RING_MOD_CARRIER_WIDTH)
        then true else pos).

(** [case test2_effect_ringmod] (lines 182-204). *)
Definition test2_ringmod (st : test2_state) (inpdata sin_samples : list A) :
    test2_state * list A :=
  let output := arm_mult_f32 inpdata sin_samples AUDIO_BLOCKSIZE in
  let '(c, pos) := ring_mod_next (ring_mod_carrier st) (ring_mod_carrier_pos st) in
  (set_ring_mod st c pos, output).

(** The effect switch (lines 159-225). *)
Definition test2_effect (st : test2_state) (inpdata sin_samples : list A) :
    option (test2_state * list A) :=
  match curr_effect st with
  | test2_effect_none => Some (st, arm_copy_f32 inpdata AUDIO_BLOCKSIZE)
  | test2_effect_flanger => test2_flanger st inpdata
  | test2_effect_ringmod => Some (test2_ringmod st inpdata sin_samples)
  | test2_effect_bitcrush => Some (st, bitcrush (bitcrush_depth st) inpdata)
  | TEST2_EFFECT_NUM => Some (st, arm_fill_f32 s0 AUDIO_BLOCKSIZE)
  end.

(** What one call reads: a block of each source (the handler uses the
    selected one), the block of [blocks_sources_sin], and the serial port. *)
Record test2_in := Test2In {
  in_mic : list A;
  in_wave : list A;
  in_sin : list A;
  in_key : usart_char;
}.

(** [example_test2] (lines 109-230). *)
Definition example_test2 (st : test2_state) (i : test2_in) :
    option (test2_state * block_out A test2_msg) :=
  let inpdata := if audio_src_mic st then in_mic i else in_wave i in
  let '(st1, log) := test2_key st (in_key i) in
  '(st2, output) ← test2_effect st1 inpdata (in_sin i);
  Some (st2, BlockOut output output log).

End Test2.

Arguments test2_state A : clear implicits.
Arguments test2_in A : clear implicits.

(** * The flanger sweep *)

(** A sweep state is legal when the index is in range and the direction can
    still be followed: downwards only from above zero, upwards only from
    below [FLANGER_TAPS - 2]. *)
Definition sweep_ok (s : Z * bool) : Prop :=
  0 ≤ s.1 ≤ FLANGER_TAPS - 2 ∧
  (s.2 = true → 1 ≤ s.1) ∧ (s.2 = false → s.1 ≤ FLANGER_TAPS - 3).

#[export] Instance sweep_ok_dec s : Decision (sweep_ok s).
Proof. unfold sweep_ok. apply _. Defined.

Definition sweep_step (s : Z * bool) : Z * bool := flanger_next s.1 s.2.

(** The triangle wave of period [2 * (FLANGER_TAPS - 2)]: where the sweep is
    [n] blocks after its start at [(FLANGER_TAPS - 2, down)]. *)
Definition sweep_at (n : nat) : Z * bool :=
  let k := Z.of_nat n mod (2 * (FLANGER_TAPS - 2)) in
  (Z.abs (FLANGER_TAPS - 2 - k), bool_decide (k < FLANGER_TAPS - 2)).

Ltac unfold_sweep :=
  unfold sweep_ok, sweep_step, sweep_at, flanger_next, FLANGER_TAPS in *;
  simpl in *;
  change (2 * (256 - 2)) with 508 in *; change (256 - 2) with 254 in *;
  change (256 - 3) with 253 in *.

Lemma sweep_step_ok s : sweep_ok s → sweep_ok (sweep_step s).
Proof.
  destruct s as [idx [|]]; unfold_sweep; intros (? & ? & ?);
    repeat case_decide; simpl; lia.
Qed.

Lemma sweep_at_ok n : sweep_ok (sweep_at n).
Proof.
  unfold_sweep. pose proof (Z.mod_pos_bound (Z.of_nat n) 508 eq_refl).
  case_bool_decide; repeat split; intros; try done; lia.
Qed.

Lemma sweep_at_succ n : sweep_at (S n) = sweep_step (sweep_at n).
Proof.
  unfold_sweep. rewrite Nat2Z.inj_succ, <- Z.add_1_r.
  pose proof (Z.mod_pos_bound (Z.of_nat n) 508 eq_refl) as Hb.
  destruct (decide (Z.of_nat n mod 508 = 507)) as [E|E].
  - rewrite <- Zplus_mod_idemp_l, E. change ((507 + 1) mod 508) with 0.
    repeat case_bool_decide; repeat case_decide; simpl;
      first [exfalso; lia | f_equal; lia].
  - rewrite <- Zplus_mod_idemp_l, (Z.mod_small (_ + 1)) by lia.
    repeat case_bool_decide; repeat case_decide; simpl;
      first [exfalso; lia | f_equal; lia].
Qed.

(** The sweep is a triangle wave: [n] blocks after the start the index is
    [|T - (n mod 2T)|] with [T = FLANGER_TAPS - 2]. *)
Lemma sweep_iter (n : nat) :
  Nat.iter n sweep_step (FLANGER_TAPS - 2, true) = sweep_at n.
Proof.
  induction n as [|n IH]; [done|].
  by rewrite sweep_at_succ, <- IH.
Qed.

(** One block moves the index by exactly one position, keeps it in
    [0, FLANGER_TAPS - 2], and reverses the direction exactly when the new
    index is an end of that range. *)
Theorem flanger_next_spec (idx : Z) (neg : bool) :
  sweep_ok (idx, neg) →
  let '(idx', neg') := flanger_next idx neg in
  idx' = (if neg then idx - 1 else idx + 1) ∧
  0 ≤ idx' ≤ FLANGER_TAPS - 2 ∧
  (neg' ≠ neg ↔ idx' = 0 ∨ idx' = FLANGER_TAPS - 2) ∧
  sweep_ok (idx', neg').
Proof.
  destruct neg; unfold_sweep; intros (? & ? & ?);
    repeat case_decide; simpl; intuition (try lia; try congruence).
Qed.

Lemma flanger_next_spec_witness :
  let '(idx', neg') := flanger_next 1 true in
  idx' = 0 ∧ 0 ≤ idx' ≤ FLANGER_TAPS - 2 ∧
  (neg' ≠ true ↔ idx' = 0 ∨ idx' = FLANGER_TAPS - 2) ∧ sweep_ok (idx', neg').
Proof. apply (flanger_next_spec 1 true). unfold_sweep. lia. Defined.

(** * The invariant of the mode *)

Section Test2Inv.
Context {A : Type} {SA : Scalar A} {CFG : Config}.
Implicit Types (st : test2_state A) (i : test2_in A).

(** The coefficient vector at rest: only the direct tap, last in the
    time-reversed array. *)
Definition flanger_base : list A :=
  replicate (Z.to_nat (FLANGER_TAPS - 1)) s0 ++ [shalf].

(** The coefficient vector with the moving tap at [idx]. *)
Definition two_tap (idx : Z) : list A := <[Z.to_nat idx := shalf]> flanger_base.

Record test2_inv st : Prop := {
  inv_effect : curr_effect st ≠ TEST2_EFFECT_NUM;
  inv_depth : BITCRUSH_MINDEPTH ≤ bitcrush_depth st ≤ BITCRUSH_MAXDEPTH;
  inv_sweep : sweep_ok (flanger_delay_idx st, flanger_neg st);
  inv_coeffs :
    flanger_coeffs st = flanger_base ∨
    flanger_coeffs st = two_tap (flanger_delay_idx st);
  inv_state_len :
    length (flanger_state st) = (Z.to_nat FLANGER_TAPS + AUDIO_BLOCKSIZE - 1)%nat;
  inv_freq : trig_freq st = ring_mod_carrier st;
}.

(** The inputs of a call are blocks. *)
Definition test2_in_ok i : Prop :=
  is_block (in_mic i) ∧ is_block (in_wave i) ∧ is_block (in_sin i).

Lemma length_flanger_base : length flanger_base = Z.to_nat FLANGER_TAPS.
Proof. unfold flanger_base. rewrite length_app, length_replicate. done. Qed.

Lemma length_two_tap idx : length (two_tap idx) = Z.to_nat FLANGER_TAPS.
Proof. unfold two_tap. by rewrite length_insert, length_flanger_base. Qed.

Lemma flanger_base_lookup (k : nat) :
  (k < Z.to_nat (FLANGER_TAPS - 1))%nat → flanger_base !! k = Some s0.
Proof.
  intros Hk. unfold flanger_base.
  rewrite lookup_app_l by (by rewrite length_replicate).
  by apply lookup_replicate_2.
Qed.

(** Clearing the moving tap gives the vector at rest, whether or not the tap
    was set. *)
Lemma store_clear_tap (c : list A) idx :
  0 ≤ idx ≤ FLANGER_TAPS - 2 →
  c = flanger_base ∨ c = two_tap idx →
  store c idx s0 = Some flanger_base.
Proof.
  intros Hidx Hc.
  assert (Hk : (Z.to_nat idx < Z.to_nat (FLANGER_TAPS - 1))%nat)
    by (unfold FLANGER_TAPS in *; lia).
  assert (Hb : in_bounds c idx).
  { unfold in_bounds. destruct Hc as [-> | ->];
      rewrite ?length_two_tap, ?length_flanger_base; unfold FLANGER_TAPS in *; lia. }
  rewrite store_Some by done. f_equal. destruct Hc as [-> | ->].
  - apply list_insert_id. by apply flanger_base_lookup.
  - unfold two_tap. rewrite list_insert_insert_eq.
    apply list_insert_id. by apply flanger_base_lookup.
Qed.

Lemma store_set_tap idx :
  0 ≤ idx ≤ FLANGER_TAPS - 2 → store flanger_base idx shalf = Some (two_tap idx).
Proof.
  intros Hidx. apply store_Some. unfold in_bounds.
  rewrite length_flanger_base. unfold FLANGER_TAPS in *. lia.
Qed.

(** The flanger case is defined on a state of the invariant, and leaves the
    two-tap vector of the new index. *)
Lemma test2_flanger_inv st x :
  test2_inv st → is_block x →
  ∃ st', test2_flanger st x =
           Some (st', (arm_fir_f32 (Z.to_nat FLANGER_TAPS) (flanger_coeffs st)
                         (flanger_state st) x AUDIO_BLOCKSIZE).1) ∧
         test2_inv st' ∧
         (flanger_delay_idx st', flanger_neg st') =
           sweep_step (flanger_delay_idx st, flanger_neg st) ∧
         flanger_coeffs st' = two_tap (flanger_delay_idx st').
Proof.
  intros [He Hd Hs Hc Hl Hf] Hx. unfold test2_flanger.
  destruct (arm_fir_f32 _ _ _ _ _) as [output fstate] eqn:Hfir.
  pose proof (proj1 Hs) as Hr. simpl in Hr.
  rewrite (store_clear_tap _ _ Hr Hc). simpl.
  pose proof (sweep_step_ok _ Hs) as Hs'. unfold sweep_step in Hs'. simpl in Hs'.
  destruct (flanger_next _ _) as [idx neg] eqn:Hn.
  pose proof (proj1 Hs') as Hr'. simpl in Hr'.
  rewrite (store_set_tap _ Hr'). simpl.
  eexists. split; [done|]. split; [|done].
  split; simpl; try done; [by right|].
  replace fstate with (arm_fir_f32 (Z.to_nat FLANGER_TAPS) (flanger_coeffs st)
    (flanger_state st) x AUDIO_BLOCKSIZE).2 by (by rewrite Hfir).
  rewrite length_arm_fir_state; unfold is_block, FLANGER_TAPS in *; lia.
Qed.

Lemma test2_key_inv st key :
  test2_inv st → test2_inv (test2_key st key).1.
Proof.
  intros [He Hd Hs Hc Hl Hf]. unfold test2_key.
  destruct key as [k|]; [|done].
  repeat case_decide; split; simpl; try done;
    unfold BITCRUSH_MAXDEPTH, BITCRUSH_MINDEPTH in *; lia.
Qed.

Lemma test2_effect_inv st x sn :
  test2_inv st → is_block x → is_block sn →
  ∃ st' out, test2_effect st x sn = Some (st', out) ∧ test2_inv st' ∧ is_block out.
Proof.
  intros Hinv Hx Hsn. unfold test2_effect, is_block in *.
  destruct (curr_effect st) eqn:He.
  - eexists _, _. split; [done|]. split; [done|]. by rewrite length_arm_copy by lia.
  - destruct (test2_flanger_inv st x Hinv Hx) as (st' & -> & Hinv' & _).
    eexists _, _. split; [done|]. split; [done|]. apply length_arm_fir_out.
  - unfold test2_ringmod. destruct (ring_mod_next _ _) as [c pos].
    eexists _, _. split; [done|]. split.
    + destruct Hinv. split; simpl; try done.
    + by rewrite length_arm_mult by lia.
  - eexists _, _. split; [done|]. split; [done|]. unfold bitcrush.
    rewrite length_arm_scale; [done|].
    rewrite length_fmap, length_arm_scale; lia.
  - by destruct Hinv as [[] _ _ _ _ _].
Qed.

Lemma test2_init_inv : test2_inv test2_init.
Proof.
  split; simpl.
  - done.
  - unfold BITCRUSH_MAXDEPTH, BITCRUSH_MINDEPTH. lia.
  - unfold_sweep. repeat split; intros; try done; lia.
  - by left.
  - by rewrite length_replicate.
  - done.
Qed.

(** One call of the handler on a state of the invariant. *)
Lemma example_test2_inv st i :
  test2_inv st → test2_in_ok i →
  ∃ st' o, example_test2 st i = Some (st', o) ∧ test2_inv st'.
Proof.
  intros Hinv (Hm & Hw & Hs). unfold example_test2.
  pose proof (test2_key_inv st (in_key i) Hinv) as Hk.
  destruct (test2_key st (in_key i)) as [st1 log]. simpl in Hk.
  destruct (test2_effect_inv st1 (if audio_src_mic st then in_mic i else in_wave i)
              (in_sin i) Hk) as (st2 & out & -> & Hinv2 & _);
    [by destruct (audio_src_mic st)|done|].
  by eexists _, _.
Qed.

End Test2Inv.

(** [test2_inv] of a concrete state. *)
Ltac solve_test2_inv :=
  split; simpl;
  [ done
  | unfold BITCRUSH_MAXDEPTH, BITCRUSH_MINDEPTH; lia
  | unfold_sweep; repeat split; intros; try done; lia
  | first [by left | by right]
  | by rewrite ?length_app, ?length_replicate
  | done ].

(** C3: along every run of the handler from the initial state, on any
    sequence of keys and blocks, no array is accessed out of range (the run is
    defined), one output is produced per block period, and the invariant of
    the mode holds at the end: a defined effect is selected, the bit-crusher
    depth is in [1, 5], the flanger index is in [0, FLANGER_TAPS - 2], and the
    flanger coefficients are the direct tap plus at most the moving tap. *)
Theorem test2_run_safe {A : Type} {SA : Scalar A} {CFG : Config}
    (ins : list (test2_in A)) :
  Forall test2_in_ok ins →
  ∃ st os, run example_test2 test2_init ins = Some (st, os) ∧
           test2_inv st ∧ length os = length ins.
Proof.
  intros Hins. apply (run_invariant example_test2 test2_in_ok test2_inv); try done.
  - intros st i Hinv Hi. apply example_test2_inv; done.
  - apply test2_init_inv.
Qed.

(** * Key handling *)

Section Test2Keys.
Context {A : Type} {SA : Scalar A} {CFG : Config}.
Implicit Types (st : test2_state A).

(** The effect a key selects, if it selects one. *)
Definition key_effect (k : ascii) : option test2_effect_e :=
  if decide (k = "n"%char) then Some test2_effect_none
  else if decide (k = "f"%char) then Some test2_effect_flanger
  else if decide (k = "r"%char) then Some test2_effect_ringmod
  else if decide (k = "b"%char) then Some test2_effect_bitcrush
  else None.

(** A selection key changes the current effect and nothing else: the
    depth, the flanger coefficients, history and sweep, and the carrier
    survive a mode switch; the switch is acknowledged on the log. *)
Theorem test2_key_select st k e :
  key_effect k = Some e →
  test2_key st (Some k) = (set_effect st e, [msg_switch e]) ∧
  curr_effect (test2_key st (Some k)).1 = e.
Proof.
  unfold key_effect, test2_key. intros Hk.
  repeat case_decide; simplify_eq; done.
Qed.

(** ['+'] and ['-'] move the bit-crusher depth by one and saturate at
    [BITCRUSH_MAXDEPTH] and [BITCRUSH_MINDEPTH]; the new depth is reported
    and the selected effect is unchanged. *)
Theorem test2_key_depth st :
  BITCRUSH_MINDEPTH ≤ bitcrush_depth st ≤ BITCRUSH_MAXDEPTH →
  let up := test2_key st (Some "+"%char) in
  let down := test2_key st (Some "-"%char) in
  bitcrush_depth up.1 = Z.min (bitcrush_depth st + 1) BITCRUSH_MAXDEPTH ∧
  bitcrush_depth down.1 = Z.max (bitcrush_depth st - 1) BITCRUSH_MINDEPTH ∧
  up.2 = [msg_depth (bitcrush_depth up.1)] ∧
  down.2 = [msg_depth (bitcrush_depth down.1)] ∧
  curr_effect up.1 = curr_effect st ∧ curr_effect down.1 = curr_effect st.
Proof.
  unfold test2_key, BITCRUSH_MAXDEPTH, BITCRUSH_MINDEPTH. intros Hd. simpl.
  repeat case_decide; simpl; repeat split; try done; lia.
Qed.

(** A key that is not a command is reported as invalid and changes
    nothing. *)
Theorem test2_key_invalid st k :
  key_effect k = None → k ≠ "+"%char → k ≠ "-"%char →
  test2_key st (Some k) = (st, [msg_invalid_key]).
Proof.
  unfold key_effect, test2_key. intros Hk Hp Hm.
  repeat case_decide; done.
Qed.

End Test2Keys.

Lemma test2_key_select_witness :
  test2_key (test2_init (A:=Qc) (CFG:=small_config)) (Some "f"%char) =
    (set_effect (test2_init (CFG:=small_config)) test2_effect_flanger,
     [msg_switch test2_effect_flanger]) ∧
  curr_effect (test2_key (test2_init (A:=Qc) (CFG:=small_config)) (Some "f"%char)).1 =
    test2_effect_flanger.
Proof. apply (test2_key_select (A:=Qc)). reflexivity. Defined.

Lemma test2_key_depth_witness :
  let st := test2_init (A:=Qc) (CFG:=small_config) in
  let up := test2_key st (Some "+"%char) in
  let down := test2_key st (Some "-"%char) in
  bitcrush_depth up.1 = Z.min (bitcrush_depth st + 1) BITCRUSH_MAXDEPTH ∧
  bitcrush_depth down.1 = Z.max (bitcrush_depth st - 1) BITCRUSH_MINDEPTH ∧
  up.2 = [msg_depth (bitcrush_depth up.1)] ∧
  down.2 = [msg_depth (bitcrush_depth down.1)] ∧
  curr_effect up.1 = curr_effect st ∧ curr_effect down.1 = curr_effect st.
Proof. apply (test2_key_depth (A:=Qc)). vm_compute. split; discriminate. Defined.

Lemma test2_key_invalid_witness :
  test2_key (test2_init (A:=Qc) (CFG:=small_config)) (Some "x"%char) =
    (test2_init (CFG:=small_config), [msg_invalid_key]).
Proof. by apply (test2_key_invalid (A:=Qc)). Defined.

(** * The flanger along a run *)

Section FlangerRun.
Context {A : Type} {SA : Scalar A} {CFG : Config}.
Implicit Types (st : test2_state A) (i : test2_in A).

(** A block period in which no key arrives. *)
Definition quiet_in i : Prop := test2_in_ok i ∧ in_key i = None.

Lemma example_test2_quiet st i :
  in_key i = None →
  example_test2 st i =
    '(st', out) ← test2_effect st (if audio_src_mic st then in_mic i else in_wave i)
                    (in_sin i);
    Some (st', BlockOut out out []).
Proof. intros Hk. unfold example_test2. by rewrite Hk. Qed.

Lemma flanger_blocks_run ins : ∀ st,
  test2_inv st → curr_effect st = test2_effect_flanger →
  Forall quiet_in ins →
  ∃ st' os, run example_test2 st ins = Some (st', os) ∧
    test2_inv st' ∧ curr_effect st' = test2_effect_flanger ∧
    (flanger_delay_idx st', flanger_neg st') =
      Nat.iter (length ins) sweep_step (flanger_delay_idx st, flanger_neg st) ∧
    (ins ≠ [] → flanger_coeffs st' = two_tap (flanger_delay_idx st')).
Proof.
  induction ins as [|i ins IH]; intros st Hinv He Hq.
  - by exists st, [].
  - apply Forall_cons_1 in Hq as [[(Hm & Hw & Hs) Hk] Hq'].
    destruct (test2_flanger_inv st (if audio_src_mic st then in_mic i else in_wave i)
      Hinv) as (st1 & Hfl & Hinv1 & Hsw & Hco); [by destruct (audio_src_mic st)|].
    assert (He1 : curr_effect st1 = test2_effect_flanger).
    { unfold test2_flanger in Hfl. destruct (arm_fir_f32 _ _ _ _ _), (flanger_next _ _).
      simpl_option. done. }
    destruct (IH st1 Hinv1 He1 Hq') as (st' & os & Hrun & Hinv' & He' & Hsw' & Hco').
    cbn [run]. rewrite example_test2_quiet by done.
    unfold test2_effect. rewrite He, Hfl. simpl. rewrite Hrun. simpl.
    eexists _, _. split; [done|]. split_and!; try done.
    + by rewrite Hsw', Hsw, Nat.iter_swap.
    + intros _. destruct ins as [|i' ins']; [|by apply Hco'].
      simpl in Hrun. by simplify_eq.
Qed.

End FlangerRun.

(** C1: when the flanger is selected in the initial state and [n] blocks are
    processed with no key pressed, the handler is defined on every block,
    the index is the triangle wave [|T - (n mod 2T)|] with
    [T = FLANGER_TAPS - 2] (down in the first half of each period of [2T]
    blocks, up in the second), and from the first block on the coefficient
    vector is the direct tap plus the moving tap at that index. *)
Theorem flanger_run_sweep {A : Type} {SA : Scalar A} {CFG : Config}
    (ins : list (test2_in A)) :
  Forall quiet_in ins →
  ∃ st os,
    run example_test2 (set_effect test2_init test2_effect_flanger) ins = Some (st, os) ∧
    (flanger_delay_idx st, flanger_neg st) = sweep_at (length ins) ∧
    (ins ≠ [] → flanger_coeffs st = two_tap (flanger_delay_idx st)).
Proof.
  intros Hq.
  destruct (flanger_blocks_run ins (set_effect test2_init test2_effect_flanger))
    as (st & os & Hrun & _ & _ & Hsw & Hco); try done.
  { destruct (test2_init_inv (A:=A)). by split. }
  exists st, os. by rewrite Hsw, <- sweep_iter.
Qed.

Definition quiet_block : test2_in Qc :=
  Test2In (replicate 4 (qc 1 2)) (replicate 4 (qc 1 3)) (replicate 4 (qc 1 1)) None.

Lemma flanger_run_sweep_witness :
  ∃ st os,
    run (example_test2 (CFG:=small_config))
      (set_effect (test2_init (CFG:=small_config)) test2_effect_flanger)
      [quiet_block; quiet_block] = Some (st, os) ∧
    (flanger_delay_idx st, flanger_neg st) = sweep_at 2 ∧
    ([quiet_block; quiet_block] ≠ [] → flanger_coeffs st = two_tap (flanger_delay_idx st)).
Proof.
  apply (flanger_run_sweep (CFG:=small_config) [quiet_block; quiet_block]).
  repeat constructor.
Defined.

Definition keyed_block (k : ascii) : test2_in Qc :=
  Test2In (in_mic quiet_block) (in_wave quiet_block) (in_sin quiet_block) (Some k).

Lemma test2_run_safe_witness :
  ∃ st os,
    run (example_test2 (CFG:=small_config)) (test2_init (CFG:=small_config))
      [keyed_block "f"; quiet_block; keyed_block "b"; keyed_block "+"]
      = Some (st, os) ∧
    test2_inv (CFG:=small_config) st ∧ length os = 4%nat.
Proof.
  apply (test2_run_safe (CFG:=small_config)
           [keyed_block "f"; quiet_block; keyed_block "b"; keyed_block "+"]).
  by repeat constructor.
Defined.

(** * The flanger is a two-tap comb filter *)

Section FlangerComb.
Context {A : Type} {SA : Scalar A} {SL : ScalarLaws A} {CFG : Config}.
Add Field effects_comb_field : s_field.
Implicit Types (st : test2_state A) (x w : list A).

Lemma flanger_base_insert :
  flanger_base = <[255%nat := shalf]> (replicate 256 (s0 : A)).
Proof. by vm_compute. Qed.

Lemma fir_two_tap idx w a b :
  0 ≤ idx ≤ FLANGER_TAPS - 2 →
  w !! Z.to_nat idx = Some a → w !! 255%nat = Some b →
  fir_acc (two_tap idx) w = shalf *ₛ b +ₛ shalf *ₛ a.
Proof.
  intros Hidx Ha Hb. unfold FLANGER_TAPS in Hidx.
  assert (Hz : ∀ k, (k < 256)%nat → replicate 256 (s0 : A) !! k = Some s0)
    by (intros; by apply lookup_replicate_2).
  unfold two_tap. rewrite flanger_base_insert.
  rewrite (fir_acc_insert _ _ _ _ s0 a), (fir_acc_insert _ _ _ _ s0 b), fir_acc_zero;
    try done; rewrite ?list_lookup_insert_ne by lia;
    first [ring | apply Hz; lia].
Qed.

End FlangerComb.

(** C8: with the moving tap at index [idx], the flanger's output sample [n]
    is [x[n]/2 + d/2], where [d] is the sample [FLANGER_TAPS - 1 - idx]
    positions before [x[n]] in the history followed by the block: the
    time-varying FIR filter is a comb with a direct path and one delayed
    path. *)
Theorem flanger_comb {A : Type} {SA : Scalar A} {SL : ScalarLaws A} {CFG : Config}
    (st : test2_state A) (x : list A) (n : nat) (xn d : A) :
  test2_inv st → is_block x →
  flanger_coeffs st = two_tap (flanger_delay_idx st) →
  x !! n = Some xn →
  (take (Z.to_nat FLANGER_TAPS - 1) (flanger_state st) ++ x)
    !! (n + Z.to_nat (flanger_delay_idx st))%nat = Some d →
  ∃ st' out, test2_flanger st x = Some (st', out) ∧
             out !! n = Some (shalf *ₛ xn +ₛ shalf *ₛ d).
Proof.
  intros Hinv Hx Hc Hxn Hd.
  destruct (test2_flanger_inv st x Hinv Hx) as (st' & Hfl & _).
  eexists _, _. split; [exact Hfl|].
  assert (Hn : (n < AUDIO_BLOCKSIZE)%nat).
  { rewrite <- Hx. by eapply lookup_lt_Some. }
  rewrite lookup_arm_fir by done.
  rewrite <- Hx, firstn_all, Hc. f_equal.
  destruct Hinv as [_ _ [Hr _] _ Hl _]. simpl in Hr.
  apply fir_two_tap; [done|by rewrite lookup_drop|].
  rewrite lookup_drop, lookup_app_r; rewrite length_take, Hl;
    unfold FLANGER_TAPS; [|lia].
  rewrite <- Hxn. f_equal. lia.
Qed.

Definition comb_state : test2_state Qc :=
  set_flanger (test2_init (CFG:=small_config)) (two_tap 254)
    (replicate 255 (qc 1 1) ++ replicate 4 (qc 0 1)) 254 true.

Lemma flanger_comb_witness :
  ∃ st' out,
    test2_flanger (CFG:=small_config) comb_state (replicate 4 (qc 1 2)) = Some (st', out) ∧
    out !! 0%nat = Some (shalf *ₛ qc 1 2 +ₛ shalf *ₛ qc 1 1).
Proof.
  apply (flanger_comb (CFG:=small_config) comb_state (replicate 4 (qc 1 2)) 0).
  - solve_test2_inv.
  - done.
  - done.
  - done.
  - by vm_compute.
Defined.
