(* ===== verification/RingMod.v ===== *)
(** * RingMod: the carrier sweep of the ring modulator

    Theory of [ring_mod_next] and [test2_ringmod] of [Effects]: the carrier
    moves by [RING_MOD_CARRIER_DELTA] per block and turns round after it has
    left the band [CENTER ± WIDTH/2], so it stays within one step of the
    band and does leave the band itself; and the sweep always turns: the
    direction flag flips within a number of blocks given by the width of
    the band and the step. *)

From Stdlib Require Import Field Qcanon.
From S2P Require Import Prelude Scalar Numerics Board Effects.

(** * The carrier and the other engines *)

Section Carrier.
Context {A : Type} {SA : Scalar A} {CFG : Config}.
Implicit Types (st : test2_state A) (i : test2_in A).

Definition carrier_of st : A * bool := (ring_mod_carrier st, ring_mod_carrier_pos st).

Definition ring_step (s : A * bool) : A * bool := ring_mod_next s.1 s.2.

Lemma test2_key_carrier st key : carrier_of (test2_key st key).1 = carrier_of st.
Proof. unfold test2_key. destruct key; [|done]. by repeat case_decide. Qed.

Lemma test2_key_effect_quiet st : test2_key st None = (st, []).
Proof. done. Qed.

Lemma test2_flanger_carrier st x st' out :
  test2_flanger st x = Some (st', out) →
  carrier_of st' = carrier_of st ∧ curr_effect st' = curr_effect st.
Proof.
  unfold test2_flanger. destruct (arm_fir_f32 _ _ _ _ _), (flanger_next _ _).
  intros Hst. simpl_option. done.
Qed.

(** Only the ring modulator moves the carrier. *)
Lemma test2_effect_carrier st x sn st' out :
  test2_effect st x sn = Some (st', out) →
  curr_effect st' = curr_effect st ∧
  carrier_of st' =
    if decide (curr_effect st = test2_effect_ringmod)
    then ring_step (carrier_of st) else carrier_of st.
Proof.
  unfold test2_effect. intros Hst.
  destruct (curr_effect st) eqn:He; case_decide; simplify_eq; try done.
  - apply test2_flanger_carrier in Hst as [Hc Hee]. by rewrite Hee, He.
  - unfold test2_ringmod, ring_step, carrier_of in *. simpl.
    destruct (ring_mod_next _ _). by simplify_eq.
Qed.

Lemma example_test2_carrier st i st' o :
  example_test2 st i = Some (st', o) →
  carrier_of st' = carrier_of st ∨ carrier_of st' = ring_step (carrier_of st).
Proof.
  unfold example_test2. pose proof (test2_key_carrier st (in_key i)) as Hk.
  destruct (test2_key st (in_key i)) as [st1 log]. simpl in Hk.
  intros Hst. simpl_option. destruct x as [st2 out]. simpl_option.
  apply test2_effect_carrier in H as [_ Hc]. rewrite Hk in Hc.
  case_decide; auto.
Qed.

(** Quiet blocks with the ring modulator selected step the carrier once
    each. *)
Lemma ringmod_blocks_run ins : ∀ st,
  test2_inv st → curr_effect st = test2_effect_ringmod →
  Forall quiet_in ins →
  ∃ st' os, run example_test2 st ins = Some (st', os) ∧
    test2_inv st' ∧ curr_effect st' = test2_effect_ringmod ∧
    carrier_of st' = Nat.iter (length ins) ring_step (carrier_of st).
Proof.
  induction ins as [|i ins IH]; intros st Hinv He Hq.
  - by exists st, [].
  - apply Forall_cons_1 in Hq as [[(Hm & Hw & Hs) Hk] Hq'].
    destruct (test2_effect_inv st (if audio_src_mic st then in_mic i else in_wave i)
      (in_sin i) Hinv) as (st1 & out & Hef & Hinv1 & _);
      [by destruct (audio_src_mic st)|done|].
    destruct (test2_effect_carrier _ _ _ _ _ Hef) as [He1 Hc1].
    rewrite decide_True in Hc1 by done. rewrite He in He1.
    destruct (IH st1 Hinv1 He1 Hq') as (st' & os & Hrun & Hinv' & He' & Hc').
    cbn [run]. rewrite example_test2_quiet, Hef by done. simpl. rewrite Hrun. simpl.
    eexists _, _. split; [done|]. split_and!; try done.
    by rewrite Hc', Hc1, Nat.iter_swap.
Qed.

End Carrier.

(** * The band *)

Section Band.
Context {A : Type} {SA : Scalar A} {SL : ScalarLaws A} {CFG : Config} {CO : ConfigOk}.
Add Field ringmod_band_field : s_field.
Implicit Types (st : test2_state A) (c : A).

Definition ring_lo : A :=
  RING_MOD_CARRIER_CENTER -ₛ shalf *ₛ RING_MOD_CARRIER_WIDTH.
Definition ring_hi : A :=
  RING_MOD_CARRIER_CENTER +ₛ shalf *ₛ RING_MOD_CARRIER_WIDTH.

(** The carrier is within one step of the band and heads towards the band
    when it is outside. *)
Definition ring_ok (s : A * bool) : Prop :=
  ring_lo -ₛ RING_MOD_CARRIER_DELTA ≤ₛ s.1 ∧
  s.1 ≤ₛ ring_hi +ₛ RING_MOD_CARRIER_DELTA ∧
  (s.2 = true → s.1 ≤ₛ ring_hi) ∧ (s.2 = false → ring_lo ≤ₛ s.1).

Lemma ring_delta_pos : (s0 : A) <ₛ RING_MOD_CARRIER_DELTA.
Proof.
  pose proof (sofZ_pos (A:=A) 2 eq_refl).
  pose proof (sofZ_pos (A:=A) 1000 eq_refl).
  pose proof (sofZ_pos (A:=A) 10 eq_refl).
  pose proof (sofZ_pos (A:=A) _ sample_rate_pos).
  assert ((s0 : A) <ₛ sofZ (Z.of_nat AUDIO_BLOCKSIZE))
    by (apply sofZ_pos; pose proof blocksize_pos; lia).
  unfold RING_MOD_CARRIER_DELTA, RING_MOD_CARRIER_WIDTH, RING_MOD_CARRIER_SWEEPTIME.
  s_sign.
Qed.

Lemma ring_half_width_pos : (s0 : A) <ₛ shalf *ₛ RING_MOD_CARRIER_WIDTH.
Proof.
  pose proof (shalf_pos (A:=A)). pose proof (sofZ_pos (A:=A) 1000 eq_refl).
  unfold RING_MOD_CARRIER_WIDTH. s_sign.
Qed.

Lemma ring_lo_lt_hi : ring_lo <ₛ ring_hi.
Proof.
  pose proof ring_half_width_pos. unfold ring_lo, ring_hi.
  s_by (shalf *ₛ RING_MOD_CARRIER_WIDTH +ₛ shalf *ₛ RING_MOD_CARRIER_WIDTH : A).
Qed.

Lemma ring_center_ok : ring_ok (RING_MOD_CARRIER_CENTER, false).
Proof.
  pose proof ring_half_width_pos as Hw. pose proof ring_delta_pos as Hd.
  unfold ring_ok, ring_lo, ring_hi. simpl. split_and!; try done.
  - s_by (shalf *ₛ RING_MOD_CARRIER_WIDTH +ₛ RING_MOD_CARRIER_DELTA : A).
  - s_by (shalf *ₛ RING_MOD_CARRIER_WIDTH +ₛ RING_MOD_CARRIER_DELTA : A).
  - intros _. s_by (shalf *ₛ RING_MOD_CARRIER_WIDTH : A).
Qed.

Lemma ring_step_ok s : ring_ok s → ring_ok (ring_step s).
Proof.
  pose proof ring_delta_pos as Hd. pose proof ring_lo_lt_hi as Hlh.
  destruct s as [c [|]]; unfold ring_ok, ring_step, ring_mod_next; simpl;
    fold ring_lo ring_hi; intros (H1 & H2 & H3 & H4).
  - specialize (H3 eq_refl). clear H4.
    destruct (sltb ring_hi (c +ₛ RING_MOD_CARRIER_DELTA)) eqn:E; simpl;
      split_and!; try done; intros; s_lin.
  - specialize (H4 eq_refl). clear H3.
    destruct (sltb (c -ₛ RING_MOD_CARRIER_DELTA) ring_lo) eqn:E; simpl;
      split_and!; try done; intros; s_lin.
Qed.

Lemma example_test2_ring_ok st i st' o :
  ring_ok (carrier_of st) → example_test2 st i = Some (st', o) →
  ring_ok (carrier_of st').
Proof.
  intros Hok [-> | ->]%example_test2_carrier; [done|by apply ring_step_ok].
Qed.

End Band.

(** C7: along every run of the handler from the initial state, whatever
    the keys, the carrier stays within one step [RING_MOD_CARRIER_DELTA] of
    the band [CENTER ± WIDTH/2], and the generator is always configured to
    the current carrier. *)
Theorem ring_mod_carrier_bounded {A : Type} {SA : Scalar A} {SL : ScalarLaws A}
    {CFG : Config} {CO : ConfigOk} (ins : list (test2_in A)) :
  Forall test2_in_ok ins →
  ∃ st os, run example_test2 test2_init ins = Some (st, os) ∧
    ring_lo -ₛ RING_MOD_CARRIER_DELTA ≤ₛ ring_mod_carrier st ∧
    ring_mod_carrier st ≤ₛ ring_hi +ₛ RING_MOD_CARRIER_DELTA ∧
    trig_freq st = ring_mod_carrier st.
Proof.
  intros Hins.
  destruct (run_invariant (example_test2 (A:=A)) test2_in_ok
    (λ st : test2_state A, test2_inv st ∧ ring_ok (carrier_of st)))
    with (ins := ins) (s := test2_init (A:=A))
    as (st & os & Hrun & [Hinv (Hlo & Hhi & _)] & _); try done.
  - intros st i [Hinv Hok] Hi.
    destruct (example_test2_inv st i Hinv Hi) as (st' & o & Hst & Hinv').
    exists st', o. split_and!; try done. by eapply example_test2_ring_ok.
  - split; [apply test2_init_inv|apply ring_center_ok].
  - exists st, os. split_and!; try done. by destruct Hinv.
Qed.

Lemma ring_mod_carrier_bounded_witness :
  let _ := small_config in
  ∃ st os,
    run example_test2 test2_init [quiet_block] = Some (st, os) ∧
    ring_lo -ₛ RING_MOD_CARRIER_DELTA ≤ₛ ring_mod_carrier st ∧
    ring_mod_carrier st ≤ₛ ring_hi +ₛ RING_MOD_CARRIER_DELTA ∧
    trig_freq st = ring_mod_carrier st.
Proof.
  apply (ring_mod_carrier_bounded (CFG:=small_config) (CO:=small_config_ok) [quiet_block]).
  repeat constructor.
Defined.

Section Reversal.
Context {A : Type} {SA : Scalar A} {SL : ScalarLaws A} {CFG : Config} {CO : ConfigOk}.
Add Field ringmod_reversal_field : s_field.

(** One block moves the carrier by exactly [RING_MOD_CARRIER_DELTA] in
    the current direction, and the direction reverses exactly when the new
    carrier has left the band: the turn happens after the bound is
    exceeded, not before. *)
Theorem ring_mod_next_spec (c : A) (pos : bool) :
  ring_ok (c, pos) →
  let '(c', pos') := ring_mod_next c pos in
  c' = (if pos then c +ₛ RING_MOD_CARRIER_DELTA else c -ₛ RING_MOD_CARRIER_DELTA) ∧
  (pos' ≠ pos ↔ ring_hi <ₛ c' ∨ c' <ₛ ring_lo) ∧
  ring_ok (c', pos').
Proof.
  intros Hok. pose proof (ring_step_ok _ Hok) as Hok'.
  pose proof (ring_delta_pos (A:=A)) as Hd. pose proof (ring_lo_lt_hi (A:=A)) as Hlh.
  destruct Hok as (H1 & H2 & H3 & H4).
  unfold ring_step in Hok'. unfold ring_mod_next in *. simpl in *.
  fold (ring_lo (A:=A)) (ring_hi (A:=A)) in *.
  destruct pos.
  - specialize (H3 eq_refl).
    assert (ring_lo ≤ₛ c +ₛ RING_MOD_CARRIER_DELTA) by s_lin.
    destruct (sltb ring_hi (c +ₛ RING_MOD_CARRIER_DELTA)) eqn:E;
      split_and!; try done; split;
      first [by left | intros [?|?]; congruence | by intros []].
  - specialize (H4 eq_refl).
    assert (c -ₛ RING_MOD_CARRIER_DELTA ≤ₛ ring_hi) by s_lin.
    destruct (sltb (c -ₛ RING_MOD_CARRIER_DELTA) ring_lo) eqn:E;
      split_and!; try done; split;
      first [by right | intros [?|?]; congruence | by intros []].
Qed.

End Reversal.

Lemma ring_mod_next_spec_witness :
  let _ := small_config in
  let '(c', pos') := ring_mod_next (qc 750 1) false in
  c' = qc 750 1 -ₛ RING_MOD_CARRIER_DELTA ∧
  (pos' ≠ false ↔ ring_hi <ₛ c' ∨ c' <ₛ ring_lo) ∧
  ring_ok (c', pos').
Proof.
  apply (ring_mod_next_spec (CFG:=small_config) (CO:=small_config_ok) (qc 750 1) false).
  by vm_compute.
Defined.

(** C34: the carrier does leave the band.  In the shipped configuration
    (blocks of 256 samples at 16 kHz, a step of 3.2 Hz), 157 blocks after the
    ring modulator is selected in the initial state the carrier is below
    [CENTER - WIDTH/2]. *)
Theorem ring_mod_overshoot (ins : list (test2_in Qc)) :
  Forall (quiet_in (CFG:=board_config)) ins → length ins = 157%nat →
  ∃ st os,
    run (example_test2 (CFG:=board_config))
      (set_effect (test2_init (CFG:=board_config)) test2_effect_ringmod) ins
      = Some (st, os) ∧
    ring_mod_carrier st <ₛ ring_lo.
Proof.
  intros Hq Hlen.
  destruct (ringmod_blocks_run (CFG:=board_config) ins
    (set_effect (test2_init (CFG:=board_config)) test2_effect_ringmod))
    as (st & os & Hrun & _ & _ & Hc);
    try done.
  { destruct (test2_init_inv (A:=Qc) (CFG:=board_config)). by split. }
  exists st, os. split; [done|].
  rewrite Hlen in Hc.
  replace (ring_mod_carrier st) with (carrier_of st).1 by done. rewrite Hc.
  by vm_compute.
Qed.

Definition board_quiet_block : test2_in Qc :=
  Test2In (replicate 256 (qc 1 2)) (replicate 256 (qc 1 3)) (replicate 256 (qc 1 1)) None.

Lemma ring_mod_overshoot_witness :
  ∃ st os,
    run (example_test2 (CFG:=board_config))
      (set_effect (test2_init (CFG:=board_config)) test2_effect_ringmod)
      (replicate 157 board_quiet_block) = Some (st, os) ∧
    ring_mod_carrier st <ₛ ring_lo.
Proof.
  apply (ring_mod_overshoot (replicate 157 board_quiet_block)).
  - apply Forall_replicate. by repeat split.
  - apply length_replicate.
Defined.

(** * The sweep turns round *)

Section Turn.
Context {A : Type} {SA : Scalar A} {SL : ScalarLaws A} {CFG : Config} {CO : ConfigOk}.
Add Field ringmod_turn_field : s_field.
Implicit Types (st : test2_state A) (c : A) (n k : nat) (s : A * bool).

Lemma sofZ_S n : sofZ (Z.of_nat (S n)) = sofZ (Z.of_nat n) +ₛ s1 :> A.
Proof. by rewrite Nat2Z.inj_succ, <- Z.add_1_r, sofZ_add, sofZ_1. Qed.

(** Going down from inside the band, the direction has changed by the
    time [n] steps would bring the carrier below the band. *)
Lemma ring_descends n : ∀ c,
  ring_lo ≤ₛ c → c -ₛ sofZ (Z.of_nat n) *ₛ RING_MOD_CARRIER_DELTA <ₛ ring_lo →
  ∃ k, (k ≤ n)%nat ∧ (Nat.iter k ring_step (c, false)).2 = true.
Proof.
  induction n as [|n IH]; intros c Hc Hn.
  { exfalso. rewrite sofZ_0 in Hn.
    replace (c -ₛ s0 *ₛ RING_MOD_CARRIER_DELTA) with c in Hn by ring. congruence. }
  assert (ring_step (c, false) =
    (c -ₛ RING_MOD_CARRIER_DELTA, sltb (c -ₛ RING_MOD_CARRIER_DELTA) ring_lo)) as Hstep.
  { unfold ring_step, ring_mod_next. simpl. fold (ring_lo (A:=A)). by case_match. }
  destruct (sltb (c -ₛ RING_MOD_CARRIER_DELTA) ring_lo) eqn:E.
  - exists 1%nat. split; [lia|]. by rewrite Nat.iter_succ_r, Hstep.
  - destruct (IH (c -ₛ RING_MOD_CARRIER_DELTA)) as (k & Hk & Hflip); [done| |].
    { rewrite sofZ_S in Hn.
      by replace (c -ₛ RING_MOD_CARRIER_DELTA -ₛ sofZ (Z.of_nat n) *ₛ RING_MOD_CARRIER_DELTA)
        with (c -ₛ (sofZ (Z.of_nat n) +ₛ s1) *ₛ RING_MOD_CARRIER_DELTA) by ring. }
    exists (S k). split; [lia|]. by rewrite Nat.iter_succ_r, Hstep.
Qed.

Lemma ring_ascends n : ∀ c,
  c ≤ₛ ring_hi → ring_hi <ₛ c +ₛ sofZ (Z.of_nat n) *ₛ RING_MOD_CARRIER_DELTA →
  ∃ k, (k ≤ n)%nat ∧ (Nat.iter k ring_step (c, true)).2 = false.
Proof.
  induction n as [|n IH]; intros c Hc Hn.
  { exfalso. rewrite sofZ_0 in Hn.
    replace (c +ₛ s0 *ₛ RING_MOD_CARRIER_DELTA) with c in Hn by ring. congruence. }
  assert (ring_step (c, true) =
    (c +ₛ RING_MOD_CARRIER_DELTA, negb (sltb ring_hi (c +ₛ RING_MOD_CARRIER_DELTA)))) as Hstep.
  { unfold ring_step, ring_mod_next. simpl. fold (ring_hi (A:=A)). by case_match. }
  destruct (sltb ring_hi (c +ₛ RING_MOD_CARRIER_DELTA)) eqn:E.
  - exists 1%nat. split; [lia|]. by rewrite Nat.iter_succ_r, Hstep.
  - destruct (IH (c +ₛ RING_MOD_CARRIER_DELTA)) as (k & Hk & Hflip); [done| |].
    { rewrite sofZ_S in Hn.
      by replace (c +ₛ RING_MOD_CARRIER_DELTA +ₛ sofZ (Z.of_nat n) *ₛ RING_MOD_CARRIER_DELTA)
        with (c +ₛ (sofZ (Z.of_nat n) +ₛ s1) *ₛ RING_MOD_CARRIER_DELTA) by ring. }
    exists (S k). split; [lia|]. by rewrite Nat.iter_succ_r, Hstep.
Qed.

(** From any state of the sweep the direction changes within [n] steps,
    for any [n] whose steps span the band and one step more. *)
Lemma ring_turns s n :
  ring_ok s →
  (ring_hi : A) -ₛ ring_lo +ₛ RING_MOD_CARRIER_DELTA
    <ₛ sofZ (Z.of_nat n) *ₛ RING_MOD_CARRIER_DELTA →
  ∃ k, (k ≤ n)%nat ∧ (Nat.iter k ring_step s).2 = negb s.2.
Proof.
  destruct s as [c [|]]; intros (H1 & H2 & H3 & H4) Hn; simpl in *.
  - apply ring_ascends; [by apply H3|].
    s_by (sofZ (Z.of_nat n) *ₛ RING_MOD_CARRIER_DELTA
            -ₛ (ring_hi -ₛ ring_lo +ₛ RING_MOD_CARRIER_DELTA)
          +ₛ (c -ₛ (ring_lo -ₛ RING_MOD_CARRIER_DELTA))).
  - apply ring_descends; [by apply H4|].
    s_by (sofZ (Z.of_nat n) *ₛ RING_MOD_CARRIER_DELTA
            -ₛ (ring_hi -ₛ ring_lo +ₛ RING_MOD_CARRIER_DELTA)
          +ₛ (ring_hi +ₛ RING_MOD_CARRIER_DELTA -ₛ c)).
Qed.

(** C21: the sweep of the carrier always turns round.  With the ring
    modulator selected and no key pressed, whatever the carrier and the
    direction of a state of the sweep, the direction has changed after at
    most [n] blocks, for any [n] with
    [n * DELTA > WIDTH + DELTA]: the carrier never runs away. *)
Theorem ring_mod_sweep_turns st (ins : list (test2_in A)) :
  test2_inv st → ring_ok (carrier_of st) →
  curr_effect st = test2_effect_ringmod → Forall quiet_in ins →
  (ring_hi : A) -ₛ ring_lo +ₛ RING_MOD_CARRIER_DELTA
    <ₛ sofZ (Z.of_nat (length ins)) *ₛ RING_MOD_CARRIER_DELTA →
  ∃ k st' os, (k ≤ length ins)%nat ∧
    run example_test2 st (take k ins) = Some (st', os) ∧
    ring_mod_carrier_pos st' = negb (ring_mod_carrier_pos st).
Proof.
  intros Hinv Hok He Hq Hn.
  destruct (ring_turns _ _ Hok Hn) as (k & Hk & Hflip).
  destruct (ringmod_blocks_run (take k ins) st Hinv He) as (st' & os & Hrun & _ & _ & Hc);
    [by apply Forall_take|].
  exists k, st', os. split_and!; [done..|].
  rewrite length_take, Nat.min_l in Hc by done.
  change (ring_mod_carrier_pos st') with (carrier_of st').2. by rewrite Hc.
Qed.

End Turn.

Lemma ring_mod_sweep_turns_witness :
  ∃ k st' os, (k ≤ length (replicate 314 board_quiet_block))%nat ∧
    run (example_test2 (CFG:=board_config))
      (set_effect (test2_init (CFG:=board_config)) test2_effect_ringmod)
      (take k (replicate 314 board_quiet_block)) = Some (st', os) ∧
    ring_mod_carrier_pos st' =
      negb (ring_mod_carrier_pos
              (set_effect (test2_init (A:=Qc) (CFG:=board_config)) test2_effect_ringmod)).
Proof.
  apply (ring_mod_sweep_turns (CFG:=board_config)
           (set_effect (test2_init (CFG:=board_config)) test2_effect_ringmod)
           (replicate 314 board_quiet_block)).
  - destruct (test2_init_inv (A:=Qc) (CFG:=board_config)). by split.
  - apply (ring_center_ok (CFG:=board_config) (CO:=board_config_ok)).
  - done.
  - apply Forall_replicate. by repeat split.
  - by vm_compute.
Defined.
