(* ===== verification/Qpsk.v ===== *)
(** * Qpsk: the modem of SYSMODE_TEST4

    [example_test4] sends one symbol of a fixed 64-symbol message per block
    after a button press, as a sum of a scaled cosine and a scaled sine
    block, and while its receive window is open compares the microphone
    block with the four possible symbols and reports the best match.  The
    button handler runs in interrupt context and only sets a flag, so a run
    of the mode is a sequence of events, button presses and blocks
    ([test4_step]). *)

From Stdlib Require Import Field Qcanon.
From S2P Require Import Prelude Scalar Numerics Board.

(** [enum qpsk_sym_e] (line 381). *)
Inductive qpsk_sym_e :=
  | qpsk_sym_0
  | qpsk_sym_1
  | qpsk_sym_2
  | qpsk_sym_3
  | QPSK_SYM_NUM.

#[export] Instance qpsk_sym_eq_dec : EqDecision qpsk_sym_e.
Proof. solve_decision. Defined.

Definition QPSK_CARRIER_Hz : Z := 500.
Definition QPSK_MSG_LEN : nat := 64.

(** The lines the handlers of this mode print. *)
Inductive test4_msg :=
  | msg_rx_enabled
  | msg_rx_disabled
  | msg_rx (sym : qpsk_sym_e)
  | msg_rx_err
  | msg_transmitting.

#[export] Instance test4_msg_eq_dec : EqDecision test4_msg.
Proof. solve_decision. Defined.

(** The symbols a block can carry, in the order of the detector's loop. *)
Definition qpsk_symbols : list qpsk_sym_e :=
  [qpsk_sym_0; qpsk_sym_1; qpsk_sym_2; qpsk_sym_3].

Section Test4.
Context {A : Type} {SA : Scalar A} {CFG : Config}.

(** [M_SQRT1_2] of [math.h] as the [float] the handler stores it in:
    [0x3F3504F3], that is 11863283 / 2^24. *)
Definition M_SQRT1_2 : A := sofZ 11863283 /ₛ sofZ 16777216.

(** [S2US(QPSK_RX_ENABLETIME_s)]: the receive window is as long as the
    message (line 370). *)
Definition QPSK_RX_ENABLETIME_us : Z := Z.of_nat QPSK_MSG_LEN * AUDIO_BLOCKTIME_us.

(** The globals of the mode (lines 373-383) and the static locals of
    [example_test4] (lines 417-418).  The static [qpsk_newmsg] is written
    before it is read in every call and so is a local of the model. *)
Record test4_state := Test4State {
  qpsk_newmsg_g : bool;
  cos_ref : list A;
  sin_ref : list A;
  receiver_timer : systime_t;
  qpsk_msg : list qpsk_sym_e;
  enable_receiver : bool;
  curr_symbol : Z;
}.

Definition set_newmsg_g (st : test4_state) (b : bool) : test4_state :=
  Test4State b (cos_ref st) (sin_ref st) (receiver_timer st) (qpsk_msg st)
    (enable_receiver st) (curr_symbol st).

Definition set_curr_symbol (st : test4_state) (c : Z) : test4_state :=
  Test4State (qpsk_newmsg_g st) (cos_ref st) (sin_ref st) (receiver_timer st)
    (qpsk_msg st) (enable_receiver st) c.

Definition set_receiver (st : test4_state) (t : systime_t) (en : bool) : test4_state :=
  Test4State (qpsk_newmsg_g st) (cos_ref st) (sin_ref st) t (qpsk_msg st)
    en (curr_symbol st).

(** The body of the initialisation loop (lines 389-402): the symbol stored
    at index [i]. *)
Definition init_symbol (i : nat) : qpsk_sym_e :=
  match (i mod 4)%nat with
  | 0%nat => qpsk_sym_0
  | 1%nat => qpsk_sym_1
  | 2%nat => qpsk_sym_2
  | _ => qpsk_sym_3
  end.

(** [example_test4_init] (lines 385-409).  The two reference blocks are what
    [blocks_gen_sin] and [blocks_gen_cos] write for the carrier frequency;
    [now] is the clock reading of [systime_get_delay(0)]. *)
Definition example_test4_init (sin_blk cos_blk : list A) (now : systime_t) :
    test4_state := {|
  qpsk_newmsg_g := false;
  cos_ref := cos_blk;
  sin_ref := sin_blk;
  receiver_timer := systime_get_delay now 0;
  qpsk_msg := init_symbol <$> seq 0 QPSK_MSG_LEN;
  enable_receiver := false;
  curr_symbol := -1;
|}.

(** [example_test4_btnpress] (lines 580-583). *)
Definition example_test4_btnpress (st : test4_state) : test4_state * list test4_msg :=
  (set_newmsg_g st true, [msg_transmitting]).

(** The in-phase scale of a symbol (lines 442-447). *)
Definition inphase_scale (sym : qpsk_sym_e) : A :=
  if bool_decide (sym = qpsk_sym_0 ∨ sym = qpsk_sym_1) then M_SQRT1_2
  else -ₛ M_SQRT1_2.

(** The quadrature-phase scale of a symbol (lines 450-455). *)
Definition quadphase_scale (sym : qpsk_sym_e) : A :=
  if bool_decide (sym = qpsk_sym_1 ∨ sym = qpsk_sym_3) then M_SQRT1_2
  else -ₛ M_SQRT1_2.

(** The signal of a pair of scales (lines 461-465, and 544 in the detector):
    the scaled cosine block plus the scaled sine block. *)
Definition qpsk_signal (cos_blk sin_blk : list A) (i q : A) : list A :=
  let inphase := arm_scale_f32 cos_blk i AUDIO_BLOCKSIZE in
  let quadphase := arm_scale_f32 sin_blk q AUDIO_BLOCKSIZE in
  arm_add_f32 inphase quadphase AUDIO_BLOCKSIZE.

(** A new message is requested (lines 421-424). *)
Definition test4_arm (st : test4_state) (now : systime_t) :
    test4_state * list test4_msg :=
  let st := set_curr_symbol st 0 in
  (set_receiver st (systime_get_delay now QPSK_RX_ENABLETIME_us) true,
   [msg_rx_enabled]).

(** The output block (lines 427-469): the symbol at the cursor, or
    silence. *)
Definition test4_transmit (st : test4_state) : option (list A) :=
  if bool_decide (0 ≤ curr_symbol st) then
    sym ← load (qpsk_msg st) (curr_symbol st);
    Some (qpsk_signal (cos_ref st) (sin_ref st)
            (inphase_scale sym) (quadphase_scale sym))
  else Some (arm_fill_f32 s0 AUDIO_BLOCKSIZE).

(** The cursor update (lines 478-484). *)
Definition test4_advance (curr : Z) : Z :=
  if bool_decide (0 ≤ curr) then
    if bool_decide (Z.of_nat QPSK_MSG_LEN - 1 ≤ curr) then -1 else curr + 1
  else curr.

(** The scales of a candidate (lines 522-542); the default case leaves the
    candidate arrays unwritten. *)
Definition candidate_scales (sym : qpsk_sym_e) : option (A * A) :=
  match sym with
  | qpsk_sym_0 => Some (M_SQRT1_2, -ₛ M_SQRT1_2)
  | qpsk_sym_1 => Some (M_SQRT1_2, M_SQRT1_2)
  | qpsk_sym_2 => Some (-ₛ M_SQRT1_2, -ₛ M_SQRT1_2)
  | qpsk_sym_3 => Some (-ₛ M_SQRT1_2, M_SQRT1_2)
  | QPSK_SYM_NUM => None
  end.

(** The score of a candidate (lines 543-551): the mean magnitude of the sum
    of the candidate's signal and the microphone block. *)
Definition candidate_pwr (st : test4_state) (micinp : list A)
    (sym : qpsk_sym_e) : option A :=
  '(i, q) ← candidate_scales sym;
  let candidate_sig := qpsk_signal (cos_ref st) (sin_ref st) i q in
  let sig_pwr := arm_add_f32 candidate_sig micinp AUDIO_BLOCKSIZE in
  let sig_pwr_abs := arm_abs_f32 sig_pwr AUDIO_BLOCKSIZE in
  Some (vector_mean sig_pwr_abs AUDIO_BLOCKSIZE).

(** The comparison of lines 552-555 on the pair [(max_pwr, best_sym)];
    [None] is the initial [-INFINITY], which every score exceeds. *)
Definition detect_update (acc : option A * qpsk_sym_e) (sym : qpsk_sym_e)
    (candidate : A) : option A * qpsk_sym_e :=
  match acc.1 with
  | Some max_pwr => if sgtb candidate max_pwr then (Some candidate, sym) else acc
  | None => (Some candidate, sym)
  end.

(** The detector's loop (lines 507-556) over the symbols still to try. *)
Fixpoint detect_loop (st : test4_state) (micinp : list A)
    (syms : list qpsk_sym_e) (acc : option A * qpsk_sym_e) :
    option (option A * qpsk_sym_e) :=
  match syms with
  | [] => Some acc
  | sym :: syms' =>
      candidate ← candidate_pwr st micinp sym;
      detect_loop st micinp syms' (detect_update acc sym candidate)
  end.

(** Lines 504-556: the best symbol of a microphone block. *)
Definition qpsk_detect (st : test4_state) (micinp : list A) : option qpsk_sym_e :=
  snd <$> detect_loop st micinp qpsk_symbols (None, QPSK_SYM_NUM).

(** The report of the decoded symbol (lines 558-575). *)
Definition rx_report (best_sym : qpsk_sym_e) : test4_msg :=
  match best_sym with
  | QPSK_SYM_NUM => msg_rx_err
  | sym => msg_rx sym
  end.

(** The receiver (lines 487-577).  The timer is read twice: [now1] is the
    reading of the outer test, [now2] that of the inner one. *)
Definition test4_receive (st : test4_state) (micinp : list A)
    (now1 now2 : systime_t) : option (test4_state * list test4_msg) :=
  if enable_receiver st && negb (systime_get_delay_passed now1 (receiver_timer st)) then
    if systime_get_delay_passed now2 (receiver_timer st) then
      Some (set_receiver st (receiver_timer st) false, [msg_rx_disabled])
    else
      best_sym ← qpsk_detect st micinp;
      Some (st, [rx_report best_sym])
  else Some (st, []).

(** What one call reads: the microphone block and the clock, at the three
    places the handler reads it (lines 422, 487 and 488). *)
Record test4_in := Test4In {
  rx_mic : list A;
  now_arm : systime_t;
  now_check : systime_t;
  now_check2 : systime_t;
}.

(** [example_test4] (lines 411-578). *)
Definition example_test4 (st : test4_state) (i : test4_in) :
    option (test4_state * block_out A test4_msg) :=
  let qpsk_newmsg := qpsk_newmsg_g st in
  let st := set_newmsg_g st false in
  let '(st, log1) := if qpsk_newmsg then test4_arm st (now_arm i) else (st, []) in
  output ← test4_transmit st;
  let zeros := arm_fill_f32 s0 AUDIO_BLOCKSIZE in
  let st := set_curr_symbol st (test4_advance (curr_symbol st)) in
  '(st, log2) ← test4_receive st (rx_mic i) (now_check i) (now_check2 i);
  Some (st, BlockOut output zeros (log1 ++ log2)).

(** An event of the mode: the button interrupt, or a block period. *)
Inductive test4_event :=
  | ev_button
  | ev_block (i : test4_in).

(** What an event produces: the lines of the button handler, or a block. *)
Definition test4_step (st : test4_state) (ev : test4_event) :
    option (test4_state * block_out A test4_msg) :=
  match ev with
  | ev_button =>
      let '(st', log) := example_test4_btnpress st in
      Some (st', BlockOut [] [] log)
  | ev_block i => example_test4 st i
  end.

End Test4.

Arguments test4_state : clear implicits.
Arguments test4_in : clear implicits.
Arguments test4_event : clear implicits.

(** [solve_notin] proves that a line is not in an explicit log. *)
Ltac solve_notin :=
  repeat (apply not_elem_of_cons; split; [done|]); apply not_elem_of_nil.

(** * The state machine of the transmitter *)

Section Test4Inv.
Context {A : Type} {SA : Scalar A} {CFG : Config}.
Implicit Types (st : test4_state A) (i : test4_in A).

(** The invariant of the mode: the message has [QPSK_MSG_LEN] symbols, the
    cursor is [-1] or an index of the message, and the reference blocks
    have the block size. *)
Record test4_inv st : Prop := {
  t4_msg_len : length (qpsk_msg st) = QPSK_MSG_LEN;
  t4_cursor : -1 ≤ curr_symbol st < Z.of_nat QPSK_MSG_LEN;
  t4_cos : is_block (cos_ref st);
  t4_sin : is_block (sin_ref st);
}.

(** The silent block. *)
Definition silence : list A := arm_fill_f32 s0 AUDIO_BLOCKSIZE.

(** The cursor a call starts from: 0 when a new message is requested. *)
Definition start_symbol st : Z :=
  if qpsk_newmsg_g st then 0 else curr_symbol st.

(** The transmitter's part of the state, which the receiver never writes. *)
Definition tx_view st : list A * list A * list qpsk_sym_e * Z * systime_t * bool :=
  (cos_ref st, sin_ref st, qpsk_msg st, curr_symbol st, receiver_timer st,
   qpsk_newmsg_g st).

Lemma length_qpsk_signal (c s : list A) (x y : A) :
  is_block c → is_block s → is_block (qpsk_signal c s x y).
Proof.
  unfold is_block, qpsk_signal. intros Hc Hs.
  rewrite length_arm_add; rewrite ?length_arm_scale; lia.
Qed.

Lemma test4_advance_range c :
  -1 ≤ c < Z.of_nat QPSK_MSG_LEN → -1 ≤ test4_advance c < Z.of_nat QPSK_MSG_LEN.
Proof. unfold test4_advance, QPSK_MSG_LEN. intros Hc. repeat case_bool_decide; lia. Qed.

Lemma detect_update_sym acc sym (p : A) :
  (detect_update acc sym p).2 = sym ∨ detect_update acc sym p = acc.
Proof. unfold detect_update. repeat case_match; auto. Qed.

(** The detector is defined on every block and decides for a symbol. *)
Lemma qpsk_detect_total st (mic : list A) :
  ∃ sym, qpsk_detect st mic = Some sym ∧ sym ≠ QPSK_SYM_NUM.
Proof.
  unfold qpsk_detect, qpsk_symbols. simpl. eexists; split; [done|].
  change (detect_update (None, QPSK_SYM_NUM) qpsk_sym_0 ?p) with (Some p, qpsk_sym_0).
  repeat match goal with
  | |- context [detect_update ?a ?s ?p] =>
      destruct (detect_update_sym a s p) as [-> | ->]
  end; by simpl.
Qed.

Lemma rx_report_symbol sym : sym ≠ QPSK_SYM_NUM → rx_report sym = msg_rx sym.
Proof. by destruct sym. Qed.

(** The receiver is defined, leaves the transmitter's state alone and never
    reports an error. *)
Lemma test4_receive_view st (mic : list A) n1 n2 :
  ∃ st' log, test4_receive st mic n1 n2 = Some (st', log) ∧
             tx_view st' = tx_view st ∧ msg_rx_err ∉ log.
Proof.
  unfold test4_receive. destruct (qpsk_detect_total st mic) as (sym & -> & Hs).
  repeat case_match; simpl; eexists _, _; split_and!; try done;
    rewrite ?rx_report_symbol by done; solve_notin.
Qed.

(** One call, from a state that satisfies the invariant: the output is the
    block of the starting cursor, the cursor advances, the request flag is
    consumed and the deadline is set when a message starts. *)
Lemma example_test4_spec st i :
  test4_inv st →
  ∃ st' o, example_test4 st i = Some (st', o) ∧
    test4_transmit (set_curr_symbol st (start_symbol st)) = Some (out_left o) ∧
    out_right o = silence ∧
    curr_symbol st' = test4_advance (start_symbol st) ∧
    qpsk_newmsg_g st' = false ∧
    receiver_timer st' =
      (if qpsk_newmsg_g st then systime_get_delay (now_arm i) QPSK_RX_ENABLETIME_us
       else receiver_timer st) ∧
    (cos_ref st', sin_ref st', qpsk_msg st') = (cos_ref st, sin_ref st, qpsk_msg st) ∧
    msg_rx_err ∉ out_log o.
Proof.
  intros [Hlen Hcur Hc Hs]. unfold example_test4, start_symbol.
  set (st1 := (if qpsk_newmsg_g st then _ else _)).
  assert (∃ sta log, st1 = (sta, log) ∧ (msg_rx_err ∉ log) ∧
    tx_view sta = (cos_ref st, sin_ref st, qpsk_msg st,
      (if qpsk_newmsg_g st then 0 else curr_symbol st),
      (if qpsk_newmsg_g st then systime_get_delay (now_arm i) QPSK_RX_ENABLETIME_us
       else receiver_timer st), false)) as (sta & log & -> & Hlog & Hv).
  { subst st1. destruct (qpsk_newmsg_g st); eexists _, _; split_and!; try done;
      solve_notin. }
  injection Hv as Hv1 Hv2 Hv3 Hv4 Hv5 Hv6.
  assert (∃ out, test4_transmit sta = Some out ∧
    test4_transmit (set_curr_symbol st (if qpsk_newmsg_g st then 0 else curr_symbol st))
      = Some out) as (out & Hout & Hout').
  { unfold test4_transmit. simpl. rewrite Hv1, Hv2, Hv3, Hv4.
    case_bool_decide; [|by eexists].
    destruct (load_Some (qpsk_msg st) (if qpsk_newmsg_g st then 0 else curr_symbol st))
      as [sym ->]; [|by eexists].
    unfold in_bounds. rewrite Hlen. unfold QPSK_MSG_LEN in *.
    destruct (qpsk_newmsg_g st); lia. }
  rewrite Hout. simpl.
  destruct (test4_receive_view (set_curr_symbol sta (test4_advance (curr_symbol sta)))
              (rx_mic i) (now_check i) (now_check2 i)) as (st' & log2 & -> & Hv' & Hlog2).
  injection Hv' as Hw1 Hw2 Hw3 Hw4 Hw5 Hw6. simpl in *.
  eexists _, _. split; [done|]. simpl.
  split_and!; try done; try congruence.
  rewrite elem_of_app. tauto.
Qed.

Lemma example_test4_inv st i :
  test4_inv st →
  ∃ st' o, example_test4 st i = Some (st', o) ∧ test4_inv st' ∧
           (msg_rx_err ∉ out_log o) ∧ is_block (out_left o) ∧ is_block (out_right o).
Proof.
  intros Hinv. destruct (example_test4_spec st i Hinv)
    as (st' & o & Hrun & Hout & Hr & Hcur & _ & _ & Href & Hlog).
  destruct Hinv as [Hlen Hc Hcos Hsin]. injection Href as Hr1 Hr2 Hr3.
  exists st', o. split; [done|]. split_and!; [|done| |].
  - split; rewrite ?Hr1, ?Hr2, ?Hr3, ?Hcur; try done.
    apply test4_advance_range. unfold start_symbol, QPSK_MSG_LEN.
    destruct (qpsk_newmsg_g st); [lia|done].
  - unfold test4_transmit in Hout. simpl in Hout.
    case_bool_decide; [|injection Hout as <-; apply length_arm_fill].
    destruct (load _ _); simplify_eq/=. rewrite <- Hout. by apply length_qpsk_signal.
  - rewrite Hr. apply length_arm_fill.
Qed.

Lemma test4_init_inv (sin_blk cos_blk : list A) now :
  is_block sin_blk → is_block cos_blk →
  test4_inv (example_test4_init sin_blk cos_blk now).
Proof.
  intros Hs Hc.
  split; simpl; rewrite ?length_fmap, ?length_seq; unfold QPSK_MSG_LEN; try done; lia.
Qed.

Lemma test4_btnpress_inv st :
  test4_inv st → test4_inv (example_test4_btnpress st).1.
Proof. by intros []. Qed.

End Test4Inv.

(** What an event writes is well formed: a block event writes two blocks of
    the block size and never the error report. *)
Definition good_output {A : Type} {CFG : Config} (ev : test4_event A)
    (o : block_out A test4_msg) : Prop :=
  (msg_rx_err ∉ out_log o) ∧
  match ev with
  | ev_button => True
  | ev_block _ => is_block (out_left o) ∧ is_block (out_right o)
  end.

(** Along every sequence of button presses and blocks from the initial
    state the handlers are defined (the message is never indexed out of
    range), the invariant holds at the end, every block event writes two
    blocks of the block size, and the error report of the detector's default
    case is never printed. *)
Theorem test4_run_safe {A : Type} {SA : Scalar A} {CFG : Config}
    (sin_blk cos_blk : list A) (now : systime_t) (evs : list (test4_event A)) :
  is_block sin_blk → is_block cos_blk →
  ∃ st os,
    run test4_step (example_test4_init sin_blk cos_blk now) evs = Some (st, os) ∧
    test4_inv st ∧ length os = length evs ∧
    ∀ k ev o, evs !! k = Some ev → os !! k = Some o → good_output ev o.
Proof.
  intros Hs Hc.
  destruct (run_indexed test4_step (λ _, test4_inv)
              (λ k o, ∀ ev, evs !! k = Some ev → good_output ev o) evs)
    with (s := example_test4_init sin_blk cos_blk now)
    as (st & os & Hrun & Hinv & Hlen & Hgood); [|by apply test4_init_inv|].
  - intros k st [|i] Hk Hinv; simpl.
    + eexists _, _. split_and!; [done|by apply test4_btnpress_inv|].
      intros ev ?; simplify_eq. split; [solve_notin|done].
    + destruct (example_test4_inv st i Hinv) as (st' & o & -> & ? & ? & ? & ?).
      eexists _, _. split_and!; [done..|]. intros ev ?; simplify_eq. by split.
  - exists st, os. split_and!; try done. intros k ev o Hev Ho. by eapply Hgood.
Qed.

Lemma test4_run_safe_witness :
  ∃ st os,
    run (test4_step (CFG:=small_config))
      (example_test4_init [qc 0 1; qc 1 1; qc 0 1; qc (-1) 1]
         [qc 1 1; qc 0 1; qc (-1) 1; qc 0 1] 0)
      [ev_block (Test4In [] 0 0 0); ev_button; ev_block (Test4In [] 1 1 1)]
      = Some (st, os) ∧
    test4_inv (CFG:=small_config) st ∧ length os = 3%nat ∧
    ∀ k ev o,
      [ev_block (Test4In [] 0 0 0); ev_button; ev_block (Test4In [] 1 1 1)] !! k
        = Some ev →
      os !! k = Some o → good_output (CFG:=small_config) ev o.
Proof. by apply (test4_run_safe (CFG:=small_config)). Defined.

(** * The transmitted message *)

Section Transmit.
Context {A : Type} {SA : Scalar A} {CFG : Config}.
Implicit Types (st : test4_state A) (i : test4_in A).

(** The block that carries a symbol. *)
Definition symbol_block st (sym : qpsk_sym_e) : list A :=
  qpsk_signal (cos_ref st) (sin_ref st) (inphase_scale sym) (quadphase_scale sym).

(** The cursor before block [k] of a transmission. *)
Definition cursor_at (k : nat) : Z :=
  if bool_decide (k < QPSK_MSG_LEN)%nat then Z.of_nat k else -1.

(** The state before block [k] of a transmission started from [st0]: the
    request is pending before the first block, and the cursor counts the
    blocks afterwards. *)
Definition sending (st0 : test4_state A) (k : nat) st : Prop :=
  test4_inv st ∧
  (cos_ref st, sin_ref st, qpsk_msg st) = (cos_ref st0, sin_ref st0, qpsk_msg st0) ∧
  match k with
  | O => qpsk_newmsg_g st = true
  | S _ => qpsk_newmsg_g st = false ∧ curr_symbol st = cursor_at k
  end.

Lemma cursor_at_advance k : test4_advance (cursor_at k) = cursor_at (S k).
Proof.
  unfold test4_advance, cursor_at, QPSK_MSG_LEN.
  repeat case_bool_decide; lia.
Qed.

Lemma sending_start st0 k st : sending st0 k st → start_symbol st = cursor_at k.
Proof.
  intros (_ & _ & Hk). unfold start_symbol. destruct k as [|k].
  - by rewrite Hk.
  - destruct Hk as [-> ->]. done.
Qed.

Lemma test4_transmit_at st k :
  test4_inv st →
  test4_transmit (set_curr_symbol st (cursor_at k)) =
    Some (from_option (symbol_block st) silence (qpsk_msg st !! k)).
Proof.
  intros [Hlen _ _ _]. unfold cursor_at.
  case_bool_decide as Hk; unfold test4_transmit; simpl.
  - rewrite bool_decide_true by lia. unfold load.
    rewrite decide_True by (unfold in_bounds; lia). rewrite Nat2Z.id.
    destruct (lookup_lt_is_Some_2 (qpsk_msg st) k) as [sym ->]; [lia|done].
  - rewrite lookup_ge_None_2 by lia. done.
Qed.

(** One block of a transmission. *)
Lemma sending_step st0 k st i :
  sending st0 k st →
  ∃ st' o, example_test4 st i = Some (st', o) ∧ sending st0 (S k) st' ∧
    out_left o = from_option (symbol_block st0) silence (qpsk_msg st0 !! k) ∧
    out_right o = silence.
Proof.
  intros Hs. pose proof Hs as (Hinv & Href & _). injection Href as Hc0 Hs0 Hm0.
  destruct (example_test4_inv st i Hinv) as (st' & o & Hrun & Hinv' & _).
  destruct (example_test4_spec st i Hinv)
    as (st2 & o2 & Hrun2 & Hout & Hr & Hcur & Hflag & _ & Href' & _).
  rewrite Hrun in Hrun2. injection Hrun2 as <- <-. injection Href' as Hc1 Hs1 Hm1.
  rewrite (sending_start st0 k) in * by done.
  rewrite test4_transmit_at in Hout by done. injection Hout as Hout.
  exists st', o. split_and!; try done.
  - split_and!; [done|congruence|done|by rewrite <- cursor_at_advance].
  - rewrite <- Hout, Hm0. unfold symbol_block. by rewrite Hc0, Hs0.
Qed.

End Transmit.

(** C4: after a button press, whatever the microphone and the clock do,
    block [k] of the following blocks carries symbol [k] of the message on
    the left channel for [k < QPSK_MSG_LEN] and silence afterwards, the
    right channel is silent throughout, and the cursor is back at [-1] once
    the message has been sent. *)
Theorem test4_transmits_message {A : Type} {SA : Scalar A} {CFG : Config}
    (st : test4_state A) (ins : list (test4_in A)) :
  test4_inv st →
  ∃ st' os,
    run example_test4 (example_test4_btnpress st).1 ins = Some (st', os) ∧
    length os = length ins ∧
    (∀ k o, os !! k = Some o →
       out_left o = from_option (symbol_block st) silence (qpsk_msg st !! k) ∧
       out_right o = silence) ∧
    ((QPSK_MSG_LEN ≤ length ins)%nat → curr_symbol st' = -1).
Proof.
  intros Hinv.
  destruct (run_indexed example_test4 (sending st)
    (λ k o, out_left o = from_option (symbol_block st) silence (qpsk_msg st !! k) ∧
            out_right o = silence) ins)
    with (s := (example_test4_btnpress st).1)
    as (st' & os & Hrun & Hs & Hlen & Hout).
  - intros k s i _ Hs. destruct (sending_step st k s i Hs) as (s' & o & ? & ? & ? & ?).
    by exists s', o.
  - split_and!; [by apply test4_btnpress_inv|done..].
  - exists st', os. split_and!; try done. intros Hn.
    destruct Hs as (_ & _ & Hk). destruct (length ins); [unfold QPSK_MSG_LEN in Hn; lia|].
    destruct Hk as [_ ->]. unfold cursor_at. by rewrite bool_decide_false by lia.
Qed.

Definition demo_state : test4_state Qc :=
  example_test4_init [qc 0 1; qc 1 1; qc 0 1; qc (-1) 1]
    [qc 1 1; qc 0 1; qc (-1) 1; qc 0 1] 0.

Definition demo_in (t : Z) : test4_in Qc := Test4In [] t t t.

Lemma test4_transmits_message_witness :
  ∃ st' os,
    run (example_test4 (CFG:=small_config)) (example_test4_btnpress demo_state).1
      [demo_in 0; demo_in 250] = Some (st', os) ∧
    length os = 2%nat ∧
    (∀ k o, os !! k = Some o →
       out_left o = from_option (symbol_block (CFG:=small_config) demo_state)
                      (silence (CFG:=small_config)) (qpsk_msg demo_state !! k) ∧
       out_right o = silence (CFG:=small_config)) ∧
    ((QPSK_MSG_LEN ≤ 2)%nat → curr_symbol st' = -1).
Proof.
  apply (test4_transmits_message (CFG:=small_config) demo_state [demo_in 0; demo_in 250]).
  by apply test4_init_inv.
Defined.

(** * The receive window *)

Section Window.
Context {A : Type} {SA : Scalar A} {CFG : Config}.
Implicit Types (st : test4_state A) (i : test4_in A).

(** The deadline in force during a call: the one set by this call when a
    message starts, else the stored one. *)
Definition deadline st i : systime_t :=
  if qpsk_newmsg_g st then systime_get_delay (now_arm i) QPSK_RX_ENABLETIME_us
  else receiver_timer st.

(** The outer test of the receiver (line 487) in terms of the state before
    the call. *)
Definition rx_open st i : bool :=
  (enable_receiver st || qpsk_newmsg_g st) && bool_decide (now_check i < deadline st i).

(** The inner test (line 488): the deadline is reached at the second
    reading of the clock. *)
Definition rx_closing st i : bool :=
  rx_open st i && bool_decide (deadline st i ≤ now_check2 i).

Lemma qpsk_detect_refs st st' (mic : list A) :
  cos_ref st = cos_ref st' → sin_ref st = sin_ref st' →
  qpsk_detect st mic = qpsk_detect st' mic.
Proof.
  intros Hc Hs. unfold qpsk_detect, qpsk_symbols, detect_loop, candidate_pwr.
  by rewrite Hc, Hs.
Qed.

(** What the receiver does with the state the transmitter leaves. *)
Lemma test4_receive_eq st (mic : list A) n1 n2 sym :
  qpsk_detect st mic = Some sym → sym ≠ QPSK_SYM_NUM →
  test4_receive st mic n1 n2 = Some
    (if enable_receiver st && bool_decide (n1 < receiver_timer st) then
       if bool_decide (receiver_timer st ≤ n2)
       then (set_receiver st (receiver_timer st) false, [msg_rx_disabled])
       else (st, [msg_rx sym])
     else (st, [])).
Proof.
  intros Hd Hs. unfold test4_receive, systime_get_delay_passed. rewrite Hd. simpl.
  rewrite rx_report_symbol by done.
  destruct (enable_receiver st); simpl; repeat case_bool_decide; try done; lia.
Qed.

(** The lines a call prints and the receiver's flag after it. *)
Lemma example_test4_log st i :
  test4_inv st →
  ∃ st' o sym, example_test4 st i = Some (st', o) ∧
    qpsk_detect st (rx_mic i) = Some sym ∧ sym ≠ QPSK_SYM_NUM ∧
    out_log o =
      (if qpsk_newmsg_g st then [msg_rx_enabled] else []) ++
      (if rx_open st i then
         if rx_closing st i then [msg_rx_disabled] else [msg_rx sym]
       else []) ∧
    enable_receiver st' =
      (enable_receiver st || qpsk_newmsg_g st) && negb (rx_closing st i) ∧
    receiver_timer st' = deadline st i.
Proof.
  intros Hinv. destruct (qpsk_detect_total st (rx_mic i)) as (sym & Hd & Hs).
  destruct (example_test4_spec st i Hinv) as (st' & o & Hrun & _).
  exists st', o, sym. split_and!; try done; revert Hrun;
    unfold example_test4, rx_closing, rx_open, deadline;
    destruct (qpsk_newmsg_g st); simpl;
    (destruct (test4_transmit _); simpl; [|done]);
    erewrite test4_receive_eq by (try done; by erewrite qpsk_detect_refs);
    simpl; destruct (enable_receiver st) eqn:Hen; simpl;
    repeat case_bool_decide; intros; simplify_eq/=; try done; lia.
Qed.

(** The clock of block [k] of a run that starts at [t0] and is served on
    time: all three readings are the start of the block period. *)
Definition on_time (t0 : systime_t) (k : nat) i : Prop :=
  now_arm i = t0 + Z.of_nat k * AUDIO_BLOCKTIME_us ∧
  now_check i = now_arm i ∧ now_check2 i = now_arm i.

(** The lines of block [k] of a transmission when [sym] is decoded. *)
Definition window_log (k : nat) (sym : qpsk_sym_e) : list test4_msg :=
  (if k is O then [msg_rx_enabled] else []) ++
  (if bool_decide (k < QPSK_MSG_LEN)%nat then [msg_rx sym] else []).

(** The state before block [k] of a transmission served on time: the
    receiver is enabled and its deadline is one message length after the
    start. *)
Definition receiving (st0 : test4_state A) (t0 : systime_t) (k : nat) st : Prop :=
  sending st0 k st ∧
  match k with
  | O => True
  | S _ => enable_receiver st = true ∧
           receiver_timer st = t0 + QPSK_RX_ENABLETIME_us
  end.

Lemma receiving_step st0 t0 k st i :
  0 < AUDIO_BLOCKTIME_us → receiving st0 t0 k st → on_time t0 k i →
  ∃ st' o sym, example_test4 st i = Some (st', o) ∧ receiving st0 t0 (S k) st' ∧
    qpsk_detect st0 (rx_mic i) = Some sym ∧ sym ≠ QPSK_SYM_NUM ∧
    out_left o = from_option (symbol_block st0) silence (qpsk_msg st0 !! k) ∧
    out_log o = window_log k sym.
Proof.
  intros HT [Hs Hk] (Ha & Hc1 & Hc2). pose proof Hs as (Hinv & Href & Hflag).
  injection Href as Hr1 Hr2 _.
  destruct (sending_step st0 k st i Hs) as (st' & o & Hrun & Hs' & Hout & _).
  destruct (example_test4_log st i Hinv)
    as (st2 & o2 & sym & Hrun2 & Hd & Hsym & Hlog & Hen & Htm).
  rewrite Hrun in Hrun2. injection Hrun2 as <- <-.
  rewrite (qpsk_detect_refs st st0) in Hd by done.
  exists st', o, sym. split_and!; try done; revert Hlog Hen Htm;
    unfold window_log, rx_closing, rx_open, deadline, systime_get_delay,
      QPSK_RX_ENABLETIME_us, QPSK_MSG_LEN in *; rewrite Hc1, Hc2, Ha;
    (destruct k as [|k]; [rewrite Hflag|destruct Hflag as [-> _], Hk as [-> ->]]);
    rewrite ?orb_true_r; simpl; repeat case_bool_decide; simpl; intros;
    try done; try nia;
    unfold receiving, QPSK_RX_ENABLETIME_us, QPSK_MSG_LEN; split_and!; try done; nia.
Qed.

(** A transmission served on time, block by block. *)
Lemma window_run st t0 ins :
  0 < AUDIO_BLOCKTIME_us → test4_inv st →
  (∀ k i, ins !! k = Some i → on_time t0 k i) →
  ∃ st' os,
    run example_test4 (example_test4_btnpress st).1 ins = Some (st', os) ∧
    length os = length ins ∧
    ∀ k o, os !! k = Some o → ∃ i sym,
      ins !! k = Some i ∧ qpsk_detect st (rx_mic i) = Some sym ∧
      sym ≠ QPSK_SYM_NUM ∧
      out_left o = from_option (symbol_block st) silence (qpsk_msg st !! k) ∧
      out_log o = window_log k sym.
Proof.
  intros HT Hinv Hclk.
  destruct (run_indexed example_test4 (receiving st t0)
    (λ k o, ∃ i sym, ins !! k = Some i ∧ qpsk_detect st (rx_mic i) = Some sym ∧
       sym ≠ QPSK_SYM_NUM ∧
       out_left o = from_option (symbol_block st) silence (qpsk_msg st !! k) ∧
       out_log o = window_log k sym) ins)
    with (s := (example_test4_btnpress st).1)
    as (st' & os & Hrun & _ & Hlen & Hout).
  - intros k s i Hi Hs.
    destruct (receiving_step st t0 k s i HT Hs (Hclk k i Hi))
      as (s' & o & sym & ? & ? & ? & ? & ? & ?).
    exists s', o. split_and!; try done. by exists i, sym.
  - split; [|done]. split_and!; [by apply test4_btnpress_inv|done..].
  - by exists st', os.
Qed.

End Window.

(** C35: when the clock does not advance between the two readings of lines
    487 and 488, a call never prints that the receiver is disabled and never
    clears [enable_receiver]: once a message has been requested the flag
    stays set, and the window is closed by the outer test alone. *)
Theorem test4_receiver_latch {A : Type} {SA : Scalar A} {CFG : Config}
    (st : test4_state A) (i : test4_in A) :
  test4_inv st → now_check2 i ≤ now_check i →
  ∃ st' o, example_test4 st i = Some (st', o) ∧
    (msg_rx_disabled ∉ out_log o) ∧
    enable_receiver st' = enable_receiver st || qpsk_newmsg_g st.
Proof.
  intros Hinv Hclk.
  destruct (example_test4_log st i Hinv) as (st' & o & sym & Hrun & _ & _ & Hlog & Hen & _).
  exists st', o. split; [done|]. rewrite Hlog, Hen.
  assert (rx_closing st i = false) as ->.
  { unfold rx_closing, rx_open. repeat case_bool_decide; try lia;
      by rewrite ?andb_false_r. }
  rewrite andb_true_r. split; [|done].
  destruct (qpsk_newmsg_g st), (rx_open st i); simpl; solve_notin.
Qed.

Lemma test4_receiver_latch_witness :
  ∃ st' o, example_test4 (CFG:=small_config) (example_test4_btnpress demo_state).1
             (demo_in 5) = Some (st', o) ∧
    (msg_rx_disabled ∉ out_log o) ∧
    enable_receiver st' =
      enable_receiver (example_test4_btnpress demo_state).1
      || qpsk_newmsg_g (example_test4_btnpress demo_state).1.
Proof.
  apply (test4_receiver_latch (CFG:=small_config)); [|done].
  by apply test4_btnpress_inv, test4_init_inv.
Defined.

(** When every block is served on time, the receive window opened by a
    button press lasts exactly [QPSK_MSG_LEN] blocks: each of the first
    [QPSK_MSG_LEN] blocks prints the symbol the detector decodes from its
    microphone block (the first one after the line that the receiver is
    enabled), and every later block prints nothing. *)
Theorem test4_receive_window {A : Type} {SA : Scalar A} {CFG : Config}
    (st : test4_state A) (t0 : systime_t) (ins : list (test4_in A)) :
  0 < AUDIO_BLOCKTIME_us → test4_inv st →
  (∀ k i, ins !! k = Some i → on_time t0 k i) →
  ∃ st' os,
    run example_test4 (example_test4_btnpress st).1 ins = Some (st', os) ∧
    length os = length ins ∧
    ∀ k i o, ins !! k = Some i → os !! k = Some o →
      ∃ sym, qpsk_detect st (rx_mic i) = Some sym ∧ sym ≠ QPSK_SYM_NUM ∧
             out_log o = window_log k sym.
Proof.
  intros HT Hinv Hclk.
  destruct (window_run st t0 ins HT Hinv Hclk) as (st' & os & Hrun & Hlen & Hout).
  exists st', os. split_and!; try done. intros k i o Hi Ho.
  destruct (Hout k o Ho) as (i' & sym & Hi' & ? & ? & _ & ?). simplify_eq.
  by exists sym.
Qed.

Lemma test4_receive_window_witness :
  ∃ st' os,
    run (example_test4 (CFG:=small_config)) (example_test4_btnpress demo_state).1
      [demo_in 7; demo_in 257] = Some (st', os) ∧
    length os = 2%nat ∧
    ∀ k i o, [demo_in 7; demo_in 257] !! k = Some i → os !! k = Some o →
      ∃ sym, qpsk_detect (CFG:=small_config) demo_state (rx_mic i) = Some sym ∧
             sym ≠ QPSK_SYM_NUM ∧ out_log o = window_log k sym.
Proof.
  apply (test4_receive_window (CFG:=small_config) demo_state 7
           [demo_in 7; demo_in 257]); [done|by apply test4_init_inv|].
  intros [|[|k]] i Hi; simplify_eq/=; by vm_compute.
Defined.

(** C36: a request that arrives while a message is being sent restarts the
    message: whatever the cursor was, the block of that call carries symbol 0
    and the cursor is 1 afterwards. *)
Theorem test4_retrigger {A : Type} {SA : Scalar A} {CFG : Config}
    (st : test4_state A) (i : test4_in A) :
  test4_inv st → qpsk_newmsg_g st = true →
  ∃ st' o, example_test4 st i = Some (st', o) ∧
    out_left o = from_option (symbol_block st) silence (qpsk_msg st !! 0%nat) ∧
    curr_symbol st' = 1.
Proof.
  intros Hinv Hflag.
  destruct (sending_step st 0 st i) as (st' & o & Hrun & Hs & Hout & _).
  { by split_and!. }
  exists st', o. split_and!; try done. by destruct Hs as (_ & _ & _ & ->).
Qed.

Definition midway_state : test4_state Qc :=
  set_newmsg_g (set_curr_symbol demo_state 5) true.

Lemma test4_retrigger_witness :
  ∃ st' o, example_test4 (CFG:=small_config) midway_state (demo_in 5) = Some (st', o) ∧
    out_left o = from_option (symbol_block (CFG:=small_config) midway_state)
                   (silence (CFG:=small_config)) (qpsk_msg midway_state !! 0%nat) ∧
    curr_symbol st' = 1.
Proof.
  apply (test4_retrigger (CFG:=small_config)); [|done].
  by split.
Defined.

(** The transmitter and the detector use the same table: for each of
    the four symbols the scales of the detector's candidate are the in-phase
    and quadrature scales of the transmitter, and only the out-of-range
    value has no candidate. *)
Theorem candidate_scales_agree {A : Type} {SA : Scalar A} (sym : qpsk_sym_e) :
  candidate_scales (A:=A) sym =
    if decide (sym = QPSK_SYM_NUM) then None
    else Some (inphase_scale sym, quadphase_scale sym).
Proof. by destruct sym. Qed.
