(* ===== verification/QpskDetect.v ===== *)
(** * QpskDetect: the symbol detector of SYSMODE_TEST4

    The detector scores each candidate symbol by the mean magnitude of the
    sum of its signal and the microphone block and keeps the first candidate
    with the largest score.  This file proves that reading of the loop, and
    that a block carrying a symbol is decoded as that symbol whenever the
    reference blocks separate the diagonal from the axes, that a silent
    block is decoded as symbol 0 or symbol 1, and what the modem prints over
    a loop without delay and over a loop that delays by one block. *)

From Stdlib Require Import Field Qcanon.
From S2P Require Import Prelude Scalar Argmax Numerics Board Qpsk.

Section Detector.
Context {A : Type} {SA : Scalar A} {SL : ScalarLaws A} {CFG : Config}.
Add Field qpsk_detector_field : s_field.
Implicit Types (st : test4_state A) (mic : list A) (sym s t : qpsk_sym_e).

(** The score of a symbol; the out-of-range value has none. *)
Definition pwr_of st mic sym : A := default s0 (candidate_pwr st mic sym).

Lemma candidate_pwr_real st mic sym :
  sym ≠ QPSK_SYM_NUM → candidate_pwr st mic sym = Some (pwr_of st mic sym).
Proof. by destruct sym. Qed.

(** The detector's loop is the scan for the maximum of the scores. *)
Lemma detect_loop_scan st mic syms : ∀ acc,
  Forall (λ t, t ≠ QPSK_SYM_NUM) syms →
  detect_loop st mic syms acc = Some (scan_max (pwr_of st mic) syms acc).
Proof.
  induction syms as [|t syms IH]; intros acc Hreal; [done|].
  apply Forall_cons_1 in Hreal as [Ht Hreal]. simpl.
  rewrite candidate_pwr_real by done. simpl. by rewrite IH.
Qed.

(** The detector finds the first maximum of the scores. *)
Lemma qpsk_detect_spec st mic :
  ∃ sym, qpsk_detect st mic = Some sym ∧
         first_max (pwr_of st mic) qpsk_symbols sym.
Proof.
  unfold qpsk_detect. rewrite detect_loop_scan by (by repeat constructor).
  destruct (scan_max_first (pwr_of st mic) qpsk_symbols QPSK_SYM_NUM)
    as (sym & -> & Hfm); [done|by exists sym].
Qed.

Lemma elem_of_qpsk_symbols sym : sym ∈ qpsk_symbols ↔ sym ≠ QPSK_SYM_NUM.
Proof.
  unfold qpsk_symbols. rewrite !elem_of_cons, elem_of_nil.
  destruct sym; intuition discriminate.
Qed.

End Detector.

(** C6: the detector is defined on every microphone block and returns the
    first of the four symbols, in the order of the enumeration, whose score
    (the mean magnitude of candidate plus microphone) is the largest: every
    earlier symbol scores strictly less and every later one at most as
    much. *)
Theorem qpsk_detect_first_max {A : Type} {SA : Scalar A} {SL : ScalarLaws A}
    {CFG : Config} (st : test4_state A) (mic : list A) :
  ∃ sym, qpsk_detect st mic = Some sym ∧
         first_max (pwr_of st mic) qpsk_symbols sym.
Proof. apply qpsk_detect_spec. Qed.

(** * Decoding a transmitted block *)

Section Loopback.
Context {A : Type} {SA : Scalar A} {SL : ScalarLaws A} {CFG : Config} {CO : ConfigOk}.
Add Field qpsk_loopback_field : s_field.
Implicit Types (st : test4_state A) (mic : list A) (sym s t : qpsk_sym_e) (i q : A).

(** The samples of the two reference blocks, side by side. *)
Definition ref_pairs st : list (A * A) := zip (cos_ref st) (sin_ref st).

(** The mean magnitude of the signal of a pair of scales. *)
Definition ref_level st i q : A :=
  vector_mean
    (arm_abs_f32 (qpsk_signal (cos_ref st) (sin_ref st) i q) AUDIO_BLOCKSIZE)
    AUDIO_BLOCKSIZE.

(** The reference blocks separate the diagonals from the axes: the mean
    magnitude of [cos - sin] and of [cos + sin] exceeds that of [cos] and
    that of [sin].  For a sampled carrier with a whole number of periods per
    block the diagonals are larger by a factor of √2. *)
Definition refs_separated st : Prop :=
  ref_level st s1 s0 <ₛ ref_level st s1 (-ₛ s1) ∧
  ref_level st s0 s1 <ₛ ref_level st s1 (-ₛ s1) ∧
  ref_level st s1 s0 <ₛ ref_level st s1 s1 ∧
  ref_level st s0 s1 <ₛ ref_level st s1 s1.

Lemma length_ref_pairs st : test4_inv st → length (ref_pairs st) = AUDIO_BLOCKSIZE.
Proof.
  intros [_ _ Hc Hs]. unfold ref_pairs, is_block in *. rewrite length_zip. lia.
Qed.

Lemma qpsk_signal_pairs st i q :
  test4_inv st →
  qpsk_signal (cos_ref st) (sin_ref st) i q =
    (λ p, p.1 *ₛ i +ₛ p.2 *ₛ q) <$> ref_pairs st.
Proof.
  intros [_ _ Hc Hs]. unfold qpsk_signal, ref_pairs, is_block in *.
  rewrite <- Hc at 1. rewrite <- Hs at 1. rewrite !arm_scale_all.
  unfold arm_add_f32. rewrite zip_with_fmap_l, zip_with_fmap_r, zip_with_zip.
  rewrite take_ge by (rewrite length_fmap, length_zip; lia).
  apply list_fmap_ext. by intros _ [x y] _.
Qed.

Lemma ref_level_sum st i q :
  test4_inv st →
  ref_level st i q =
    vector_sum ((λ p, sabs (p.1 *ₛ i +ₛ p.2 *ₛ q)) <$> ref_pairs st)
    /ₛ sofZ (Z.of_nat AUDIO_BLOCKSIZE).
Proof.
  intros Hinv. unfold ref_level. rewrite qpsk_signal_pairs by done.
  rewrite <- (length_ref_pairs st Hinv) at 1 2.
  rewrite arm_abs_fmap. rewrite <- (length_fmap (λ p, sabs (p.1 *ₛ i +ₛ p.2 *ₛ q))).
  rewrite vector_mean_all. by rewrite length_fmap, length_ref_pairs.
Qed.

Lemma blocksize_neq_0 : sofZ (Z.of_nat AUDIO_BLOCKSIZE) ≠ (s0 : A).
Proof. apply sofZ_neq_0. pose proof blocksize_pos. lia. Qed.

Lemma blocksize_scalar_pos : (s0 : A) <ₛ sofZ (Z.of_nat AUDIO_BLOCKSIZE).
Proof. apply sofZ_pos. pose proof blocksize_pos. lia. Qed.

(** The level is homogeneous, even and nonnegative. *)
Lemma ref_level_scaled st a u v i q :
  test4_inv st → s0 ≤ₛ a → i = a *ₛ u → q = a *ₛ v →
  ref_level st i q = a *ₛ ref_level st u v.
Proof.
  intros Hinv Ha -> ->. rewrite !ref_level_sum by done.
  rewrite (list_fmap_ext _ (λ p, a *ₛ sabs (p.1 *ₛ u +ₛ p.2 *ₛ v)) (ref_pairs st)).
  - rewrite vector_sum_scale. field. apply blocksize_neq_0.
  - intros _ p _. simpl. rewrite <- sabs_mul_pos by done. f_equal. ring.
Qed.

Lemma ref_level_opp st i q :
  test4_inv st → ref_level st (-ₛ i) (-ₛ q) = ref_level st i q.
Proof.
  intros Hinv. rewrite !ref_level_sum by done. do 2 f_equal.
  apply list_fmap_ext. intros _ p _. simpl.
  rewrite <- (sabs_opp (p.1 *ₛ i +ₛ p.2 *ₛ q)). f_equal. ring.
Qed.

Lemma ref_level_0 st : test4_inv st → ref_level st s0 s0 = s0.
Proof.
  intros Hinv. rewrite ref_level_sum by done.
  rewrite (list_fmap_ext _ (λ _, s0) (ref_pairs st)).
  - rewrite vector_sum_zero. field. apply blocksize_neq_0.
  - intros _ p _. simpl. transitivity (sabs (s0 : A)); [f_equal; ring|apply sabs_0].
Qed.

Lemma ref_level_nonneg st i q : test4_inv st → s0 ≤ₛ ref_level st i q.
Proof.
  intros Hinv. rewrite ref_level_sum by done.
  rewrite (Fdiv_def s_field). apply s_mul_nonneg.
  - apply vector_sum_nonneg, Forall_fmap, Forall_forall. intros p _. apply sabs_nonneg.
  - apply slt_le, s_inv_pos, blocksize_scalar_pos.
Qed.

(** The score of a candidate against the block of a pair of scales. *)
Lemma candidate_pwr_signal st t i q i' q' :
  test4_inv st → candidate_scales t = Some (i, q) →
  candidate_pwr st (qpsk_signal (cos_ref st) (sin_ref st) i' q') t =
    Some (ref_level st (i +ₛ i') (q +ₛ q')).
Proof.
  intros Hinv Ht. unfold candidate_pwr, ref_level. rewrite Ht. simpl.
  rewrite !qpsk_signal_pairs by done.
  rewrite <- (length_ref_pairs st Hinv) at 1. rewrite arm_add_fmap.
  do 3 f_equal. apply list_fmap_ext. intros _ p _. simpl. ring.
Qed.

Lemma M_SQRT1_2_pos : (s0 : A) <ₛ M_SQRT1_2.
Proof. apply s_div_pos; by apply sofZ_pos. Qed.

Lemma ref_level_dir st a u v i q (X : A) :
  test4_inv st → s0 ≤ₛ a → i = a *ₛ u → q = a *ₛ v → ref_level st u v = X →
  ref_level st i q = a *ₛ X.
Proof. intros Hinv Ha Hi Hq <-. by apply ref_level_scaled. Qed.

Lemma ref_level_flip st u v u' v' :
  test4_inv st → u' = -ₛ u → v' = -ₛ v → ref_level st u' v' = ref_level st u v.
Proof. intros Hinv -> ->. by apply ref_level_opp. Qed.

(** The level of the sum of the signals of two symbols, up to the common
    factor [2 * M_SQRT1_2]: a diagonal for equal symbols, an axis for
    neighbours, zero for opposite symbols. *)
Definition pair_level st s t : A :=
  match s, t with
  | qpsk_sym_0, qpsk_sym_0 | qpsk_sym_3, qpsk_sym_3 => ref_level st s1 (-ₛ s1)
  | qpsk_sym_1, qpsk_sym_1 | qpsk_sym_2, qpsk_sym_2 => ref_level st s1 s1
  | qpsk_sym_0, qpsk_sym_1 | qpsk_sym_1, qpsk_sym_0
  | qpsk_sym_2, qpsk_sym_3 | qpsk_sym_3, qpsk_sym_2 => ref_level st s1 s0
  | qpsk_sym_0, qpsk_sym_2 | qpsk_sym_2, qpsk_sym_0
  | qpsk_sym_1, qpsk_sym_3 | qpsk_sym_3, qpsk_sym_1 => ref_level st s0 s1
  | _, _ => s0
  end.

End Loopback.

(** [level_dir u v] reduces the level of a pair of sums of scales to the
    level of the direction [(u, v)]. *)
Tactic Notation "level_dir" uconstr(u) uconstr(v) :=
  apply (ref_level_dir _ _ u v);
    [ done | apply slt_le, spos_add; apply M_SQRT1_2_pos | ring | ring
    | first [ reflexivity | by apply ref_level_0
            | apply ref_level_flip; [done | ring | ring] ] ].

Ltac level_table :=
  first [ level_dir s1 (-ₛ s1) | level_dir (-ₛ s1) s1 | level_dir s1 s1
        | level_dir (-ₛ s1) (-ₛ s1) | level_dir s1 s0 | level_dir (-ₛ s1) s0
        | level_dir s0 s1 | level_dir s0 (-ₛ s1) | level_dir s0 s0 ].

Section Decode.
Context {A : Type} {SA : Scalar A} {SL : ScalarLaws A} {CFG : Config} {CO : ConfigOk}.
Add Field qpsk_decode_field : s_field.
Implicit Types (st : test4_state A) (s t : qpsk_sym_e).

(** The score of candidate [t] against the block that carries [s]. *)
Lemma pwr_loopback st s t :
  test4_inv st → s ≠ QPSK_SYM_NUM → t ≠ QPSK_SYM_NUM →
  pwr_of st (symbol_block st s) t =
    (M_SQRT1_2 +ₛ M_SQRT1_2) *ₛ pair_level st s t.
Proof.
  intros Hinv Hs Ht. unfold pwr_of, symbol_block.
  destruct s, t; try done;
    (erewrite candidate_pwr_signal by done);
    unfold inphase_scale, quadphase_scale; simpl; level_table.
Qed.

Lemma pair_level_strict st s t :
  test4_inv st → refs_separated st → s ≠ QPSK_SYM_NUM → t ≠ QPSK_SYM_NUM →
  t ≠ s → pair_level st s t <ₛ pair_level st s s.
Proof.
  intros Hinv (H1 & H2 & H3 & H4) Hs Ht Hne.
  pose proof (ref_level_nonneg st s1 s0 Hinv) as H0.
  destruct s, t; try done; simpl; try done; by eapply sle_lt_trans.
Qed.

(** A block that carries a symbol scores highest for that symbol. *)
Lemma loopback_detect st s :
  test4_inv st → refs_separated st → s ≠ QPSK_SYM_NUM →
  qpsk_detect st (symbol_block st s) = Some s.
Proof.
  intros Hinv Hsep Hs.
  destruct (qpsk_detect_spec st (symbol_block st s)) as (s' & -> & Hfm).
  f_equal. eapply first_max_strict; [done|by apply elem_of_qpsk_symbols|].
  intros t Ht%elem_of_qpsk_symbols Hne. rewrite !pwr_loopback by done.
  apply s_mul_lt_l; [apply spos_add; apply M_SQRT1_2_pos|].
  by apply pair_level_strict.
Qed.

(** The score of a candidate against a silent block is the level of the
    candidate itself. *)
Lemma pwr_silence st t i q :
  test4_inv st → candidate_scales t = Some (i, q) →
  pwr_of st silence t = ref_level st i q.
Proof.
  intros Hinv Ht.
  assert (silence = qpsk_signal (cos_ref st) (sin_ref st) s0 s0) as ->.
  { rewrite qpsk_signal_pairs by done. unfold silence, arm_fill_f32.
    rewrite (const_fmap _ _ s0), length_ref_pairs; [done..|]. intros. simpl. ring. }
  unfold pwr_of. rewrite (candidate_pwr_signal _ _ i q) by done. simpl.
  f_equal; ring.
Qed.

(** On a silent block the scores of opposite symbols are equal: symbol 2
    scores as symbol 1 and symbol 3 as symbol 0. *)
Lemma pwr_silence_ties st :
  test4_inv st →
  pwr_of st silence qpsk_sym_2 = pwr_of st silence qpsk_sym_1 ∧
  pwr_of st silence qpsk_sym_3 = pwr_of st silence qpsk_sym_0.
Proof.
  intros Hinv. split.
  - rewrite (pwr_silence st qpsk_sym_2 _ _ Hinv eq_refl),
      (pwr_silence st qpsk_sym_1 _ _ Hinv eq_refl). by apply ref_level_opp.
  - rewrite (pwr_silence st qpsk_sym_3 _ _ Hinv eq_refl),
      (pwr_silence st qpsk_sym_0 _ _ Hinv eq_refl).
    apply ref_level_flip; [done|done|ring].
Qed.

(** On a silent block the detector answers symbol 0 or symbol 1: the loop
    keeps the first of two equal scores. *)
Lemma detect_silence st :
  test4_inv st →
  qpsk_detect st silence = Some qpsk_sym_0 ∨ qpsk_detect st silence = Some qpsk_sym_1.
Proof.
  intros Hinv. destruct (pwr_silence_ties st Hinv) as [E21 E30].
  destruct (qpsk_detect_spec st silence) as (s & -> & l1 & l2 & Hl & H1 & _).
  unfold qpsk_symbols in Hl.
  destruct l1 as [|a [|b [|c [|d l1]]]]; simplify_eq/=; auto; exfalso.
  - apply Forall_cons_1 in H1 as [_ [H1 _]%Forall_cons_1].
    rewrite E21 in H1. by apply slt_irrefl in H1.
  - apply Forall_cons_1 in H1 as [H1 _]. rewrite E30 in H1. by apply slt_irrefl in H1.
  - by destruct l1.
Qed.

End Decode.

(** C25: a block that carries a symbol is decoded as that symbol: when the
    reference blocks separate the diagonals from the axes, the detector
    applied to the transmitter's block of any of the four symbols returns
    that symbol. *)
Theorem qpsk_loopback_detect {A : Type} {SA : Scalar A} {SL : ScalarLaws A}
    {CFG : Config} {CO : ConfigOk} (st : test4_state A) (s : qpsk_sym_e) :
  test4_inv st → refs_separated st → s ≠ QPSK_SYM_NUM →
  qpsk_detect st (symbol_block st s) = Some s.
Proof. apply loopback_detect. Qed.

Lemma demo_separated : refs_separated (CFG:=small_config) demo_state.
Proof. by vm_compute. Qed.

Lemma qpsk_loopback_detect_witness :
  qpsk_detect (CFG:=small_config) demo_state
    (symbol_block (CFG:=small_config) demo_state qpsk_sym_2) = Some qpsk_sym_2.
Proof.
  apply (qpsk_loopback_detect (CFG:=small_config) (CO:=small_config_ok));
    [by apply test4_init_inv|apply demo_separated|done].
Defined.

(** C37: the detector has no threshold: on a silent microphone block the
    scores of opposite symbols are equal (symbol 2 scores as symbol 1 and
    symbol 3 as symbol 0), and since the loop keeps the first of two equal
    scores it still answers a symbol, symbol 0 or symbol 1. *)
Theorem qpsk_detect_silence {A : Type} {SA : Scalar A} {SL : ScalarLaws A}
    {CFG : Config} {CO : ConfigOk} (st : test4_state A) :
  test4_inv st →
  pwr_of st silence qpsk_sym_2 = pwr_of st silence qpsk_sym_1 ∧
  pwr_of st silence qpsk_sym_3 = pwr_of st silence qpsk_sym_0 ∧
  (qpsk_detect st silence = Some qpsk_sym_0 ∨ qpsk_detect st silence = Some qpsk_sym_1).
Proof.
  intros Hinv. destruct (pwr_silence_ties st Hinv) as [E21 E30].
  split_and!; [done..|by apply detect_silence].
Qed.

Lemma qpsk_detect_silence_witness :
  let st := demo_state in
  let mic := silence (CFG:=small_config) in
  pwr_of (CFG:=small_config) st mic qpsk_sym_2 = pwr_of (CFG:=small_config) st mic qpsk_sym_1 ∧
  pwr_of (CFG:=small_config) st mic qpsk_sym_3 = pwr_of (CFG:=small_config) st mic qpsk_sym_0 ∧
  (qpsk_detect (CFG:=small_config) st mic = Some qpsk_sym_0 ∨
   qpsk_detect (CFG:=small_config) st mic = Some qpsk_sym_1).
Proof.
  apply (qpsk_detect_silence (CFG:=small_config) (CO:=small_config_ok)).
  by apply test4_init_inv.
Defined.

(** C2: the modem decodes its own message over a perfect loop.  When the
    button is pressed, every block is served on time and the microphone
    block of each block period is the block sent in that period, then for
    every symbol of the message the block of its position carries it on the
    left channel and prints it as the decoded symbol (after the line that
    the receiver is enabled, for the first one). *)
Theorem test4_loopback {A : Type} {SA : Scalar A} {SL : ScalarLaws A}
    {CFG : Config} {CO : ConfigOk} (st : test4_state A) (t0 : systime_t)
    (ins : list (test4_in A)) :
  0 < AUDIO_BLOCKTIME_us → test4_inv st → refs_separated st →
  Forall (λ sym, sym ≠ QPSK_SYM_NUM) (qpsk_msg st) →
  (∀ k i, ins !! k = Some i →
     on_time t0 k i ∧
     rx_mic i = from_option (symbol_block st) silence (qpsk_msg st !! k)) →
  ∃ st' os,
    run example_test4 (example_test4_btnpress st).1 ins = Some (st', os) ∧
    length os = length ins ∧
    ∀ k i o sym, ins !! k = Some i → os !! k = Some o →
      qpsk_msg st !! k = Some sym →
      out_left o = rx_mic i ∧ out_left o = symbol_block st sym ∧
      out_log o = window_log k sym.
Proof.
  intros HT Hinv Hsep Hmsg Hins.
  destruct (window_run st t0 ins HT Hinv) as (st' & os & Hrun & Hlen & Hout).
  { intros k i Hi. by apply Hins. }
  exists st', os. split_and!; try done. intros k i o sym Hi Ho Hsym.
  destruct (Hout k o Ho) as (i' & sym' & Hi' & Hd & _ & Hleft & Hlog).
  destruct (Hins k i Hi) as [_ Hmic]. simplify_eq.
  rewrite Hsym in *. simpl in *. rewrite Hmic, loopback_detect in Hd; try done.
  - injection Hd as <-. split_and!; congruence.
  - rewrite Forall_forall in Hmsg. by eapply Hmsg, list_elem_of_lookup_2.
Qed.

Definition loop_in (k : nat) : test4_in Qc :=
  Test4In (symbol_block (CFG:=small_config) demo_state (init_symbol k))
    (Z.of_nat k * 250) (Z.of_nat k * 250) (Z.of_nat k * 250).

Lemma init_symbol_real k : init_symbol k ≠ QPSK_SYM_NUM.
Proof. unfold init_symbol. by repeat case_match. Qed.

Lemma test4_loopback_witness :
  ∃ st' os,
    run (example_test4 (CFG:=small_config)) (example_test4_btnpress demo_state).1
      (loop_in <$> seq 0 3) = Some (st', os) ∧
    length os = length (loop_in <$> seq 0 3) ∧
    ∀ k i o sym, (loop_in <$> seq 0 3) !! k = Some i → os !! k = Some o →
      qpsk_msg demo_state !! k = Some sym →
      out_left o = rx_mic i ∧
      out_left o = symbol_block (CFG:=small_config) demo_state sym ∧
      out_log o = window_log k sym.
Proof.
  apply (test4_loopback (CFG:=small_config) (CO:=small_config_ok) demo_state 0).
  - done.
  - by apply test4_init_inv.
  - apply demo_separated.
  - apply Forall_fmap, Forall_forall. intros k _. apply init_symbol_real.
  - intros [|[|[|k]]] i Hi; simplify_eq/=; by split.
Defined.

(** C26: over a loop that delays the signal by one block the last symbol is
    lost.  When the button is pressed, every block is served on time, the
    microphone is silent in the first block period and then delivers in
    each period the block sent in the period before, the first period
    prints symbol 0 or symbol 1 for the silence, period [k + 1] prints
    symbol [k] of the message as long as the receive window is open, and
    the period in which the last symbol arrives prints nothing: the window
    has closed. *)
Theorem test4_delayed_loop {A : Type} {SA : Scalar A} {SL : ScalarLaws A}
    {CFG : Config} {CO : ConfigOk} (st : test4_state A) (t0 : systime_t)
    (ins : list (test4_in A)) :
  0 < AUDIO_BLOCKTIME_us → test4_inv st → refs_separated st →
  Forall (λ sym, sym ≠ QPSK_SYM_NUM) (qpsk_msg st) →
  (∀ k i, ins !! k = Some i →
     on_time t0 k i ∧
     rx_mic i = match k with
                | O => silence
                | S j => from_option (symbol_block st) silence (qpsk_msg st !! j)
                end) →
  ∃ st' os,
    run example_test4 (example_test4_btnpress st).1 ins = Some (st', os) ∧
    length os = length ins ∧
    (∀ o, os !! 0%nat = Some o →
       out_log o = window_log 0 qpsk_sym_0 ∨ out_log o = window_log 0 qpsk_sym_1) ∧
    (∀ k o sym, os !! S k = Some o → qpsk_msg st !! k = Some sym →
       out_log o = window_log (S k) sym) ∧
    (∀ o, os !! QPSK_MSG_LEN = Some o → out_log o = []).
Proof.
  intros HT Hinv Hsep Hmsg Hins.
  destruct (window_run st t0 ins HT Hinv) as (st' & os & Hrun & Hlen & Hout).
  { intros k i Hi. by apply Hins. }
  exists st', os. split_and!; try done.
  - intros o Ho. destruct (Hout _ o Ho) as (i & sym & Hi & Hd & _ & _ & ->).
    destruct (Hins _ i Hi) as [_ Hmic]. rewrite Hmic in Hd.
    destruct (detect_silence st Hinv) as [E|E]; rewrite E in Hd; injection Hd as <-; auto.
  - intros k o sym Ho Hsym. destruct (Hout _ o Ho) as (i & sym' & Hi & Hd & _ & _ & ->).
    destruct (Hins _ i Hi) as [_ Hmic]. rewrite Hmic, Hsym in Hd. simpl in Hd.
    rewrite loopback_detect in Hd; [by injection Hd as <-|done..|].
    rewrite Forall_forall in Hmsg. by eapply Hmsg, list_elem_of_lookup_2.
  - intros o Ho. by destruct (Hout _ o Ho) as (i & sym & _ & _ & _ & _ & ->).
Qed.

Definition delay_in (k : nat) : test4_in Qc :=
  Test4In
    match k with
    | O => silence (CFG:=small_config)
    | S j => symbol_block (CFG:=small_config) demo_state (init_symbol j)
    end (Z.of_nat k * 250) (Z.of_nat k * 250) (Z.of_nat k * 250).

Lemma test4_delayed_loop_witness :
  ∃ st' os,
    run (example_test4 (CFG:=small_config)) (example_test4_btnpress demo_state).1
      (delay_in <$> seq 0 3) = Some (st', os) ∧
    length os = length (delay_in <$> seq 0 3) ∧
    (∀ o, os !! 0%nat = Some o →
       out_log o = window_log 0 qpsk_sym_0 ∨ out_log o = window_log 0 qpsk_sym_1) ∧
    (∀ k o sym, os !! S k = Some o → qpsk_msg demo_state !! k = Some sym →
       out_log o = window_log (S k) sym) ∧
    (∀ o, os !! QPSK_MSG_LEN = Some o → out_log o = []).
Proof.
  apply (test4_delayed_loop (CFG:=small_config) (CO:=small_config_ok) demo_state 0).
  - done.
  - by apply test4_init_inv.
  - apply demo_separated.
  - apply Forall_fmap, Forall_forall. intros k _. apply init_symbol_real.
  - intros [|[|[|k]]] i Hi; simplify_eq/=; by split.
Defined.

Lemma qpsk_detect_first_max_witness :
  ∃ sym, qpsk_detect (CFG:=small_config) demo_state [qc 1 2; qc 1 3; qc 0 1; qc (-1) 4]
           = Some sym ∧
         first_max (pwr_of (CFG:=small_config) demo_state
                      [qc 1 2; qc 1 3; qc 0 1; qc (-1) 4]) qpsk_symbols sym.
Proof.
  apply (qpsk_detect_first_max (CFG:=small_config) demo_state
           [qc 1 2; qc 1 3; qc 0 1; qc (-1) 4]).
Defined.
