(* ===== verification/ModemSpec.v ===== *)
(** * ModemSpec: the protocol of the transmitter, and that the handlers implement it

    The transmitter of [SYSMODE_TEST4] is a small state machine: a request
    flag that the button sets, and a cursor that is idle or walks the
    message.  This file states that machine on its own, as a labelled
    transition relation over two-field states that knows nothing of blocks,
    clocks or reference signals ([modem_step]), proves what the protocol
    promises by induction on its runs (a request is followed by the whole
    message, one symbol per block period, then by silence), and proves that
    the handlers of [Qpsk] implement it: [modem_of] maps the globals to a
    state of the protocol, every call of a handler is a step of the
    protocol, and the block it writes is the block of the label of that
    step. *)

From S2P Require Import Prelude Scalar Numerics Board Qpsk.

(** * The protocol *)

(** The transmitter is idle, or about to send the symbol at an index. *)
Inductive tx_phase :=
  | tx_idle
  | tx_sending (k : nat).

#[export] Instance tx_phase_eq_dec : EqDecision tx_phase.
Proof. solve_decision. Defined.

(** A state of the protocol: the request flag and the phase. *)
Record modem := Modem {
  md_request : bool;
  md_phase : tx_phase;
}.

#[export] Instance modem_eq_dec : EqDecision modem.
Proof. solve_decision. Defined.

(** What a step shows: a press of the button, or a block period that
    carries a symbol or silence. *)
Inductive label :=
  | l_press
  | l_block (sym : option qpsk_sym_e).

#[export] Instance label_eq_dec : EqDecision label.
Proof. solve_decision. Defined.

Definition is_period (l : label) : Prop :=
  match l with l_press => False | l_block _ => True end.

#[export] Instance is_period_dec l : Decision (is_period l).
Proof. destruct l; apply _. Defined.

Section Protocol.
Context (msg : list qpsk_sym_e).
Implicit Types (m : modem) (l : label) (k : nat).

(** The phase in which index [k] is the next to send. *)
Definition phase_at k : tx_phase :=
  if decide (k < length msg)%nat then tx_sending k else tx_idle.

(** The steps of the protocol.  A press sets the request.  A block period
    with a request sends the first symbol, whatever the phase was; without
    a request it sends the symbol of the phase, or silence when idle. *)
Inductive modem_step : modem → label → modem → Prop :=
  | step_press m :
      modem_step m l_press (Modem true (md_phase m))
  | step_start p sym :
      msg !! 0%nat = Some sym →
      modem_step (Modem true p) (l_block (Some sym)) (Modem false (phase_at 1))
  | step_send k sym :
      msg !! k = Some sym →
      modem_step (Modem false (tx_sending k)) (l_block (Some sym))
        (Modem false (phase_at (S k)))
  | step_idle :
      modem_step (Modem false tx_idle) (l_block None) (Modem false tx_idle).

(** The runs of the protocol. *)
Inductive modem_trace : modem → list label → modem → Prop :=
  | trace_nil m : modem_trace m [] m
  | trace_cons m l m1 ls m2 :
      modem_step m l m1 → modem_trace m1 ls m2 → modem_trace m (l :: ls) m2.

(** The index a block period sends from: 0 with a request, the index of the
    phase without, and the length of the message when idle. *)
Definition pending m : nat :=
  if md_request m then 0%nat
  else match md_phase m with tx_sending k => k | tx_idle => length msg end.

(** The protocol as a function: the step an event takes. *)
Definition modem_next m (press : bool) : label * modem :=
  if press then (l_press, Modem true (md_phase m))
  else (l_block (msg !! pending m), Modem false (phase_at (S (pending m)))).

(** The phase of a well-formed state is an index of the message. *)
Definition modem_wf m : Prop :=
  match md_phase m with
  | tx_idle => True
  | tx_sending k => (k < length msg)%nat
  end.

#[export] Instance modem_wf_dec m : Decision (modem_wf m).
Proof. unfold modem_wf. destruct (md_phase m); apply _. Defined.

Lemma phase_at_wf b k : modem_wf (Modem b (phase_at k)).
Proof. unfold modem_wf, phase_at. simpl. by case_decide. Qed.

Lemma phase_at_end k : (length msg ≤ k)%nat → phase_at k = tx_idle.
Proof. unfold phase_at. intros. by rewrite decide_False by lia. Qed.

(** A block period is a step of the protocol from every well-formed state,
    when there is a message. *)
Lemma modem_period m :
  modem_wf m → msg ≠ [] →
  modem_step m (modem_next m false).1 (modem_next m false).2.
Proof.
  destruct m as [[] p]; unfold modem_wf, modem_next, pending; simpl; intros Hwf Hmsg.
  - destruct (lookup_lt_is_Some_2 msg 0) as [sym Hsym]; [destruct msg; [done|simpl; lia]|].
    rewrite Hsym. by apply step_start.
  - destruct p as [|k].
    + rewrite lookup_ge_None_2, phase_at_end by lia. apply step_idle.
    + destruct (lookup_lt_is_Some_2 msg k Hwf) as [sym Hsym]. rewrite Hsym.
      by apply step_send.
Qed.

(** The relation and the function agree. *)
Lemma modem_step_next m l m' :
  modem_wf m → modem_step m l m' →
  (l, m') = modem_next m (bool_decide (l = l_press)).
Proof.
  intros Hwf Hstep. destruct Hstep as [m|p sym Hsym|k sym Hsym|];
    unfold modem_next, pending; simpl; try done.
  - by rewrite Hsym.
  - by rewrite Hsym.
  - by rewrite lookup_ge_None_2, phase_at_end by lia.
Qed.

Lemma modem_step_wf m l m' : modem_wf m → modem_step m l m' → modem_wf m'.
Proof.
  intros Hwf Hstep. revert Hwf.
  destruct Hstep; intros Hwf; [exact Hwf|apply phase_at_wf..|exact I].
Qed.

Lemma modem_trace_wf m ls m' : modem_trace m ls m' → modem_wf m → modem_wf m'.
Proof. induction 1; eauto using modem_step_wf. Qed.

Lemma pending_le m : modem_wf m → (pending m ≤ length msg)%nat.
Proof.
  unfold modem_wf, pending. destruct (md_request m), (md_phase m); lia.
Qed.

(** The protocol is deterministic: the event decides the step. *)
Lemma modem_step_det m l1 l2 m1 m2 :
  modem_wf m → modem_step m l1 m1 → modem_step m l2 m2 →
  (is_period l1 ↔ is_period l2) → l1 = l2 ∧ m1 = m2.
Proof.
  intros Hwf H1%modem_step_next H2%modem_step_next Hl; [|done..].
  destruct l1, l2; simpl in *; simplify_eq; tauto.
Qed.

(** A block period sends from the pending index and moves it on by one, up
    to the end of the message. *)
Lemma modem_period_pending m l m' :
  modem_wf m → modem_step m l m' → is_period l →
  l = l_block (msg !! pending m) ∧
  pending m' = (S (pending m) `min` length msg)%nat.
Proof.
  intros Hwf Hstep%modem_step_next Hl; [|done]. destruct l as [|s]; [done|].
  unfold modem_next in Hstep. rewrite bool_decide_false in Hstep by done.
  simplify_eq. split; [done|]. unfold pending at 1, phase_at. cbn [md_request].
  case_decide; cbn [md_phase]; lia.
Qed.

(** What the protocol promises.  Along block periods without a press the
    period [j] carries the symbol [j] places after the pending index, or
    silence past the end of the message. *)
Lemma modem_trace_periods m ls m' :
  modem_trace m ls m' → modem_wf m → Forall is_period ls →
  (∀ j l, ls !! j = Some l → l = l_block (msg !! (pending m + j)%nat)) ∧
  pending m' = ((pending m + length ls) `min` length msg)%nat.
Proof.
  induction 1 as [m|m l m1 ls m2 Hstep Htr IH]; intros Hwf Hls.
  - split; [done|]. pose proof (pending_le m Hwf). cbn [length]. lia.
  - inversion_clear Hls as [|?? Hl Hls'].
    destruct (modem_period_pending m l m1 Hwf Hstep Hl) as [-> Hp].
    destruct IH as [IH1 IH2]; [by eapply modem_step_wf|done|].
    split.
    + intros [|j] l' Hj; [injection Hj as <-; by rewrite Nat.add_0_r|].
      rewrite (IH1 j l' Hj). f_equal. rewrite Hp.
      destruct (decide (S (pending m) ≤ length msg)%nat).
      * f_equal. lia.
      * by rewrite !lookup_ge_None_2 by lia.
    + rewrite IH2, Hp. cbn [length]. lia.
Qed.

(** A block period consumes the request. *)
Lemma modem_period_request m l m' :
  modem_step m l m' → is_period l → md_request m' = false.
Proof. by intros []. Qed.

Lemma modem_trace_request m ls m' :
  modem_trace m ls m' → Forall is_period ls → ls ≠ [] → md_request m' = false.
Proof.
  induction 1 as [m|m l m1 ls m2 Hstep Htr IH]; [done|].
  intros [Hl Hls]%Forall_cons_1 _. destruct Htr as [m1|]; [|by apply IH].
  by eapply modem_period_request.
Qed.

(** Without a request, the pending index of an idle transmitter alone is
    the length of the message. *)
Lemma pending_end m :
  modem_wf m → md_request m = false → pending m = length msg → md_phase m = tx_idle.
Proof.
  unfold modem_wf, pending. intros Hwf ->. destruct (md_phase m); [done|lia].
Qed.

(** After a request the whole message is sent, one symbol per block period,
    followed by silence, and the transmitter is idle once the message is
    through. *)
Lemma modem_sends_message p ls m' :
  modem_trace (Modem true p) ls m' → modem_wf (Modem true p) → Forall is_period ls →
  (∀ j l, ls !! j = Some l → l = l_block (msg !! j)) ∧
  (ls ≠ [] → md_request m' = false) ∧
  (ls ≠ [] → (length msg ≤ length ls)%nat → md_phase m' = tx_idle).
Proof.
  intros Htr Hwf Hls.
  destruct (modem_trace_periods _ _ _ Htr Hwf Hls) as [H1 H2].
  split_and!; [done|by eapply modem_trace_request|].
  intros Hne Hlen. apply pending_end; [by eapply modem_trace_wf| |].
  - by eapply modem_trace_request.
  - rewrite H2. unfold pending. simpl. lia.
Qed.

End Protocol.

(** * The handlers implement the protocol *)

Section Refinement.
Context {A : Type} {SA : Scalar A} {CFG : Config}.
Implicit Types (st : test4_state A) (ev : test4_event A) (l : label).

(** The phase a cursor stands for: [-1] is idle. *)
Definition phase_of (curr : Z) : tx_phase :=
  if decide (0 ≤ curr) then tx_sending (Z.to_nat curr) else tx_idle.

(** The state of the protocol that the globals stand for. *)
Definition modem_of st : modem :=
  Modem (qpsk_newmsg_g st) (phase_of (curr_symbol st)).

(** The tables of a state: the references and the message. *)
Definition tables st : list A * list A * list qpsk_sym_e :=
  (cos_ref st, sin_ref st, qpsk_msg st).

(** What the handlers write for a label: the button handler prints its
    line; a block period carries the block of the symbol, or silence, on
    the left channel and silence on the right one. *)
Definition carries st0 ev (o : block_out A test4_msg) l : Prop :=
  match ev, l with
  | ev_button, l_press => out_log o = [msg_transmitting]
  | ev_block _, l_block s =>
      out_left o = from_option (symbol_block st0) silence s ∧ out_right o = silence
  | _, _ => False
  end.

Lemma phase_of_cursor_at (msg : list qpsk_sym_e) k :
  length msg = QPSK_MSG_LEN → phase_of (cursor_at k) = phase_at msg k.
Proof.
  unfold phase_of, cursor_at, phase_at. intros ->.
  case_bool_decide; [rewrite decide_True, decide_True by lia; by rewrite Nat2Z.id|].
  by rewrite decide_False, decide_False by lia.
Qed.

Lemma modem_of_wf st : test4_inv st → modem_wf (qpsk_msg st) (modem_of st).
Proof.
  intros [Hlen Hc _ _]. unfold modem_wf, modem_of, phase_of. simpl.
  case_decide; [lia|done].
Qed.

(** The cursor a call starts from is the cursor of the pending index. *)
Lemma start_symbol_pending st :
  test4_inv st → start_symbol st = cursor_at (pending (qpsk_msg st) (modem_of st)).
Proof.
  intros [Hlen Hc _ _].
  unfold start_symbol, pending, modem_of, phase_of, cursor_at, QPSK_MSG_LEN in *. simpl.
  destruct (qpsk_newmsg_g st); [done|]. case_decide.
  - rewrite bool_decide_true by lia. lia.
  - rewrite Hlen, bool_decide_false by lia. lia.
Qed.

(** One call of the block handler is one block period of the protocol. *)
Lemma example_test4_refines st i :
  test4_inv st →
  ∃ st' o, example_test4 st i = Some (st', o) ∧ test4_inv st' ∧
    tables st' = tables st ∧
    modem_of st' = (modem_next (qpsk_msg st) (modem_of st) false).2 ∧
    carries st (ev_block i) o (modem_next (qpsk_msg st) (modem_of st) false).1.
Proof.
  intros Hinv. destruct (example_test4_inv st i Hinv) as (st' & o & Hrun & Hinv' & _).
  destruct (example_test4_spec st i Hinv)
    as (st2 & o2 & Hrun' & Hout & Hr & Hcur & Hflag & _ & Href & _).
  rewrite Hrun in Hrun'. injection Hrun' as <- <-.
  rewrite start_symbol_pending in * by done.
  rewrite test4_transmit_at in Hout by done. injection Hout as Hout.
  exists st', o. split_and!; [done|done|exact Href| |by split].
  unfold modem_of, modem_next. rewrite Hflag, Hcur, cursor_at_advance. simpl.
  f_equal. apply phase_of_cursor_at, Hinv.
Qed.

(** Forward simulation: every call of a handler is a step of the protocol
    with a label that the output carries. *)
Lemma test4_step_refines st0 st ev :
  test4_inv st → tables st = tables st0 →
  ∃ st' o l, test4_step st ev = Some (st', o) ∧
    test4_inv st' ∧ tables st' = tables st0 ∧
    modem_step (qpsk_msg st0) (modem_of st) l (modem_of st') ∧ carries st0 ev o l.
Proof.
  intros Hinv Ht. assert (qpsk_msg st = qpsk_msg st0) as Hmsg by (by injection Ht).
  destruct ev as [|i]; simpl.
  - eexists _, _, l_press. split_and!; [done|by apply test4_btnpress_inv|done| |done].
    apply (step_press _ (modem_of st)).
  - destruct (example_test4_refines st i Hinv) as (st' & o & -> & ? & Ht' & Hm & Hc).
    exists st', o, (modem_next (qpsk_msg st) (modem_of st) false).1.
    split_and!; [done|done|congruence| |].
    + rewrite Hm, <- Hmsg. apply modem_period; [by apply modem_of_wf|].
      destruct Hinv as [Hlen _ _ _]. by destruct (qpsk_msg st).
    + unfold carries, symbol_block in *. injection Ht as <- <- _. done.
Qed.

(** The simulation along a run. *)
Lemma test4_run_refines st0 evs : ∀ st,
  test4_inv st → tables st = tables st0 →
  ∃ st' os ls, run test4_step st evs = Some (st', os) ∧
    test4_inv st' ∧
    modem_trace (qpsk_msg st0) (modem_of st) ls (modem_of st') ∧
    Forall3 (carries st0) evs os ls.
Proof.
  induction evs as [|ev evs IH]; intros st Hinv Ht; simpl.
  - exists st, [], []. split_and!; [done..|constructor|constructor].
  - destruct (test4_step_refines st0 st ev Hinv Ht)
      as (st1 & o & l & Hst & Hinv1 & Ht1 & Hstep & Hc).
    destruct (IH st1 Hinv1 Ht1) as (st' & os & ls & Hrun & ? & ? & ?).
    rewrite Hst. simpl. rewrite Hrun. simpl.
    exists st', (o :: os), (l :: ls). split_and!; [done..| |by constructor].
    by econstructor.
Qed.

End Refinement.

(** C14: the handlers of the modem implement the protocol of the
    transmitter.  From every state of the invariant, every sequence of
    button presses and block periods is defined, and there is a run of the
    protocol for the message, from the protocol state of the first state to
    that of the last, with one step per event whose label the event carries:
    a press prints its line, a block period writes the block of the symbol
    of the label (silence, for no symbol) on the left channel and silence on
    the right one. *)
Theorem test4_refines_modem {A : Type} {SA : Scalar A} {CFG : Config}
    (st : test4_state A) (evs : list (test4_event A)) :
  test4_inv st →
  ∃ st' os ls, run test4_step st evs = Some (st', os) ∧
    test4_inv st' ∧
    modem_trace (qpsk_msg st) (modem_of st) ls (modem_of st') ∧
    Forall3 (carries st) evs os ls.
Proof. intros Hinv. by apply test4_run_refines. Qed.

Lemma test4_refines_modem_witness :
  ∃ st' os ls,
    run (test4_step (CFG:=small_config)) demo_state
      [ev_block (demo_in 0); ev_button; ev_block (demo_in 250); ev_block (demo_in 500)]
      = Some (st', os) ∧
    test4_inv (CFG:=small_config) st' ∧
    modem_trace (qpsk_msg demo_state) (modem_of demo_state) ls (modem_of st') ∧
    Forall3 (carries (CFG:=small_config) demo_state)
      [ev_block (demo_in 0); ev_button; ev_block (demo_in 250); ev_block (demo_in 500)]
      os ls.
Proof.
  apply (test4_refines_modem (CFG:=small_config) demo_state).
  by apply test4_init_inv.
Defined.
