(* ===== verification/Monitor.v ===== *)
(** * Monitor: the pass-through and the serial-monitor modes

    [example_test1] (SYSMODE_TEST1) copies the waveform generator to the
    left output and the microphone to the right output.
    [example_monitor] (SYSMODE_MONITOR) does the same, reports the keys it
    receives, keeps a counter in [MIN_COUNT, MAX_COUNT], and then writes a
    block of zeros to both outputs. *)

From S2P Require Import Prelude Scalar Numerics Board.

Definition MAX_COUNT : Z := 10.
Definition MIN_COUNT : Z := 0.

(** The lines the handlers of the monitor mode print. *)
Inductive monitor_msg :=
  | mon_button
  | mon_usage
  | mon_invalid_key
  | mon_key_pressed (key : ascii)
  | mon_counter (count : Z).

Section Monitor.
Context {A : Type} {SA : Scalar A} {CFG : Config}.

(** What one call of either handler reads: a block of each source and the
    serial port. *)
Record monitor_in := MonitorIn {
  mon_mic : list A;
  mon_wave : list A;
  mon_key : usart_char;
}.

(** [example_test1] (lines 22-33). *)
Definition example_test1 (i : monitor_in) : block_out A monitor_msg :=
  let micdata := mon_mic i in
  let wavedata := mon_wave i in
  let o := blocks_sinks_leftout wavedata silent_out in
  blocks_sinks_rightout micdata o.

(** [example_monitor_btnpress] (lines 599-602). *)
Definition example_monitor_btnpress : list monitor_msg := [mon_button].

(** [example_monitor_btnpress_init] (lines 604-607). *)
Definition example_monitor_btnpress_init : list monitor_msg := [mon_usage].

(** The key switch of [example_monitor] (lines 622-653) on the counter
    [count_1] (line 593). *)
Definition monitor_key (count_1 : Z) (key : usart_char) : Z * list monitor_msg :=
  match key with
  | None => (count_1, [])
  | Some k =>
      if decide (k = "n"%char) then (count_1, [mon_key_pressed k])
      else if decide (k = "f"%char) then (count_1, [mon_key_pressed k])
      else if decide (k = "r"%char) then (count_1, [mon_key_pressed k])
      else if decide (k = "b"%char) then (count_1, [mon_key_pressed k])
      else if decide (k = "+"%char) then
        let c := if decide (count_1 < MAX_COUNT) then count_1 + 1 else count_1 in
        (c, [mon_counter c])
      else if decide (k = "-"%char) then
        let c := if decide (count_1 > MIN_COUNT) then count_1 - 1 else count_1 in
        (c, [mon_counter c])
      else (count_1, [mon_invalid_key])
  end.

(** [example_monitor] (lines 609-662): the state is the counter. *)
Definition example_monitor (count_1 : Z) (i : monitor_in) :
    option (Z * block_out A monitor_msg) :=
  let micdata := mon_mic i in
  let wavedata := mon_wave i in
  let o := blocks_sinks_leftout wavedata silent_out in
  let o := blocks_sinks_rightout micdata o in
  let '(count_1, log) := monitor_key count_1 (mon_key i) in
  let o := print_lines log o in
  let output := arm_fill_f32 s0 AUDIO_BLOCKSIZE in
  let o := blocks_sinks_leftout output o in
  let o := blocks_sinks_rightout output o in
  Some (count_1, o).

End Monitor.

Arguments monitor_in : clear implicits.

Section MonitorFacts.
Context {A : Type} {SA : Scalar A} {CFG : Config}.
Implicit Types (i : monitor_in A) (c : Z).

Definition count_ok c : Prop := MIN_COUNT ≤ c ≤ MAX_COUNT.

Lemma monitor_key_ok c key : count_ok c → count_ok (monitor_key c key).1.
Proof.
  unfold count_ok, monitor_key, MIN_COUNT, MAX_COUNT. intros Hc.
  destruct key as [k|]; [|done]. repeat case_decide; simpl; lia.
Qed.

Lemma example_monitor_step c i :
  ∃ o, example_monitor c i = Some ((monitor_key c (mon_key i)).1, o) ∧
       out_left o = arm_fill_f32 s0 AUDIO_BLOCKSIZE ∧
       out_right o = arm_fill_f32 s0 AUDIO_BLOCKSIZE ∧
       out_log o = (monitor_key c (mon_key i)).2.
Proof.
  unfold example_monitor. destruct (monitor_key c (mon_key i)) as [c' log].
  eexists. split_and!; try done. by rewrite print_lines_spec.
Qed.

End MonitorFacts.

(** The pass-through mode sends the waveform block to the left output
    and the microphone block to the right output, unchanged, and prints
    nothing. *)
Theorem example_test1_passthrough {A : Type} (i : monitor_in A) :
  example_test1 i = BlockOut (mon_wave i) (mon_mic i) [].
Proof. done. Qed.

(** C39: along every run of the monitor handler from the initial counter
    the counter stays in [MIN_COUNT, MAX_COUNT], and every block written to
    the outputs is silence on both channels: the copies of the waveform and
    the microphone written first are overwritten before the call returns. *)
Theorem monitor_run_silent {A : Type} {SA : Scalar A} {CFG : Config}
    (ins : list (monitor_in A)) :
  ∃ c os, run example_monitor MIN_COUNT ins = Some (c, os) ∧
    count_ok c ∧ length os = length ins ∧
    ∀ k o, os !! k = Some o →
      out_left o = arm_fill_f32 s0 AUDIO_BLOCKSIZE ∧
      out_right o = arm_fill_f32 s0 AUDIO_BLOCKSIZE.
Proof.
  destruct (run_indexed example_monitor (λ _, count_ok)
    (λ _ o, out_left o = arm_fill_f32 s0 AUDIO_BLOCKSIZE ∧
            out_right o = arm_fill_f32 s0 AUDIO_BLOCKSIZE) ins)
    with (s := MIN_COUNT) as (c & os & Hrun & Hc & Hlen & Hout); [|done|by exists c, os].
  intros k c i _ Hc. destruct (example_monitor_step c i) as (o & -> & ? & ? & _).
  eexists _, o. split_and!; try done. by apply monitor_key_ok.
Qed.

(** ['+'] and ['-'] move the counter by one and saturate at [MAX_COUNT]
    and [MIN_COUNT]; the new value is printed. *)
Theorem monitor_key_counter (c : Z) :
  count_ok c →
  monitor_key c (Some "+"%char) =
    (Z.min (c + 1) MAX_COUNT, [mon_counter (Z.min (c + 1) MAX_COUNT)]) ∧
  monitor_key c (Some "-"%char) =
    (Z.max (c - 1) MIN_COUNT, [mon_counter (Z.max (c - 1) MIN_COUNT)]).
Proof.
  unfold count_ok, monitor_key, MIN_COUNT, MAX_COUNT. intros Hc. simpl. split.
  - case_decide; [by rewrite Z.min_l by lia|].
    rewrite Z.min_r by lia. by replace c with 10 by lia.
  - case_decide; [by rewrite Z.max_l by lia|].
    rewrite Z.max_r by lia. by replace c with 0 by lia.
Qed.

Lemma monitor_key_counter_witness :
  monitor_key 10 (Some "+"%char) =
    (Z.min (10 + 1) MAX_COUNT, [mon_counter (Z.min (10 + 1) MAX_COUNT)]) ∧
  monitor_key 10 (Some "-"%char) =
    (Z.max (10 - 1) MIN_COUNT, [mon_counter (Z.max (10 - 1) MIN_COUNT)]).
Proof. apply (monitor_key_counter 10). by vm_compute. Defined.
