(* ===== verification/Radar.v ===== *)
(** * Radar: chirp ranging by correlation (SYSMODE_RADAR)

    Every two seconds [example_radar] sends one block that holds a chirp on
    the right output; three calls later it correlates the microphone block
    with the chirp, searches the peak of the magnitude of the correlation
    and prints its index and the distance it stands for.  The key ['r']
    makes the current peak the zero of the distance scale. *)

From Stdlib Require Import Field Qcanon.
From S2P Require Import Prelude Scalar Argmax Numerics Board.

(** The constants of the radar modes in [config.h]. *)
Class RadarConfig := {
  RADAR_SIZE : nat;
  RADAR_OFFSET : nat;
  CORR_SIZE : nat;
  RADAR_F_START : Z;
  RADAR_F_STOP : Z;
  RADAR_PRINT_DELAY : Z;
}.

(** What the build must guarantee: the chirp fits into a block at its
    offset, and the correlation buffer has room for what
    [arm_correlate_f32] writes. *)
Class RadarConfigOk `{Config} `{RadarConfig} : Prop := {
  radar_size_pos : (0 < RADAR_SIZE)%nat;
  radar_fits : (RADAR_SIZE + RADAR_OFFSET ≤ AUDIO_BLOCKSIZE)%nat;
  corr_fits : (2 * AUDIO_BLOCKSIZE - 1 ≤ CORR_SIZE)%nat;
  print_delay_pos : 0 < RADAR_PRINT_DELAY;
}.

(** [arm_sin_f32] of CMSIS-DSP. *)
Class Trig (A : Type) := arm_sin_f32 : A → A.
Global Hint Mode Trig ! : typeclass_instances.

Definition small_radar : RadarConfig := {|
  RADAR_SIZE := 2; RADAR_OFFSET := 1; CORR_SIZE := 7;
  RADAR_F_START := 1000; RADAR_F_STOP := 3000; RADAR_PRINT_DELAY := 3;
|}.

Lemma small_radar_ok : @RadarConfigOk small_config small_radar.
Proof. split; simpl; lia. Qed.

(** The lines the mode prints. *)
Inductive radar_msg (A : Type) :=
  | radar_f0 (f0 : A)
  | radar_report (max_i : Z) (length_m : A) (amplitude : A) (index_0 : Z)
  | radar_invalid_key
  | radar_zero_set.
Arguments radar_f0 {A} _.
Arguments radar_report {A} _ _ _ _.
Arguments radar_invalid_key {A}.
Arguments radar_zero_set {A}.

Section Radar.
Context {A : Type} {SA : Scalar A} {TA : Trig A} {CFG : Config} {RC : RadarConfig}.

(** The globals of lines 668-675. *)
Record radar_state := RadarState {
  radar_waveform : list A;
  radar_buffer : list A;
  radar_zerobuffer : list A;
  corr_result : list A;
  tx_timer : systime_t;
  radar_trig : Z;
  radar_trig_delay : Z;
  index_0 : Z;
}.

Definition set_arrays (st : radar_state) (wf buf : list A) : radar_state :=
  RadarState wf buf (radar_zerobuffer st) (corr_result st) (tx_timer st)
    (radar_trig st) (radar_trig_delay st) (index_0 st).

Definition set_corr (st : radar_state) (corr : list A) : radar_state :=
  RadarState (radar_waveform st) (radar_buffer st) (radar_zerobuffer st) corr
    (tx_timer st) (radar_trig st) (radar_trig_delay st) (index_0 st).

Definition set_trig (st : radar_state) (trig delay : Z) : radar_state :=
  RadarState (radar_waveform st) (radar_buffer st) (radar_zerobuffer st)
    (corr_result st) (tx_timer st) trig delay (index_0 st).

Definition set_tx_timer (st : radar_state) (t : systime_t) : radar_state :=
  RadarState (radar_waveform st) (radar_buffer st) (radar_zerobuffer st)
    (corr_result st) t (radar_trig st) (radar_trig_delay st) (index_0 st).

Definition set_index_0 (st : radar_state) (i : Z) : radar_state :=
  RadarState (radar_waveform st) (radar_buffer st) (radar_zerobuffer st)
    (corr_result st) (tx_timer st) (radar_trig st) (radar_trig_delay st) i.

(** The frequency step and the start frequency of the chirp, per sample
    (lines 679-681). *)
Definition chirp_df : A :=
  sofZ (RADAR_F_STOP - RADAR_F_START) /ₛ sofZ (Z.of_nat RADAR_SIZE)
  /ₛ sofZ AUDIO_SAMPLE_RATE.

Definition chirp_f0 : A := sofZ RADAR_F_START /ₛ sofZ AUDIO_SAMPLE_RATE.

(** Sample [i] of the chirp (line 688). *)
Definition chirp_sample (i : nat) : A :=
  arm_sin_f32 (sofZ (Z.of_nat i) *ₛ (chirp_f0 +ₛ sofZ (Z.of_nat i) *ₛ chirp_df)).

(** The body of the loop of lines 687-690 on the pair of arrays
    [(radar_waveform, radar_buffer)]. *)
Definition radar_init_body (arrays : list A * list A) (i : nat) :
    option (list A * list A) :=
  wf ← store arrays.1 (Z.of_nat i) (chirp_sample i);
  x ← load wf (Z.of_nat i);
  buf ← store arrays.2 (Z.of_nat i + Z.of_nat RADAR_OFFSET) x;
  Some (wf, buf).

(** [example_radar_init] (lines 677-691).  The globals start as zeros. *)
Definition example_radar_init : option (radar_state * list (radar_msg A)) :=
  let radar_buffer := arm_fill_f32 s0 AUDIO_BLOCKSIZE in
  let radar_zerobuffer := arm_fill_f32 s0 AUDIO_BLOCKSIZE in
  let corr_result := arm_fill_f32 s0 CORR_SIZE in
  '(wf, buf) ← for_each radar_init_body (seq 0 RADAR_SIZE)
                 (replicate RADAR_SIZE s0, radar_buffer);
  Some (RadarState wf buf radar_zerobuffer corr_result 0 0 0 0, [radar_f0 chirp_f0]).

(** The comparison of lines 708-711 on the pair [(max_i, max)]. *)
Definition peak_update (acc : Z * A) (i : nat) (x : A) : Z * A :=
  if sltb acc.2 x then (Z.of_nat i, x) else acc.

(** The peak search (lines 705-712) over the samples from index [i] on. *)
Fixpoint peak_from (i : nat) (corr : list A) (acc : Z * A) : Z * A :=
  match corr with
  | [] => acc
  | x :: corr' => peak_from (S i) corr' (peak_update acc i x)
  end.

Definition peak_search (corr : list A) : Z * A :=
  peak_from 0 (take CORR_SIZE corr) (0, s0).

(** The distance a peak index stands for (line 713): 343 m/s over the
    sample rate, per sample. *)
Definition radar_length (max_i index_0 : Z) : A :=
  sofZ (max_i - index_0) *ₛ sofZ 343 /ₛ sofZ AUDIO_SAMPLE_RATE.

(** The key switch of lines 716-727. *)
Definition radar_key (st : radar_state) (max_i : Z) (key : usart_char) :
    radar_state * list (radar_msg A) :=
  match key with
  | None => (st, [])
  | Some k =>
      if decide (k = "r"%char) then (set_index_0 st max_i, [radar_zero_set])
      else (st, [radar_invalid_key])
  end.

(** The detection (lines 702-727).  [arm_correlate_f32] writes
    [2 * max(AUDIO_BLOCKSIZE, RADAR_SIZE) - 1] samples of [corr_result]:
    the call is undefined when the array is shorter. *)
Definition radar_detect (st : radar_state) (micdata : list A) (key : usart_char) :
    option (radar_state * list (radar_msg A)) :=
  let corr := arm_fill_f32 s0 CORR_SIZE in
  guard (2 * (AUDIO_BLOCKSIZE `max` RADAR_SIZE) - 1 ≤ CORR_SIZE)%nat;;
  let corr := arm_correlate_f32 micdata AUDIO_BLOCKSIZE
                (radar_waveform st) RADAR_SIZE corr in
  let corr := arm_abs_f32 corr CORR_SIZE in
  let '(max_i, max) := peak_search corr in
  let report := radar_report max_i (radar_length max_i (index_0 st)) max (index_0 st) in
  let st := set_trig (set_corr st corr) 0 (radar_trig_delay st) in
  let '(st, log) := radar_key st max_i key in
  Some (st, report :: log).

(** What one call reads: the microphone block, the serial port (read only
    when a detection runs) and the clock, at the test of line 731 and at
    the call of line 732. *)
Record radar_in := RadarIn {
  rad_mic : list A;
  rad_key : usart_char;
  rad_now : systime_t;
  rad_now_set : systime_t;
}.

(** [example_radar] (lines 693-741).  The delay is decremented only when
    [radar_trig] is set: [&&] does not evaluate its right operand
    otherwise. *)
Definition example_radar (st : radar_state) (i : radar_in) :
    option (radar_state * block_out A (radar_msg A)) :=
  let micdata := rad_mic i in
  let '(st, fire) :=
    if decide (radar_trig st ≠ 0) then
      let d := radar_trig_delay st - 1 in
      (set_trig st (radar_trig st) d, bool_decide (d = 0))
    else (st, false) in
  '(st, log) ← (if fire then radar_detect st micdata (rad_key i) else Some (st, []));
  if systime_get_delay_passed (rad_now i) (tx_timer st) then
    let st := set_tx_timer st (systime_get_delay (rad_now_set i) 2000000) in
    let o := blocks_sinks_leftout (radar_zerobuffer st) (BlockOut [] [] log) in
    let o := blocks_sinks_rightout (radar_buffer st) o in
    Some (set_trig st 1 3, o)
  else
    let o := blocks_sinks_leftout (radar_zerobuffer st) (BlockOut [] [] log) in
    let o := blocks_sinks_rightout (radar_zerobuffer st) o in
    Some (st, o).

End Radar.

Arguments radar_state : clear implicits.
Arguments radar_in : clear implicits.

(** * Initialisation and safety *)

Section RadarInv.
Context {A : Type} {SA : Scalar A} {TA : Trig A} {CFG : Config} {RC : RadarConfig}
  {RO : RadarConfigOk}.
Implicit Types (st : radar_state A) (i : radar_in A).

(** The chirp. *)
Definition chirp : list A := chirp_sample <$> seq 0 RADAR_SIZE.

(** The block that is sent: the chirp at its offset, zeros around it. *)
Definition chirp_block : list A :=
  replicate RADAR_OFFSET s0 ++ chirp ++
  replicate (AUDIO_BLOCKSIZE - RADAR_OFFSET - RADAR_SIZE) s0.

(** The invariant of the mode: the arrays have their declared sizes, the
    zero buffer is zero, and a pending detection is at most three calls
    away. *)
Record radar_inv st : Prop := {
  r_waveform : length (radar_waveform st) = RADAR_SIZE;
  r_buffer : is_block (radar_buffer st);
  r_zero : radar_zerobuffer st = arm_fill_f32 s0 AUDIO_BLOCKSIZE;
  r_corr : length (corr_result st) = CORR_SIZE;
  r_trig : radar_trig st = 0 ∨ (radar_trig st = 1 ∧ 1 ≤ radar_trig_delay st ≤ 3);
}.

(** The two arrays after [k] iterations of the initialisation loop. *)
Definition init_arrays (k : nat) : list A * list A :=
  ((chirp_sample <$> seq 0 k) ++ replicate (RADAR_SIZE - k) s0,
   (replicate RADAR_OFFSET s0 ++ (chirp_sample <$> seq 0 k)) ++
   replicate (AUDIO_BLOCKSIZE - RADAR_OFFSET - k) s0).

Lemma radar_init_body_next (l : list A) (n m : nat) :
  radar_init_body
    (l ++ replicate (S n) s0, (replicate RADAR_OFFSET s0 ++ l) ++ replicate (S m) s0)
    (length l) =
  Some ((l ++ [chirp_sample (length l)]) ++ replicate n s0,
        ((replicate RADAR_OFFSET s0 ++ l) ++ [chirp_sample (length l)]) ++
        replicate m s0).
Proof.
  unfold radar_init_body. simpl. rewrite store_middle. simpl.
  rewrite load_middle. simpl.
  replace (Z.of_nat (length l) + Z.of_nat RADAR_OFFSET)
    with (Z.of_nat (length (replicate RADAR_OFFSET (s0 : A) ++ l)))
    by (rewrite length_app, length_replicate; lia).
  rewrite store_middle. simpl. by rewrite <- !(app_assoc _ [_]).
Qed.

Lemma radar_init_body_step (k : nat) :
  (k < RADAR_SIZE)%nat →
  radar_init_body (init_arrays k) k = Some (init_arrays (S k)).
Proof.
  intros Hk. pose proof radar_fits as Hfit. unfold init_arrays.
  replace (RADAR_SIZE - k)%nat with (S (RADAR_SIZE - S k)) by lia.
  replace (AUDIO_BLOCKSIZE - RADAR_OFFSET - k)%nat
    with (S (AUDIO_BLOCKSIZE - RADAR_OFFSET - S k)) by lia.
  rewrite seq_S, fmap_app. cbn [fmap list_fmap Nat.add].
  set (l := chirp_sample <$> seq 0 k).
  assert (Hl : length l = k) by (subst l; by rewrite length_fmap, length_seq).
  pose proof (radar_init_body_next l (RADAR_SIZE - S k)
                (AUDIO_BLOCKSIZE - RADAR_OFFSET - S k)) as Hn.
  rewrite Hl in Hn. rewrite Hn. by rewrite !app_assoc.
Qed.

Lemma init_arrays_0 :
  init_arrays 0 = (replicate RADAR_SIZE s0, arm_fill_f32 s0 AUDIO_BLOCKSIZE).
Proof.
  pose proof radar_fits. unfold init_arrays, arm_fill_f32. simpl.
  rewrite app_nil_r, !Nat.sub_0_r, <- replicate_add. do 2 f_equal. lia.
Qed.

Lemma init_arrays_full : init_arrays RADAR_SIZE = (chirp, chirp_block).
Proof.
  unfold init_arrays, chirp_block, chirp.
  by rewrite Nat.sub_diag, app_nil_r, <- app_assoc.
Qed.

Lemma length_chirp : length chirp = RADAR_SIZE.
Proof. unfold chirp. by rewrite length_fmap, length_seq. Qed.

Lemma length_chirp_block : is_block chirp_block.
Proof.
  pose proof radar_fits. unfold is_block, chirp_block.
  rewrite !length_app, !length_replicate, length_chirp. lia.
Qed.

(** The initialisation loop is defined and fills both arrays. *)
Lemma chirp_init_run :
  for_each radar_init_body (seq 0 RADAR_SIZE)
    (replicate RADAR_SIZE s0, arm_fill_f32 s0 AUDIO_BLOCKSIZE)
  = Some (chirp, chirp_block).
Proof.
  destruct (for_each_invariant radar_init_body (λ k s, s = init_arrays k)
              (seq 0 RADAR_SIZE)) with (s := init_arrays 0) as (s' & Hrun & ->).
  { intros k s j [-> Hk]%lookup_seq ->. simpl. eexists. split; [|done].
    by apply radar_init_body_step. }
  { done. }
  by rewrite length_seq, init_arrays_full, init_arrays_0 in Hrun.
Qed.

(** The initialisation is defined and leaves the chirp in
    [radar_waveform] and the chirp block in [radar_buffer]. *)
Lemma radar_init_spec :
  ∃ st log, example_radar_init = Some (st, log) ∧ radar_inv st ∧
    radar_waveform st = chirp ∧ radar_buffer st = chirp_block ∧
    radar_trig st = 0 ∧ tx_timer st = 0 ∧ index_0 st = 0.
Proof.
  unfold example_radar_init. rewrite chirp_init_run. simpl.
  eexists _, _. split; [done|]. split_and!; try done.
  split; simpl; [apply length_chirp|apply length_chirp_block|done|
                 apply length_arm_fill|by left].
Qed.

End RadarInv.

(** * The peak search *)

Section Peak.
Context {A : Type} {SA : Scalar A} {SL : ScalarLaws A} {RC : RadarConfig}.
Implicit Types (corr c : list A) (i j : nat) (m x : A).

(** The loop of lines 707-712 is the scan for the maximum of the indexed
    samples. *)
Lemma peak_from_scan corr : ∀ i j m,
  ∃ p : nat * A,
    scan_max snd (indexed i corr) (Some m, (j, m)) = (Some p.2, p) ∧
    peak_from i corr (Z.of_nat j, m) = (Z.of_nat p.1, p.2).
Proof.
  induction corr as [|x corr IH]; intros i j m; [by exists (j, m)|].
  rewrite indexed_cons. unfold scan_max. simpl.
  unfold max_update at 2, peak_update, sgtb. simpl.
  destruct (sltb m x); apply IH.
Qed.

(** What the peak search returns: index 0 and value 0 when no sample is
    positive, else the first largest sample and its index. *)
Lemma peak_search_cases corr :
  (peak_search corr = (0, s0) ∧ Forall (λ x, x ≤ₛ s0) (take CORR_SIZE corr)) ∨
  (∃ c1 x c2, take CORR_SIZE corr = c1 ++ x :: c2 ∧
     peak_search corr = (Z.of_nat (length c1), x) ∧ s0 <ₛ x ∧
     Forall (λ y, y <ₛ x) c1 ∧ Forall (λ y, y ≤ₛ x) c2).
Proof.
  unfold peak_search. set (c := take CORR_SIZE corr).
  destruct (peak_from_scan c 0 0 s0) as (p & Hscan & Hp).
  change (Z.of_nat 0) with 0 in Hp. rewrite Hp.
  destruct (scan_indexed_spec 0 c 0 s0) as [[Hr Hall] | (c1 & x & c2 & Hc & Hr & Hx & H1 & H2)];
    simpl in Hr; rewrite Hscan in Hr; injection Hr as -> ->.
  - by left.
  - right. by exists c1, x, c2.
Qed.

End Peak.

(** * One call *)

Section RadarStep.
Context {A : Type} {SA : Scalar A} {TA : Trig A} {CFG : Config} {RC : RadarConfig}
  {RO : RadarConfigOk}.
Implicit Types (st : radar_state A) (i : radar_in A).

(** The magnitude of the correlation of a microphone block with a
    waveform, computed into a cleared buffer (lines 702-704). *)
Definition chirp_corr (wf mic : list A) : list A :=
  arm_abs_f32
    (arm_correlate_f32 mic AUDIO_BLOCKSIZE wf RADAR_SIZE
       (arm_fill_f32 s0 CORR_SIZE)) CORR_SIZE.

Definition radar_corr st (mic : list A) : list A :=
  chirp_corr (radar_waveform st) mic.

(** The state a detection leaves before the key is handled. *)
Definition detected st (mic : list A) : radar_state A :=
  set_trig (set_corr st (radar_corr st mic)) 0 (radar_trig_delay st).

(** The line a detection prints. *)
Definition detection_report st (mic : list A) : radar_msg A :=
  let p := peak_search (radar_corr st mic) in
  radar_report p.1 (radar_length p.1 (index_0 st)) p.2 (index_0 st).

Lemma corr_guard : (2 * (AUDIO_BLOCKSIZE `max` RADAR_SIZE) - 1 ≤ CORR_SIZE)%nat.
Proof. pose proof radar_fits. pose proof corr_fits. lia. Qed.

Lemma length_chirp_corr (wf mic : list A) : length (chirp_corr wf mic) = CORR_SIZE.
Proof.
  pose proof corr_guard. unfold chirp_corr.
  rewrite length_arm_abs; [done|].
  rewrite length_arm_correlate; by rewrite length_arm_fill.
Qed.

(** The peak index is an index of the correlation buffer. *)
Lemma peak_search_range (corr : list A) :
  0 ≤ (peak_search corr).1 ≤ Z.of_nat CORR_SIZE.
Proof.
  unfold peak_search.
  assert (∀ (c : list A) (n : nat) (acc : Z * A),
    0 ≤ acc.1 ≤ Z.of_nat (n + length c) →
    0 ≤ (peak_from n c acc).1 ≤ Z.of_nat (n + length c)) as Hgen.
  { induction c as [|x c IH]; intros n acc Hacc; simpl in *; [done|].
    replace (n + S (length c))%nat with (S n + length c)%nat in * by lia.
    apply IH. unfold peak_update. case_match; simpl; lia. }
  pose proof (Hgen (take CORR_SIZE corr) 0%nat (0, s0)) as Hp.
  rewrite length_take in Hp. simpl in Hp. lia.
Qed.

Lemma length_radar_corr st mic : length (radar_corr st mic) = CORR_SIZE.
Proof.
  pose proof corr_guard. unfold radar_corr, chirp_corr.
  rewrite length_arm_abs; [done|].
  rewrite length_arm_correlate; by rewrite length_arm_fill.
Qed.

Lemma radar_detect_eq st mic key :
  radar_detect st mic key = Some
    ((radar_key (detected st mic) (peak_search (radar_corr st mic)).1 key).1,
     detection_report st mic ::
     (radar_key (detected st mic) (peak_search (radar_corr st mic)).1 key).2).
Proof.
  unfold radar_detect, detection_report, detected.
  rewrite option_guard_True by apply corr_guard. simpl.
  fold (chirp_corr (radar_waveform st) mic). fold (radar_corr st mic).
  destruct (peak_search _) as [max_i max]. simpl.
  by destruct (radar_key _ _ _).
Qed.

Lemma radar_key_inv st max_i key :
  radar_inv st → radar_inv (radar_key st max_i key).1.
Proof.
  intros Hinv. destruct key as [k|]; simpl; [case_decide|]; try done.
  destruct Hinv. by split.
Qed.

Lemma radar_key_trig st max_i key :
  radar_trig (radar_key st max_i key).1 = radar_trig st ∧
  tx_timer (radar_key st max_i key).1 = tx_timer st ∧
  radar_buffer (radar_key st max_i key).1 = radar_buffer st ∧
  radar_waveform (radar_key st max_i key).1 = radar_waveform st.
Proof. destruct key as [k|]; simpl; [case_decide|]; done. Qed.

Lemma detected_inv st mic : radar_inv st → radar_inv (detected st mic).
Proof. intros []. split; simpl; try done; [apply length_radar_corr|by left]. Qed.

(** No transmission is due and none is pending: nothing happens. *)
Lemma radar_idle st i :
  radar_inv st → radar_trig st = 0 →
  systime_get_delay_passed (rad_now i) (tx_timer st) = false →
  example_radar st i =
    Some (st, BlockOut (radar_zerobuffer st) (radar_zerobuffer st) []).
Proof.
  intros Hinv Ht Hp. unfold example_radar. case_decide; [congruence|].
  simpl. by rewrite Hp.
Qed.

(** A transmission is due: the chirp block is sent and a detection is
    scheduled three calls ahead. *)
Lemma radar_transmit st i :
  radar_trig st = 0 →
  systime_get_delay_passed (rad_now i) (tx_timer st) = true →
  example_radar st i =
    Some (set_trig (set_tx_timer st (systime_get_delay (rad_now_set i) 2000000)) 1 3,
          BlockOut (radar_zerobuffer st) (radar_buffer st) []).
Proof.
  intros Ht Hp. unfold example_radar. case_decide; [congruence|].
  simpl. by rewrite Hp.
Qed.

(** A detection is pending but not yet due: the delay counts down. *)
Lemma radar_wait st i :
  radar_trig st = 1 → radar_trig_delay st ≠ 1 →
  systime_get_delay_passed (rad_now i) (tx_timer st) = false →
  example_radar st i =
    Some (set_trig st 1 (radar_trig_delay st - 1),
          BlockOut (radar_zerobuffer st) (radar_zerobuffer st) []).
Proof.
  intros Ht Hd Hp. unfold example_radar. rewrite decide_True by (by rewrite Ht).
  rewrite bool_decide_false by lia. simpl. by rewrite Hp, Ht.
Qed.

(** The detection is due. *)
Lemma radar_fire st i :
  radar_trig st = 1 → radar_trig_delay st = 1 →
  systime_get_delay_passed (rad_now i) (tx_timer st) = false →
  ∃ st', example_radar st i =
    Some (st', BlockOut (radar_zerobuffer st) (radar_zerobuffer st)
                 (detection_report st (rad_mic i) ::
                  (radar_key (detected st (rad_mic i))
                     (peak_search (radar_corr st (rad_mic i))).1 (rad_key i)).2)) ∧
    radar_trig st' = 0 ∧
    index_0 st' =
      index_0 (radar_key (detected st (rad_mic i))
                 (peak_search (radar_corr st (rad_mic i))).1 (rad_key i)).1.
Proof.
  intros Ht Hd Hp. unfold example_radar. rewrite decide_True by (by rewrite Ht).
  rewrite bool_decide_true by lia. rewrite radar_detect_eq. simpl.
  destruct (radar_key_trig (detected (set_trig st (radar_trig st) (radar_trig_delay st - 1))
              (rad_mic i)) (peak_search (radar_corr st (rad_mic i))).1 (rad_key i))
    as (Hk1 & Hk2 & _).
  destruct (radar_key _ _ _) as [st1 log] eqn:Hkey. simpl in *.
  rewrite Hk2, Hp. eexists. split_and!; [|done|].
  - do 3 f_equal. destruct (rad_key i) as [k|]; simpl in *; [case_decide|];
      by simplify_eq.
  - destruct (rad_key i) as [k|]; simpl in *; [case_decide|]; by simplify_eq.
Qed.

(** Every call is defined and keeps the invariant; the left output is
    always the zero block and both outputs have the block size. *)
Lemma example_radar_inv st i :
  radar_inv st →
  ∃ st' o, example_radar st i = Some (st', o) ∧ radar_inv st' ∧
    out_left o = arm_fill_f32 s0 AUDIO_BLOCKSIZE ∧ is_block (out_right o).
Proof.
  intros Hinv. pose proof Hinv as [Hw Hb Hz Hc Ht]. unfold example_radar.
  set (pre := if decide (radar_trig st ≠ 0) then _ else _).
  assert (∃ st1 fire, pre = (st1, fire) ∧ radar_zerobuffer st1 = radar_zerobuffer st ∧
    radar_buffer st1 = radar_buffer st ∧ length (radar_waveform st1) = RADAR_SIZE ∧
    length (corr_result st1) = CORR_SIZE ∧
    (if fire then True else radar_trig st1 = 0 ∨
       (radar_trig st1 = 1 ∧ 1 ≤ radar_trig_delay st1 ≤ 3)))
    as (st1 & fire & -> & Hz1 & Hb1 & Hw1 & Hc1 & Ht1).
  { subst pre. case_decide; eexists _, _; split_and!; try done; simpl.
    case_bool_decide; [done|]. right. destruct Ht as [|[? ?]]; [done|lia]. }
  assert (∃ st2 log, (if fire then radar_detect st1 (rad_mic i) (rad_key i)
                      else Some (st1, [])) = Some (st2, log) ∧ radar_inv st2 ∧
            radar_buffer st2 = radar_buffer st) as (st2 & log & -> & Hinv2 & Hb2).
  { destruct fire.
    - rewrite radar_detect_eq. eexists _, _. split; [done|].
      destruct (radar_key_trig (detected st1 (rad_mic i))
                  (peak_search (radar_corr st1 (rad_mic i))).1 (rad_key i))
        as (_ & _ & -> & _). split; [|done].
      apply radar_key_inv. split; simpl; rewrite ?Hz1, ?Hb1; try done;
        [apply length_radar_corr|by left].
    - eexists _, _. split; [done|]. split; [|done].
      split; rewrite ?Hz1, ?Hb1; done. }
  simpl. destruct Hinv2 as [Hw2 Hbb Hz2 Hc2 Ht2].
  destruct (systime_get_delay_passed _ _); eexists _, _; (split; [done|]);
    simpl; rewrite ?Hz2; split_and!; try done; try apply length_arm_fill.
  split; simpl; try done. right. lia.
Qed.

End RadarStep.

(** A stand-in for the sine of the executable examples: the theorems hold
    for any waveform generator. *)
Definition demo_sin : Trig Qc := λ x, x.

(** The initialisation is defined when the chirp fits into a block at
    its offset: it never writes outside [radar_waveform] or [radar_buffer],
    prints the start frequency, and leaves the chirp in [radar_waveform]
    and, in [radar_buffer], the chirp at [RADAR_OFFSET] with zeros around
    it, no detection pending and the transmit timer due. *)
Theorem radar_init_chirp {A : Type} {SA : Scalar A} {TA : Trig A} {CFG : Config}
    {RC : RadarConfig} {RO : RadarConfigOk} :
  ∃ st : radar_state A, example_radar_init = Some (st, [radar_f0 chirp_f0]) ∧
    radar_inv st ∧ radar_waveform st = chirp ∧ radar_buffer st = chirp_block ∧
    radar_trig st = 0 ∧ tx_timer st = 0.
Proof.
  destruct (radar_init_spec (A:=A)) as (st & log & Hinit & Hinv & Hw & Hb & Ht & Htx & _).
  exists st. split_and!; try done. rewrite Hinit. f_equal.
  unfold example_radar_init in Hinit. by destruct (for_each _ _ _) as [[??]|]; simplify_eq/=.
Qed.

Lemma radar_init_chirp_witness :
  ∃ st : radar_state Qc,
    example_radar_init (TA:=demo_sin) (CFG:=small_config) (RC:=small_radar)
      = Some (st, [radar_f0 (chirp_f0 (CFG:=small_config) (RC:=small_radar))]) ∧
    radar_inv (CFG:=small_config) (RC:=small_radar) st ∧
    radar_waveform st = chirp (TA:=demo_sin) (CFG:=small_config) (RC:=small_radar) ∧
    radar_buffer st = chirp_block (TA:=demo_sin) (CFG:=small_config) (RC:=small_radar) ∧
    radar_trig st = 0 ∧ tx_timer st = 0.
Proof. apply (radar_init_chirp (RO:=small_radar_ok)). Defined.

(** Along every run of the handler from the initialised state, whatever
    the microphone, the keys and the clock, every call is defined (the
    correlation fits into [corr_result]), the invariant holds (a pending
    detection is one to three calls away), the left output is always the
    zero block and the right output has the block size. *)
Theorem radar_run_safe {A : Type} {SA : Scalar A} {TA : Trig A} {CFG : Config}
    {RC : RadarConfig} {RO : RadarConfigOk} (ins : list (radar_in A)) :
  ∃ (st0 : radar_state A) log st os,
    example_radar_init = Some (st0, log) ∧
    run example_radar st0 ins = Some (st, os) ∧
    radar_inv st ∧ length os = length ins ∧
    ∀ k o, os !! k = Some o →
      out_left o = arm_fill_f32 s0 AUDIO_BLOCKSIZE ∧ is_block (out_right o).
Proof.
  destruct (radar_init_spec (A:=A)) as (st0 & log & Hinit & Hinv & _).
  destruct (run_indexed example_radar (λ _, radar_inv)
    (λ _ o, out_left o = arm_fill_f32 s0 AUDIO_BLOCKSIZE ∧ is_block (out_right o)) ins)
    with (s := st0) as (st & os & Hrun & Hst & Hlen & Hout); [|done|].
  - intros k s i _ Hs. destruct (example_radar_inv s i Hs) as (s' & o & ? & ? & ? & ?).
    by exists s', o.
  - by exists st0, log, st, os.
Qed.

Definition radar_block (t : Z) (key : usart_char) : radar_in Qc :=
  RadarIn [qc 1 2; qc (-1) 3; qc 1 4; qc 0 1] key t t.

Lemma radar_run_safe_witness :
  ∃ (st0 : radar_state Qc) log st os,
    example_radar_init (TA:=demo_sin) (CFG:=small_config) (RC:=small_radar)
      = Some (st0, log) ∧
    run (example_radar (CFG:=small_config) (RC:=small_radar)) st0
      [radar_block 0 None; radar_block 250 None] = Some (st, os) ∧
    radar_inv (CFG:=small_config) (RC:=small_radar) st ∧ length os = 2%nat ∧
    ∀ k o, os !! k = Some o →
      out_left o = arm_fill_f32 s0 4 ∧ length (out_right o) = 4%nat.
Proof.
  apply (radar_run_safe (TA:=demo_sin) (RO:=small_radar_ok)
           [radar_block 0 None; radar_block 250 None]).
Defined.

(** C11: the peak search returns index 0 and amplitude 0 when no sample of
    the magnitude is positive, and otherwise the first largest sample with
    its index: every earlier sample is strictly smaller and every later one
    at most as large. *)
Theorem peak_search_first_max {A : Type} {SA : Scalar A} {SL : ScalarLaws A}
    {RC : RadarConfig} (corr : list A) :
  (peak_search corr = (0, s0) ∧ Forall (λ x, x ≤ₛ s0) (take CORR_SIZE corr)) ∨
  (∃ c1 x c2, take CORR_SIZE corr = c1 ++ x :: c2 ∧
     peak_search corr = (Z.of_nat (length c1), x) ∧ s0 <ₛ x ∧
     Forall (λ y, y <ₛ x) c1 ∧ Forall (λ y, y ≤ₛ x) c2).
Proof. apply peak_search_cases. Qed.

Lemma peak_search_first_max_witness :
  (peak_search (RC:=small_radar) [qc 1 2; qc 3 4; qc 3 4] = (0, s0) ∧
   Forall (λ x, x ≤ₛ s0) (take 7 [qc 1 2; qc 3 4; qc 3 4])) ∨
  (∃ c1 x c2, take 7 [qc 1 2; qc 3 4; qc 3 4] = c1 ++ x :: c2 ∧
     peak_search (RC:=small_radar) [qc 1 2; qc 3 4; qc 3 4]
       = (Z.of_nat (length c1), x) ∧ s0 <ₛ x ∧
     Forall (λ y, y <ₛ x) c1 ∧ Forall (λ y, y ≤ₛ x) c2).
Proof. apply (peak_search_first_max (RC:=small_radar)). Defined.

Section RadarCycle.
Context {A : Type} {SA : Scalar A} {CFG : Config} {RC : RadarConfig} {RO : RadarConfigOk}.
Implicit Types (st : radar_state A) (i : radar_in A).

(** One cycle: the transmission, two silent calls and the detection. *)
Lemma radar_cycle st i0 i1 i2 i3 :
  radar_trig st = 0 →
  tx_timer st ≤ rad_now i0 →
  Forall (λ i, rad_now i < rad_now_set i0 + 2000000) [i1; i2; i3] →
  let z := radar_zerobuffer st in
  ∃ st' log,
    run example_radar st [i0; i1; i2; i3] =
      Some (st', [BlockOut z (radar_buffer st) []; BlockOut z z [];
                  BlockOut z z [];
                  BlockOut z z (detection_report st (rad_mic i3) :: log)]) ∧
    radar_trig st' = 0.
Proof.
  intros Ht H0 (H1 & (H2 & (H3 & _)%Forall_cons_1)%Forall_cons_1)%Forall_cons_1. simpl.
  rewrite radar_transmit by (try done; by apply delay_passed).
  simpl. rewrite radar_wait; [|done|done|by apply delay_not_passed].
  simpl. rewrite radar_wait; [|done|done|by apply delay_not_passed].
  simpl. edestruct (radar_fire (set_trig (set_trig (set_trig (set_tx_timer st
            (systime_get_delay (rad_now_set i0) 2000000)) 1 3) 1 (3 - 1)) 1 (3 - 1 - 1)) i3)
    as (st' & -> & Ht' & _); [done|done|by apply delay_not_passed|].
  simpl. by eexists _, _.
Qed.

End RadarCycle.

(** C10: a detection runs in the third call after a transmission.  From a
    state with no detection pending, when the transmit timer has expired at
    the first of four calls and does not expire again during the next three,
    the first call sends the chirp block on the right output, the next two
    send silence and print nothing, and the fourth prints the report of the
    correlation of its microphone block with the chirp. *)
Theorem radar_detection_timing {A : Type} {SA : Scalar A}
    {CFG : Config} {RC : RadarConfig} {RO : RadarConfigOk}
    (st : radar_state A) (i0 i1 i2 i3 : radar_in A) :
  radar_trig st = 0 →
  tx_timer st ≤ rad_now i0 →
  Forall (λ i, rad_now i < rad_now_set i0 + 2000000) [i1; i2; i3] →
  let z := radar_zerobuffer st in
  ∃ st' log,
    run example_radar st [i0; i1; i2; i3] =
      Some (st', [BlockOut z (radar_buffer st) []; BlockOut z z [];
                  BlockOut z z [];
                  BlockOut z z (detection_report st (rad_mic i3) :: log)]) ∧
    radar_trig st' = 0.
Proof. apply radar_cycle. Qed.

Definition idle_radar : radar_state Qc :=
  RadarState [qc 1 1; qc 2 1] [qc 0 1; qc 1 1; qc 2 1; qc 0 1]
    (replicate 4 (qc 0 1)) (replicate 7 (qc 0 1)) 0 0 0 0.

Lemma radar_detection_timing_witness :
  ∃ st' log,
    run (example_radar (CFG:=small_config) (RC:=small_radar)) idle_radar
      [radar_block 0 None; radar_block 250 None; radar_block 500 None;
       radar_block 750 (Some "r"%char)] =
      Some (st', [BlockOut (radar_zerobuffer idle_radar) (radar_buffer idle_radar) [];
                  BlockOut (radar_zerobuffer idle_radar) (radar_zerobuffer idle_radar) [];
                  BlockOut (radar_zerobuffer idle_radar) (radar_zerobuffer idle_radar) [];
                  BlockOut (radar_zerobuffer idle_radar) (radar_zerobuffer idle_radar)
                    (detection_report (CFG:=small_config) (RC:=small_radar) idle_radar
                       (rad_mic (radar_block 750 (Some "r"%char))) :: log)]) ∧
    radar_trig st' = 0.
Proof.
  apply (radar_detection_timing (CFG:=small_config) (RC:=small_radar)
           (RO:=small_radar_ok) idle_radar); [done|done|].
  by repeat constructor.
Defined.

(** * Calibration *)

Section Calibration.
Context {A : Type} {SA : Scalar A} {SL : ScalarLaws A} {CFG : Config}.
Add Field radar_calibration_field : s_field.

Lemma radar_length_0 (p : Z) : radar_length p p = (s0 : A).
Proof.
  unfold radar_length. rewrite Z.sub_diag, sofZ_0, (Fdiv_def s_field). ring.
Qed.

End Calibration.

(** The key ['r'] calibrates the distance scale.  A detection that
    reads ['r'] stores its peak index as [index_0]; a later detection on
    the same chirp reports the distance [(p - p0) * 343 / AUDIO_SAMPLE_RATE]
    of its peak index [p] from the stored index [p0], which is zero when
    the peak has not moved. *)
Theorem radar_calibrated_distance {A : Type} {SA : Scalar A} {SL : ScalarLaws A}
    {CFG : Config} {RC : RadarConfig} {RO : RadarConfigOk}
    (st : radar_state A) (mic0 mic : list A) :
  let p0 := (peak_search (radar_corr st mic0)).1 in
  let p := peak_search (radar_corr st mic) in
  ∃ st1 st2 log0,
    radar_detect st mic0 (Some "r"%char) = Some (st1, log0) ∧ index_0 st1 = p0 ∧
    radar_detect st1 mic None =
      Some (st2, [radar_report p.1
                    (sofZ (p.1 - p0) *ₛ sofZ 343 /ₛ sofZ AUDIO_SAMPLE_RATE) p.2 p0]) ∧
    (p.1 = p0 → radar_length p.1 (index_0 st1) = (s0 : A)).
Proof.
  simpl. rewrite radar_detect_eq. simpl. eexists _, _, _. split; [done|]. simpl.
  split; [done|]. rewrite radar_detect_eq. simpl. split; [done|].
  intros ->. apply radar_length_0.
Qed.

Lemma radar_calibrated_distance_witness :
  let mic := [qc 1 2; qc (-1) 3; qc 1 4; qc 0 1] in
  let p0 := (peak_search (RC:=small_radar)
               (radar_corr (CFG:=small_config) (RC:=small_radar) idle_radar mic)).1 in
  let p := peak_search (RC:=small_radar)
             (radar_corr (CFG:=small_config) (RC:=small_radar) idle_radar mic) in
  ∃ st1 st2 log0,
    radar_detect (CFG:=small_config) (RC:=small_radar) idle_radar mic (Some "r"%char)
      = Some (st1, log0) ∧ index_0 st1 = p0 ∧
    radar_detect (CFG:=small_config) (RC:=small_radar) st1 mic None =
      Some (st2, [radar_report p.1 (sofZ (p.1 - p0) *ₛ sofZ 343 /ₛ sofZ 16000) p.2 p0]) ∧
    (p.1 = p0 → radar_length (CFG:=small_config) p.1 (index_0 st1) = (s0 : Qc)).
Proof.
  apply (radar_calibrated_distance (CFG:=small_config) (RC:=small_radar)
           (RO:=small_radar_ok) idle_radar).
Defined.
