(* ===== verification/Radar2.v ===== *)
(** * Radar2: chirp ranging with averaging (SYSMODE_RADAR2)

    In this variant every block sends the chirp and every block is
    correlated with it; the peak index and the peak amplitude are summed
    over [RADAR_PRINT_DELAY] blocks and their averages are printed.  The
    correlation buffer is not cleared between calls. *)

From Stdlib Require Import Field Qcanon.
From S2P Require Import Prelude Scalar Argmax Numerics Board Radar.

(** The lines the mode prints. *)
Inductive radar2_msg (A : Type) :=
  | radar2_report (max_i_average_f : A) (length_m : A) (amplitude : A) (index_0_f : A)
  | radar2_invalid_key
  | radar2_zero_set.
Arguments radar2_report {A} _ _ _ _.
Arguments radar2_invalid_key {A}.
Arguments radar2_zero_set {A}.

Section Radar2.
Context {A : Type} {SA : Scalar A} {TA : Trig A} {CFG : Config} {RC : RadarConfig}.

(** The globals of lines 746-754. *)
Record radar2_state := Radar2State {
  radar2_waveform : list A;
  radar2_buffer : list A;
  radar2_zerobuffer : list A;
  corr2_result : list A;
  radar_print_cnt : Z;
  index_0_f : A;
  max_i_average : Z;
  max_i_average_f : A;
  max_average : A;
}.

(** Sample [i] of the chirp at half amplitude (line 771). *)
Definition chirp2_sample (i : nat) : A := shalf *ₛ chirp_sample i.

(** The body of the loop of lines 770-773. *)
Definition radar2_init_body (arrays : list A * list A) (i : nat) :
    option (list A * list A) :=
  wf ← store arrays.1 (Z.of_nat i) (chirp2_sample i);
  x ← load wf (Z.of_nat i);
  buf ← store arrays.2 (Z.of_nat i + Z.of_nat RADAR_OFFSET) x;
  Some (wf, buf).

(** [example_radar_init] of SYSMODE_RADAR2 (lines 757-774). *)
Definition example_radar2_init : option radar2_state :=
  let max_i_average := 0 in
  let max_average := s0 in
  let radar_print_cnt := RADAR_PRINT_DELAY in
  let radar_buffer := arm_fill_f32 s0 AUDIO_BLOCKSIZE in
  let radar_zerobuffer := arm_fill_f32 s0 AUDIO_BLOCKSIZE in
  let corr_result := arm_fill_f32 s0 CORR_SIZE in
  let index_0_f := s0 in
  '(wf, buf) ← for_each radar2_init_body (seq 0 RADAR_SIZE)
                 (replicate RADAR_SIZE s0, radar_buffer);
  Some (Radar2State wf buf radar_zerobuffer corr_result radar_print_cnt
          index_0_f max_i_average s0 max_average).

(** The magnitude of the correlation (lines 785-786), computed into the
    buffer as the previous call left it. *)
Definition radar2_corr (st : radar2_state) (micdata : list A) : list A :=
  arm_abs_f32
    (arm_correlate_f32 micdata AUDIO_BLOCKSIZE (radar2_waveform st) RADAR_SIZE
       (corr2_result st)) CORR_SIZE.

(** The distance an averaged peak index stands for (line 801). *)
Definition radar2_length (max_i_average_f index_0_f : A) : A :=
  (max_i_average_f -ₛ index_0_f) *ₛ sofZ 343 /ₛ sofZ AUDIO_SAMPLE_RATE.

(** The report of lines 798-817, on the sums of the window. *)
Definition radar2_print (st : radar2_state) (corr : list A) (sum_i : Z) (sum : A)
    (key : usart_char) : radar2_state * list (radar2_msg A) :=
  let avg_i := sofZ sum_i /ₛ sofZ RADAR_PRINT_DELAY in
  let avg := sum /ₛ sofZ RADAR_PRINT_DELAY in
  let report := radar2_report avg_i (radar2_length avg_i (index_0_f st)) avg
                  (index_0_f st) in
  let '(idx0, log) :=
    match key with
    | None => (index_0_f st, [])
    | Some k =>
        if decide (k = "r"%char) then (avg_i, [radar2_zero_set])
        else (index_0_f st, [radar2_invalid_key])
    end in
  (Radar2State (radar2_waveform st) (radar2_buffer st) (radar2_zerobuffer st) corr
     RADAR_PRINT_DELAY idx0 0 avg_i s0,
   report :: log).

(** What one call reads. *)
Record radar2_in := Radar2In {
  rad2_mic : list A;
  rad2_key : usart_char;
}.

(** [example_radar] of SYSMODE_RADAR2 (lines 776-821). *)
Definition example_radar2 (st : radar2_state) (i : radar2_in) :
    option (radar2_state * block_out A (radar2_msg A)) :=
  let micdata := rad2_mic i in
  guard (2 * (AUDIO_BLOCKSIZE `max` RADAR_SIZE) - 1 ≤ length (corr2_result st))%nat;;
  let corr := radar2_corr st micdata in
  let '(max_i, max) := peak_search corr in
  let sum_i := max_i_average st + max_i in
  let sum := max_average st +ₛ max in
  let cnt := radar_print_cnt st - 1 in
  let '(st, log) :=
    if bool_decide (cnt = 0) then radar2_print st corr sum_i sum (rad2_key i)
    else (Radar2State (radar2_waveform st) (radar2_buffer st) (radar2_zerobuffer st)
            corr cnt (index_0_f st) sum_i (max_i_average_f st) sum, []) in
  let o := blocks_sinks_leftout (radar2_zerobuffer st) (BlockOut [] [] log) in
  let o := blocks_sinks_rightout (radar2_buffer st) o in
  Some (st, o).

End Radar2.

Arguments radar2_state : clear implicits.
Arguments radar2_in : clear implicits.

(** * The correlation buffer is never cleared *)

Section Stale.
Context {A : Type} {SA : Scalar A} {SL : ScalarLaws A} {CFG : Config}
  {RC : RadarConfig} {RO : RadarConfigOk}.
Implicit Types (wf mic dst corr w : list A).

(** The samples [arm_correlate_f32] writes: the correlation of the block
    with the waveform at every lag. *)
Definition corr_window wf mic : list A :=
  corr_at (take AUDIO_BLOCKSIZE mic) (take RADAR_SIZE wf)
    <$> seq 0 (AUDIO_BLOCKSIZE + RADAR_SIZE - 1).

(** A correlation buffer whose samples outside the written window are
    zero. *)
Definition stale_zero corr : Prop :=
  ∃ w, length w = (AUDIO_BLOCKSIZE + RADAR_SIZE - 1)%nat ∧
    corr = replicate (AUDIO_BLOCKSIZE - RADAR_SIZE) s0 ++ w ++
           replicate (CORR_SIZE - (2 * AUDIO_BLOCKSIZE - 1)) s0.

Lemma stale_zero_length corr : stale_zero corr → length corr = CORR_SIZE.
Proof.
  pose proof radar_fits. pose proof corr_fits. pose proof radar_size_pos.
  intros (w & Hw & ->). rewrite !length_app, !length_replicate. lia.
Qed.

Lemma stale_zero_fill : stale_zero (arm_fill_f32 s0 CORR_SIZE).
Proof.
  pose proof radar_fits. pose proof corr_fits. pose proof radar_size_pos.
  exists (replicate (AUDIO_BLOCKSIZE + RADAR_SIZE - 1) s0).
  split; [apply length_replicate|].
  unfold arm_fill_f32. rewrite <- !replicate_add. f_equal. lia.
Qed.

(** The magnitude of a correlation computed into such a buffer. *)
Lemma correlate_stale wf mic dst :
  stale_zero dst →
  arm_abs_f32 (arm_correlate_f32 mic AUDIO_BLOCKSIZE wf RADAR_SIZE dst) CORR_SIZE =
    replicate (AUDIO_BLOCKSIZE - RADAR_SIZE) s0 ++ (sabs <$> corr_window wf mic) ++
    replicate (CORR_SIZE - (2 * AUDIO_BLOCKSIZE - 1)) s0.
Proof.
  pose proof radar_fits. pose proof corr_fits. pose proof radar_size_pos.
  intros (w & Hw & ->). unfold arm_correlate_f32, corr_window.
  rewrite decide_True by lia. cbv zeta.
  rewrite take_app_length' by (by rewrite length_replicate).
  rewrite drop_app_add' by (by rewrite length_replicate).
  rewrite drop_app_length' by done.
  unfold arm_abs_f32. rewrite !fmap_app, !fmap_replicate, sabs_0.
  apply take_ge. rewrite !length_app, !length_replicate, !length_fmap, length_seq. lia.
Qed.

End Stale.

(** * One call *)

Section Radar2Step.
Context {A : Type} {SA : Scalar A} {SL : ScalarLaws A} {TA : Trig A} {CFG : Config}
  {RC : RadarConfig} {RO : RadarConfigOk}.
Implicit Types (st : radar2_state A) (i : radar2_in A) (wf mic : list A).

(** [arm_sin_f32] at half amplitude: with it the waveform of this mode is the
    chirp of [Radar]. *)
Definition half_sin : Trig A := λ x, shalf *ₛ arm_sin_f32 x.

Lemma radar2_init_body_eq : radar2_init_body = radar_init_body (TA:=half_sin).
Proof. done. Qed.

(** The uncleared buffer gives the correlation a cleared one would. *)
Lemma radar2_corr_fresh st mic :
  stale_zero (corr2_result st) →
  radar2_corr st mic = chirp_corr (radar2_waveform st) mic.
Proof.
  intros Hs. unfold radar2_corr, chirp_corr.
  rewrite !correlate_stale; [done|apply stale_zero_fill|done].
Qed.

Lemma stale_zero_corr wf mic : stale_zero (chirp_corr wf mic).
Proof.
  unfold chirp_corr. rewrite correlate_stale by apply stale_zero_fill.
  exists (sabs <$> corr_window wf mic). split; [|done].
  unfold corr_window. by rewrite !length_fmap, length_seq.
Qed.

(** The invariant of the mode: the arrays have their sizes, the correlation
    buffer is zero outside the written window, the countdown is in
    [1, RADAR_PRINT_DELAY] and the sum of the peak indices is bounded by the
    number of blocks summed times the size of the buffer. *)
Record radar2_inv st : Prop := {
  r2_waveform : length (radar2_waveform st) = RADAR_SIZE;
  r2_buffer : is_block (radar2_buffer st);
  r2_zero : radar2_zerobuffer st = arm_fill_f32 s0 AUDIO_BLOCKSIZE;
  r2_corr : stale_zero (corr2_result st);
  r2_cnt : 1 ≤ radar_print_cnt st ≤ RADAR_PRINT_DELAY;
  r2_sum : 0 ≤ max_i_average st ≤
           (RADAR_PRINT_DELAY - radar_print_cnt st) * Z.of_nat CORR_SIZE;
}.

(** The state and the lines of one call, with the correlation computed
    into a cleared buffer. *)
Definition radar2_next st i : radar2_state A * list (radar2_msg A) :=
  let corr := chirp_corr (radar2_waveform st) (rad2_mic i) in
  let p := peak_search corr in
  let sum_i := max_i_average st + p.1 in
  let sum := max_average st +ₛ p.2 in
  if bool_decide (radar_print_cnt st - 1 = 0)
  then radar2_print st corr sum_i sum (rad2_key i)
  else (Radar2State (radar2_waveform st) (radar2_buffer st) (radar2_zerobuffer st)
          corr (radar_print_cnt st - 1) (index_0_f st) sum_i (max_i_average_f st) sum,
        []).

Lemma radar2_print_fields st corr sum_i sum key :
  let st' := (radar2_print st corr sum_i sum key).1 in
  radar2_waveform st' = radar2_waveform st ∧ radar2_buffer st' = radar2_buffer st ∧
  radar2_zerobuffer st' = radar2_zerobuffer st ∧ corr2_result st' = corr ∧
  radar_print_cnt st' = RADAR_PRINT_DELAY ∧ max_i_average st' = 0 ∧
  max_average st' = s0.
Proof.
  unfold radar2_print. destruct key as [k|]; [case_decide|]; by simpl.
Qed.

Lemma radar2_next_fields st i :
  radar2_waveform (radar2_next st i).1 = radar2_waveform st ∧
  radar2_buffer (radar2_next st i).1 = radar2_buffer st ∧
  radar2_zerobuffer (radar2_next st i).1 = radar2_zerobuffer st ∧
  corr2_result (radar2_next st i).1 = chirp_corr (radar2_waveform st) (rad2_mic i).
Proof.
  unfold radar2_next. case_bool_decide; [|done].
  by destruct (radar2_print_fields st (chirp_corr (radar2_waveform st) (rad2_mic i))
    (max_i_average st + (peak_search (chirp_corr (radar2_waveform st) (rad2_mic i))).1)
    (max_average st +ₛ (peak_search (chirp_corr (radar2_waveform st) (rad2_mic i))).2)
    (rad2_key i)) as (? & ? & ? & ? & _).
Qed.

(** Every call is defined and is [radar2_next]. *)
Lemma example_radar2_eq st i :
  radar2_inv st →
  example_radar2 st i =
    Some ((radar2_next st i).1,
          BlockOut (radar2_zerobuffer st) (radar2_buffer st) (radar2_next st i).2).
Proof.
  intros [Hw Hb Hz Hc Hn Hs]. pose proof corr_guard. unfold example_radar2.
  rewrite option_guard_True by (by rewrite stale_zero_length). simpl.
  rewrite radar2_corr_fresh by done.
  destruct (radar2_next_fields st i) as (_ & Hb' & Hz' & _). revert Hb' Hz'.
  unfold radar2_next. destruct (peak_search _) as [max_i max]. simpl.
  destruct (if bool_decide _ then _ else _) as [st' log]. simpl.
  by intros -> ->.
Qed.

Lemma radar2_next_inv st i : radar2_inv st → radar2_inv (radar2_next st i).1.
Proof.
  intros [Hw Hb Hz Hc Hn Hs].
  destruct (radar2_next_fields st i) as (Hw' & Hb' & Hz' & Hc').
  pose proof (peak_search_range (chirp_corr (radar2_waveform st) (rad2_mic i))) as Hp.
  split; rewrite ?Hw', ?Hb', ?Hz', ?Hc'; try done; [apply stale_zero_corr|..];
    unfold radar2_next; case_bool_decide;
    try (destruct (radar2_print_fields st (chirp_corr (radar2_waveform st) (rad2_mic i))
           (max_i_average st + (peak_search (chirp_corr (radar2_waveform st) (rad2_mic i))).1)
           (max_average st +ₛ (peak_search (chirp_corr (radar2_waveform st) (rad2_mic i))).2)
           (rad2_key i)) as (_ & _ & _ & _ & Hcnt & Hmia & _);
         rewrite ?Hcnt, ?Hmia);
    simpl; nia.
Qed.

(** The initialisation. *)
Lemma radar2_init_spec :
  ∃ st, example_radar2_init = Some st ∧ radar2_inv st ∧
    radar2_waveform st = chirp (TA:=half_sin) ∧
    radar2_buffer st = chirp_block (TA:=half_sin) ∧
    radar_print_cnt st = RADAR_PRINT_DELAY ∧ max_i_average st = 0 ∧
    max_average st = s0 ∧ index_0_f st = s0.
Proof.
  pose proof print_delay_pos. unfold example_radar2_init.
  rewrite radar2_init_body_eq, chirp_init_run. simpl.
  eexists. split; [done|]. split_and!; try done.
  split; simpl; [apply length_chirp|apply length_chirp_block|done|
                 apply stale_zero_fill|lia|lia].
Qed.

End Radar2Step.

(** * Runs *)

Section Radar2Run.
Context {A : Type} {SA : Scalar A} {SL : ScalarLaws A} {TA : Trig A} {CFG : Config}
  {RC : RadarConfig} {RO : RadarConfigOk}.
Implicit Types (st : radar2_state A) (i : radar2_in A) (ins : list (radar2_in A)).

(** The sums of the peak indices and of the peak amplitudes of a sequence
    of blocks, from the sums [acc]. *)
Definition sum_peaks (wf : list A) ins (acc : Z * A) : Z * A :=
  foldl (λ acc i, let p := peak_search (chirp_corr wf (rad2_mic i)) in
                  (acc.1 + p.1, acc.2 +ₛ p.2)) acc ins.

Lemma radar2_run_inv ins : ∀ st,
  radar2_inv st →
  ∃ st' os, run example_radar2 st ins = Some (st', os) ∧ radar2_inv st' ∧
    length os = length ins ∧
    radar2_buffer st' = radar2_buffer st ∧
    ∀ k o, os !! k = Some o →
      out_left o = arm_fill_f32 s0 AUDIO_BLOCKSIZE ∧
      out_right o = radar2_buffer st.
Proof.
  intros st Hinv.
  destruct (run_indexed example_radar2
    (λ _ s, radar2_inv s ∧ radar2_buffer s = radar2_buffer st)
    (λ _ o, out_left o = arm_fill_f32 s0 AUDIO_BLOCKSIZE ∧
            out_right o = radar2_buffer st) ins)
    with (s := st) as (st' & os & Hrun & [Hst Hb] & Hlen & Hout); [|done|].
  - intros k s i _ [Hs Hb]. rewrite example_radar2_eq by done.
    destruct (radar2_next_fields s i) as (_ & Hb' & _).
    eexists _, _. split; [done|]. simpl. split_and!; [by apply radar2_next_inv|
      congruence|by destruct Hs|done].
  - by exists st', os.
Qed.

(** The rest of a window: when [n + 1] blocks remain until the report, the
    first [n] print nothing and the last prints the averages of the sums
    over the whole window. *)
Lemma radar2_window ins : ∀ st i,
  radar2_inv st → radar_print_cnt st = Z.of_nat (S (length ins)) →
  let sums := sum_peaks (radar2_waveform st) (ins ++ [i])
                (max_i_average st, max_average st) in
  let avg_i := sofZ sums.1 /ₛ sofZ RADAR_PRINT_DELAY in
  ∃ st' os log,
    run example_radar2 st (ins ++ [i]) =
      Some (st', os ++ [BlockOut (radar2_zerobuffer st) (radar2_buffer st)
                          (radar2_report avg_i (radar2_length avg_i (index_0_f st))
                             (sums.2 /ₛ sofZ RADAR_PRINT_DELAY) (index_0_f st) :: log)]) ∧
    length os = length ins ∧ Forall (λ o, out_log o = []) os ∧
    radar_print_cnt st' = RADAR_PRINT_DELAY ∧ max_i_average st' = 0 ∧
    max_i_average_f st' = avg_i.
Proof.
  induction ins as [|i0 ins IH]; intros st i Hinv Hcnt; simpl in *.
  - rewrite example_radar2_eq by done. unfold radar2_next.
    rewrite bool_decide_true by lia. simpl. unfold radar2_print.
    exists (radar2_print st (chirp_corr (radar2_waveform st) (rad2_mic i))
              (max_i_average st + (peak_search (chirp_corr (radar2_waveform st) (rad2_mic i))).1)
              (max_average st +ₛ (peak_search (chirp_corr (radar2_waveform st) (rad2_mic i))).2)
              (rad2_key i)).1, [].
    unfold radar2_print. destruct (rad2_key i) as [k|]; [case_decide|];
      simpl; eexists; by split_and!.
  - rewrite example_radar2_eq by done. simpl.
    destruct (radar2_next_fields st i0) as (Hw & Hb & Hz & _).
    pose proof (radar2_next_inv st i0 Hinv) as Hinv1. revert Hw Hb Hz Hinv1.
    unfold radar2_next. rewrite bool_decide_false by lia. simpl.
    set (st1 := Radar2State _ _ _ _ _ _ _ _ _). intros Hw Hb Hz Hinv1.
    destruct (IH st1 i Hinv1) as (st' & os & log & -> & Hlen & Hos & Hrest).
    { subst st1. simpl. lia. }
    simpl. exists st', (BlockOut (radar2_zerobuffer st) (radar2_buffer st) [] :: os), log.
    destruct Hrest as (Hr1 & Hr2 & Hr3).
    split_and!; [reflexivity|by simpl; rewrite Hlen|by constructor|done..].
Qed.

End Radar2Run.

(** Along every run of the averaging radar from its initialised state
    every call is defined, the invariant holds (the countdown is in
    [1, RADAR_PRINT_DELAY] and the sum of the peak indices is at most
    [RADAR_PRINT_DELAY * CORR_SIZE]), and every block sends silence on the
    left output and the chirp at half amplitude, at its offset, on the right
    output. *)
Theorem radar2_run_safe {A : Type} {SA : Scalar A} {SL : ScalarLaws A} {TA : Trig A}
    {CFG : Config} {RC : RadarConfig} {RO : RadarConfigOk}
    (ins : list (radar2_in A)) :
  ∃ (st0 st : radar2_state A) os,
    example_radar2_init = Some st0 ∧
    run example_radar2 st0 ins = Some (st, os) ∧
    radar2_inv st ∧ length os = length ins ∧
    ∀ k o, os !! k = Some o →
      out_left o = arm_fill_f32 s0 AUDIO_BLOCKSIZE ∧
      out_right o = chirp_block (TA:=half_sin).
Proof.
  destruct (radar2_init_spec (A:=A)) as (st0 & Hinit & Hinv & _ & Hb & _).
  destruct (radar2_run_inv ins st0 Hinv) as (st & os & Hrun & Hst & Hlen & _ & Hout).
  exists st0, st, os. split_and!; try done. intros k o Ho. rewrite <- Hb.
  by apply (Hout k).
Qed.

(** Not clearing [corr_result] between calls is harmless: in every
    state the handler can reach, the magnitude of the correlation it
    computes into the buffer left by the previous call is the one it would
    compute into a cleared buffer. *)
Theorem radar2_unclear_harmless {A : Type} {SA : Scalar A} {SL : ScalarLaws A}
    {TA : Trig A} {CFG : Config} {RC : RadarConfig} {RO : RadarConfigOk}
    (ins : list (radar2_in A)) (mic : list A) :
  ∃ (st0 st : radar2_state A) os,
    example_radar2_init = Some st0 ∧
    run example_radar2 st0 ins = Some (st, os) ∧
    radar2_corr st mic = chirp_corr (radar2_waveform st) mic.
Proof.
  destruct (radar2_init_spec (A:=A)) as (st0 & Hinit & Hinv & _).
  destruct (radar2_run_inv ins st0 Hinv) as (st & os & Hrun & [] & _).
  exists st0, st, os. split_and!; try done. by apply radar2_corr_fresh.
Qed.

(** The report is printed once per window of [RADAR_PRINT_DELAY]
    blocks and carries the averages over the window.  When [n + 1] blocks
    remain in the window, the next [n] calls print nothing and the call
    after them prints the sum of the peak indices of the window over
    [RADAR_PRINT_DELAY], the distance of that average from the calibration
    index and the sum of the peak amplitudes over [RADAR_PRINT_DELAY]; the
    countdown and the sums are then reset. *)
Theorem radar2_average_report {A : Type} {SA : Scalar A} {SL : ScalarLaws A}
    {CFG : Config} {RC : RadarConfig} {RO : RadarConfigOk}
    (st : radar2_state A) (ins : list (radar2_in A)) (i : radar2_in A) :
  radar2_inv st → radar_print_cnt st = Z.of_nat (S (length ins)) →
  let sums := sum_peaks (radar2_waveform st) (ins ++ [i])
                (max_i_average st, max_average st) in
  let avg_i := sofZ sums.1 /ₛ sofZ RADAR_PRINT_DELAY in
  ∃ st' os log,
    run example_radar2 st (ins ++ [i]) =
      Some (st', os ++ [BlockOut (radar2_zerobuffer st) (radar2_buffer st)
                          (radar2_report avg_i (radar2_length avg_i (index_0_f st))
                             (sums.2 /ₛ sofZ RADAR_PRINT_DELAY) (index_0_f st) :: log)]) ∧
    length os = length ins ∧ Forall (λ o, out_log o = []) os ∧
    radar_print_cnt st' = RADAR_PRINT_DELAY ∧ max_i_average st' = 0 ∧
    max_i_average_f st' = avg_i.
Proof. apply radar2_window. Qed.

Definition radar2_block (x : Qc) : radar2_in Qc :=
  Radar2In [x; qc (-1) 3; qc 1 4; qc 0 1] None.

Definition demo_radar2 : radar2_state Qc :=
  Radar2State [qc 1 2; qc 1 1] [qc 0 1; qc 1 2; qc 1 1; qc 0 1]
    (replicate 4 (qc 0 1)) (replicate 7 (qc 0 1)) 3 (qc 0 1) 0 (qc 0 1) (qc 0 1).

Lemma demo_radar2_inv : radar2_inv (CFG:=small_config) (RC:=small_radar) demo_radar2.
Proof.
  split; try done. exists (replicate 5 (qc 0 1)). by split.
Qed.

Lemma radar2_run_safe_witness :
  ∃ (st0 st : radar2_state Qc) os,
    example_radar2_init (TA:=demo_sin) (CFG:=small_config) (RC:=small_radar) = Some st0 ∧
    run (example_radar2 (CFG:=small_config) (RC:=small_radar)) st0
      [radar2_block (qc 1 2); radar2_block (qc 1 3)] = Some (st, os) ∧
    radar2_inv (CFG:=small_config) (RC:=small_radar) st ∧ length os = 2%nat ∧
    ∀ k o, os !! k = Some o →
      out_left o = arm_fill_f32 s0 4 ∧
      out_right o = chirp_block (TA:=half_sin (TA:=demo_sin)) (CFG:=small_config)
                      (RC:=small_radar).
Proof.
  apply (radar2_run_safe (TA:=demo_sin) (RO:=small_radar_ok)
           [radar2_block (qc 1 2); radar2_block (qc 1 3)]).
Defined.

Lemma radar2_unclear_harmless_witness :
  ∃ (st0 st : radar2_state Qc) os,
    example_radar2_init (TA:=demo_sin) (CFG:=small_config) (RC:=small_radar) = Some st0 ∧
    run (example_radar2 (CFG:=small_config) (RC:=small_radar)) st0
      [radar2_block (qc 1 2); radar2_block (qc 1 3)] = Some (st, os) ∧
    radar2_corr (CFG:=small_config) (RC:=small_radar) st [qc 1 1; qc 1 1; qc 1 1; qc 1 1]
      = chirp_corr (CFG:=small_config) (RC:=small_radar) (radar2_waveform st)
          [qc 1 1; qc 1 1; qc 1 1; qc 1 1].
Proof.
  apply (radar2_unclear_harmless (TA:=demo_sin) (RO:=small_radar_ok)
           [radar2_block (qc 1 2); radar2_block (qc 1 3)]).
Defined.

Lemma radar2_average_report_witness :
  let ins := [radar2_block (qc 1 2); radar2_block (qc 1 3)] in
  let i := radar2_block (qc 1 5) in
  let sums := sum_peaks (CFG:=small_config) (RC:=small_radar)
                (radar2_waveform demo_radar2) (ins ++ [i])
                (max_i_average demo_radar2, max_average demo_radar2) in
  let avg_i := sofZ sums.1 /ₛ sofZ 3 in
  ∃ st' os log,
    run (example_radar2 (CFG:=small_config) (RC:=small_radar)) demo_radar2 (ins ++ [i]) =
      Some (st', os ++ [BlockOut (radar2_zerobuffer demo_radar2) (radar2_buffer demo_radar2)
                          (radar2_report avg_i
                             (radar2_length (CFG:=small_config) avg_i (index_0_f demo_radar2))
                             (sums.2 /ₛ sofZ 3) (index_0_f demo_radar2) :: log)]) ∧
    length os = length ins ∧ Forall (λ o, out_log o = []) os ∧
    radar_print_cnt st' = 3 ∧ max_i_average st' = 0 ∧
    max_i_average_f st' = avg_i.
Proof.
  apply (radar2_average_report (CFG:=small_config) (RC:=small_radar)
           (RO:=small_radar_ok) demo_radar2
           [radar2_block (qc 1 2); radar2_block (qc 1 3)] (radar2_block (qc 1 5)));
    [apply demo_radar2_inv|done].
Defined.
