(* ===== verification/MatchedFilter.v ===== *)
(** * MatchedFilter: the correlation of an echo peaks at its delay

    The radar modes find the distance of a reflector as the index of the
    largest magnitude of the correlation of the microphone block with the
    chirp.  This file proves that the search is right on a clean echo: when
    the block holds the waveform delayed by [d] samples and nothing else,
    the peak is at index [AUDIO_BLOCKSIZE - 1 + d], its value is the energy
    of the waveform, and after a calibration on the undelayed waveform the
    distance printed is [d * 343 / AUDIO_SAMPLE_RATE].

    The argument is the inequality of Cauchy and Schwarz in the form
    [2 |u·v| ≤ |u|² + |v|²], which needs no square root and holds in any
    ordered field, made strict by a sample at which one of the two signals
    is zero and the other is not. *)

From Stdlib Require Import Field Qcanon.
From S2P Require Import Prelude Scalar Argmax Numerics Board Radar Radar2.

(** * Energy and inner product *)

Section Energy.
Context {A : Type} {SA : Scalar A} {SL : ScalarLaws A}.
Add Field matched_energy_field : s_field.
Implicit Types (u v : list A) (a b x y : A) (k n : nat).

(** The sum of the squares of the samples. *)
Definition energy v : A := vector_sum ((λ a, a *ₛ a) <$> v).

(** The sum of the products of the samples of two signals. *)
Definition dot u v : A := vector_sum (zip_with smul u v).

Lemma energy_nil : energy [] = (s0 : A).
Proof. done. Qed.

Lemma energy_cons a v : energy (a :: v) = a *ₛ a +ₛ energy v.
Proof. unfold energy. by rewrite fmap_cons, vector_sum_cons. Qed.

Lemma energy_app u v : energy (u ++ v) = energy u +ₛ energy v.
Proof.
  induction u as [|a u IH]; simpl; [rewrite energy_nil; ring|].
  rewrite !energy_cons, IH. ring.
Qed.

Lemma energy_zeros n : energy (replicate n s0) = (s0 : A).
Proof. induction n as [|n IH]; simpl; [done|]. rewrite energy_cons, IH. ring. Qed.

Lemma energy_nonneg v : s0 ≤ₛ energy v.
Proof.
  induction v as [|a v IH]; [apply sle_refl|].
  rewrite energy_cons. apply snonneg_add; [apply s_square_nonneg|done].
Qed.

Lemma energy_reverse v : energy (reverse v) = energy v.
Proof.
  induction v as [|a v IH]; [done|].
  rewrite reverse_cons, energy_app, !energy_cons, energy_nil, IH. ring.
Qed.

(** The energy of a tail: one sample and the rest. *)
Lemma energy_drop v k :
  energy (drop k v) = default s0 (v !! k) *ₛ default s0 (v !! k) +ₛ energy (drop (S k) v).
Proof.
  destruct (v !! k) as [a|] eqn:Hk; simpl.
  - by rewrite (drop_S _ _ _ Hk), energy_cons.
  - apply lookup_ge_None_1 in Hk. rewrite !drop_ge by lia. rewrite energy_nil. ring.
Qed.

Lemma energy_drop_le v k : energy (drop k v) ≤ₛ energy v.
Proof.
  pose proof (energy_app (take k v) (drop k v)) as E. rewrite take_drop in E.
  rewrite E. pose proof (energy_nonneg (take k v)). s_by (energy (take k v)).
Qed.

Lemma dot_nil_l v : dot [] v = s0.
Proof. done. Qed.

Lemma dot_nil_r u : dot u [] = s0.
Proof. by destruct u. Qed.

Lemma dot_cons a b u v : dot (a :: u) (b :: v) = a *ₛ b +ₛ dot u v.
Proof. unfold dot. cbn [zip_with]. by rewrite vector_sum_cons. Qed.

Lemma dot_self v : dot v v = energy v.
Proof. unfold dot, energy. by rewrite zip_with_diag. Qed.

(** Cauchy-Schwarz without the root: twice the inner product is at most
    the sum of the energies, in both signs. *)
Lemma dot_bound u : ∀ v,
  dot u v +ₛ dot u v ≤ₛ energy u +ₛ energy v ∧
  -ₛ (dot u v +ₛ dot u v) ≤ₛ energy u +ₛ energy v.
Proof.
  induction u as [|a u IH]; intros v.
  { rewrite dot_nil_l. pose proof (energy_nonneg (@nil A)). pose proof (energy_nonneg v).
    split; s_by (energy [] +ₛ energy v). }
  destruct v as [|b v].
  { rewrite dot_nil_r. pose proof (energy_nonneg (a :: u)). pose proof (energy_nonneg (@nil A)).
    split; s_by (energy (a :: u) +ₛ energy []). }
  destruct (IH v) as [H1 H2]. rewrite dot_cons, !energy_cons.
  pose proof (s_square_nonneg (a -ₛ b)). pose proof (s_square_nonneg (a +ₛ b)).
  split.
  - s_by ((a -ₛ b) *ₛ (a -ₛ b) +ₛ (energy u +ₛ energy v -ₛ (dot u v +ₛ dot u v))).
  - s_by ((a +ₛ b) *ₛ (a +ₛ b) +ₛ (energy u +ₛ energy v -ₛ -ₛ (dot u v +ₛ dot u v))).
Qed.

(** The bound is strict when one signal has a non-zero sample where the
    other is zero. *)
Lemma dot_strict k : ∀ u v a,
  u !! k = Some a → a ≠ s0 → v !! k = Some s0 →
  dot u v +ₛ dot u v <ₛ energy u +ₛ energy v ∧
  -ₛ (dot u v +ₛ dot u v) <ₛ energy u +ₛ energy v.
Proof.
  induction k as [|k IH]; intros [|a' u] [|b v] a Hu Ha Hv; simplify_eq/=;
    rewrite dot_cons, !energy_cons.
  - destruct (dot_bound u v) as [H1 H2]. pose proof (s_square_pos a Ha).
    split.
    + s_by (a *ₛ a +ₛ (energy u +ₛ energy v -ₛ (dot u v +ₛ dot u v))).
    + s_by (a *ₛ a +ₛ (energy u +ₛ energy v -ₛ -ₛ (dot u v +ₛ dot u v))).
  - destruct (IH u v a Hu Ha Hv) as [H1 H2].
    pose proof (s_square_nonneg (a' -ₛ b)). pose proof (s_square_nonneg (a' +ₛ b)).
    split.
    + s_by ((a' -ₛ b) *ₛ (a' -ₛ b) +ₛ (energy u +ₛ energy v -ₛ (dot u v +ₛ dot u v))).
    + s_by ((a' +ₛ b) *ₛ (a' +ₛ b) +ₛ (energy u +ₛ energy v -ₛ -ₛ (dot u v +ₛ dot u v))).
Qed.

(** The magnitude of the inner product with a signal of no more energy
    that misses a sample is below the energy. *)
Lemma dot_abs_strict k u v a :
  u !! k = Some a → a ≠ s0 → v !! k = Some s0 → energy v ≤ₛ energy u →
  sabs (dot u v) <ₛ energy u.
Proof.
  intros Hu Ha Hv Hle. destruct (dot_strict k u v a Hu Ha Hv) as [H1 H2].
  unfold sabs. destruct (sltb (dot u v) s0); apply s_double_lt.
  - s_by ((energy u +ₛ energy v -ₛ -ₛ (dot u v +ₛ dot u v)) +ₛ (energy u -ₛ energy v)).
  - s_by ((energy u +ₛ energy v -ₛ (dot u v +ₛ dot u v)) +ₛ (energy u -ₛ energy v)).
Qed.

(** A signal with energy has a first and a last non-zero sample. *)
Lemma energy_pos_first v :
  s0 <ₛ energy v →
  ∃ l1 a l2, v = l1 ++ a :: l2 ∧ Forall (λ y, y = s0) l1 ∧ a ≠ s0.
Proof.
  induction v as [|b v IH]; intros Hv; [by apply slt_irrefl in Hv|].
  rewrite energy_cons in Hv. destruct (sltb s0 (b *ₛ b)) eqn:Hb.
  - exists [], b, v. split_and!; [done|constructor|]. intros ->.
    replace (s0 *ₛ s0) with (s0 : A) in Hb by ring. by apply slt_irrefl in Hb.
  - apply s_square_zero in Hb as ->.
    replace (s0 *ₛ s0 +ₛ energy v) with (energy v) in Hv by ring.
    destruct (IH Hv) as (l1 & a & l2 & -> & H1 & Ha).
    exists (s0 :: l1), a, l2. split_and!; [done|by constructor|done].
Qed.

Lemma energy_pos_last v :
  s0 <ₛ energy v →
  ∃ l1 a l2, v = l1 ++ a :: l2 ∧ Forall (λ y, y = s0) l2 ∧ a ≠ s0.
Proof.
  intros Hv. rewrite <- energy_reverse in Hv.
  destruct (energy_pos_first _ Hv) as (l1 & a & l2 & Hr & H1 & Ha).
  exists (reverse l2), a, (reverse l1). split_and!; [|by apply Forall_reverse|done].
  rewrite <- (reverse_involutive v), Hr, reverse_app, reverse_cons, <- app_assoc. done.
Qed.

End Energy.

(** * The correlation as an inner product *)

Section Lag.
Context {A : Type} {SA : Scalar A} {SL : ScalarLaws A}.
Add Field matched_lag_field : s_field.
Implicit Types (a b wf : list A) (m k n d : nat).

(** Sample [k] of the signal that output sample [m] of the correlation
    pairs the first input with: the second input moved by [m] on the scale
    of [corr_term]. *)
Definition lag_sample b m k : A :=
  if decide (m ≤ k + (length b - 1))%nat
  then default s0 (b !! (k + (length b - 1) - m)%nat)
  else s0.

Definition lagged b n m : list A := lag_sample b m <$> seq 0 n.

Lemma length_lagged b n m : length (lagged b n m) = n.
Proof. unfold lagged. by rewrite length_fmap, length_seq. Qed.

Lemma lookup_lagged b n m k :
  (k < n)%nat → lagged b n m !! k = Some (lag_sample b m k).
Proof. intros Hk. unfold lagged. by rewrite list_lookup_fmap, lookup_seq_lt. Qed.

Lemma corr_at_dot a b m : corr_at a b m = dot a (lagged b (length a) m).
Proof.
  unfold corr_at, dot. f_equal. apply list_eq. intros k.
  rewrite list_lookup_imap, lookup_zip_with.
  destruct (a !! k) as [x|] eqn:Hk; simpl; [|done].
  rewrite lookup_lagged by (by eapply lookup_lt_Some). simpl. f_equal.
  unfold corr_term, lag_sample. case_decide; [done|ring].
Qed.

(** The moved signal has no more energy than the signal. *)
Lemma energy_lag_from b m n : ∀ s,
  energy (lag_sample b m <$> seq s n) ≤ₛ energy (drop (s + (length b - 1) - m) b).
Proof.
  induction n as [|n IH]; intros s; [apply energy_nonneg|].
  cbn [seq fmap list_fmap]. rewrite energy_cons. specialize (IH (S s)).
  unfold lag_sample at 1 2. case_decide as Hm.
  - rewrite (energy_drop b).
    replace (S s + (length b - 1) - m)%nat with (S (s + (length b - 1) - m)) in IH by lia.
    s_by (energy (drop (S (s + (length b - 1) - m)) b)
          -ₛ energy (lag_sample b m <$> seq (S s) n)).
  - replace (S s + (length b - 1) - m)%nat with (s + (length b - 1) - m)%nat in IH by lia.
    s_by (energy (drop (s + (length b - 1) - m) b)
          -ₛ energy (lag_sample b m <$> seq (S s) n)).
Qed.

Lemma energy_lagged b n m : energy (lagged b n m) ≤ₛ energy b.
Proof.
  eapply sle_trans; [apply (energy_lag_from b m n 0)|apply energy_drop_le].
Qed.

End Lag.

(** * The echo *)

Section Echo.
Context {A : Type} {SA : Scalar A} {SL : ScalarLaws A} {CFG : Config}.
Add Field matched_echo_field : s_field.
Implicit Types (wf l : list A) (m k n d : nat).

(** A block that holds the waveform after [d] samples of silence, and
    silence after it. *)
Definition echo wf d : list A :=
  replicate d s0 ++ wf ++ replicate (AUDIO_BLOCKSIZE - d - length wf) s0.

(** The index of the correlation buffer that stands for the delay [d]. *)
Definition echo_index d : Z := Z.of_nat (AUDIO_BLOCKSIZE - 1 + d).

Lemma length_echo wf d :
  (d + length wf ≤ AUDIO_BLOCKSIZE)%nat → is_block (echo wf d).
Proof. intros. unfold is_block, echo. rewrite !length_app, !length_replicate. lia. Qed.

Lemma energy_echo wf d : energy (echo wf d) = energy wf.
Proof. unfold echo. rewrite !energy_app, !energy_zeros. ring. Qed.

Lemma lookup_echo wf d k :
  (d + length wf ≤ AUDIO_BLOCKSIZE)%nat → (k < AUDIO_BLOCKSIZE)%nat →
  echo wf d !! k = Some (if decide (d ≤ k)%nat then default s0 (wf !! (k - d)%nat) else s0).
Proof.
  intros Hd Hk. unfold echo. case_decide.
  - rewrite lookup_app_r by (rewrite length_replicate; lia). rewrite length_replicate.
    destruct (wf !! (k - d)%nat) as [x|] eqn:Hx; simpl.
    + by apply lookup_app_l_Some.
    + apply lookup_ge_None_1 in Hx. rewrite lookup_app_r by done.
      apply lookup_replicate_2. lia.
  - rewrite lookup_app_l by (rewrite length_replicate; lia).
    apply lookup_replicate_2. lia.
Qed.

(** At the lag of the echo the moved waveform is the echo. *)
Lemma lagged_echo wf d :
  (0 < length wf)%nat → (d + length wf ≤ AUDIO_BLOCKSIZE)%nat →
  lagged wf AUDIO_BLOCKSIZE (d + (length wf - 1)) = echo wf d.
Proof.
  intros Hw Hd. apply list_eq. intros k.
  destruct (decide (k < AUDIO_BLOCKSIZE)%nat) as [Hk|Hk].
  - rewrite lookup_lagged, lookup_echo by done. f_equal. unfold lag_sample.
    repeat case_decide; try lia; try done. do 2 f_equal. lia.
  - rewrite !lookup_ge_None_2; [done|rewrite length_echo by done; lia|
                                rewrite length_lagged; lia].
Qed.

Lemma zero_before l1 l2 (a : A) k :
  Forall (λ y, y = s0) l1 → (k < length l1)%nat →
  default s0 ((l1 ++ a :: l2) !! k) = s0.
Proof.
  intros H1 Hk. rewrite lookup_app_l by done.
  destruct (l1 !! k) as [y|] eqn:Hy; [|done].
  by apply (Forall_lookup_1 _ _ _ _ H1 Hy).
Qed.

Lemma zero_after l1 l2 (a : A) k :
  Forall (λ y, y = s0) l2 → (length l1 < k)%nat →
  default s0 ((l1 ++ a :: l2) !! k) = s0.
Proof.
  intros H2 Hk. rewrite lookup_app_r by lia.
  destruct (k - length l1)%nat as [|j] eqn:Hj; [lia|]. simpl.
  destruct (l2 !! j) as [y|] eqn:Hy; [|done].
  by apply (Forall_lookup_1 _ _ _ _ H2 Hy).
Qed.

(** At any other lag the moved waveform is zero at a sample where the echo
    is not: the first non-zero sample of the echo when the lag is larger,
    the last one when it is smaller. *)
Lemma lagged_miss wf d m :
  s0 <ₛ energy wf → (d + length wf ≤ AUDIO_BLOCKSIZE)%nat →
  m ≠ (d + (length wf - 1))%nat →
  ∃ k a, echo wf d !! k = Some a ∧ a ≠ s0 ∧
    lagged wf AUDIO_BLOCKSIZE m !! k = Some s0.
Proof.
  intros He Hd Hm. destruct (decide (d + (length wf - 1) < m)%nat) as [Hlt|Hge].
  - destruct (energy_pos_first _ He) as (l1 & a & l2 & -> & H1 & Ha).
    rewrite length_app in *. simpl in *. exists (d + length l1)%nat, a.
    rewrite lookup_echo, lookup_lagged by (rewrite ?length_app; simpl; lia).
    rewrite decide_True by lia.
    replace (d + length l1 - d)%nat with (length l1) by lia.
    rewrite list_lookup_middle by done. split_and!; [done..|]. f_equal.
    unfold lag_sample. case_decide; [|done]. apply zero_before; [done|].
    rewrite length_app in *. simpl in *. lia.
  - destruct (energy_pos_last _ He) as (l1 & a & l2 & -> & H2 & Ha).
    rewrite length_app in *. simpl in *. exists (d + length l1)%nat, a.
    rewrite lookup_echo, lookup_lagged by (rewrite ?length_app; simpl; lia).
    rewrite decide_True by lia.
    replace (d + length l1 - d)%nat with (length l1) by lia.
    rewrite list_lookup_middle by done. split_and!; [done..|]. f_equal.
    unfold lag_sample. case_decide; [|done]. apply zero_after; [done|].
    rewrite length_app in *. simpl in *. lia.
Qed.

(** The correlation of the echo with the waveform: the energy at the lag
    of the echo, strictly less in magnitude anywhere else. *)
Lemma corr_echo_peak wf d :
  (0 < length wf)%nat → (d + length wf ≤ AUDIO_BLOCKSIZE)%nat →
  corr_at (echo wf d) wf (d + (length wf - 1)) = energy wf.
Proof.
  intros Hw Hd. rewrite corr_at_dot, length_echo, lagged_echo by done.
  by rewrite dot_self, energy_echo.
Qed.

Lemma corr_echo_off wf d m :
  s0 <ₛ energy wf → (d + length wf ≤ AUDIO_BLOCKSIZE)%nat →
  m ≠ (d + (length wf - 1))%nat →
  sabs (corr_at (echo wf d) wf m) <ₛ energy wf.
Proof.
  intros He Hd Hm. destruct (lagged_miss wf d m He Hd Hm) as (k & a & Hk & Ha & Hl).
  rewrite corr_at_dot, length_echo, <- (energy_echo wf d) by done.
  apply (dot_abs_strict k _ _ a); [done..|].
  rewrite energy_echo. apply energy_lagged.
Qed.

End Echo.

Arguments echo_index : simpl never.

(** * The peak search on an echo *)

Section Detection.
Context {A : Type} {SA : Scalar A} {SL : ScalarLaws A} {CFG : Config}
  {RC : RadarConfig} {RO : RadarConfigOk}.
Add Field matched_detection_field : s_field.
Implicit Types (wf corr : list A) (st : radar_state A) (p k d : nat) (x y : A).

(** The search returns a positive sample that is strictly above every
    other sample, and its index. *)
Lemma peak_search_at corr p x :
  (length corr ≤ CORR_SIZE)%nat → corr !! p = Some x → s0 <ₛ x →
  (∀ k y, corr !! k = Some y → k ≠ p → y <ₛ x) →
  peak_search corr = (Z.of_nat p, x).
Proof.
  intros Hlen Hp Hx Hmax.
  destruct (peak_search_cases corr) as [[_ Hall]|(c1 & x' & c2 & Hc & -> & _ & H1 & H2)];
    rewrite take_ge in * by done.
  { pose proof (Forall_lookup_1 _ _ _ _ Hall Hp). simpl in *. congruence. }
  subst corr. destruct (decide (length c1 = p)) as [<-|Hne].
  { rewrite list_lookup_middle in Hp by done. by injection Hp as ->. }
  exfalso.
  pose proof (Hmax (length c1) x' (list_lookup_middle _ _ _ _ eq_refl) Hne) as Hlt.
  destruct (decide (p < length c1)%nat).
  - rewrite lookup_app_l in Hp by done.
    pose proof (Forall_lookup_1 _ _ _ _ H1 Hp) as Hlt'. simpl in Hlt'.
    apply (slt_irrefl x). by eapply s_lt_trans.
  - rewrite lookup_app_r in Hp by lia.
    destruct (p - length c1)%nat as [|j] eqn:Hj; [lia|]. simpl in Hp.
    pose proof (Forall_lookup_1 _ _ _ _ H2 Hp) as Hle. simpl in Hle. congruence.
Qed.

Section Waveform.
Context (wf : list A) (d : nat).
Context (Hwf : length wf = RADAR_SIZE) (He : s0 <ₛ energy wf).
Context (Hd : (d + RADAR_SIZE ≤ AUDIO_BLOCKSIZE)%nat).

(** The magnitude of the correlation of the echo: zeros around the
    written window. *)
Lemma chirp_corr_echo :
  chirp_corr wf (echo wf d) =
    replicate (AUDIO_BLOCKSIZE - RADAR_SIZE) s0 ++
    (sabs <$> (corr_at (echo wf d) wf <$> seq 0 (AUDIO_BLOCKSIZE + RADAR_SIZE - 1))) ++
    replicate (CORR_SIZE - (2 * AUDIO_BLOCKSIZE - 1)) s0.
Proof.
  unfold chirp_corr. rewrite correlate_stale by apply stale_zero_fill.
  unfold corr_window. rewrite !take_ge; [done|lia|].
  rewrite length_echo; [done|lia].
Qed.

Lemma chirp_corr_echo_peak :
  chirp_corr wf (echo wf d) !! (AUDIO_BLOCKSIZE - 1 + d)%nat = Some (energy wf).
Proof.
  pose proof radar_size_pos. rewrite chirp_corr_echo.
  rewrite lookup_app_r by (rewrite length_replicate; lia). rewrite length_replicate.
  rewrite lookup_app_l by (rewrite !length_fmap, length_seq; lia).
  rewrite !list_lookup_fmap, lookup_seq_lt by lia. simpl. f_equal.
  replace (AUDIO_BLOCKSIZE - 1 + d - (AUDIO_BLOCKSIZE - RADAR_SIZE))%nat
    with (d + (length wf - 1))%nat by lia.
  rewrite corr_echo_peak by lia. apply sabs_nonneg_eq, energy_nonneg.
Qed.

Lemma chirp_corr_echo_off k y :
  chirp_corr wf (echo wf d) !! k = Some y → k ≠ (AUDIO_BLOCKSIZE - 1 + d)%nat →
  y <ₛ energy wf.
Proof.
  pose proof radar_size_pos. rewrite chirp_corr_echo. intros Hk Hne.
  apply lookup_app_Some in Hk as [Hk|[Hlen Hk]];
    [by apply lookup_replicate in Hk as [-> _]|].
  apply lookup_app_Some in Hk as [Hk|[_ Hk]];
    [|by apply lookup_replicate in Hk as [-> _]].
  rewrite length_replicate in *. rewrite !list_lookup_fmap in Hk.
  destruct (seq _ _ !! _) as [m|] eqn:Hm; [|done].
  apply lookup_seq in Hm as [-> _]. simpl in Hk. injection Hk as <-.
  apply corr_echo_off; [done|lia..].
Qed.

Lemma echo_peak :
  peak_search (chirp_corr wf (echo wf d)) = (echo_index d, energy wf).
Proof.
  apply peak_search_at; [by rewrite length_chirp_corr|apply chirp_corr_echo_peak|done|].
  apply chirp_corr_echo_off.
Qed.

End Waveform.

End Detection.

(** * The two radar modes on an echo *)

Section Ranging.
Context {A : Type} {SA : Scalar A} {SL : ScalarLaws A} {CFG : Config}
  {RC : RadarConfig} {RO : RadarConfigOk}.
Add Field matched_ranging_field : s_field.
Implicit Types (wf : list A) (d : nat).

Lemma radar_length_echo d :
  radar_length (echo_index d) (echo_index 0) =
    sofZ (Z.of_nat d) *ₛ sofZ 343 /ₛ sofZ AUDIO_SAMPLE_RATE :> A.
Proof. unfold radar_length, echo_index. do 3 f_equal. lia. Qed.

(** The sums of a window of echoes. *)
Lemma sum_peaks_echo wf d (ins : list (radar2_in A)) :
  length wf = RADAR_SIZE → s0 <ₛ energy wf → (d + RADAR_SIZE ≤ AUDIO_BLOCKSIZE)%nat →
  Forall (λ i, rad2_mic i = echo wf d) ins →
  ∀ acc, sum_peaks wf ins acc =
    (acc.1 + Z.of_nat (length ins) * echo_index d,
     acc.2 +ₛ sofZ (Z.of_nat (length ins)) *ₛ energy wf).
Proof.
  intros Hwf He Hd. unfold sum_peaks.
  induction 1 as [|i ins Hi _ IH]; intros [n x]; simpl.
  { f_equal; [lia|]. rewrite sofZ_0. ring. }
  rewrite IH, Hi, echo_peak by done. simpl. f_equal; [unfold echo_index; lia|].
  replace (Z.of_nat (S (length ins))) with (Z.of_nat (length ins) + 1) by lia.
  rewrite sofZ_add, sofZ_1. ring.
Qed.

(** C18: the matched filter finds the echo.  For a waveform of [RADAR_SIZE]
    samples that is not silent and a block that holds it after [d] samples
    of silence, the magnitude of the correlation has its only largest
    sample at index [AUDIO_BLOCKSIZE - 1 + d], and its value there is the
    energy of the waveform: the peak search returns exactly that pair. *)
Theorem radar_echo_peak (wf : list A) (d : nat) :
  length wf = RADAR_SIZE → s0 <ₛ energy wf →
  (d + RADAR_SIZE ≤ AUDIO_BLOCKSIZE)%nat →
  peak_search (chirp_corr wf (echo wf d)) = (echo_index d, energy wf) ∧
  ∀ k y, chirp_corr wf (echo wf d) !! k = Some y →
    Z.of_nat k ≠ echo_index d → y <ₛ energy wf.
Proof.
  intros Hwf He Hd. split; [by apply echo_peak|].
  intros k y Hk Hne. apply (chirp_corr_echo_off wf d Hwf He Hd k); [done|].
  unfold echo_index in Hne. lia.
Qed.

(** C20: the distance of an echo.  A detection on the undelayed waveform
    that reads the key ['r'] stores [AUDIO_BLOCKSIZE - 1] as the zero of the
    scale; a later detection on the waveform delayed by [d] samples then
    reports the peak index [AUDIO_BLOCKSIZE - 1 + d], the distance
    [d * 343 / AUDIO_SAMPLE_RATE] and the energy of the waveform as the
    amplitude. *)
Theorem radar_echo_distance (st : radar_state A) (d : nat) :
  radar_inv st → s0 <ₛ energy (radar_waveform st) →
  (d + RADAR_SIZE ≤ AUDIO_BLOCKSIZE)%nat →
  ∃ st1 st2 log0,
    radar_detect st (echo (radar_waveform st) 0) (Some "r"%char) = Some (st1, log0) ∧
    index_0 st1 = echo_index 0 ∧
    radar_detect st1 (echo (radar_waveform st) d) None =
      Some (st2, [radar_report (echo_index d)
                    (sofZ (Z.of_nat d) *ₛ sofZ 343 /ₛ sofZ AUDIO_SAMPLE_RATE)
                    (energy (radar_waveform st)) (echo_index 0)]).
Proof.
  intros Hinv He Hd. destruct Hinv as [Hwf _ _ _ _].
  rewrite radar_detect_eq. unfold radar_corr. rewrite echo_peak by (done || lia).
  eexists _, _, _. split; [done|]. simpl. split; [done|].
  rewrite radar_detect_eq. unfold detection_report, radar_corr. simpl.
  rewrite echo_peak by done. simpl. by rewrite radar_length_echo.
Qed.

(** The averaging radar on echoes.  At the start of a window, when
    each of the [RADAR_PRINT_DELAY] blocks of the window holds the waveform
    delayed by [d] samples, the report at the end of the window carries the
    average index [AUDIO_BLOCKSIZE - 1 + d], its distance from the
    calibration index and the energy of the waveform. *)
Theorem radar2_echo_average (st : radar2_state A) (d : nat)
    (ins : list (radar2_in A)) (i : radar2_in A) :
  radar2_inv st → s0 <ₛ energy (radar2_waveform st) →
  (d + RADAR_SIZE ≤ AUDIO_BLOCKSIZE)%nat →
  radar_print_cnt st = RADAR_PRINT_DELAY → RADAR_PRINT_DELAY = Z.of_nat (S (length ins)) →
  max_i_average st = 0 → max_average st = s0 →
  Forall (λ i, rad2_mic i = echo (radar2_waveform st) d) (ins ++ [i]) →
  ∃ st' os log,
    run example_radar2 st (ins ++ [i]) =
      Some (st', os ++ [BlockOut (radar2_zerobuffer st) (radar2_buffer st)
                          (radar2_report (sofZ (echo_index d))
                             (radar2_length (sofZ (echo_index d)) (index_0_f st))
                             (energy (radar2_waveform st)) (index_0_f st) :: log)]) ∧
    Forall (λ o, out_log o = []) os.
Proof.
  intros Hinv He Hd Hcnt Hn Hi0 Hm0 Hins.
  destruct (radar2_window ins st i Hinv) as (st' & os & log & Hrun & _ & Hos & _);
    [congruence|].
  exists st', os, log. split; [|done]. rewrite Hrun. clear Hrun.
  rewrite (sum_peaks_echo _ d) by (done || by destruct Hinv).
  rewrite Hi0, Hm0, length_app, Hn. simpl.
  replace (Z.of_nat (length ins + 1)) with (Z.of_nat (S (length ins))) by lia.
  assert (sofZ (Z.of_nat (S (length ins))) ≠ (s0 : A)) by (apply sofZ_neq_0; lia).
  replace (sofZ (0 + Z.of_nat (S (length ins)) * echo_index d)
           /ₛ sofZ (Z.of_nat (S (length ins)))) with (sofZ (echo_index d) : A)
    by (rewrite Z.add_0_l, sofZ_mul; by field).
  replace ((s0 +ₛ sofZ (Z.of_nat (S (length ins))) *ₛ energy (radar2_waveform st))
           /ₛ sofZ (Z.of_nat (S (length ins)))) with (energy (radar2_waveform st))
    by (by field).
  done.
Qed.

End Ranging.

(** * The radar hears itself *)

Section Loopback.
Context {A : Type} {SA : Scalar A} {SL : ScalarLaws A} {TA : Trig A} {CFG : Config}
  {RC : RadarConfig} {RO : RadarConfigOk}.

(** The block that is sent is the chirp delayed by [RADAR_OFFSET]. *)
Lemma chirp_block_echo : chirp_block (A:=A) = echo chirp RADAR_OFFSET.
Proof. unfold chirp_block, echo. by rewrite length_chirp. Qed.

(** C19: the radar over a perfect loop.  From the initialised state, when
    the chirp is not silent and the microphone block of the detection call,
    three calls after the transmission, is the block that was sent, the
    first call sends the chirp block, the next two are silent, and the
    fourth reports the peak index [AUDIO_BLOCKSIZE - 1 + RADAR_OFFSET], the
    distance that index stands for on the uncalibrated scale and the energy
    of the chirp. *)
Theorem radar_loopback (i0 i1 i2 i3 : radar_in A) :
  s0 <ₛ energy (chirp (A:=A)) → 0 ≤ rad_now i0 →
  Forall (λ i, rad_now i < rad_now_set i0 + 2000000) [i1; i2; i3] →
  rad_mic i3 = chirp_block →
  let z := arm_fill_f32 s0 AUDIO_BLOCKSIZE in
  ∃ st0 log0 st' log,
    example_radar_init = Some (st0, log0) ∧
    run example_radar st0 [i0; i1; i2; i3] =
      Some (st', [BlockOut z chirp_block []; BlockOut z z []; BlockOut z z [];
                  BlockOut z z
                    (radar_report (echo_index RADAR_OFFSET)
                       (radar_length (echo_index RADAR_OFFSET) 0)
                       (energy chirp) 0 :: log)]).
Proof.
  intros He H0 Hnow Hmic.
  destruct (radar_init_spec (A:=A)) as (st0 & log0 & Hinit & Hinv & Hw & Hb & Ht & Htx & Hi0).
  destruct (radar_cycle st0 i0 i1 i2 i3 Ht) as (st' & log & Hrun & _);
    [by rewrite Htx|done|].
  exists st0, log0, st', log. split; [done|]. rewrite Hrun.
  unfold detection_report, radar_corr.
  rewrite Hmic, Hw, Hb, Hi0, (r_zero _ Hinv), chirp_block_echo.
  rewrite echo_peak; [done|apply length_chirp|done|].
  pose proof radar_fits. lia.
Qed.

End Loopback.

(** * Examples *)

Definition demo_wf : list Qc := [qc 1 1; qc 2 1].

Lemma idle_radar_inv : radar_inv (CFG:=small_config) (RC:=small_radar) idle_radar.
Proof. split; try done. by left. Qed.

Lemma radar_echo_peak_witness :
  peak_search (RC:=small_radar)
    (chirp_corr (CFG:=small_config) (RC:=small_radar) demo_wf
       (echo (CFG:=small_config) demo_wf 1))
  = (echo_index (CFG:=small_config) 1, energy demo_wf) ∧
  ∀ k y, chirp_corr (CFG:=small_config) (RC:=small_radar) demo_wf
           (echo (CFG:=small_config) demo_wf 1) !! k = Some y →
    Z.of_nat k ≠ echo_index (CFG:=small_config) 1 → y <ₛ energy demo_wf.
Proof.
  apply (radar_echo_peak (CFG:=small_config) (RC:=small_radar) (RO:=small_radar_ok)
           demo_wf 1); [done|by vm_compute|simpl; lia].
Defined.

Lemma radar_echo_distance_witness :
  ∃ st1 st2 log0,
    radar_detect (CFG:=small_config) (RC:=small_radar) idle_radar
      (echo (CFG:=small_config) (radar_waveform idle_radar) 0) (Some "r"%char)
      = Some (st1, log0) ∧
    index_0 st1 = echo_index (CFG:=small_config) 0 ∧
    radar_detect (CFG:=small_config) (RC:=small_radar) st1
      (echo (CFG:=small_config) (radar_waveform idle_radar) 2) None =
      Some (st2, [radar_report (echo_index (CFG:=small_config) 2)
                    (sofZ (Z.of_nat 2) *ₛ sofZ 343 /ₛ sofZ 16000)
                    (energy (radar_waveform idle_radar))
                    (echo_index (CFG:=small_config) 0)]).
Proof.
  apply (radar_echo_distance (CFG:=small_config) (RC:=small_radar)
           (RO:=small_radar_ok) idle_radar 2);
    [apply idle_radar_inv|by vm_compute|simpl; lia].
Defined.

Definition echo_block (d : nat) : radar2_in Qc :=
  Radar2In (echo (CFG:=small_config) (radar2_waveform demo_radar2) d) None.

Lemma radar2_echo_average_witness :
  ∃ st' os log,
    run (example_radar2 (CFG:=small_config) (RC:=small_radar)) demo_radar2
      ([echo_block 1; echo_block 1] ++ [echo_block 1]) =
      Some (st', os ++ [BlockOut (radar2_zerobuffer demo_radar2) (radar2_buffer demo_radar2)
                          (radar2_report (sofZ (echo_index (CFG:=small_config) 1))
                             (radar2_length (CFG:=small_config)
                                (sofZ (echo_index (CFG:=small_config) 1))
                                (index_0_f demo_radar2))
                             (energy (radar2_waveform demo_radar2))
                             (index_0_f demo_radar2) :: log)]) ∧
    Forall (λ o, out_log o = []) os.
Proof.
  apply (radar2_echo_average (CFG:=small_config) (RC:=small_radar)
           (RO:=small_radar_ok) demo_radar2 1 [echo_block 1; echo_block 1] (echo_block 1));
    [apply demo_radar2_inv|by vm_compute|simpl; lia|done|done|done|done|
     by repeat constructor].
Defined.

Definition loop_block (now : Z) (mic : list Qc) : radar_in Qc := RadarIn mic None now now.

Lemma radar_loopback_witness :
  let mic := chirp_block (TA:=demo_sin) (CFG:=small_config) (RC:=small_radar) in
  let z := arm_fill_f32 s0 4 in
  ∃ st0 log0 st' log,
    example_radar_init (TA:=demo_sin) (CFG:=small_config) (RC:=small_radar)
      = Some (st0, log0) ∧
    run (example_radar (CFG:=small_config) (RC:=small_radar)) st0
      [loop_block 0 z; loop_block 250 z; loop_block 500 z; loop_block 750 mic] =
      Some (st', [BlockOut z mic []; BlockOut z z []; BlockOut z z [];
                  BlockOut z z
                    (radar_report (echo_index (CFG:=small_config) 1)
                       (radar_length (CFG:=small_config) (echo_index (CFG:=small_config) 1) 0)
                       (energy (chirp (TA:=demo_sin) (CFG:=small_config) (RC:=small_radar)))
                       0 :: log)]).
Proof.
  apply (radar_loopback (TA:=demo_sin) (CFG:=small_config) (RC:=small_radar)
           (RO:=small_radar_ok) (loop_block 0 (arm_fill_f32 s0 4))
           (loop_block 250 (arm_fill_f32 s0 4)) (loop_block 500 (arm_fill_f32 s0 4))
           (loop_block 750 (chirp_block (TA:=demo_sin) (CFG:=small_config) (RC:=small_radar))));
    [by vm_compute|done|by repeat constructor|done].
Defined.
