(* ===== verification/Transforms.v ===== *)
(** * Transforms: the spectral calls of CMSIS-DSP

    The calls of [SYSMODE_TEST3] and [SYSMODE_FFT] into the library that are
    not plain vector arithmetic.  A complex array is an array of floats,
    real and imaginary parts interleaved.  The products and the maximum are
    list functions; the transforms themselves ([arm_cfft_f32],
    [arm_rfft_fast_f32]) are parameters, of which the development assumes
    only that they keep the length of the array: every theorem about a
    handler holds for any transform.  All of it is modelled from the CMSIS
    documentation. *)

From S2P Require Import Prelude Scalar Argmax Numerics.

(** * The transforms *)

(** [arm_cfft_f32(S, p1, ifftFlag, 1)]: the transform of the complex array
    [p1] of [fftLen] elements, in place. *)
Class Cfft (A : Type) := arm_cfft_f32 : nat → list A → bool → list A.

Class CfftLaws (A : Type) `{Cfft A} : Prop :=
  cfft_length (n : nat) (v : list A) (f : bool) :
    length v = (2 * n)%nat → length (arm_cfft_f32 n v f) = (2 * n)%nat.

(** [arm_rfft_fast_f32(S, p, pOut, ifftFlag)]: the transform of the real
    array [p] of [fftLen] floats into [pOut], of the same length: the DC and
    the Nyquist bin, both real, share the first pair, the other bins follow
    as pairs.  The call uses [p] as scratch space; [rfft_scratch] is what it
    leaves there. *)
Class Rfft (A : Type) := {
  arm_rfft_fast_f32 : nat → list A → bool → list A;
  rfft_scratch : nat → list A → bool → list A;
}.

Class RfftLaws (A : Type) `{Rfft A} : Prop := {
  rfft_length (n : nat) (v : list A) (f : bool) :
    length v = n → length (arm_rfft_fast_f32 n v f) = n;
  rfft_scratch_length (n : nat) (v : list A) (f : bool) :
    length v = n → length (rfft_scratch n v f) = n;
}.

(** [sqrt] of [math.h]. *)
Class Sqrt (A : Type) := sqrt : A → A.

#[global] Hint Mode Cfft ! : typeclass_instances.
#[global] Hint Mode Rfft ! : typeclass_instances.
#[global] Hint Mode Sqrt ! : typeclass_instances.

Section Complex.
Context {A : Type} `{Scalar A}.
Implicit Types (v w : list A) (p q : A * A) (n k : nat).

(** A decimal literal [m * 10^-e]. *)
Definition sdec (m : Z) (e : nat) : A := sofZ m /ₛ sofZ (10 ^ Z.of_nat e).

(** The elements of a complex array. *)
Fixpoint cmplx_pairs v : list (A * A) :=
  match v with
  | x :: y :: v' => (x, y) :: cmplx_pairs v'
  | _ => []
  end.

(** The floats of a list of complex numbers. *)
Definition cmplx_flat (l : list (A * A)) : list A := l ≫= λ p, [p.1; p.2].

Definition cmplx_mag_squared p : A := p.1 *ₛ p.1 +ₛ p.2 *ₛ p.2.

(** [arm_cmplx_mag_squared_f32(pSrc, pDst, numSamples)]:
    [pDst[n] = pSrc[2n]^2 + pSrc[2n+1]^2]. *)
Definition arm_cmplx_mag_squared_f32 (pSrc : list A) (numSamples : nat) : list A :=
  take numSamples (cmplx_mag_squared <$> cmplx_pairs pSrc).

Definition cmplx_mult p q : A * A :=
  (p.1 *ₛ q.1 -ₛ p.2 *ₛ q.2, p.1 *ₛ q.2 +ₛ p.2 *ₛ q.1).

(** [arm_cmplx_mult_cmplx_f32(pSrcA, pSrcB, pDst, numSamples)]: the product
    of the two complex arrays, element by element. *)
Definition arm_cmplx_mult_cmplx_f32 (pSrcA pSrcB : list A) (numSamples : nat) :
    list A :=
  cmplx_flat (take numSamples (zip_with cmplx_mult (cmplx_pairs pSrcA) (cmplx_pairs pSrcB))).

(** [arm_max_f32(pSrc, blockSize, pResult, pIndex)]: the scan starts from
    the first sample and replaces the pair when a sample is strictly
    larger. *)
Definition arm_max_f32 (pSrc : list A) (blockSize : nat) : A * nat :=
  match take blockSize pSrc with
  | [] => (s0, 0%nat)
  | x :: v =>
      let r := scan_max snd (indexed 1 v) (Some x, (0%nat, x)) in (r.2.2, r.2.1)
  end.

End Complex.

Section ComplexLaws.
Context {A : Type} `{Scalar A}.
Implicit Types (v w : list A) (p q : A * A) (n k : nat).

Lemma length_cmplx_pairs n : ∀ v, length v = (2 * n)%nat → length (cmplx_pairs v) = n.
Proof.
  induction n as [|n IH]; intros [|x [|y v]] Hv; simpl in *; try lia.
  f_equal. apply IH. lia.
Qed.

Lemma length_cmplx_flat (l : list (A * A)) : length (cmplx_flat l) = (2 * length l)%nat.
Proof. induction l as [|p l IH]; simpl in *; lia. Qed.

Lemma cmplx_pairs_flat (l : list (A * A)) : cmplx_pairs (cmplx_flat l) = l.
Proof. induction l as [|[x y] l IH]; simpl; [done|]. f_equal. apply IH. Qed.

Lemma cmplx_flat_pairs n : ∀ v, length v = (2 * n)%nat → cmplx_flat (cmplx_pairs v) = v.
Proof.
  induction n as [|n IH]; intros [|x [|y v]] Hv; simpl in *; try lia; [done|].
  do 2 f_equal. apply IH. lia.
Qed.

(** Element [k] of a complex array is the pair of floats [2k] and [2k+1]. *)
Lemma lookup_cmplx_pairs k : ∀ v p,
  cmplx_pairs v !! k = Some p →
  v !! (2 * k)%nat = Some p.1 ∧ v !! (2 * k + 1)%nat = Some p.2.
Proof.
  induction k as [|k IH]; intros [|x [|y v]] p Hp; simpl in *; try done.
  - by injection Hp as <-.
  - replace (k + S (k + 0))%nat with (S (2 * k)) by lia.
    replace (k + S (k + 0) + 1)%nat with (S (2 * k + 1)) by lia. by apply IH.
Qed.

Lemma cmplx_pairs_lookup k : ∀ v x y,
  v !! (2 * k)%nat = Some x → v !! (2 * k + 1)%nat = Some y →
  cmplx_pairs v !! k = Some (x, y).
Proof.
  induction k as [|k IH]; intros [|x' [|y' v]] x y Hx Hy; simpl in *; try done.
  - congruence.
  - replace (k + S (k + 0))%nat with (S (2 * k)) in * by lia.
    apply IH; [exact Hx|exact Hy].
Qed.

Lemma cmplx_pairs_at n v k (d : A) :
  length v = (2 * n)%nat → (k < n)%nat →
  cmplx_pairs v !! k = Some (default d (v !! (2 * k)%nat), default d (v !! (2 * k + 1)%nat)).
Proof.
  intros Hv Hk.
  destruct (lookup_lt_is_Some_2 v (2 * k)) as [x Hx]; [lia|].
  destruct (lookup_lt_is_Some_2 v (2 * k + 1)) as [y Hy]; [lia|].
  rewrite Hx, Hy. by apply cmplx_pairs_lookup.
Qed.

Lemma length_arm_cmplx_mag_squared v n :
  length v = (2 * n)%nat → length (arm_cmplx_mag_squared_f32 v n) = n.
Proof.
  intros Hv. unfold arm_cmplx_mag_squared_f32.
  rewrite length_take, length_fmap, (length_cmplx_pairs n) by done. lia.
Qed.

Lemma length_arm_cmplx_mult v w n :
  length v = (2 * n)%nat → length w = (2 * n)%nat →
  length (arm_cmplx_mult_cmplx_f32 v w n) = (2 * n)%nat.
Proof.
  intros Hv Hw. unfold arm_cmplx_mult_cmplx_f32.
  rewrite length_cmplx_flat, length_take, length_zip_with,
    !(length_cmplx_pairs n) by done. lia.
Qed.

End ComplexLaws.

Section Maximum.
Context {A : Type} `{ScalarLaws A}.
Implicit Types (v c : list A) (n : nat).

(** [arm_max_f32] returns the first largest sample and its index. *)
Lemma arm_max_first v n :
  (0 < n ≤ length v)%nat →
  ∃ c1 x c2, take n v = c1 ++ x :: c2 ∧ arm_max_f32 v n = (x, length c1) ∧
    Forall (λ y, y <ₛ x) c1 ∧ Forall (λ y, y ≤ₛ x) c2.
Proof.
  intros Hn. unfold arm_max_f32.
  destruct (take n v) as [|x0 c] eqn:Hc.
  { apply (f_equal length) in Hc. rewrite length_take in Hc. simpl in Hc. lia. }
  destruct (scan_indexed_spec 1 c 0 x0)
    as [[-> Hall] | (c1 & x & c2 & -> & -> & Hx & H1 & H2)]; simpl.
  - by exists [], x0, c.
  - exists (x0 :: c1), x, c2. split_and!; try done. by constructor.
Qed.

(** A sample that is strictly above every earlier sample and at least as
    large as every sample is what [arm_max_f32] returns. *)
Lemma arm_max_at v n p x :
  (p < n ≤ length v)%nat → v !! p = Some x →
  (∀ k y, (k < p)%nat → v !! k = Some y → y <ₛ x) →
  (∀ k y, (k < n)%nat → v !! k = Some y → y ≤ₛ x) →
  arm_max_f32 v n = (x, p).
Proof.
  intros Hp Hx Hlt Hle.
  destruct (arm_max_first v n) as (c1 & m & c2 & Hc & -> & H1 & H2); [lia|].
  assert (∀ k y, (c1 ++ m :: c2) !! k = Some y → v !! k = Some y ∧ (k < n)%nat) as Hv.
  { intros k y. rewrite <- Hc. apply lookup_take_Some. }
  assert ((c1 ++ m :: c2) !! p = Some x) as Hp'.
  { rewrite <- Hc. by rewrite lookup_take_lt by lia. }
  destruct (Hv (length c1) m (list_lookup_middle _ _ _ _ eq_refl)) as [Hm Hn].
  destruct (lt_eq_lt_dec (length c1) p) as [[Hc1|<-]|Hc1].
  - pose proof (Hlt _ _ Hc1 Hm) as Hmx.
    rewrite lookup_app_r in Hp' by lia.
    destruct (p - length c1)%nat as [|j] eqn:Hj; [lia|]. simpl in Hp'.
    pose proof (Forall_lookup_1 _ _ _ _ H2 Hp') as Hxm. simpl in Hxm. congruence.
  - rewrite list_lookup_middle in Hp' by done. by simplify_eq.
  - rewrite lookup_app_l in Hp' by done.
    pose proof (Forall_lookup_1 _ _ _ _ H1 Hp') as Hxm. simpl in Hxm.
    pose proof (Hle _ _ Hn Hm). congruence.
Qed.

End Maximum.

#[export] Hint Rewrite @length_cmplx_flat : len.
