(* ===== verification/FreqShift.v ===== *)
(** * FreqShift: the spectral shifter of [SYSMODE_TEST3]

    [example_test3] (lines 282-358 of [example.c]) filters the microphone
    block, applies the window, packs the result as a complex array, takes
    its transform, moves the spectrum up by [TEST3_FREQSHIFT_BINS] bins,
    mirrors the lower half of the array into the upper half, transforms back
    and sends the real parts to the right output; the microphone block goes
    to the left output.  Once per print period it reports the largest bin of
    the spectrum.  The four loops are [for_each] loops over the arrays they
    access, and the theorems give the arrays they leave.  The local arrays
    of the handler are not initialised in C; here they start as zeros, and
    the loops are shown to write every element whatever the arrays held. *)

From Stdlib Require Import Field Qcanon.
From S2P Require Import Prelude Scalar Argmax Numerics Board Transforms.

(** * Constants *)

(** [TEST3_LP_TAPS] (line 237). *)
Definition TEST3_LP_TAPS : nat := 257.

(** [TEST3_FREQSHIFT_BINS] (line 247; 5 as shipped) and
    [DEBUG_PRINT_PERIOD_ms] of [config.h].  [TEST3_FFT_LEN] is
    [AUDIO_BLOCKSIZE] (line 245). *)
Class ShiftConfig := {
  TEST3_FREQSHIFT_BINS : Z;
  DEBUG_PRINT_PERIOD_ms : Z;
}.

(** The lengths [arm_cfft_f32] has an instance for (lines 249-269). *)
Definition cfft_lengths : list nat := [16; 32; 64; 128; 256; 512; 1024; 2048; 4096]%nat.

(** What the build checks: the [#if] chain of lines 249-269 and the two
    [BUILD_BUG_ON] of lines 283-284, the second with
    [TEST3_LP_RELCUTOFF = 0.75]: [0.75 > 1 - K/N] fails the build. *)
Class ShiftConfigOk `{Config} `{ShiftConfig} : Prop := {
  fft_len_ok : AUDIO_BLOCKSIZE ∈ cfft_lengths;
  shift_up : 0 ≤ TEST3_FREQSHIFT_BINS;
  shift_in_band : 4 * TEST3_FREQSHIFT_BINS ≤ Z.of_nat AUDIO_BLOCKSIZE;
}.

(** The shipped shift, with a print period of one second, and a block size
    the build accepts with it. *)
Definition shipped_shift : ShiftConfig :=
  {| TEST3_FREQSHIFT_BINS := 5; DEBUG_PRINT_PERIOD_ms := 1000 |}.

Definition shift_config : Config :=
  {| AUDIO_BLOCKSIZE := 32; AUDIO_SAMPLE_RATE := 16000 |}.

(** The line of the report (line 356). *)
Inductive test3_msg (A : Type) :=
  | test3_peak (freq amp : A).
Arguments test3_peak {A} _ _.

Section Test3.
Context {A : Type} {SA : Scalar A} {FA : Cfft A} {QA : Sqrt A}
  {CFG : Config} {SC : ShiftConfig}.

(** The initialisers of [test3_lp_filt_coeffs] (line 238). *)
Definition test3_lp_filt_init : list A := [
  sofZ 0; sdec 119825 12; sdec 444618 12; sdec (-727863) 12;
  sdec 270288 11; sdec (-669514) 12; sdec (-137716) 11; sdec 688468 11;
  sdec (-909659) 11; sdec 320771 11; sdec 283699 11; sdec (-221577) 10;
  sdec 129173 10; sdec (-213187) 10; sdec (-272683) 10; sdec 134271 10;
  sdec (-649697) 10; sdec (-142944) 10; sdec (-19333) 9; sdec (-106406) 9;
  sdec 648035 11; sdec (-986873) 10; sdec (-113308) 9; sdec (-139721) 11;
  sdec (-204096) 9; sdec (-714905) 10; sdec (-803624) 10; sdec (-278129) 9;
  sdec (-119404) 10; sdec (-23832) 8; sdec (-25763) 8; sdec (-793432) 11;
  sdec (-416107) 9; sdec (-127345) 9; sdec (-128519) 9; sdec (-497854) 9;
  sdec 424158 10; sdec (-368516) 9; sdec (-376913) 9; sdec 116328 9;
  sdec (-606198) 9; sdec (-465452) 10; sdec (-169301) 10; sdec (-63943) 8;
  sdec 351097 9; sdec (-331976) 9; sdec (-306589) 9; sdec 577824 9;
  sdec (-615253) 9; sdec 370121 9; sdec 454429 9; sdec (-545039) 9;
  sdec 112599 8; sdec 338275 10; sdec 105563 9; sdec 156123 8;
  sdec (-340389) 9; sdec 125379 8; sdec 139452 8; sdec (-18273) 8;
  sdec 244381 8; sdec 719492 9; sdec 813936 9; sdec 303999 8;
  sdec 663427 10; sdec 246896 8; sdec 262177 8; sdec 151051 9;
  sdec 405365 8; sdec 135228 8; sdec 139214 8; sdec 461113 8;
  sdec 367289 10; sdec 347663 8; sdec 354677 8; sdec (-273875) 9;
  sdec 531143 8; sdec 114548 8; sdec 101094 8; sdec 551941 8;
  sdec (-138019) 8; sdec 34199 7; sdec 329394 8; sdec (-248685) 8;
  sdec 538703 8; sdec (-885153) 9; sdec (-130981) 8; sdec 498121 8;
  sdec (-52152) 7; sdec 150326 8; sdec 111372 8; sdec (-743222) 8;
  sdec 376306 8; sdec (-546854) 8; sdec (-623171) 8; sdec 276174 8;
  sdec (-121349) 7; sdec (-244371) 8; sdec (-304666) 8; sdec (-15557) 6;
  sdec 88422 8; sdec (-126357) 7; sdec (-136837) 7; sdec (-159923) 9;
  sdec (-222439) 7; sdec (-745253) 8; sdec (-804826) 8; sdec (-268774) 7;
  sdec (-11183) 7; sdec (-217286) 7; sdec (-229721) 7; sdec (-695233) 9;
  sdec (-360123) 7; sdec (-109452) 7; sdec (-110355) 7; sdec (-429906) 7;
  sdec 371085 8; sdec (-329441) 7; sdec (-347753) 7; sdec 1121 5;
  sdec (-61916) 6; sdec (-513354) 8; sdec (-206648) 8; sdec (-89382) 6;
  sdec 591558 7; sdec (-7345) 5; sdec (-106091) 6; sdec 563131 6;
  sdec 563131 6; sdec (-106091) 6; sdec (-7345) 5; sdec 591558 7;
  sdec (-89382) 6; sdec (-206648) 8; sdec (-513354) 8; sdec (-61916) 6;
  sdec 1121 5; sdec (-347753) 7; sdec (-329441) 7; sdec 371085 8;
  sdec (-429906) 7; sdec (-110355) 7; sdec (-109452) 7; sdec (-360123) 7;
  sdec (-695233) 9; sdec (-229721) 7; sdec (-217286) 7; sdec (-11183) 7;
  sdec (-268774) 7; sdec (-804826) 8; sdec (-745253) 8; sdec (-222439) 7;
  sdec (-159923) 9; sdec (-136837) 7; sdec (-126357) 7; sdec 88422 8;
  sdec (-15557) 6; sdec (-304666) 8; sdec (-244371) 8; sdec (-121349) 7;
  sdec 276174 8; sdec (-623171) 8; sdec (-546854) 8; sdec 376306 8;
  sdec (-743222) 8; sdec 111372 8; sdec 150326 8; sdec (-52152) 7;
  sdec 498121 8; sdec (-130981) 8; sdec (-885153) 9; sdec 538703 8;
  sdec (-248685) 8; sdec 329394 8; sdec 34199 7; sdec (-138019) 8;
  sdec 551941 8; sdec 101094 8; sdec 114548 8; sdec 531143 8;
  sdec (-273875) 9; sdec 354677 8; sdec 347663 8; sdec 367289 10;
  sdec 461113 8; sdec 139214 8; sdec 135228 8; sdec 405365 8;
  sdec 151051 9; sdec 262177 8; sdec 246896 8; sdec 663427 10;
  sdec 303999 8; sdec 813936 9; sdec 719492 9; sdec 244381 8;
  sdec (-18273) 8; sdec 139452 8; sdec 125379 8; sdec (-340389) 9;
  sdec 156123 8; sdec 105563 9; sdec 338275 10; sdec 112599 8;
  sdec (-545039) 9; sdec 454429 9; sdec 370121 9; sdec (-615253) 9;
  sdec 577824 9; sdec (-306589) 9; sdec (-331976) 9; sdec 351097 9;
  sdec (-63943) 8; sdec (-169301) 10; sdec (-465452) 10; sdec (-606198) 9;
  sdec 116328 9; sdec (-376913) 9; sdec (-368516) 9; sdec 424158 10;
  sdec (-497854) 9; sdec (-128519) 9; sdec (-127345) 9; sdec (-416107) 9;
  sdec (-793432) 11; sdec (-25763) 8; sdec (-23832) 8; sdec (-119404) 10;
  sdec (-278129) 9; sdec (-803624) 10; sdec (-714905) 10; sdec (-204096) 9;
  sdec (-139721) 11; sdec (-113308) 9; sdec (-986873) 10; sdec 648035 11;
  sdec (-106406) 9; sdec (-19333) 9; sdec (-142944) 10; sdec (-649697) 10;
  sdec 134271 10; sdec (-272683) 10; sdec (-213187) 10; sdec 129173 10;
  sdec (-221577) 10; sdec 283699 11; sdec 320771 11; sdec (-909659) 11;
  sdec 688468 11; sdec (-137716) 11; sdec (-669514) 12; sdec 270288 11;
  sdec (-727863) 12; sdec 444618 12; sdec 119825 12; sofZ 0 ].

(** [test3_lp_filt_coeffs] (line 238): an array of [TEST3_LP_TAPS] floats;
    the elements without an initialiser are zero. *)
Definition test3_lp_filt_coeffs : list A :=
  test3_lp_filt_init ++ replicate (TEST3_LP_TAPS - length test3_lp_filt_init) s0.

(** The globals of lines 240-274. *)
Record test3_state := Test3State {
  test3_lp_filt_state : list A;
  window : list A;
  print_delay : systime_t;
}.

(** [example_test3_init] (lines 276-280): [arm_fir_init_f32] clears the
    filter state, [windows_blackman] fills the window (its result is
    [window_blk]), and the first report is due at once. *)
Definition example_test3_init (window_blk : list A) (now : systime_t) : test3_state :=
  {| test3_lp_filt_state := arm_fill_f32 s0 (TEST3_LP_TAPS + AUDIO_BLOCKSIZE - 1);
     window := window_blk;
     print_delay := systime_get_delay now 0 |}.

(** The body of the loop of lines 302-309. *)
Definition pack_body (final_td_data fftdata : list A) (i : nat) : option (list A) :=
  if decide (Z.rem (Z.of_nat i) 2 = 0)
  then x ← load final_td_data (Z.quot (Z.of_nat i) 2); store fftdata (Z.of_nat i) x
  else store fftdata (Z.of_nat i) s0.

Definition test3_pack (final_td_data fftdata : list A) : option (list A) :=
  for_each (pack_body final_td_data) (seq 0 (length fftdata)) fftdata.

(** The body of the loop of lines 317-323. *)
Definition shift_body (fftdata shift_fftdata : list A) (i : nat) : option (list A) :=
  if decide (Z.of_nat i ≤ TEST3_FREQSHIFT_BINS * 2)
  then store shift_fftdata (Z.of_nat i) s0
  else x ← load fftdata (Z.of_nat i - TEST3_FREQSHIFT_BINS * 2);
       store shift_fftdata (Z.of_nat i) x.

Definition test3_shift (fftdata shift_fftdata : list A) : option (list A) :=
  for_each (shift_body fftdata) (seq 0 (length fftdata / 2)) shift_fftdata.

(** The body of the loop of lines 326-328. *)
Definition mirror_body (shift_fftdata : list A) (i : nat) : option (list A) :=
  x ← load shift_fftdata (Z.of_nat i);
  store shift_fftdata (Z.of_nat (length shift_fftdata) - 1 - Z.of_nat i) x.

Definition test3_mirror (shift_fftdata : list A) : option (list A) :=
  for_each mirror_body (seq 0 (length shift_fftdata / 2)) shift_fftdata.

(** The body of the loop of lines 335-337. *)
Definition real_body (shift_fftdata output : list A) (i : nat) : option (list A) :=
  x ← load shift_fftdata (2 * Z.of_nat i); store output (Z.of_nat i) x.

Definition test3_real (shift_fftdata output : list A) : option (list A) :=
  for_each (real_body shift_fftdata) (seq 0 (length output)) output.

(** The report of lines 346-356 on the spectrum [fftdata]. *)
Definition test3_report (fftdata : list A) : test3_msg A :=
  let mag := arm_cmplx_mag_squared_f32 fftdata AUDIO_BLOCKSIZE in
  let '(max_mag, idx) := arm_max_f32 mag AUDIO_BLOCKSIZE in
  test3_peak
    (s1 *ₛ sofZ (Z.of_nat idx) *ₛ sofZ AUDIO_SAMPLE_RATE /ₛ sofZ (Z.of_nat AUDIO_BLOCKSIZE))
    (sqrt max_mag).

(** What one call reads: the microphone block and the clock, once for the
    test of line 344 and once for the new deadline of line 345. *)
Record test3_in := Test3In {
  t3_mic : list A;
  t3_now : systime_t;
  t3_now_set : systime_t;
}.

(** [example_test3] (lines 282-358). *)
Definition example_test3 (st : test3_state) (i : test3_in) :
    option (test3_state * block_out A (test3_msg A)) :=
  let inpdata := t3_mic i in
  let '(lpdata, lp_state) :=
    arm_fir_f32 TEST3_LP_TAPS test3_lp_filt_coeffs (test3_lp_filt_state st)
      inpdata AUDIO_BLOCKSIZE in
  let final_td_data := arm_mult_f32 lpdata (window st) AUDIO_BLOCKSIZE in
  fftdata ← test3_pack final_td_data (arm_fill_f32 s0 (AUDIO_BLOCKSIZE * 2));
  let fftdata := arm_cfft_f32 AUDIO_BLOCKSIZE fftdata false in
  shift_fftdata ← test3_shift fftdata (arm_fill_f32 s0 (AUDIO_BLOCKSIZE * 2));
  shift_fftdata ← test3_mirror shift_fftdata;
  let shift_fftdata := arm_cfft_f32 AUDIO_BLOCKSIZE shift_fftdata true in
  output ← test3_real shift_fftdata (arm_fill_f32 s0 AUDIO_BLOCKSIZE);
  let o := blocks_sinks_rightout output (blocks_sinks_leftout inpdata silent_out) in
  if systime_get_delay_passed (t3_now i) (print_delay st) then
    Some (Test3State lp_state (window st)
            (systime_get_delay (t3_now_set i) (DEBUG_PRINT_PERIOD_ms * 1000)),
          print_line (test3_report fftdata) o)
  else Some (Test3State lp_state (window st) (print_delay st), o).

End Test3.

Arguments test3_state : clear implicits.
Arguments test3_in : clear implicits.

(** * The loops *)

Section Loops.
Context {A : Type} {SA : Scalar A} {CFG : Config} {SC : ShiftConfig}.
Implicit Types (td fft sh init out : list A) (n k : nat).

(** Float [k] of the packed array. *)
Definition pack_sample td k : A :=
  if decide (Z.rem (Z.of_nat k) 2 = 0)
  then default s0 (td !! Z.to_nat (Z.quot (Z.of_nat k) 2))
  else s0.

Lemma pack_samples td n :
  (n ≤ length td)%nat →
  pack_sample td <$> seq 0 (2 * n) = cmplx_flat ((λ x, (x, s0)) <$> take n td).
Proof.
  induction n as [|n IH]; intros Hn; [done|].
  destruct (lookup_lt_is_Some_2 td n) as [x Hx]; [lia|].
  replace (2 * S n)%nat with (S (S (2 * n))) by lia.
  rewrite !seq_S, !fmap_app, IH by lia. rewrite (take_S_r _ _ _ Hx), fmap_app.
  unfold cmplx_flat. rewrite bind_app, <- app_assoc. f_equal. simpl.
  unfold pack_sample. rewrite decide_True by lia_div. rewrite decide_False by lia_div.
  replace (Z.to_nat _) with n by lia_div. by rewrite Hx.
Qed.

(** The loop of lines 302-309 writes the samples as the real parts of a
    complex array, whatever the array held. *)
Lemma test3_pack_eq td init n :
  length init = (2 * n)%nat → (n ≤ length td)%nat →
  test3_pack td init = Some (cmplx_flat ((λ x, (x, s0)) <$> take n td)).
Proof.
  intros Hi Hn. unfold test3_pack.
  rewrite (for_each_fill (pack_sample td)); [|done|].
  - by rewrite drop_all, app_nil_r, Hi, pack_samples.
  - intros k s Hk Hs. unfold pack_body, pack_sample. case_decide; [|done].
    rewrite (load_default _ _ s0); [done|]. unfold in_bounds. lia_div.
Qed.

(** Float [k] of the lower half of the shifted array. *)
Definition shift_sample fft k : A :=
  if decide (Z.of_nat k ≤ TEST3_FREQSHIFT_BINS * 2) then s0
  else default s0 (fft !! Z.to_nat (Z.of_nat k - TEST3_FREQSHIFT_BINS * 2)).

(** The loop of lines 317-323 writes the lower half of the array. *)
Lemma test3_shift_eq fft init n :
  0 ≤ TEST3_FREQSHIFT_BINS →
  length fft = (2 * n)%nat → length init = (2 * n)%nat →
  test3_shift fft init = Some ((shift_sample fft <$> seq 0 n) ++ drop n init).
Proof.
  intros HK Hf Hi. unfold test3_shift.
  rewrite Hf, half_double.
  apply for_each_fill; [lia|].
  intros k s Hk Hs. unfold shift_body, shift_sample. case_decide; [done|].
  rewrite (load_default _ _ s0); [done|]. unfold in_bounds. lia.
Qed.

(** The loop of lines 326-328 writes the lower half, reversed, over the
    upper half. *)
Lemma test3_mirror_eq sh n :
  length sh = (2 * n)%nat →
  test3_mirror sh = Some (take n sh ++ reverse (take n sh)).
Proof.
  intros Hs. unfold test3_mirror. rewrite Hs, half_double.
  remember (2 * n)%nat as m eqn:Hm.
  destruct (for_each_invariant mirror_body
    (λ k s, s = take (m - k) sh ++ reverse (take k sh)) (seq 0 n))
    with (s := sh) as (s' & -> & ->).
  - intros k s i [-> Hk]%lookup_seq ->. simpl in *.
    destruct (lookup_lt_is_Some_2 sh k) as [x Hx]; [lia|].
    destruct (lookup_lt_is_Some_2 sh (m - S k)) as [d Hd]; [lia|].
    exists (take (m - S k) sh ++ reverse (take (S k) sh)). split; [|done].
    unfold mirror_body. rewrite (load_default _ _ s0) by (unfold in_bounds; len).
    simpl. rewrite Nat2Z.id, lookup_app_l, lookup_take_lt, Hx by len. simpl.
    rewrite (take_S_r _ _ _ Hx), reverse_app. simpl.
    replace (m - k)%nat with (S (m - S k)) by lia.
    rewrite (take_S_r _ _ _ Hd), <- app_assoc. simpl.
    pose proof (store_middle (take (m - S k) sh) (reverse (take k sh)) d x) as Hst.
    rewrite <- Hst. f_equal. rewrite length_app, length_cons, length_reverse. len.
  - by rewrite Nat.sub_0_r, take_ge, app_nil_r by lia.
  - rewrite length_seq. by replace (m - n)%nat with n by lia.
Qed.

Lemma real_samples n : ∀ sh,
  length sh = (2 * n)%nat →
  (λ k, default s0 (sh !! Z.to_nat (2 * Z.of_nat k))) <$> seq 0 n = (cmplx_pairs sh).*1.
Proof.
  induction n as [|n IH]; intros [|x [|y sh]] Hs; simpl in *; try lia; [done|].
  f_equal. rewrite <- fmap_S_seq, <- list_fmap_compose, <- IH by lia.
  apply list_fmap_ext. intros _ k _. simpl.
  by replace (Z.to_nat (2 * Z.of_nat (S k))) with (S (S (Z.to_nat (2 * Z.of_nat k)))) by lia.
Qed.

(** The loop of lines 335-337 takes the real parts. *)
Lemma test3_real_eq sh init n :
  length sh = (2 * n)%nat → length init = n →
  test3_real sh init = Some ((cmplx_pairs sh).*1).
Proof.
  intros Hs Hi. unfold test3_real.
  rewrite (for_each_fill (λ k, default s0 (sh !! Z.to_nat (2 * Z.of_nat k)))); [|done|].
  - by rewrite drop_all, app_nil_r, Hi, real_samples.
  - intros k s Hk _. unfold real_body.
    rewrite (load_default _ _ s0); [done|]. unfold in_bounds. lia.
Qed.

(** Packing and unpacking are inverse.  The loop of lines 302-309
    followed by the loop of lines 335-337, with nothing done to the array
    in between, gives back the block of samples, whatever the two arrays
    held before. *)
Theorem test3_pack_real_roundtrip td init out :
  length init = (2 * length td)%nat → length out = length td →
  ∃ packed, test3_pack td init = Some packed ∧ test3_real packed out = Some td.
Proof.
  intros Hi Ho. rewrite (test3_pack_eq td init (length td)), firstn_all by done.
  eexists. split; [done|].
  rewrite (test3_real_eq _ _ (length td)) by (by rewrite ?length_cmplx_flat, ?length_fmap).
  rewrite cmplx_pairs_flat, <- list_fmap_compose. f_equal. apply list_fmap_id.
Qed.

End Loops.

(** * One call *)

Section Handler.
Context {A : Type} {SA : Scalar A} {FA : Cfft A} {FL : CfftLaws A} {QA : Sqrt A}
  {CFG : Config} {SC : ShiftConfig} {SO : ShiftConfigOk}.
Implicit Types (st : test3_state A) (mic fft : list A) (i : test3_in A).

(** The arrays of the mode have their declared sizes. *)
Record test3_inv st : Prop := {
  t3_state_len :
    length (test3_lp_filt_state st) = (TEST3_LP_TAPS + AUDIO_BLOCKSIZE - 1)%nat;
  t3_window_len : length (window st) = AUDIO_BLOCKSIZE;
}.

(** The filtered and windowed block. *)
Definition test3_td st mic : list A :=
  arm_mult_f32
    (arm_fir_f32 TEST3_LP_TAPS test3_lp_filt_coeffs (test3_lp_filt_state st) mic
       AUDIO_BLOCKSIZE).1 (window st) AUDIO_BLOCKSIZE.

(** Its spectrum, as [arm_cfft_f32] returns it. *)
Definition test3_spectrum st mic : list A :=
  arm_cfft_f32 AUDIO_BLOCKSIZE (cmplx_flat ((λ x, (x, s0)) <$> test3_td st mic)) false.

(** The array the two loops of lines 317-328 build from a spectrum. *)
Definition test3_shifted fft : list A :=
  let h := shift_sample fft <$> seq 0 (length fft / 2) in h ++ reverse h.

(** The block sent to the right output. *)
Definition test3_output st mic : list A :=
  (cmplx_pairs
     (arm_cfft_f32 AUDIO_BLOCKSIZE (test3_shifted (test3_spectrum st mic)) true)).*1.

(** The state after a call whose next report is due at [t]. *)
Definition test3_next st mic (t : systime_t) : test3_state A :=
  Test3State
    (arm_fir_f32 TEST3_LP_TAPS test3_lp_filt_coeffs (test3_lp_filt_state st) mic
       AUDIO_BLOCKSIZE).2 (window st) t.

Lemma length_test3_td st mic : test3_inv st → length (test3_td st mic) = AUDIO_BLOCKSIZE.
Proof.
  intros [_ Hw]. unfold test3_td.
  rewrite length_arm_mult; [done|by rewrite length_arm_fir_out|lia].
Qed.

Lemma length_test3_spectrum st mic :
  test3_inv st → length (test3_spectrum st mic) = (2 * AUDIO_BLOCKSIZE)%nat.
Proof.
  intros Hst. apply cfft_length.
  by rewrite length_cmplx_flat, length_fmap, length_test3_td.
Qed.

Lemma length_test3_shifted fft n :
  length fft = (2 * n)%nat → length (test3_shifted fft) = (2 * n)%nat.
Proof.
  intros Hf. unfold test3_shifted. rewrite Hf, half_double.
  rewrite length_app, length_reverse, length_fmap, length_seq. lia.
Qed.

(** The two loops of lines 317-328, from any array. *)
Lemma test3_shift_mirror fft init n :
  length fft = (2 * n)%nat → length init = (2 * n)%nat →
  ∃ sh, test3_shift fft init = Some sh ∧ test3_mirror sh = Some (test3_shifted fft).
Proof.
  intros Hf Hi. pose proof shift_up. eexists. split; [by apply test3_shift_eq|].
  rewrite (test3_mirror_eq _ n) by (rewrite length_app; len).
  rewrite take_app_length' by len.
  unfold test3_shifted. by rewrite Hf, half_double.
Qed.

Lemma length_test3_output st mic :
  test3_inv st → length (test3_output st mic) = AUDIO_BLOCKSIZE.
Proof.
  intros Hst. unfold test3_output.
  rewrite length_fmap. apply length_cmplx_pairs, cfft_length.
  by apply length_test3_shifted, length_test3_spectrum.
Qed.

(** [example_test3] is defined on every block and computes the arrays
    above. *)
Lemma example_test3_eq st i :
  test3_inv st → is_block (t3_mic i) →
  example_test3 st i = Some
    (if systime_get_delay_passed (t3_now i) (print_delay st) then
       (test3_next st (t3_mic i)
          (systime_get_delay (t3_now_set i) (DEBUG_PRINT_PERIOD_ms * 1000)),
        BlockOut (t3_mic i) (test3_output st (t3_mic i))
          [test3_report (test3_spectrum st (t3_mic i))])
     else
       (test3_next st (t3_mic i) (print_delay st),
        BlockOut (t3_mic i) (test3_output st (t3_mic i)) [])).
Proof.
  intros Hst Hmic. unfold example_test3.
  pose proof (length_test3_td st (t3_mic i) Hst) as Htd.
  pose proof (length_test3_spectrum st (t3_mic i) Hst) as Hsp.
  unfold test3_next, test3_output, test3_spectrum, test3_td in *.
  destruct (arm_fir_f32 _ _ _ _ _) as [lpdata lp_state]. cbn [fst snd] in *.
  rewrite (test3_pack_eq _ _ AUDIO_BLOCKSIZE), take_ge by len. cbn [mbind option_bind].
  destruct (test3_shift_mirror _ (arm_fill_f32 s0 (AUDIO_BLOCKSIZE * 2)) _ Hsp)
    as (sh & -> & Hsh); [len|]. cbn [mbind option_bind]. rewrite Hsh.
  cbn [mbind option_bind].
  rewrite (test3_real_eq _ _ AUDIO_BLOCKSIZE);
    [|by apply cfft_length, length_test3_shifted|len].
  cbn [mbind option_bind]. by destruct (systime_get_delay_passed _ _).
Qed.

Lemma test3_next_inv st mic t : test3_inv st → is_block mic → test3_inv (test3_next st mic t).
Proof.
  intros [Hs Hw] Hmic. unfold is_block in *. split; [|done].
  unfold test3_next. cbn [test3_lp_filt_state].
  rewrite length_arm_fir_state; unfold TEST3_LP_TAPS in *; lia.
Qed.

Lemma test3_init_inv w now : is_block w → test3_inv (example_test3_init w now).
Proof. intros Hw. split; [apply length_arm_fill|done]. Qed.

End Handler.

(** * The bins of the shifted array *)

Section Bins.
Context {A : Type} {SA : Scalar A} {CFG : Config} {SC : ShiftConfig}.
Implicit Types (fft : list A) (n j k : nat).

Lemma lookup_shifted_lower fft n j :
  length fft = (2 * n)%nat → (j < n)%nat →
  test3_shifted fft !! j = Some (shift_sample fft j).
Proof.
  intros Hf Hj. unfold test3_shifted. rewrite Hf, half_double. cbn zeta.
  rewrite lookup_app_l by len. by rewrite list_lookup_fmap, lookup_seq_lt.
Qed.

Lemma lookup_shifted_upper fft n j :
  length fft = (2 * n)%nat → (j < n)%nat →
  test3_shifted fft !! (2 * n - 1 - j)%nat = Some (shift_sample fft j).
Proof.
  intros Hf Hj. unfold test3_shifted. rewrite Hf, half_double. cbn zeta.
  rewrite lookup_app_r by len. rewrite reverse_lookup by len.
  rewrite list_lookup_fmap, length_fmap, length_seq.
  replace (n - S (2 * n - 1 - j - n))%nat with j by lia. by rewrite lookup_seq_lt.
Qed.

(** Complex element [k] of the lower half. *)
Lemma shifted_bin_lower fft n k :
  length fft = (2 * n)%nat → (2 * k + 1 < n)%nat →
  cmplx_pairs (test3_shifted fft) !! k =
    Some (shift_sample fft (2 * k), shift_sample fft (2 * k + 1)).
Proof.
  intros Hf Hk.
  rewrite (cmplx_pairs_at n _ _ s0) by (by apply length_test3_shifted || lia).
  by rewrite !(lookup_shifted_lower _ n) by (done || lia).
Qed.

(** The cases of a bin of the lower half. *)
Lemma shifted_bin_cases fft n k :
  0 ≤ TEST3_FREQSHIFT_BINS → length fft = (2 * n)%nat → (2 * k + 1 < n)%nat →
  cmplx_pairs (test3_shifted fft) !! k =
    if decide (Z.of_nat k < TEST3_FREQSHIFT_BINS) then Some (s0, s0)
    else if decide (Z.of_nat k = TEST3_FREQSHIFT_BINS)
    then (λ p, (s0, p.2)) <$> cmplx_pairs fft !! 0%nat
    else cmplx_pairs fft !! Z.to_nat (Z.of_nat k - TEST3_FREQSHIFT_BINS).
Proof.
  intros HK Hf Hk. rewrite (shifted_bin_lower _ n) by done.
  unfold shift_sample. repeat case_decide; try lia.
  - done.
  - rewrite (cmplx_pairs_at n _ _ s0) by (done || lia).
    by replace (Z.to_nat _) with 1%nat by lia.
  - rewrite (cmplx_pairs_at n _ _ s0) by (done || lia). do 4 f_equal; lia.
Qed.

(** A bin of the upper half is a bin of the lower half with its parts
    exchanged. *)
Lemma shifted_bin_upper fft n k :
  length fft = (2 * n)%nat → (2 * k + 1 < n)%nat →
  cmplx_pairs (test3_shifted fft) !! (n - 1 - k)%nat =
    (λ p, (p.2, p.1)) <$> cmplx_pairs (test3_shifted fft) !! k.
Proof.
  intros Hf Hk. rewrite (shifted_bin_lower _ n k) by done.
  rewrite (cmplx_pairs_at n _ _ s0) by (by apply length_test3_shifted || lia).
  replace (2 * (n - 1 - k))%nat with (2 * n - 1 - (2 * k + 1))%nat by lia.
  replace (2 * n - 1 - (2 * k + 1) + 1)%nat with (2 * n - 1 - 2 * k)%nat by lia.
  by rewrite !(lookup_shifted_upper _ n) by (done || lia).
Qed.

(** C9: the loop of lines 317-323 moves the spectrum up by
    [TEST3_FREQSHIFT_BINS] bins and zeroes one float too many: below the
    middle of the array, the bins under the shift are zero, the bins above
    it are the bins of the spectrum [TEST3_FREQSHIFT_BINS] places lower, and
    the bin at the shift has the imaginary part of bin 0 but a zero real
    part. *)
Theorem test3_shift_bins fft n k :
  0 ≤ TEST3_FREQSHIFT_BINS → length fft = (2 * n)%nat → (2 * k + 1 < n)%nat →
  cmplx_pairs (test3_shifted fft) !! k =
    if decide (Z.of_nat k < TEST3_FREQSHIFT_BINS) then Some (s0, s0)
    else if decide (Z.of_nat k = TEST3_FREQSHIFT_BINS)
    then (λ p, (s0, p.2)) <$> cmplx_pairs fft !! 0%nat
    else cmplx_pairs fft !! Z.to_nat (Z.of_nat k - TEST3_FREQSHIFT_BINS).
Proof. apply shifted_bin_cases. Qed.

(** C31: the loop of lines 326-328 copies the floats of the lower half in
    reverse order, so that complex element [n - 1 - k] of the array is
    element [k] with its real and imaginary parts exchanged.  (A spectrum
    with Hermitian symmetry has the conjugate of element [k] at element
    [n - k].) *)
Theorem test3_mirror_swaps fft n k :
  length fft = (2 * n)%nat → (2 * k + 1 < n)%nat →
  cmplx_pairs (test3_shifted fft) !! (n - 1 - k)%nat =
    (λ p, (p.2, p.1)) <$> cmplx_pairs (test3_shifted fft) !! k.
Proof. apply shifted_bin_upper. Qed.

End Bins.

(** * Runs *)

Section Runs.
Context {A : Type} {SA : Scalar A} {SL : ScalarLaws A} {FA : Cfft A}
  {FL : CfftLaws A} {QA : Sqrt A} {CFG : Config} {SC : ShiftConfig}
  {SO : ShiftConfigOk}.
Implicit Types (st : test3_state A) (i : test3_in A).

Lemma shift_blocksize : (16 ≤ AUDIO_BLOCKSIZE)%nat.
Proof.
  pose proof fft_len_ok as Hn. unfold cfft_lengths in Hn.
  repeat (apply elem_of_cons in Hn as [->|Hn]; [lia|]). by apply elem_of_nil in Hn.
Qed.

(** One call of [example_test3] on a block: the left output is the
    microphone block; the right output is the real part of the inverse
    transform of the shifted and mirrored transform of the filtered, windowed
    block; the filter state advances; a report is printed, and the next one
    scheduled, exactly when the print delay has passed. *)
Theorem test3_block_output st i :
  test3_inv st → is_block (t3_mic i) →
  example_test3 st i = Some
    (if systime_get_delay_passed (t3_now i) (print_delay st) then
       (test3_next st (t3_mic i)
          (systime_get_delay (t3_now_set i) (DEBUG_PRINT_PERIOD_ms * 1000)),
        BlockOut (t3_mic i) (test3_output st (t3_mic i))
          [test3_report (test3_spectrum st (t3_mic i))])
     else
       (test3_next st (t3_mic i) (print_delay st),
        BlockOut (t3_mic i) (test3_output st (t3_mic i)) [])).
Proof. apply example_test3_eq. Qed.

(** C12: along every run of [example_test3] from the initialised state, on
    blocks of the block size, every call is defined (no loop leaves its
    arrays), the arrays keep their sizes, the left output is the microphone
    block, the right output has the block size, and at most one line is
    printed per call. *)
Theorem test3_run_safe w now (ins : list (test3_in A)) :
  is_block w → Forall (λ i, is_block (t3_mic i)) ins →
  ∃ st os, run example_test3 (example_test3_init w now) ins = Some (st, os) ∧
    test3_inv st ∧ length os = length ins ∧
    ∀ k i o, ins !! k = Some i → os !! k = Some o →
      out_left o = t3_mic i ∧ is_block (out_right o) ∧ (length (out_log o) ≤ 1)%nat.
Proof.
  intros Hw Hins.
  destruct (run_indexed example_test3 (λ _, test3_inv)
    (λ k o, ∀ i, ins !! k = Some i →
       out_left o = t3_mic i ∧ is_block (out_right o) ∧ (length (out_log o) ≤ 1)%nat) ins)
    with (s := example_test3_init w now) as (st & os & Hrun & Hst & Hlen & Hout).
  - intros k s i Hk Hs. pose proof (Forall_lookup_1 _ _ _ _ Hins Hk) as Hi.
    rewrite example_test3_eq by done.
    destruct (systime_get_delay_passed _ _); eexists _, _;
      (split_and!; [done|by apply test3_next_inv|]);
      intros i' ?; simplify_eq; simpl;
      (split_and!; [done|by apply length_test3_output|lia]).
  - by apply test3_init_inv.
  - exists st, os. split_and!; try done. intros k i o Hi Ho. by apply (Hout k).
Qed.

(** C38: the report.  When the print delay has passed, the call prints one
    line: the frequency of the first largest of the [AUDIO_BLOCKSIZE]
    squared magnitudes of the spectrum (all bins are scanned, the first and
    the last included) and the square root of that magnitude, and the next
    report is due [DEBUG_PRINT_PERIOD_ms] later; otherwise nothing is printed
    and the deadline stays. *)
Theorem test3_peak_report st i :
  test3_inv st → is_block (t3_mic i) →
  ∃ st' o, example_test3 st i = Some (st', o) ∧
    if systime_get_delay_passed (t3_now i) (print_delay st) then
      print_delay st' = t3_now_set i + DEBUG_PRINT_PERIOD_ms * 1000 ∧
      ∃ c1 m c2,
        arm_cmplx_mag_squared_f32 (test3_spectrum st (t3_mic i)) AUDIO_BLOCKSIZE
          = c1 ++ m :: c2 ∧
        Forall (λ y, y <ₛ m) c1 ∧ Forall (λ y, y ≤ₛ m) c2 ∧
        out_log o =
          [test3_peak
             (s1 *ₛ sofZ (Z.of_nat (length c1)) *ₛ sofZ AUDIO_SAMPLE_RATE
                /ₛ sofZ (Z.of_nat AUDIO_BLOCKSIZE)) (sqrt m)]
    else print_delay st' = print_delay st ∧ out_log o = [].
Proof.
  intros Hst Hmic. rewrite example_test3_eq by done.
  destruct (systime_get_delay_passed _ _); eexists _, _; (split; [done|]); [|done].
  split; [done|]. pose proof shift_blocksize.
  pose proof (length_arm_cmplx_mag_squared _ _ (length_test3_spectrum st (t3_mic i) Hst)) as Hm.
  destruct (arm_max_first (arm_cmplx_mag_squared_f32 (test3_spectrum st (t3_mic i))
    AUDIO_BLOCKSIZE) AUDIO_BLOCKSIZE) as (c1 & m & c2 & Hc & Hmax & H1 & H2); [lia|].
  rewrite take_ge in Hc by lia. exists c1, m, c2. split_and!; try done.
  simpl. unfold test3_report. by rewrite Hmax.
Qed.

End Runs.

(** * The coefficient table *)


(** * Examples *)

(** A stand-in for the transform, for the examples: it keeps the length. *)
Definition demo_cfft : Cfft Qc := λ _ v _, reverse v.

Lemma demo_cfft_laws : @CfftLaws Qc demo_cfft.
Proof. intros n v f Hv. unfold arm_cfft_f32, demo_cfft. by rewrite length_reverse. Qed.

Definition demo_sqrt : Sqrt Qc := λ x, x.

Lemma shift_config_ok : @ShiftConfigOk shift_config shipped_shift.
Proof. split; simpl; [|lia..]. by apply (list_elem_of_lookup_2 _ 1%nat). Qed.

Definition demo_spectrum : list Qc := Qc_of_Z <$> seqZ 1 64.

Definition demo_window : list Qc := replicate 32 (qc 1 2).

Definition demo_mic (t : Z) : test3_in Qc := Test3In (Qc_of_Z <$> seqZ (-16) 32) t t.

Section Demo.
#[local] Existing Instances shift_config shipped_shift shift_config_ok demo_cfft
  demo_cfft_laws demo_sqrt.

Lemma test3_shift_bins_witness :
  cmplx_pairs (test3_shifted demo_spectrum) !! 5%nat =
    if decide (5 < TEST3_FREQSHIFT_BINS) then Some (s0, s0)
    else if decide (5 = TEST3_FREQSHIFT_BINS)
    then (λ p, (s0, p.2)) <$> cmplx_pairs demo_spectrum !! 0%nat
    else cmplx_pairs demo_spectrum !! Z.to_nat (5 - TEST3_FREQSHIFT_BINS).
Proof. apply (test3_shift_bins demo_spectrum 32 5); [done|done|lia]. Defined.

Lemma test3_pack_real_roundtrip_witness :
  ∃ packed,
    test3_pack [qc 1 2; qc (-3) 4] (replicate 4 (qc 7 1)) = Some packed ∧
    test3_real packed (replicate 2 (qc 9 1)) = Some [qc 1 2; qc (-3) 4].
Proof. by apply (test3_pack_real_roundtrip [qc 1 2; qc (-3) 4]). Defined.

Lemma test3_mirror_swaps_witness :
  cmplx_pairs (test3_shifted demo_spectrum) !! 25%nat =
    (λ p, (p.2, p.1)) <$> cmplx_pairs (test3_shifted demo_spectrum) !! 6%nat.
Proof. apply (test3_mirror_swaps demo_spectrum 32 6); [done|lia]. Defined.

Lemma test3_run_safe_witness :
  ∃ st os,
    run example_test3 (example_test3_init demo_window 0) [demo_mic 0; demo_mic 2000]
      = Some (st, os) ∧
    test3_inv st ∧ length os = 2%nat ∧
    ∀ k i o, [demo_mic 0; demo_mic 2000] !! k = Some i → os !! k = Some o →
      out_left o = t3_mic i ∧ is_block (out_right o) ∧ (length (out_log o) ≤ 1)%nat.
Proof.
  apply (test3_run_safe demo_window 0 [demo_mic 0; demo_mic 2000]);
    [reflexivity|by repeat constructor].
Defined.

Lemma test3_block_output_witness :
  let st := example_test3_init demo_window 0 in
  example_test3 st (demo_mic 0) = Some
    (test3_next st (t3_mic (demo_mic 0)) 1000000,
     BlockOut (t3_mic (demo_mic 0)) (test3_output st (t3_mic (demo_mic 0)))
       [test3_report (test3_spectrum st (t3_mic (demo_mic 0)))]).
Proof.
  exact (test3_block_output (example_test3_init demo_window 0) (demo_mic 0)
           (test3_init_inv demo_window 0 eq_refl) eq_refl).
Defined.

Lemma test3_peak_report_witness :
  let st := example_test3_init demo_window 0 in
  ∃ st' o, example_test3 st (demo_mic 0) = Some (st', o) ∧
    print_delay st' = 0 + 1000 * 1000 ∧
    ∃ c1 m c2,
      arm_cmplx_mag_squared_f32 (test3_spectrum st (t3_mic (demo_mic 0))) 32
        = c1 ++ m :: c2 ∧
      Forall (λ y, y <ₛ m) c1 ∧ Forall (λ y, y ≤ₛ m) c2 ∧
      out_log o =
        [test3_peak (s1 *ₛ sofZ (Z.of_nat (length c1)) *ₛ sofZ 16000 /ₛ sofZ 32) (sqrt m)].
Proof.
  exact (test3_peak_report (example_test3_init demo_window 0) (demo_mic 0)
           (test3_init_inv demo_window 0 eq_refl) eq_refl).
Defined.

End Demo.
