(* ===== verification/ShiftPeak.v ===== *)
(** * ShiftPeak: the shift moves the peak of the spectrum

    The report of [example_test3] names the bin with the largest squared
    magnitude.  This file applies the same analysis to the array that the
    loops of lines 317-328 hand to the inverse transform: when the spectrum
    has a single strict peak at bin [p], low enough for the shift to keep it
    in the lower half, the shifted array has its peak at bin
    [p + TEST3_FREQSHIFT_BINS], with the same magnitude.  The frequency a
    report would name moves up by [TEST3_FREQSHIFT_BINS] bins. *)

From Stdlib Require Import Field Qcanon.
From S2P Require Import Prelude Scalar Argmax Numerics Board Transforms FreqShift.

Section Peak.
Context {A : Type} {SA : Scalar A} {SL : ScalarLaws A} {FA : Cfft A} {QA : Sqrt A}
  {CFG : Config} {SC : ShiftConfig}.
Add Field shift_peak_field : s_field.
Implicit Types (fft : list A) (k p h : nat) (m y : A) (q : A * A).

(** The squared magnitudes the report scans. *)
Definition bin_mags fft : list A := arm_cmplx_mag_squared_f32 fft AUDIO_BLOCKSIZE.

(** The report in terms of the pair [arm_max_f32] returns. *)
Definition report_of (r : A * nat) : test3_msg A :=
  test3_peak
    (s1 *ₛ sofZ (Z.of_nat r.2) *ₛ sofZ AUDIO_SAMPLE_RATE /ₛ sofZ (Z.of_nat AUDIO_BLOCKSIZE))
    (sqrt r.1).

Lemma test3_report_eq fft :
  test3_report fft = report_of (arm_max_f32 (bin_mags fft) AUDIO_BLOCKSIZE).
Proof. unfold test3_report, report_of, bin_mags. by destruct (arm_max_f32 _ _). Qed.

Lemma length_bin_mags fft :
  length fft = (2 * AUDIO_BLOCKSIZE)%nat → length (bin_mags fft) = AUDIO_BLOCKSIZE.
Proof. apply length_arm_cmplx_mag_squared. Qed.

Lemma lookup_bin_mags fft k :
  (k < AUDIO_BLOCKSIZE)%nat →
  bin_mags fft !! k = cmplx_mag_squared <$> cmplx_pairs fft !! k.
Proof.
  intros Hk. unfold bin_mags, arm_cmplx_mag_squared_f32.
  by rewrite lookup_take_lt, list_lookup_fmap.
Qed.

Lemma cmplx_mag_nonneg q : s0 ≤ₛ cmplx_mag_squared q.
Proof. apply snonneg_add; apply s_square_nonneg. Qed.

Lemma cmplx_mag_imag q : cmplx_mag_squared (s0, q.2) ≤ₛ cmplx_mag_squared q.
Proof.
  pose proof (s_square_nonneg q.1). unfold cmplx_mag_squared. simpl.
  s_by (q.1 *ₛ q.1).
Qed.

Lemma cmplx_mag_swap q : cmplx_mag_squared (q.2, q.1) = cmplx_mag_squared q.
Proof. unfold cmplx_mag_squared. simpl. ring. Qed.

Lemma cmplx_mag_zero : cmplx_mag_squared (s0, s0) = (s0 : A).
Proof. unfold cmplx_mag_squared. simpl. ring. Qed.

Section Shifted.
Context (fft : list A) (h : nat).
Context (Hf : length fft = (2 * AUDIO_BLOCKSIZE)%nat) (Hh : AUDIO_BLOCKSIZE = (2 * h)%nat).
Context (HK : 0 ≤ TEST3_FREQSHIFT_BINS).

(** The magnitudes of the lower half of the shifted array. *)
Lemma shifted_mag_lower k :
  (k < h)%nat →
  bin_mags (test3_shifted fft) !! k =
    if decide (Z.of_nat k < TEST3_FREQSHIFT_BINS) then Some s0
    else if decide (Z.of_nat k = TEST3_FREQSHIFT_BINS)
    then (λ q, cmplx_mag_squared (s0, q.2)) <$> cmplx_pairs fft !! 0%nat
    else bin_mags fft !! Z.to_nat (Z.of_nat k - TEST3_FREQSHIFT_BINS).
Proof.
  intros Hk. rewrite lookup_bin_mags, (shifted_bin_cases _ AUDIO_BLOCKSIZE) by (done || lia).
  repeat case_decide.
  - simpl. by rewrite cmplx_mag_zero.
  - by destruct (cmplx_pairs fft !! 0%nat).
  - by rewrite lookup_bin_mags by lia.
Qed.

(** The upper half has the magnitudes of the lower half, in reverse. *)
Lemma shifted_mag_upper k :
  (k < h)%nat →
  bin_mags (test3_shifted fft) !! (AUDIO_BLOCKSIZE - 1 - k)%nat =
    bin_mags (test3_shifted fft) !! k.
Proof.
  intros Hk. rewrite !lookup_bin_mags, (shifted_bin_upper _ AUDIO_BLOCKSIZE) by (done || lia).
  destruct (cmplx_pairs (test3_shifted fft) !! k) as [q|]; [|done]. simpl.
  by rewrite cmplx_mag_swap.
Qed.

Context (p : nat) (m : A).
Context (Hp : (0 < p)%nat) (Hband : (p + Z.to_nat TEST3_FREQSHIFT_BINS < h)%nat).
Context (Hm : bin_mags fft !! p = Some m).
Context (Hpeak : ∀ k y, (k + Z.to_nat TEST3_FREQSHIFT_BINS < h)%nat → k ≠ p →
                   bin_mags fft !! k = Some y → y <ₛ m).

(** The magnitude at the bin of the constant part, and what is left of it
    after the shift, are below the peak. *)
Lemma peak_above_dc :
  ∃ q, cmplx_pairs fft !! 0%nat = Some q ∧ cmplx_mag_squared q <ₛ m ∧
       cmplx_mag_squared (s0, q.2) <ₛ m ∧ s0 <ₛ m.
Proof.
  destruct (lookup_lt_is_Some_2 (bin_mags fft) 0) as [y Hy];
    [rewrite length_bin_mags by done; lia|].
  pose proof (Hpeak 0%nat y ltac:(lia) ltac:(lia) Hy) as Hlt.
  rewrite lookup_bin_mags in Hy by lia.
  destruct (cmplx_pairs fft !! 0%nat) as [q|]; [|done]. simpl in Hy. simplify_eq.
  exists q. split_and!; [done..| |].
  - eapply sle_lt_trans; [apply cmplx_mag_imag|done].
  - eapply sle_lt_trans; [apply cmplx_mag_nonneg|done].
Qed.

(** Every magnitude of the lower half is at most the peak, and those of
    the bins before [p + TEST3_FREQSHIFT_BINS] are below it. *)
Lemma shifted_mag_bound k y :
  (k < h)%nat → bin_mags (test3_shifted fft) !! k = Some y →
  y ≤ₛ m ∧ ((k < p + Z.to_nat TEST3_FREQSHIFT_BINS)%nat → y <ₛ m).
Proof.
  intros Hk. rewrite shifted_mag_lower by done.
  destruct peak_above_dc as (q & Hq & _ & Hq2 & H0).
  repeat case_decide; intros Hy.
  - simplify_eq. split; [by apply slt_le|done].
  - rewrite Hq in Hy. simpl in Hy. simplify_eq. split; [by apply slt_le|done].
  - destruct (decide (Z.to_nat (Z.of_nat k - TEST3_FREQSHIFT_BINS) = p)) as [E|E].
    + rewrite E, Hm in Hy. simplify_eq. split; [apply sle_refl|lia].
    + assert (y <ₛ m) by (eapply Hpeak; [| |done]; lia). split; [by apply slt_le|done].
Qed.

Lemma shifted_peak :
  arm_max_f32 (bin_mags (test3_shifted fft)) AUDIO_BLOCKSIZE =
    (m, (p + Z.to_nat TEST3_FREQSHIFT_BINS)%nat).
Proof.
  pose proof (length_bin_mags (test3_shifted fft)
                (length_test3_shifted _ _ Hf)) as Hlen.
  apply arm_max_at; [lia| |..].
  - rewrite shifted_mag_lower by lia. rewrite !decide_False by lia.
    by replace (Z.to_nat _) with p by lia.
  - intros k y Hk Hy. by apply (shifted_mag_bound k y); [lia|..].
  - intros k y Hk Hy. destruct (decide (k < h)%nat) as [Hlo|Hhi].
    + by apply (shifted_mag_bound k y).
    + replace k with (AUDIO_BLOCKSIZE - 1 - (AUDIO_BLOCKSIZE - 1 - k))%nat in Hy by lia.
      rewrite shifted_mag_upper in Hy by lia.
      by apply (shifted_mag_bound (AUDIO_BLOCKSIZE - 1 - k) y); [lia|].
Qed.

End Shifted.

(** C22: the shift moves the peak.  For a spectrum of [AUDIO_BLOCKSIZE]
    bins whose squared magnitude at bin [p > 0] is exceeded by no bin and
    is strictly above that of every other bin that the shift keeps in the
    lower half, with [p + TEST3_FREQSHIFT_BINS] below the middle, the report
    of the spectrum names bin [p] and the report of the shifted array names
    bin [p + TEST3_FREQSHIFT_BINS] with the same magnitude: the frequency
    moves up by [TEST3_FREQSHIFT_BINS * AUDIO_SAMPLE_RATE / AUDIO_BLOCKSIZE]. *)
Theorem test3_shift_moves_peak fft h p m :
  length fft = (2 * AUDIO_BLOCKSIZE)%nat → AUDIO_BLOCKSIZE = (2 * h)%nat →
  0 ≤ TEST3_FREQSHIFT_BINS → (0 < p)%nat → Z.of_nat p + TEST3_FREQSHIFT_BINS < Z.of_nat h →
  bin_mags fft !! p = Some m → Forall (λ y, y ≤ₛ m) (bin_mags fft) →
  (∀ k y, Z.of_nat k + TEST3_FREQSHIFT_BINS < Z.of_nat h → k ≠ p →
     bin_mags fft !! k = Some y → y <ₛ m) →
  test3_report fft =
    test3_peak (s1 *ₛ sofZ (Z.of_nat p) *ₛ sofZ AUDIO_SAMPLE_RATE
                  /ₛ sofZ (Z.of_nat AUDIO_BLOCKSIZE)) (sqrt m) ∧
  test3_report (test3_shifted fft) =
    test3_peak (s1 *ₛ sofZ (Z.of_nat p + TEST3_FREQSHIFT_BINS) *ₛ sofZ AUDIO_SAMPLE_RATE
                  /ₛ sofZ (Z.of_nat AUDIO_BLOCKSIZE)) (sqrt m).
Proof.
  intros Hf Hh HK Hp Hband Hm Hall Hpeak. rewrite !test3_report_eq. split.
  - rewrite (arm_max_at _ _ p m); [done|by rewrite length_bin_mags by done; lia|done| |].
    + intros k y Hk Hy. eapply Hpeak; [| |done]; lia.
    + intros k y _ Hy. by apply (Forall_lookup_1 _ _ _ _ Hall Hy).
  - assert (∀ k y, (k + Z.to_nat TEST3_FREQSHIFT_BINS < h)%nat → k ≠ p →
              bin_mags fft !! k = Some y → y <ₛ m) as Hpeak'
      by (intros k y ?; apply Hpeak; lia).
    rewrite (shifted_peak fft h Hf Hh HK p m Hp ltac:(lia) Hm Hpeak').
    unfold report_of. cbn [fst snd]. by rewrite Nat2Z.inj_add, Z2Nat.id.
Qed.

End Peak.

(** * Example *)

(** A spectrum of 32 bins with a constant part and a tone at bin 3. *)
Definition tone_spectrum : list Qc :=
  <[6%nat := qc 1 1]> (<[1%nat := qc 1 2]> (replicate 64 (qc 0 1))).

Section Demo.
#[local] Existing Instances shift_config shipped_shift demo_cfft demo_sqrt.

Lemma test3_shift_moves_peak_witness :
  test3_report tone_spectrum =
    test3_peak (s1 *ₛ sofZ (Z.of_nat 3) *ₛ sofZ AUDIO_SAMPLE_RATE
                  /ₛ sofZ (Z.of_nat AUDIO_BLOCKSIZE)) (sqrt (qc 1 1)) ∧
  test3_report (test3_shifted tone_spectrum) =
    test3_peak (s1 *ₛ sofZ (Z.of_nat 3 + TEST3_FREQSHIFT_BINS) *ₛ sofZ AUDIO_SAMPLE_RATE
                  /ₛ sofZ (Z.of_nat AUDIO_BLOCKSIZE)) (sqrt (qc 1 1)).
Proof.
  apply (test3_shift_moves_peak tone_spectrum 16 3 (qc 1 1));
    [done|done|done|lia|simpl; lia|by vm_compute|by repeat constructor|].
  intros k y Hk Hne Hy. simpl in Hk.
  do 11 (destruct k as [|k]; [by (vm_compute in Hy; simplify_eq)|]). lia.
Defined.

End Demo.
