(* ===== verification/FastConv.v ===== *)
(** * FastConv: the overlap-add filter of [SYSMODE_FFT]

    [example_fft] (lines 914-934 of [example.c]) filters the waveform with
    the FIR filter [lp_filter] by fast convolution: the block, padded with
    zeros to [FFT_SIZE] floats, is transformed, multiplied by the transform
    [H] of the padded filter and transformed back; the loop of lines
    926-929 adds the tail saved by the previous call to the head of the
    result and saves the new tail.  The microphone block goes to the left
    output and the filtered waveform to the right output.  The transform is
    a parameter ([Rfft] of [Transforms]): the theorems of this file are
    about what the handler does to the arrays around it.  That the
    overlap-add loop computes the filter of the stream is in
    [OverlapAdd]. *)

From Stdlib Require Import Field Qcanon.
From S2P Require Import Prelude Scalar Numerics Board Transforms.

(** * Constants *)

(** [FILTER_SIZE] (line 825). *)
Definition FILTER_SIZE : nat := 64.

(** [FFT_FLAG] and [IFFT_FLAG] (lines 827-828), as the [ifftFlag] argument. *)
Definition FFT_FLAG : bool := false.
Definition IFFT_FLAG : bool := true.

Section Fft.
Context {A : Type} {SA : Scalar A} {RA : Rfft A} {CFG : Config}.

(** [FFT_SIZE] (line 826). *)
Definition FFT_SIZE : nat := AUDIO_BLOCKSIZE * 2.

(** [lp_filter] (lines 830-895). *)
Definition lp_filter : list A := [
  sdec (-2496956319982458) 18; sdec 1061123057910895 18; sdec 17995759818398 16;
  sdec 2677675432046559 18; sdec 3246366234977765 18; sdec 309052142705017 17;
  sdec 1954953083021346 18; sdec (-1303892962678101) 19; sdec (-2795326496320816) 18;
  sdec (-5356144072505601) 18; sdec (-697219307960438) 17; sdec (-6867088217447664) 18;
  sdec (-4610028643185672) 18; sdec (-3312566693466183) 19; sdec 5175765824001333 18;
  sdec 105475346077661 16; sdec 1411890548432881 17; sdec 1436065007374038 17;
  sdec 1032985773994797 17; sdec 2132543581602375 18; sdec (-8919519113938091) 18;
  sdec (-2035820813689276) 17; sdec (-2895083648554942) 17; sdec (-3135674961111528) 17;
  sdec (-2489424533023874) 17; sdec (-8266237880079758) 18; sdec 1794823774717696 17;
  sdec 511825465495543 16; sdec 8719283811339594 17; sdec 1207736510603734 16;
  sdec 1467272709948181 16; sdec 160867743915087 15; sdec 160867743915087 15;
  sdec 1467272709948181 16; sdec 1207736510603734 16; sdec 8719283811339594 17;
  sdec 511825465495543 16; sdec 1794823774717696 17; sdec (-8266237880079758) 18;
  sdec (-2489424533023874) 17; sdec (-3135674961111528) 17; sdec (-2895083648554942) 17;
  sdec (-2035820813689276) 17; sdec (-8919519113938091) 18; sdec 2132543581602375 18;
  sdec 1032985773994797 17; sdec 1436065007374038 17; sdec 1411890548432881 17;
  sdec 105475346077661 16; sdec 5175765824001333 18; sdec (-3312566693466183) 19;
  sdec (-4610028643185672) 18; sdec (-6867088217447664) 18; sdec (-697219307960438) 17;
  sdec (-5356144072505601) 18; sdec (-2795326496320816) 18; sdec (-1303892962678101) 19;
  sdec 1954953083021346 18; sdec 309052142705017 17; sdec 3246366234977765 18;
  sdec 2677675432046559 18; sdec 17995759818398 16; sdec 1061123057910895 18;
  sdec (-2496956319982458) 18 ].

(** The globals of lines 897-903 that the handlers use ([H], [X], [Y],
    [buffer], [saved]); [buffer2] and [y] are never accessed. *)
Record fft_state := FftState {
  fft_H : list A;
  fft_X : list A;
  fft_Y : list A;
  fft_buffer : list A;
  fft_saved : list A;
}.

(** [example_fft_init] (lines 905-912).  The copy of line 909 writes
    [FILTER_SIZE] floats into [buffer]; [arm_rfft_fast_f32] leaves its
    scratch data there, which line 911 clears. *)
Definition example_fft_init : option fft_state :=
  let saved := arm_fill_f32 s0 FILTER_SIZE in
  let buffer := arm_fill_f32 s0 FFT_SIZE in
  guard (FILTER_SIZE ≤ FFT_SIZE)%nat;;
  let buffer := arm_copy_f32 lp_filter FILTER_SIZE ++ drop FILTER_SIZE buffer in
  let H := arm_rfft_fast_f32 FFT_SIZE buffer FFT_FLAG in
  let buffer := arm_fill_f32 s0 FFT_SIZE in
  Some (FftState H (arm_fill_f32 s0 FFT_SIZE) (arm_fill_f32 s0 FFT_SIZE) buffer saved).

(** The body of the loop of lines 926-929 on the pair [(buffer, saved)]. *)
Definition overlap_body (bs : list A * list A) (i : nat) : option (list A * list A) :=
  b ← load bs.1 (Z.of_nat i);
  s ← load bs.2 (Z.of_nat i);
  buffer ← store bs.1 (Z.of_nat i) (b +ₛ s);
  t ← load buffer (Z.of_nat AUDIO_BLOCKSIZE + Z.of_nat i);
  saved ← store bs.2 (Z.of_nat i) t;
  Some (buffer, saved).

(** The loop of lines 926-929. *)
Definition overlap_add (buffer saved : list A) : option (list A * list A) :=
  for_each overlap_body (seq 0 FILTER_SIZE) (buffer, saved).

(** The input of the first transform (lines 920-921): the waveform block
    followed by zeros. *)
Definition fft_input (buffer wave : list A) : list A :=
  let buffer := take AUDIO_BLOCKSIZE buffer ++ arm_fill_f32 s0 (FFT_SIZE - AUDIO_BLOCKSIZE) in
  wave ++ drop AUDIO_BLOCKSIZE buffer.

(** The product of the two spectra (lines 922-923). *)
Definition fft_product (H input : list A) : list A :=
  arm_cmplx_mult_cmplx_f32 (arm_rfft_fast_f32 FFT_SIZE input FFT_FLAG) H
    (FFT_SIZE - AUDIO_BLOCKSIZE).

(** What one call reads: the microphone and the waveform block. *)
Record fft_in := FftIn {
  fft_mic : list A;
  fft_wave : list A;
}.

(** [example_fft] (lines 914-934). *)
Definition example_fft (st : fft_state) (i : fft_in) :
    option (fft_state * block_out A Empty_set) :=
  let micdata := fft_mic i in
  let buffer := fft_input (fft_buffer st) (fft_wave i) in
  let X := arm_rfft_fast_f32 FFT_SIZE buffer FFT_FLAG in
  let Y := fft_product (fft_H st) buffer in
  let buffer := arm_rfft_fast_f32 FFT_SIZE Y IFFT_FLAG in
  let Y := rfft_scratch FFT_SIZE Y IFFT_FLAG in
  '(buffer, saved) ← overlap_add buffer (fft_saved st);
  Some (FftState (fft_H st) X Y buffer saved,
        blocks_sinks_rightout (take AUDIO_BLOCKSIZE buffer)
          (blocks_sinks_leftout micdata silent_out)).

End Fft.

Arguments fft_state : clear implicits.
Arguments fft_in : clear implicits.

(** * The overlap-add loop *)

Section Overlap.
Context {A : Type} {SA : Scalar A} {CFG : Config}.
Implicit Types (z saved : list A) (j k : nat).

(** The arrays after [j] iterations of the loop on [(z, saved)]. *)
Definition overlap_after z saved j : list A * list A :=
  (zip_with sadd (take j z) (take j saved) ++ drop j z,
   take j (drop AUDIO_BLOCKSIZE z) ++ drop j saved).

Lemma overlap_body_step z saved j :
  (j < AUDIO_BLOCKSIZE)%nat → (j < length saved)%nat →
  (AUDIO_BLOCKSIZE + j < length z)%nat →
  overlap_body (overlap_after z saved j) j = Some (overlap_after z saved (S j)).
Proof.
  intros Hj Hs Hz.
  destruct (lookup_lt_is_Some_2 z j) as [zj Hzj]; [lia|].
  destruct (lookup_lt_is_Some_2 saved j) as [sj Hsj]; [done|].
  destruct (lookup_lt_is_Some_2 z (AUDIO_BLOCKSIZE + j)) as [t Ht]; [done|].
  assert (drop AUDIO_BLOCKSIZE z !! j = Some t) as Hd by (by rewrite lookup_drop).
  unfold overlap_body, overlap_after. cbn [fst snd].
  rewrite (drop_S _ _ _ Hzj), (drop_S _ _ _ Hsj).
  rewrite !load_at by len. cbn [mbind option_bind].
  rewrite store_at by len. cbn [mbind option_bind].
  rewrite <- Nat2Z.inj_add, (load_nat _ _ t). 2:{
    rewrite (cons_middle (zj +ₛ sj)), app_assoc, lookup_app_r by len.
    rewrite lookup_drop, <- Ht. f_equal. len. }
  cbn [mbind option_bind]. rewrite store_at by len. cbn [mbind option_bind].
  rewrite (take_S_r _ _ _ Hzj), (take_S_r _ _ _ Hsj), (take_S_r _ _ _ Hd).
  rewrite zip_with_app by len. by rewrite <- !app_assoc.
Qed.

(** The first [k] iterations of the loop. *)
Lemma overlap_loop z saved k :
  (k ≤ AUDIO_BLOCKSIZE)%nat → (k ≤ length saved)%nat →
  (AUDIO_BLOCKSIZE + k ≤ length z)%nat →
  for_each overlap_body (seq 0 k) (z, saved) = Some (overlap_after z saved k).
Proof.
  intros Hk Hs Hz.
  destruct (for_each_invariant overlap_body (λ j bs, bs = overlap_after z saved j)
    (seq 0 k)) with (s := (z, saved)) as (bs & -> & ->).
  - intros j bs i [-> Hj]%lookup_seq ->. simpl in Hj. eexists. split; [|done].
    apply overlap_body_step; lia.
  - unfold overlap_after. by rewrite !take_0, !drop_0.
  - by rewrite length_seq.
Qed.

(** The overlap-add stage of one call: from the tail saved by the previous
    call and the result [z] of the inverse transform to the new tail and the
    block sent to the right output (lines 925-933). *)
Definition ola_step (saved z : list A) : option (list A * list A) :=
  '(buffer, saved) ← overlap_add z saved;
  Some (saved, take AUDIO_BLOCKSIZE buffer).

Lemma overlap_add_eq z saved :
  (FILTER_SIZE ≤ AUDIO_BLOCKSIZE)%nat → length saved = FILTER_SIZE →
  length z = (AUDIO_BLOCKSIZE * 2)%nat →
  overlap_add z saved =
    Some (zip_with sadd (take FILTER_SIZE z) saved ++ drop FILTER_SIZE z,
          take FILTER_SIZE (drop AUDIO_BLOCKSIZE z)).
Proof.
  intros HM Hs Hz. unfold overlap_add. rewrite overlap_loop by lia.
  unfold overlap_after. by rewrite (take_ge saved), (drop_ge saved), app_nil_r by lia.
Qed.

Lemma ola_step_eq z saved :
  (FILTER_SIZE ≤ AUDIO_BLOCKSIZE)%nat → length saved = FILTER_SIZE →
  length z = (AUDIO_BLOCKSIZE * 2)%nat →
  ola_step saved z =
    Some (take FILTER_SIZE (drop AUDIO_BLOCKSIZE z),
          zip_with sadd (take FILTER_SIZE z) saved
            ++ take (AUDIO_BLOCKSIZE - FILTER_SIZE) (drop FILTER_SIZE z)).
Proof.
  intros HM Hs Hz. unfold ola_step. rewrite overlap_add_eq by done.
  cbn [mbind option_bind]. do 2 f_equal.
  rewrite take_app_ge by lens. f_equal. f_equal. lens.
Qed.

(** An iteration whose read of [buffer[AUDIO_BLOCKSIZE + i]] is outside the
    array is undefined. *)
Lemma overlap_body_out (bs : list A * list A) i :
  (length bs.1 ≤ AUDIO_BLOCKSIZE + i)%nat → overlap_body bs i = None.
Proof.
  intros Hb. unfold overlap_body.
  destruct (load bs.1 _); simpl; [|done]. destruct (load bs.2 _); simpl; [|done].
  destruct (store bs.1 _ _) as [b|] eqn:Hst; simpl; [|done].
  apply store_length in Hst. rewrite (proj2 (load_None _ _)); [done|].
  unfold in_bounds. lia.
Qed.

(** With a block shorter than the filter the loop leaves [buffer]. *)
Lemma overlap_add_small z saved :
  (AUDIO_BLOCKSIZE < FILTER_SIZE)%nat → length saved = FILTER_SIZE →
  length z = (AUDIO_BLOCKSIZE * 2)%nat →
  overlap_add z saved = None.
Proof.
  intros HM Hs Hz. unfold overlap_add.
  replace FILTER_SIZE with (AUDIO_BLOCKSIZE + S (FILTER_SIZE - S AUDIO_BLOCKSIZE))%nat by lia.
  rewrite seq_app, for_each_app, overlap_loop by lia. simpl.
  rewrite overlap_body_out; [done|]. unfold overlap_after. simpl. len.
Qed.

End Overlap.

(** * One call *)

Section FftStep.
Context {A : Type} {SA : Scalar A} {RA : Rfft A} {RL : RfftLaws A} {CFG : Config}.
Implicit Types (st : fft_state A) (i : fft_in A) (H wave z : list A).

(** The arrays of the mode have their declared sizes. *)
Record fft_inv st : Prop := {
  fft_H_len : length (fft_H st) = FFT_SIZE;
  fft_X_len : length (fft_X st) = FFT_SIZE;
  fft_Y_len : length (fft_Y st) = FFT_SIZE;
  fft_buffer_len : length (fft_buffer st) = FFT_SIZE;
  fft_saved_len : length (fft_saved st) = FILTER_SIZE;
}.

(** The padded block. *)
Definition fft_padded wave : list A := wave ++ arm_fill_f32 s0 AUDIO_BLOCKSIZE.

(** The result of the inverse transform for a block (lines 920-924). *)
Definition fft_block H wave : list A :=
  arm_rfft_fast_f32 FFT_SIZE (fft_product H (fft_padded wave)) IFFT_FLAG.

Lemma fft_input_eq buffer wave :
  length buffer = FFT_SIZE → is_block wave → fft_input buffer wave = fft_padded wave.
Proof.
  intros Hb Hw. unfold fft_input, fft_padded, FFT_SIZE in *.
  rewrite drop_app_length' by lens. f_equal. f_equal. lia.
Qed.

Lemma length_fft_padded wave : is_block wave → length (fft_padded wave) = FFT_SIZE.
Proof. intros Hw. unfold fft_padded, FFT_SIZE, is_block in *. lens. Qed.

Lemma length_fft_product H input :
  length H = FFT_SIZE → length input = FFT_SIZE →
  length (fft_product H input) = FFT_SIZE.
Proof.
  intros HH Hi. unfold fft_product, FFT_SIZE in *.
  replace (AUDIO_BLOCKSIZE * 2 - AUDIO_BLOCKSIZE)%nat with AUDIO_BLOCKSIZE by lia.
  rewrite (length_arm_cmplx_mult _ _ AUDIO_BLOCKSIZE); [lia| |lia].
  rewrite rfft_length; lia.
Qed.

Lemma length_fft_block H wave :
  length H = FFT_SIZE → is_block wave → length (fft_block H wave) = FFT_SIZE.
Proof.
  intros HH Hw. apply rfft_length, length_fft_product; [done|].
  by apply length_fft_padded.
Qed.

(** The state after a call with result [z] of the inverse transform. *)
Definition fft_next st wave : fft_state A :=
  let z := fft_block (fft_H st) wave in
  FftState (fft_H st)
    (arm_rfft_fast_f32 FFT_SIZE (fft_padded wave) FFT_FLAG)
    (rfft_scratch FFT_SIZE (fft_product (fft_H st) (fft_padded wave)) IFFT_FLAG)
    (zip_with sadd (take FILTER_SIZE z) (fft_saved st) ++ drop FILTER_SIZE z)
    (take FILTER_SIZE (drop AUDIO_BLOCKSIZE z)).

(** The block sent to the right output. *)
Definition fft_output st wave : list A :=
  let z := fft_block (fft_H st) wave in
  zip_with sadd (take FILTER_SIZE z) (fft_saved st)
    ++ take (AUDIO_BLOCKSIZE - FILTER_SIZE) (drop FILTER_SIZE z).

Lemma example_fft_eq st i :
  (FILTER_SIZE ≤ AUDIO_BLOCKSIZE)%nat → fft_inv st → is_block (fft_wave i) →
  example_fft st i = Some
    (fft_next st (fft_wave i), BlockOut (fft_mic i) (fft_output st (fft_wave i)) []).
Proof.
  intros HM [HH _ _ Hb Hs] Hw. unfold example_fft.
  rewrite fft_input_eq by done. fold (fft_block (fft_H st) (fft_wave i)).
  pose proof (length_fft_block _ _ HH Hw) as Hz.
  rewrite overlap_add_eq by done. cbn [mbind option_bind].
  unfold fft_next, fft_output, blocks_sinks_rightout. simpl. do 3 f_equal.
  unfold FFT_SIZE in *. rewrite take_app_ge by lens. f_equal. f_equal. lens.
Qed.

Lemma fft_next_inv st wave :
  (FILTER_SIZE ≤ AUDIO_BLOCKSIZE)%nat → fft_inv st → is_block wave →
  fft_inv (fft_next st wave).
Proof.
  intros HM [HH _ _ Hb Hs] Hw.
  pose proof (length_fft_block _ _ HH Hw) as Hz.
  pose proof (length_fft_padded _ Hw) as Hp.
  split; cbn [fft_next fft_H fft_X fft_Y fft_buffer fft_saved]; try done.
  - by apply rfft_length.
  - by apply rfft_scratch_length, length_fft_product.
  - unfold FFT_SIZE in *. lens.
  - unfold FFT_SIZE in *. lens.
Qed.

Lemma length_fft_output st wave :
  (FILTER_SIZE ≤ AUDIO_BLOCKSIZE)%nat → fft_inv st → is_block wave →
  is_block (fft_output st wave).
Proof.
  intros HM [HH _ _ Hb Hs] Hw.
  pose proof (length_fft_block _ _ HH Hw) as Hz.
  unfold is_block, fft_output, FFT_SIZE in *. lens.
Qed.

Lemma length_lp_filter : length (lp_filter (A:=A)) = FILTER_SIZE.
Proof. reflexivity. Qed.

Lemma fft_init_spec :
  (FILTER_SIZE ≤ AUDIO_BLOCKSIZE)%nat →
  ∃ st, example_fft_init = Some st ∧ fft_inv st ∧
    fft_H st = arm_rfft_fast_f32 FFT_SIZE
                 (lp_filter ++ arm_fill_f32 s0 (FFT_SIZE - FILTER_SIZE)) FFT_FLAG ∧
    fft_saved st = arm_fill_f32 s0 FILTER_SIZE.
Proof.
  intros HM. unfold example_fft_init.
  rewrite option_guard_True by (unfold FFT_SIZE; lia). cbn [mbind option_bind].
  unfold arm_copy_f32, arm_fill_f32.
  rewrite take_ge, drop_replicate by (by rewrite length_lp_filter).
  eexists. split; [done|].
  split_and!; [split|..]; cbn [fft_H fft_X fft_Y fft_buffer fft_saved];
    rewrite ?length_replicate; try done.
  apply rfft_length. rewrite length_app, length_lp_filter, length_replicate.
  unfold FFT_SIZE. lia.
Qed.

(** Every call from a state with arrays of the declared sizes is defined. *)
Lemma fft_run_defined st (ins : list (fft_in A)) :
  (FILTER_SIZE ≤ AUDIO_BLOCKSIZE)%nat → fft_inv st →
  Forall (λ i, is_block (fft_wave i)) ins →
  ∃ st' os, run example_fft st ins = Some (st', os) ∧ fft_inv st' ∧
    length os = length ins ∧
    ∀ k i o, ins !! k = Some i → os !! k = Some o →
      out_left o = fft_mic i ∧ is_block (out_right o) ∧ out_log o = [].
Proof.
  intros HM Hinv Hins.
  destruct (run_indexed example_fft (λ _, fft_inv)
    (λ k o, ∀ i, ins !! k = Some i →
       out_left o = fft_mic i ∧ is_block (out_right o) ∧ out_log o = []) ins)
    with (s := st) as (st' & os & Hrun & Hst & Hlen & Hout); [|done|].
  - intros k s i Hk Hs. pose proof (Forall_lookup_1 _ _ _ _ Hins Hk) as Hi.
    rewrite example_fft_eq by done. eexists _, _.
    split_and!; [done|by apply fft_next_inv|].
    intros i' ?; simplify_eq. split_and!; [done|by apply length_fft_output|done].
  - exists st', os. split_and!; try done. intros k i o Hi Ho. by apply (Hout k).
Qed.

End FftStep.

(** * States the handler cannot tell apart *)

(** What the build must guarantee for the mode to be memory safe. *)
Class FftConfigOk `{Config} : Prop :=
  filter_fits : (FILTER_SIZE ≤ AUDIO_BLOCKSIZE)%nat.

Section Scratch.
Context {A : Type} {SA : Scalar A} {RA : Rfft A} {RL : RfftLaws A}
  {CFG : Config} {FO : FftConfigOk}.

(** [example_fft] reads [H] and [saved] only: [X], [Y] and [buffer] are
    written before they are read.  Two states with arrays of the declared
    sizes are equivalent when they agree on [H] and [saved]. *)
Definition fft_equiv : relation (fft_state A) := λ st1 st2,
  fft_inv st1 ∧ fft_inv st2 ∧
  fft_H st1 = fft_H st2 ∧ fft_saved st1 = fft_saved st2.

(** Equal inputs with a waveform block of the block size. *)
Definition fft_in_ok : relation (fft_in A) := λ i1 i2,
  i1 = i2 ∧ is_block (fft_wave i1).

#[global] Instance fft_equiv_sym : Symmetric fft_equiv.
Proof. intros st1 st2 (? & ? & ? & ?). by split_and!. Qed.

#[global] Instance fft_equiv_trans : Transitive fft_equiv.
Proof.
  intros st1 st2 st3 (? & ? & ? & ?) (? & ? & ? & ?). split_and!; congruence.
Qed.

#[global] Instance example_fft_proper :
  Proper (fft_equiv ==> fft_in_ok ==> option_Forall2 (prod_relation fft_equiv (=)))
    example_fft.
Proof.
  intros st1 st2 (I1 & I2 & HH & Hs) i1 i2 [<- Hw]. pose proof filter_fits.
  rewrite !example_fft_eq by done. constructor. split; simpl.
  - split_and!; try (by apply fft_next_inv); simpl; by rewrite HH.
  - unfold fft_output. by rewrite HH, Hs.
Qed.

End Scratch.

(** * Theorems *)

Section FftTheorems.
Context {A : Type} {SA : Scalar A} {SL : ScalarLaws A} {RA : Rfft A}
  {RL : RfftLaws A} {CFG : Config}.
Add Field fastconv_theorems_field : s_field.
Implicit Types (st : fft_state A) (i : fft_in A) (h : list A).

(** C29: one call of [example_fft].  The left output is the microphone
    block.  With [z] the inverse transform of the product of the transform
    of the padded waveform block with [H], the right output is [z] with the
    saved tail added to its first [FILTER_SIZE] samples, cut to a block, and
    the new tail is [z] from [AUDIO_BLOCKSIZE] on: the overlap-add stage
    [ola_step] on [z].  [H] is not changed. *)
Theorem fft_block_output st i :
  (FILTER_SIZE ≤ AUDIO_BLOCKSIZE)%nat → fft_inv st → is_block (fft_wave i) →
  let z := fft_block (fft_H st) (fft_wave i) in
  ∃ st' o, example_fft st i = Some (st', o) ∧
    out_left o = fft_mic i ∧ out_log o = [] ∧ fft_H st' = fft_H st ∧
    ola_step (fft_saved st) z = Some (fft_saved st', out_right o) ∧
    out_right o = zip_with sadd (take FILTER_SIZE z) (fft_saved st)
                    ++ take (AUDIO_BLOCKSIZE - FILTER_SIZE) (drop FILTER_SIZE z) ∧
    fft_saved st' = take FILTER_SIZE (drop AUDIO_BLOCKSIZE z).
Proof.
  intros HM Hst Hw z. rewrite example_fft_eq by done. eexists _, _.
  split_and!; try done. destruct Hst as [HH _ _ _ Hs].
  apply ola_step_eq; [done..|]. by apply length_fft_block.
Qed.

(** Along every run of [example_fft] from the initialised state, on
    blocks of the block size, and with a block at least as long as the
    filter, every call is defined, the arrays keep their sizes, the left
    output is the microphone block, the right output has the block size and
    nothing is printed. *)
Theorem fft_run_safe (ins : list (fft_in A)) :
  (FILTER_SIZE ≤ AUDIO_BLOCKSIZE)%nat → Forall (λ i, is_block (fft_wave i)) ins →
  ∃ st0 st os, example_fft_init = Some st0 ∧
    run example_fft st0 ins = Some (st, os) ∧ fft_inv st ∧ length os = length ins ∧
    ∀ k i o, ins !! k = Some i → os !! k = Some o →
      out_left o = fft_mic i ∧ is_block (out_right o) ∧ out_log o = [].
Proof.
  intros HM Hins. destruct (fft_init_spec HM) as (st0 & Hinit & Hinv & _).
  destruct (fft_run_defined st0 ins HM Hinv Hins) as (st & os & ?).
  by exists st0, st, os.
Qed.

(** The scratch arrays are harmless.  [example_fft] keeps [X], [Y] and
    [buffer] between calls and [arm_rfft_fast_f32] leaves scratch data in
    its input, but the handler overwrites these arrays before it reads
    them: from two states with arrays of the declared sizes that agree on
    [H] and [saved], every run is defined, gives the same outputs and ends
    in states that again agree on [H] and [saved]. *)
Theorem fft_scratch_harmless st1 st2 (ins : list (fft_in A)) :
  (FILTER_SIZE ≤ AUDIO_BLOCKSIZE)%nat → fft_equiv st1 st2 →
  Forall (λ i, is_block (fft_wave i)) ins →
  ∃ st1' st2' os,
    run example_fft st1 ins = Some (st1', os) ∧
    run example_fft st2 ins = Some (st2', os) ∧ fft_equiv st1' st2'.
Proof.
  intros HM Heq Hins.
  destruct (fft_run_defined st1 ins HM) as (st1' & os & Hrun & _); [apply Heq|done|].
  pose proof (run_proper example_fft fft_equiv (λ i, is_block (fft_wave i))) as Hp.
  destruct (Hp (λ s1 s2 i Hs Hi, example_fft_proper (FO:=HM) s1 s2 Hs i i (conj eq_refl Hi))
              ins st1 st2 Heq Hins) as [[? ?] [st2' os2] [Hst Hos]|];
    simplify_eq; simpl in *. subst. by exists st1', st2', os2.
Qed.

(** C32: with a block shorter than the filter the mode is not memory safe:
    either the copy of line 909 does not fit into [buffer], or the loop of
    lines 926-929 reads [buffer[AUDIO_BLOCKSIZE + i]] past the end of
    [buffer] in the first call. *)
Theorem fft_small_block_undefined i :
  (AUDIO_BLOCKSIZE < FILTER_SIZE)%nat → is_block (fft_wave i) →
  example_fft_init ≫= (λ st, example_fft st i) = None.
Proof.
  intros HM Hw. unfold example_fft_init.
  destruct (decide (FILTER_SIZE ≤ FFT_SIZE)%nat) as [HF|HF];
    [rewrite option_guard_True by done|by rewrite option_guard_False].
  unfold FFT_SIZE in HF. cbn [mbind option_bind].
  unfold example_fft. cbv zeta. cbn [fft_H fft_buffer fft_saved].
  rewrite overlap_add_small; [done|done|apply length_arm_fill|].
  apply rfft_length, length_fft_product.
  - apply rfft_length. unfold arm_copy_f32, arm_fill_f32.
    rewrite take_ge, drop_replicate by (by rewrite length_lp_filter).
    rewrite length_app, length_lp_filter, length_replicate. unfold FFT_SIZE. lia.
  - rewrite fft_input_eq by (done || apply length_arm_fill). by apply length_fft_padded.
Qed.


End FftTheorems.

(** * The coefficient table *)

(** [lp_filter] has [FILTER_SIZE] coefficients, is symmetric (a
    linear-phase filter), and its gain at frequency zero, the sum of the
    coefficients, is 2514412907780820673/2500000000000000000, about
    1.0058. *)
Theorem lp_filter_shape :
  (∀ (A : Type) (SA : Scalar A),
     length (lp_filter (A:=A)) = FILTER_SIZE ∧
     reverse (lp_filter (A:=A)) = lp_filter) ∧
  vector_sum (lp_filter (A:=Qc)) = qc 2514412907780820673 2500000000000000000.
Proof.
  split; [by split|]. apply Qc_is_canon. vm_compute. reflexivity.
Qed.

(** * Examples *)

(** A block size the mode is safe with, and one it is not safe with. *)
Definition fft_config : Config := {| AUDIO_BLOCKSIZE := 64; AUDIO_SAMPLE_RATE := 16000 |}.
Definition short_config : Config := {| AUDIO_BLOCKSIZE := 32; AUDIO_SAMPLE_RATE := 16000 |}.

(** A stand-in for the transform, for the examples: it keeps the length. *)
Definition demo_rfft : Rfft Qc :=
  {| arm_rfft_fast_f32 := λ _ v _, v; rfft_scratch := λ _ v _, reverse v |}.

Lemma demo_rfft_laws : @RfftLaws Qc demo_rfft.
Proof. split; intros n v f Hv; simpl; by rewrite ?length_reverse. Qed.

Definition ramp (n : nat) : list Qc := Qc_of_Z <$> seqZ 0 (Z.of_nat n).

Definition demo_fft_state : fft_state Qc :=
  FftState (ramp 128) (replicate 128 s0) (replicate 128 s0) (replicate 128 s0)
    (replicate 64 (qc 1 4)).

Definition demo_fft_in (n : nat) : fft_in Qc := FftIn (ramp n) (ramp n).

Section Demo.
#[local] Existing Instances fft_config demo_rfft demo_rfft_laws.

Lemma fft_block_output_witness :
  let z := fft_block (fft_H demo_fft_state) (fft_wave (demo_fft_in 64)) in
  ∃ st' o, example_fft demo_fft_state (demo_fft_in 64) = Some (st', o) ∧
    out_left o = fft_mic (demo_fft_in 64) ∧ out_log o = [] ∧
    fft_H st' = fft_H demo_fft_state ∧
    ola_step (fft_saved demo_fft_state) z = Some (fft_saved st', out_right o) ∧
    out_right o = zip_with sadd (take FILTER_SIZE z) (fft_saved demo_fft_state)
                    ++ take (AUDIO_BLOCKSIZE - FILTER_SIZE) (drop FILTER_SIZE z) ∧
    fft_saved st' = take FILTER_SIZE (drop AUDIO_BLOCKSIZE z).
Proof.
  apply (fft_block_output demo_fft_state (demo_fft_in 64));
    [done|by split|reflexivity].
Defined.

Lemma fft_run_safe_witness :
  ∃ st0 st os, example_fft_init = Some st0 ∧
    run example_fft st0 [demo_fft_in 64; demo_fft_in 64] = Some (st, os) ∧
    fft_inv st ∧ length os = length [demo_fft_in 64; demo_fft_in 64] ∧
    ∀ k i o, [demo_fft_in 64; demo_fft_in 64] !! k = Some i → os !! k = Some o →
      out_left o = fft_mic i ∧ is_block (out_right o) ∧ out_log o = [].
Proof.
  apply (fft_run_safe [demo_fft_in 64; demo_fft_in 64]); [done|by repeat constructor].
Defined.

Lemma fft_scratch_harmless_witness :
  ∃ st1' st2' os,
    run example_fft demo_fft_state [demo_fft_in 64; demo_fft_in 64] = Some (st1', os) ∧
    run example_fft (FftState (ramp 128) (ramp 128) (ramp 128) (ramp 128)
                       (replicate 64 (qc 1 4)))
      [demo_fft_in 64; demo_fft_in 64] = Some (st2', os) ∧
    fft_equiv st1' st2'.
Proof.
  apply (fft_scratch_harmless demo_fft_state
           (FftState (ramp 128) (ramp 128) (ramp 128) (ramp 128) (replicate 64 (qc 1 4)))
           [demo_fft_in 64; demo_fft_in 64]);
    [done|by split_and!|by repeat constructor].
Defined.

Lemma fft_small_block_undefined_witness :
  example_fft_init (CFG:=short_config)
    ≫= (λ st, example_fft (CFG:=short_config) st (demo_fft_in 32)) = None.
Proof.
  apply (fft_small_block_undefined (CFG:=short_config) (demo_fft_in 32));
    [unfold FILTER_SIZE; simpl; lia|reflexivity].
Defined.


End Demo.
