(* ===== verification/OverlapAdd.v ===== *)
(** * OverlapAdd: the overlap-add stage against the filter of the stream

    The loop of lines 926-929 of [example.c] ([overlap_add] of [FastConv])
    combines the results of the block transforms.  This file has the
    reference it is proved against: the convolution [lin_conv] of a signal
    with the taps of a FIR filter, sample by sample ([fir_at]).  Fed with
    the convolutions of the blocks, the loop outputs the convolution of the
    stream, and so does the time-domain filter [arm_fir_f32] of the library,
    block after block: the two agree. *)

From Stdlib Require Import Field Qcanon.
From S2P Require Import Prelude Scalar Numerics Board Transforms FastConv.

(** * The convolution *)

Section Convolution.
Context {A : Type} {SA : Scalar A}.

(** Sample [n] of a signal, zero outside it. *)
Definition sample_at (x : list A) (n : Z) : A := default s0 (load x n).

(** Output sample [n] of the FIR filter [h] on the signal [x]:
    the sum of [h[j] * x[n - j]] over the taps. *)
Definition fir_at (h x : list A) (n : nat) : A :=
  vector_sum (imap (λ j c, c *ₛ sample_at x (Z.of_nat n - Z.of_nat j)) h).

(** The first [len] samples of the convolution of [x] with [h]. *)
Definition lin_conv (h x : list A) (len : nat) : list A := fir_at h x <$> seq 0 len.

End Convolution.

Section Samples.
Context {A : Type} {SA : Scalar A} {SL : ScalarLaws A}.
Add Field overlap_samples_field : s_field.
Implicit Types (h x l : list A) (n r : Z).

Lemma sample_at_out x n : ¬ in_bounds x n → sample_at x n = s0.
Proof. intros Hn. unfold sample_at. by rewrite (proj2 (load_None _ _)). Qed.

Lemma sample_at_app_l l1 l2 n :
  0 ≤ n < Z.of_nat (length l1) → sample_at (l1 ++ l2) n = sample_at l1 n.
Proof.
  intros Hn. unfold sample_at.
  rewrite !(load_default _ _ s0) by (unfold in_bounds; rewrite ?length_app; lia).
  by rewrite lookup_app_l by lia.
Qed.

Lemma sample_at_app_r l1 l2 n :
  Z.of_nat (length l1) ≤ n → sample_at (l1 ++ l2) n = sample_at l2 (n - Z.of_nat (length l1)).
Proof.
  intros Hn. unfold sample_at, load.
  repeat case_decide; unfold in_bounds in *; rewrite ?length_app in *; try lia; [|done].
  rewrite lookup_app_r by lia. do 2 f_equal. lia.
Qed.

Lemma vector_sum_imap_add {B} (f g : nat → B → A) (l : list B) :
  vector_sum (imap (λ j b, f j b +ₛ g j b) l)
  = vector_sum (imap f l) +ₛ vector_sum (imap g l).
Proof.
  revert f g. induction l as [|b l IH]; intros f g.
  { unfold vector_sum. simpl. ring. }
  rewrite !imap_cons, !vector_sum_cons.
  change ((λ j b, f j b +ₛ g j b) ∘ S) with (λ j b, (f ∘ S) j b +ₛ (g ∘ S) j b).
  rewrite IH. ring.
Qed.

Lemma vector_sum_imap_zero {B} (f : nat → B → A) (l : list B) :
  (∀ j b, l !! j = Some b → f j b = s0) → vector_sum (imap f l) = s0.
Proof.
  intros Hf. rewrite (imap_ext _ (const (λ _, s0)) l) by done.
  rewrite imap_const. apply vector_sum_zero.
Qed.

(** Past the end of the signal and of the filter the output is zero. *)
Lemma fir_at_tail h x (n : nat) :
  (length h + length x ≤ S n)%nat → fir_at h x n = s0.
Proof.
  intros Hn. apply vector_sum_imap_zero. intros j c Hj%lookup_lt_Some.
  rewrite sample_at_out by (unfold in_bounds; lia). ring.
Qed.

Lemma fir_at_nil h (n : nat) : fir_at h [] n = s0.
Proof.
  apply vector_sum_imap_zero. intros j c _.
  rewrite sample_at_out by (unfold in_bounds; simpl; lia). ring.
Qed.

Lemma length_lin_conv h x (len : nat) : length (lin_conv h x len) = len.
Proof. unfold lin_conv. by rewrite length_fmap, length_seq. Qed.

End Samples.

Section Stream.
Context {A : Type} {SA : Scalar A} {SL : ScalarLaws A} {CFG : Config}.
Add Field overlap_stream_field : s_field.
Implicit Types (h x : list A) (blocks : list (list A)) (k i j m : nat).

(** The block before block [k]; empty before the first. *)
Definition prev_block blocks k : list A :=
  match k with 0%nat => [] | S k' => default [] (blocks !! k') end.

(** The tail the call before block [k] saves. *)
Definition tail_of h blocks k : list A :=
  take FILTER_SIZE (drop AUDIO_BLOCKSIZE (lin_conv h (prev_block blocks k) FFT_SIZE)).

Lemma lin_conv_slice h x len a m :
  (a + m ≤ len)%nat →
  take m (drop a (lin_conv h x len)) = (λ i, fir_at h x (a + i)) <$> seq 0 m.
Proof.
  intros Hm. unfold lin_conv.
  rewrite <- fmap_drop, <- fmap_take, drop_seq, take_seq, Nat.min_l by lia.
  rewrite Nat.add_comm. by rewrite <- fmap_add_seq, <- list_fmap_compose.
Qed.

Lemma fmap_seq_split {B} (f : nat → B) a m n :
  f <$> seq a (m + n) =
    ((λ i, f (a + i)%nat) <$> seq 0 m) ++ ((λ i, f (a + (m + i))%nat) <$> seq 0 n).
Proof.
  rewrite seq_app, fmap_app. f_equal.
  - rewrite <- (Nat.add_0_r a) at 1. by rewrite <- fmap_add_seq, <- list_fmap_compose.
  - rewrite <- (Nat.add_0_r (a + m)), <- fmap_add_seq, <- list_fmap_compose.
    apply list_fmap_ext. intros _ i _. simpl. f_equal. lia.
Qed.

Lemma concat_seq_blocks {B} (f : nat → B) n len :
  concat ((λ k, f <$> seq (k * n) n) <$> seq 0 len) = f <$> seq 0 (len * n).
Proof.
  induction len as [|len IH]; [done|].
  rewrite seq_S, fmap_app, concat_app, IH. simpl. rewrite app_nil_r.
  replace (n + len * n)%nat with (len * n + n)%nat by lia.
  by rewrite seq_app, fmap_app.
Qed.

Lemma sample_concat blocks :
  Forall is_block blocks → ∀ k (r : Z), 0 ≤ r < Z.of_nat AUDIO_BLOCKSIZE →
  sample_at (concat blocks) (Z.of_nat k * Z.of_nat AUDIO_BLOCKSIZE + r)
  = sample_at (default [] (blocks !! k)) r.
Proof.
  induction 1 as [|b bs Hb Hbs IH]; intros k r Hr.
  { rewrite lookup_nil. simpl. by rewrite !sample_at_out by (unfold in_bounds; simpl; lia). }
  unfold is_block in Hb. destruct k as [|k]; simpl.
  - rewrite sample_at_app_l by lia. f_equal; lia.
  - rewrite sample_at_app_r by nia. rewrite <- IH by done. f_equal; lia.
Qed.

Lemma length_prev_block blocks k :
  Forall is_block blocks → (length (prev_block blocks k) ≤ AUDIO_BLOCKSIZE)%nat.
Proof.
  intros Hb. destruct k as [|k]; simpl; [lia|].
  destruct (blocks !! k) as [x|] eqn:Hk; simpl; [|lia].
  by rewrite (Forall_lookup_1 _ _ _ _ Hb Hk).
Qed.

(** A sample of the stream seen from block [k]: it lies in block [k] or in
    the block before it. *)
Lemma sample_overlap blocks k i j :
  Forall is_block blocks → (i < AUDIO_BLOCKSIZE)%nat → (j ≤ AUDIO_BLOCKSIZE)%nat →
  sample_at (concat blocks) (Z.of_nat (k * AUDIO_BLOCKSIZE + i) - Z.of_nat j) =
    sample_at (default [] (blocks !! k)) (Z.of_nat i - Z.of_nat j)
    +ₛ sample_at (prev_block blocks k) (Z.of_nat (AUDIO_BLOCKSIZE + i) - Z.of_nat j).
Proof.
  intros Hb Hi Hj. pose proof (length_prev_block blocks k Hb).
  destruct (decide (j ≤ i)%nat).
  - rewrite (sample_at_out (prev_block _ _)) by (unfold in_bounds; lia).
    replace (Z.of_nat (k * AUDIO_BLOCKSIZE + i) - Z.of_nat j)
      with (Z.of_nat k * Z.of_nat AUDIO_BLOCKSIZE + (Z.of_nat i - Z.of_nat j)) by lia.
    rewrite sample_concat by (done || lia). ring.
  - rewrite (sample_at_out (default _ _)) by (unfold in_bounds; lia).
    destruct k as [|k]; simpl prev_block.
    + rewrite !sample_at_out by (unfold in_bounds; simpl; lia). ring.
    + replace (Z.of_nat (S k * AUDIO_BLOCKSIZE + i) - Z.of_nat j)
        with (Z.of_nat k * Z.of_nat AUDIO_BLOCKSIZE
              + (Z.of_nat (AUDIO_BLOCKSIZE + i) - Z.of_nat j)) by lia.
      rewrite sample_concat by (done || lia). ring.
Qed.

(** An output sample of the filter on the stream is the sum of the outputs
    on the block it lies in and on the block before. *)
Lemma fir_overlap h blocks k i :
  Forall is_block blocks → (length h ≤ S AUDIO_BLOCKSIZE)%nat →
  (i < AUDIO_BLOCKSIZE)%nat →
  fir_at h (concat blocks) (k * AUDIO_BLOCKSIZE + i) =
    fir_at h (default [] (blocks !! k)) i
    +ₛ fir_at h (prev_block blocks k) (AUDIO_BLOCKSIZE + i).
Proof.
  intros Hb Hh Hi. unfold fir_at. rewrite <- vector_sum_imap_add. f_equal.
  apply imap_ext. intros j c Hj%lookup_lt_Some. simpl.
  rewrite sample_overlap by (done || lia). ring.
Qed.

End Stream.

Section Refinement.
Context {A : Type} {SA : Scalar A} {SL : ScalarLaws A} {CFG : Config}.
Add Field overlap_refinement_field : s_field.
Implicit Types (h x : list A) (blocks : list (list A)) (k i : nat).

Lemma tail_of_eq h blocks k :
  (FILTER_SIZE ≤ AUDIO_BLOCKSIZE)%nat →
  tail_of h blocks k =
    (λ i, fir_at h (prev_block blocks k) (AUDIO_BLOCKSIZE + i)) <$> seq 0 FILTER_SIZE.
Proof. intros HM. apply lin_conv_slice. unfold FFT_SIZE. lia. Qed.

Lemma tail_of_0 h blocks :
  (FILTER_SIZE ≤ AUDIO_BLOCKSIZE)%nat → tail_of h blocks 0 = arm_fill_f32 s0 FILTER_SIZE.
Proof.
  intros HM. rewrite tail_of_eq by done. unfold arm_fill_f32.
  rewrite (const_fmap _ _ s0), length_seq; [done|]. intros. apply fir_at_nil.
Qed.

(** One call of the overlap-add stage on the convolution of block [k]. *)
Lemma ola_fir_step h blocks k x :
  (length h ≤ FILTER_SIZE)%nat → (FILTER_SIZE ≤ AUDIO_BLOCKSIZE)%nat →
  Forall is_block blocks → blocks !! k = Some x →
  ola_step (tail_of h blocks k) (lin_conv h x FFT_SIZE) =
    Some (tail_of h blocks (S k),
          fir_at h (concat blocks) <$> seq (k * AUDIO_BLOCKSIZE) AUDIO_BLOCKSIZE).
Proof.
  intros Hh HM Hb Hx. pose proof (length_prev_block blocks k Hb).
  rewrite ola_step_eq; [|done|by rewrite tail_of_eq, length_fmap, length_seq
                        |by rewrite length_lin_conv].
  do 2 f_equal; [unfold tail_of; simpl; by rewrite Hx|].
  rewrite <- (drop_0 (lin_conv h x FFT_SIZE)) at 1.
  rewrite !lin_conv_slice, tail_of_eq by (done || unfold FFT_SIZE; lia).
  rewrite zip_with_fmap_l, zip_with_fmap_r, zip_with_diag.
  replace (seq (k * AUDIO_BLOCKSIZE) AUDIO_BLOCKSIZE)
    with (seq (k * AUDIO_BLOCKSIZE) (FILTER_SIZE + (AUDIO_BLOCKSIZE - FILTER_SIZE)))
    by (f_equal; lia).
  rewrite fmap_seq_split.
  f_equal; apply list_fmap_ext; intros i ? [-> Hi]%lookup_seq; cbv beta;
    rewrite ?Nat.add_0_l, fir_overlap, Hx by (done || lia); cbn [default id]; [done|].
  rewrite (fir_at_tail h (prev_block blocks k)) by lia. ring.
Qed.

(** The overlap-add stage along the stream. *)
Lemma ola_fir_run h blocks :
  (length h ≤ FILTER_SIZE)%nat → (FILTER_SIZE ≤ AUDIO_BLOCKSIZE)%nat →
  Forall is_block blocks →
  ∃ saved outs,
    run ola_step (arm_fill_f32 s0 FILTER_SIZE)
      ((λ x, lin_conv h x FFT_SIZE) <$> blocks) = Some (saved, outs) ∧
    concat outs = lin_conv h (concat blocks) (length blocks * AUDIO_BLOCKSIZE).
Proof.
  intros Hh HM Hb.
  pose proof (run_trace ola_step (tail_of h blocks)
    (λ k, fir_at h (concat blocks) <$> seq (k * AUDIO_BLOCKSIZE) AUDIO_BLOCKSIZE)
    ((λ x, lin_conv h x FFT_SIZE) <$> blocks)) as Hrun.
  rewrite tail_of_0 in Hrun by done. rewrite Hrun.
  - eexists _, _. split; [done|]. rewrite length_fmap. apply concat_seq_blocks.
  - intros k z (x & -> & Hx)%list_lookup_fmap_Some. by apply ola_fir_step.
Qed.

End Refinement.

(** * The filter in the time domain *)

Section TimeDomain.
Context {A : Type} {SA : Scalar A} {SL : ScalarLaws A} {CFG : Config}.
Add Field overlap_time_field : s_field.
Implicit Types (h w x hist : list A) (blocks : list (list A)) (k n j : nat).

(** One call of the time-domain filter [arm_fir_f32] with the taps [h],
    stored in time-reversed order as the library wants them. *)
Definition fir_step h (state x : list A) : option (list A * list A) :=
  let '(pDst, state) :=
    arm_fir_f32 (length h) (reverse h) state x AUDIO_BLOCKSIZE in
  Some (state, pDst).

(** The stream after a history of [p] zeros. *)
Definition padded (p : nat) blocks : list A := replicate p s0 ++ concat blocks.

(** The state array of the filter before block [k]. *)
Definition fir_state h blocks k : list A :=
  match k with
  | 0%nat => arm_fill_f32 s0 (length h + AUDIO_BLOCKSIZE - 1)
  | S k' => take (length h - 1) (drop (k * AUDIO_BLOCKSIZE) (padded (length h - 1) blocks))
            ++ default [] (blocks !! k')
  end.

Lemma vector_sum_app (l1 l2 : list A) :
  vector_sum (l1 ++ l2) = vector_sum l1 +ₛ vector_sum l2.
Proof.
  induction l1 as [|a l1 IH]; simpl.
  - unfold vector_sum at 2. simpl. ring.
  - rewrite !vector_sum_cons, IH. ring.
Qed.

(** The accumulation of [arm_fir_f32] over reversed taps is the
    convolution sum. *)
Lemma fir_acc_reverse h : ∀ w,
  (length h ≤ length w)%nat →
  fir_acc (reverse h) w =
    vector_sum (imap (λ j c, c *ₛ default s0 (w !! (length h - 1 - j)%nat)) h).
Proof.
  induction h as [|a h IH] using rev_ind; intros w Hw.
  { by rewrite reverse_nil, fir_acc_nil_l. }
  rewrite length_app in Hw. destruct w as [|w0 w]; simpl in Hw; [lia|].
  rewrite reverse_app. simpl. rewrite fir_acc_cons, IH by lia.
  rewrite imap_app, vector_sum_app. simpl. rewrite vector_sum_cons.
  rewrite length_app. simpl.
  replace (length h + 1 - 1 - (length h + 0))%nat with 0%nat by lia. simpl.
  rewrite (imap_ext (λ j c, c *ₛ default s0 ((w0 :: w) !! (length h + 1 - 1 - j)%nat))
             (λ j c, c *ₛ default s0 (w !! (length h - 1 - j)%nat)) h).
  { unfold vector_sum at 3. simpl. ring. }
  intros j c Hj%lookup_lt_Some. simpl.
  by replace (length h + 1 - 1 - j)%nat with (S (length h - 1 - j)) by lia.
Qed.

(** A sample of the padded stream. *)
Lemma lookup_padded p blocks (i : nat) :
  default s0 (padded p blocks !! i) = sample_at (concat blocks) (Z.of_nat i - Z.of_nat p).
Proof.
  unfold padded. destruct (decide (i < p)%nat).
  - rewrite lookup_app_l, lookup_replicate_2 by len.
    by rewrite sample_at_out by (unfold in_bounds; lia).
  - rewrite lookup_app_r by len. rewrite length_replicate. unfold sample_at, load.
    replace (Z.to_nat (Z.of_nat i - Z.of_nat p)) with (i - p)%nat by lia.
    case_decide as Hb; [done|]. rewrite lookup_ge_None_2; [done|].
    unfold in_bounds in Hb. lia.
Qed.

Lemma length_concat_blocks blocks :
  Forall is_block blocks → length (concat blocks) = (length blocks * AUDIO_BLOCKSIZE)%nat.
Proof.
  induction 1 as [|b bs Hb _ IH]; simpl; [done|]. rewrite length_app, IH, Hb. lia.
Qed.

Lemma length_padded_drop p blocks k :
  Forall is_block blocks → (k < length blocks)%nat →
  (p + AUDIO_BLOCKSIZE ≤ length (drop (k * AUDIO_BLOCKSIZE) (padded p blocks)))%nat.
Proof.
  intros Hb Hk. unfold padded.
  rewrite length_drop, length_app, length_replicate, length_concat_blocks by done. nia.
Qed.

Lemma drop_concat_blocks blocks : Forall is_block blocks → ∀ k,
  drop (k * AUDIO_BLOCKSIZE) (concat blocks) = concat (drop k blocks).
Proof.
  induction 1 as [|b bs Hb Hbs IH]; intros k; [simpl; by rewrite !drop_nil|].
  destruct k as [|k]; [done|]. simpl. unfold is_block in Hb.
  rewrite drop_app_ge by lia. rewrite <- IH. f_equal. lia.
Qed.

(** The buffer of call [k]: the history followed by the block. *)
Lemma fir_buffer h blocks k x :
  Forall is_block blocks → blocks !! k = Some x →
  let P := padded (length h - 1) blocks in
  take (length h - 1) (drop (k * AUDIO_BLOCKSIZE) P) ++ x
  = take (length h - 1 + AUDIO_BLOCKSIZE) (drop (k * AUDIO_BLOCKSIZE) P).
Proof.
  intros Hb Hx P. rewrite <- take_take_drop. f_equal.
  rewrite drop_drop. unfold P, padded.
  rewrite drop_app_ge by len. rewrite length_replicate.
  replace (k * AUDIO_BLOCKSIZE + (length h - 1) - (length h - 1))%nat
    with (k * AUDIO_BLOCKSIZE)%nat by lia.
  rewrite drop_concat_blocks, (drop_S _ _ _ Hx) by done. simpl.
  by rewrite take_app_length' by (symmetry; by apply (Forall_lookup_1 _ _ _ _ Hb Hx)).
Qed.

Lemma fir_state_hist h blocks k :
  (k ≤ length blocks)%nat → Forall is_block blocks →
  take (length h - 1) (fir_state h blocks k)
  = take (length h - 1) (drop (k * AUDIO_BLOCKSIZE) (padded (length h - 1) blocks)).
Proof.
  intros Hk Hb. destruct k as [|k]; simpl.
  - unfold padded, arm_fill_f32.
    rewrite drop_0, take_replicate, take_app_length' by (by rewrite length_replicate).
    f_equal. lia.
  - rewrite take_app_length'; [done|]. pose proof (length_padded_drop (length h - 1) blocks k Hb Hk).
    rewrite length_take, length_drop in *. unfold padded in *.
    rewrite length_app, length_replicate, length_concat_blocks in * by done. nia.
Qed.

(** One output sample of call [k]. *)
Lemma fir_buffer_sample h blocks k n :
  (n < AUDIO_BLOCKSIZE)%nat →
  let P := padded (length h - 1) blocks in
  (length h - 1 + AUDIO_BLOCKSIZE
     ≤ length (drop (k * AUDIO_BLOCKSIZE) P))%nat →
  fir_acc (reverse h)
    (drop n (take (length h - 1 + AUDIO_BLOCKSIZE) (drop (k * AUDIO_BLOCKSIZE) P)))
  = fir_at h (concat blocks) (k * AUDIO_BLOCKSIZE + n).
Proof.
  intros Hn P HP. rewrite fir_acc_reverse by len. unfold fir_at. f_equal.
  apply imap_ext. intros j c Hj%lookup_lt_Some. simpl. f_equal.
  rewrite lookup_drop, lookup_take_lt, lookup_drop by lia.
  unfold P. rewrite lookup_padded. f_equal. lia.
Qed.

(** One call of the time-domain filter on block [k] of the stream. *)
Lemma fir_stream_step h blocks k x :
  Forall is_block blocks → blocks !! k = Some x →
  fir_step h (fir_state h blocks k) x =
    Some (fir_state h blocks (S k),
          fir_at h (concat blocks) <$> seq (k * AUDIO_BLOCKSIZE) AUDIO_BLOCKSIZE).
Proof.
  intros Hb Hx. pose proof (lookup_lt_Some _ _ _ Hx) as Hk.
  pose proof (Forall_lookup_1 _ _ _ _ Hb Hx) as Hlen. unfold is_block in Hlen.
  pose proof (length_padded_drop (length h - 1) blocks k Hb Hk) as HP.
  unfold fir_step, arm_fir_f32. cbv zeta.
  rewrite fir_state_hist, (take_ge x), (fir_buffer h blocks k x) by (done || lia).
  do 2 f_equal.
  - cbn [fir_state]. rewrite Hx. cbn [default]. f_equal.
    rewrite (Nat.add_comm _ AUDIO_BLOCKSIZE), <- take_drop_commute, drop_drop.
    do 2 f_equal. lia.
  - replace (seq (k * AUDIO_BLOCKSIZE) AUDIO_BLOCKSIZE)
      with (seq (k * AUDIO_BLOCKSIZE + 0) AUDIO_BLOCKSIZE) by (f_equal; lia).
    rewrite <- fmap_add_seq, <- list_fmap_compose.
    apply list_fmap_ext. intros i n [-> Hn]%lookup_seq. simpl.
    by apply fir_buffer_sample.
Qed.

(** The time-domain filter along the stream. *)
Lemma fir_stream_run h blocks :
  Forall is_block blocks →
  ∃ st outs,
    run (fir_step h) (arm_fill_f32 s0 (length h + AUDIO_BLOCKSIZE - 1)) blocks
      = Some (st, outs) ∧
    concat outs = lin_conv h (concat blocks) (length blocks * AUDIO_BLOCKSIZE).
Proof.
  intros Hb.
  pose proof (run_trace (fir_step h) (fir_state h blocks)
    (λ k, fir_at h (concat blocks) <$> seq (k * AUDIO_BLOCKSIZE) AUDIO_BLOCKSIZE)
    blocks) as Hrun.
  cbn [fir_state] in Hrun. rewrite Hrun.
  - eexists _, _. split; [done|]. apply concat_seq_blocks.
  - intros k x Hx. by apply fir_stream_step.
Qed.

End TimeDomain.

(** * Theorems *)

Section OverlapTheorems.
Context {A : Type} {SA : Scalar A} {SL : ScalarLaws A} {CFG : Config}.
Implicit Types (h : list A).

(** C5: the overlap-add stage implements the filter.  Fed, block after
    block, with the first [FFT_SIZE] samples of the convolution of each
    block with a filter [h] of at most [FILTER_SIZE] taps, and started with
    a zero tail, the loop of lines 926-929 outputs, block after block, the
    convolution of the whole stream with [h]. *)
Theorem overlap_add_fir h (blocks : list (list A)) :
  (length h ≤ FILTER_SIZE)%nat → (FILTER_SIZE ≤ AUDIO_BLOCKSIZE)%nat →
  Forall is_block blocks →
  ∃ saved outs,
    run ola_step (arm_fill_f32 s0 FILTER_SIZE)
      ((λ x, lin_conv h x FFT_SIZE) <$> blocks) = Some (saved, outs) ∧
    concat outs = lin_conv h (concat blocks) (length blocks * AUDIO_BLOCKSIZE).
Proof. apply ola_fir_run. Qed.

(** C30: the overlap-add stage and the time-domain filter agree.  On every
    stream of blocks the overlap-add stage, fed with the convolutions of the
    blocks with [h], and [arm_fir_f32] with the taps [h] (stored reversed)
    and a zero history, both run without leaving an array and output the
    same samples. *)
Theorem overlap_add_matches_arm_fir h (blocks : list (list A)) :
  (length h ≤ FILTER_SIZE)%nat → (FILTER_SIZE ≤ AUDIO_BLOCKSIZE)%nat →
  Forall is_block blocks →
  ∃ hist outs_t saved outs_f,
    run (fir_step h) (arm_fill_f32 s0 (length h + AUDIO_BLOCKSIZE - 1)) blocks
      = Some (hist, outs_t) ∧
    run ola_step (arm_fill_f32 s0 FILTER_SIZE)
      ((λ x, lin_conv h x FFT_SIZE) <$> blocks) = Some (saved, outs_f) ∧
    concat outs_f = concat outs_t.
Proof.
  intros Hh HM Hb.
  destruct (fir_stream_run h blocks Hb) as (hist & outs_t & Ht & Hct).
  destruct (ola_fir_run h blocks Hh HM Hb) as (saved & outs_f & Hf & Hcf).
  exists hist, outs_t, saved, outs_f. split_and!; [done..|congruence].
Qed.

End OverlapTheorems.

(** * Examples *)

Section Demo.
#[local] Existing Instances fft_config.

Lemma overlap_add_fir_witness :
  ∃ saved outs,
    run ola_step (arm_fill_f32 s0 FILTER_SIZE)
      ((λ x, lin_conv [qc 1 2; qc 1 2] x FFT_SIZE) <$> [ramp 64; ramp 64])
      = Some (saved, outs) ∧
    concat outs = lin_conv [qc 1 2; qc 1 2] (concat [ramp 64; ramp 64])
                    (length [ramp 64; ramp 64] * AUDIO_BLOCKSIZE).
Proof.
  apply (overlap_add_fir [qc 1 2; qc 1 2] [ramp 64; ramp 64]);
    [unfold FILTER_SIZE; simpl; lia|done|by repeat constructor].
Defined.

Lemma overlap_add_matches_arm_fir_witness :
  ∃ hist outs_t saved outs_f,
    run (fir_step [qc 1 2; qc 1 2])
      (arm_fill_f32 s0 (length [qc 1 2; qc 1 2] + AUDIO_BLOCKSIZE - 1))
      [ramp 64; ramp 64] = Some (hist, outs_t) ∧
    run ola_step (arm_fill_f32 s0 FILTER_SIZE)
      ((λ x, lin_conv [qc 1 2; qc 1 2] x FFT_SIZE) <$> [ramp 64; ramp 64])
      = Some (saved, outs_f) ∧
    concat outs_f = concat outs_t.
Proof.
  apply (overlap_add_matches_arm_fir [qc 1 2; qc 1 2] [ramp 64; ramp 64]);
    [unfold FILTER_SIZE; simpl; lia|done|by repeat constructor].
Defined.

End Demo.
