(* ===== verification/System.v ===== *)
(** * System: the modes behind one interface

    [example.c] holds one group of handlers per value of [SYSMODE]: an
    initialisation, a handler that the driver calls once per block period
    and, for some modes, a handler of the user button.  This file puts the
    groups behind one record ([mode]), states once what a group owes the
    driver ([ModeSafe]: an invariant that the initialisation establishes and
    every handler keeps, and two output blocks of the block size per
    period), proves against that interface that any sequence of button
    presses and block periods is safe, and discharges the interface for
    every mode from the lemmas of its file. *)

From Stdlib Require Import Qcanon.
From S2P Require Import Prelude Scalar Numerics Board Effects Qpsk Monitor.
From S2P Require Import Radar Radar2 Transforms FreqShift FastConv.

(** * The interface *)

(** The handlers of a mode.  A mode without a handler of the button ignores
    it. *)
Record mode (A : Type) := Mode {
  m_state : Type;
  m_in : Type;
  m_msg : Type;
  m_init : option (m_state * list m_msg);
  m_block : m_state → m_in → option (m_state * block_out A m_msg);
  m_btnpress : m_state → m_state * list m_msg;
}.
Arguments Mode {A} _ _ _ _ _ _.
Arguments m_state {A} _.
Arguments m_in {A} _.
Arguments m_msg {A} _.
Arguments m_init {A} _.
Arguments m_block {A} _ _ _.
Arguments m_btnpress {A} _ _.

(** What the driver delivers: the interrupt of the button, or a block
    period with what the handler reads in it. *)
Inductive event (In : Type) :=
  | btn_press
  | block_period (i : In).
Arguments btn_press {In}.
Arguments block_period {In} _.

Section Driver.
Context {A : Type} (m : mode A).

(** One event: the lines of the button handler, or the blocks and the lines
    of the block handler. *)
Definition mode_step (st : m_state m) (ev : event (m_in m)) :
    option (m_state m * block_out A (m_msg m)) :=
  match ev with
  | btn_press => let '(st', log) := m_btnpress m st in Some (st', BlockOut [] [] log)
  | block_period i => m_block m st i
  end.

(** The initialisation followed by a sequence of events. *)
Definition mode_run (evs : list (event (m_in m))) :
    option (m_state m * list (m_msg m) * list (block_out A (m_msg m))) :=
  '(st, log) ← m_init m;
  '(st', os) ← run mode_step st evs;
  Some (st', log, os).

End Driver.

(** What a mode owes the driver. *)
Class ModeSafe {A : Type} {CFG : Config} (m : mode A) := {
  m_inv : m_state m → Prop;
  m_valid : m_in m → Prop;
  m_init_inv : ∃ st log, m_init m = Some (st, log) ∧ m_inv st;
  m_block_inv st i :
    m_inv st → m_valid i →
    ∃ st' o, m_block m st i = Some (st', o) ∧ m_inv st' ∧
      is_block (out_left o) ∧ is_block (out_right o);
  m_btnpress_inv st : m_inv st → m_inv (m_btnpress m st).1;
}.

Section Safe.
Context {A : Type} {CFG : Config} (m : mode A) {MS : ModeSafe m}.
Implicit Types (st : m_state m) (ev : event (m_in m)) (o : block_out A (m_msg m)).

(** The events the theorems range over: the blocks of a period are blocks. *)
Definition event_valid ev : Prop :=
  match ev with btn_press => True | block_period i => m_valid i end.

(** What an event writes: a block period writes two blocks. *)
Definition event_typed ev o : Prop :=
  match ev with
  | btn_press => True
  | block_period _ => is_block (out_left o) ∧ is_block (out_right o)
  end.

Lemma mode_step_inv st ev :
  m_inv st → event_valid ev →
  ∃ st' o, mode_step m st ev = Some (st', o) ∧ m_inv st' ∧ event_typed ev o.
Proof.
  intros Hinv Hev. destruct ev as [|i]; simpl.
  - pose proof (m_btnpress_inv st Hinv) as Hb.
    destruct (m_btnpress m st) as [st' log]. by eexists _, _.
  - destruct (m_block_inv st i Hinv Hev) as (st' & o & ? & ? & ? & ?).
    by exists st', o.
Qed.

(** Every run of a mode that keeps its side of the interface is defined,
    ends in a state of the invariant and writes two blocks of the block
    size in every block period. *)
Lemma mode_safe_run (evs : list (event (m_in m))) :
  Forall event_valid evs →
  ∃ st log os, mode_run m evs = Some (st, log, os) ∧ m_inv st ∧
    length os = length evs ∧
    ∀ k ev o, evs !! k = Some ev → os !! k = Some o → event_typed ev o.
Proof.
  intros Hevs. destruct m_init_inv as (st0 & log & Hinit & Hinv0).
  destruct (run_indexed (mode_step m) (λ _, m_inv)
              (λ k o, ∀ ev, evs !! k = Some ev → event_typed ev o) evs)
    with (s := st0) as (st & os & Hrun & Hinv & Hlen & Htyped); [|done|].
  - intros k st ev Hk Hinv.
    destruct (mode_step_inv st ev Hinv) as (st' & o & ? & ? & ?);
      [by eapply Forall_lookup_1|].
    exists st', o. split_and!; [done..|]. intros ev' ?. by simplify_eq.
  - exists st, log, os. unfold mode_run. rewrite Hinit. simpl. rewrite Hrun. simpl.
    split_and!; [done..|]. intros k ev o Hev Ho. by eapply Htyped.
Qed.

End Safe.

(** * The modes of [example.c] *)

(** The values of [SYSMODE] that [example.c] has handlers for, in the order
    of the file. *)
Inductive sysmode :=
  | SYSMODE_TEST1
  | SYSMODE_TEST2
  | SYSMODE_TEST3
  | SYSMODE_TEST4
  | SYSMODE_MONITOR
  | SYSMODE_RADAR
  | SYSMODE_RADAR2
  | SYSMODE_FFT.

#[export] Instance sysmode_eq_dec : EqDecision sysmode.
Proof. solve_decision. Defined.

(** What the initialisations read from the board: the reference blocks of
    [blocks_gen_sin] and [blocks_gen_cos], the window of [windows_blackman]
    and the clock. *)
Record boot (A : Type) := Boot {
  boot_sin : list A;
  boot_cos : list A;
  boot_window : list A;
  boot_now : systime_t;
}.
Arguments Boot {A} _ _ _ _.
Arguments boot_sin {A} _.
Arguments boot_cos {A} _.
Arguments boot_window {A} _.
Arguments boot_now {A} _.

Definition boot_ok {A : Type} {CFG : Config} (b : boot A) : Prop :=
  is_block (boot_sin b) ∧ is_block (boot_cos b) ∧ is_block (boot_window b).

Section Modes.
Context {A : Type} {SA : Scalar A} {CFG : Config} {RC : RadarConfig} {SC : ShiftConfig}
  {TA : Trig A} {FA : Cfft A} {RA : Rfft A} {QA : Sqrt A}.

(** A mode without a handler of the button. *)
Definition no_btnpress {St M : Type} (st : St) : St * list M := (st, []).

(** [example_test2_init] (lines 95-107): the initialisers of the globals,
    then the usage guide. *)
Definition example_test2_init : test2_state A * list test2_msg :=
  (test2_init, [msg_usage]).

Definition test1_mode : mode A :=
  Mode unit (monitor_in A) monitor_msg
    (Some (tt, [])) (λ _ i, Some (tt, example_test1 i)) no_btnpress.

Definition test2_mode : mode A :=
  Mode (test2_state A) (test2_in A) test2_msg
    (Some example_test2_init) example_test2 example_test2_btnpress.

Definition test3_mode (b : boot A) : mode A :=
  Mode (test3_state A) (test3_in A) (test3_msg A)
    (Some (example_test3_init (boot_window b) (boot_now b), []))
    example_test3 no_btnpress.

Definition test4_mode (b : boot A) : mode A :=
  Mode (test4_state A) (test4_in A) test4_msg
    (Some (example_test4_init (boot_sin b) (boot_cos b) (boot_now b), []))
    example_test4 example_test4_btnpress.

Definition monitor_mode : mode A :=
  Mode Z (monitor_in A) monitor_msg
    (Some (MIN_COUNT, [])) example_monitor (λ st, (st, example_monitor_btnpress)).

Definition radar_mode : mode A :=
  Mode (radar_state A) (radar_in A) (radar_msg A)
    example_radar_init example_radar no_btnpress.

Definition radar2_mode : mode A :=
  Mode (radar2_state A) (radar2_in A) (radar2_msg A)
    ((λ st, (st, [])) <$> example_radar2_init) example_radar2 no_btnpress.

Definition fft_mode : mode A :=
  Mode (fft_state A) (fft_in A) Empty_set
    ((λ st, (st, [])) <$> example_fft_init) example_fft no_btnpress.

(** The handlers that [SYSMODE] selects. *)
Definition example_mode (s : sysmode) (b : boot A) : mode A :=
  match s with
  | SYSMODE_TEST1 => test1_mode
  | SYSMODE_TEST2 => test2_mode
  | SYSMODE_TEST3 => test3_mode b
  | SYSMODE_TEST4 => test4_mode b
  | SYSMODE_MONITOR => monitor_mode
  | SYSMODE_RADAR => radar_mode
  | SYSMODE_RADAR2 => radar2_mode
  | SYSMODE_FFT => fft_mode
  end.

End Modes.

(** * Every mode keeps its side of the interface *)

Section Contracts.
Context {A : Type} {SA : Scalar A} {SL : ScalarLaws A} {CFG : Config}
  {RC : RadarConfig} {RO : RadarConfigOk} {SC : ShiftConfig} {SO : ShiftConfigOk}
  {FO : FftConfigOk} {TA : Trig A} {FA : Cfft A} {FL : CfftLaws A}
  {RA : Rfft A} {RL : RfftLaws A} {QA : Sqrt A}.
Implicit Types (b : boot A).

(** The two source blocks of a period are blocks. *)
Definition sources_ok (i : monitor_in A) : Prop :=
  is_block (mon_mic i) ∧ is_block (mon_wave i).

Lemma example_test2_typed st (i : test2_in A) :
  test2_inv st → test2_in_ok i →
  ∃ st' o, example_test2 st i = Some (st', o) ∧ test2_inv st' ∧
    is_block (out_left o) ∧ is_block (out_right o).
Proof.
  intros Hinv (Hm & Hw & Hs). unfold example_test2.
  pose proof (test2_key_inv st (in_key i) Hinv) as Hk.
  destruct (test2_key st (in_key i)) as [st1 log]. simpl in Hk.
  destruct (test2_effect_inv st1 (if audio_src_mic st then in_mic i else in_wave i)
              (in_sin i) Hk) as (st2 & out & -> & Hinv2 & Hout);
    [by destruct (audio_src_mic st)|done|].
  by eexists _, _.
Qed.

Lemma test2_btnpress_inv (st : test2_state A) :
  test2_inv st → test2_inv (example_test2_btnpress st).1.
Proof. by intros []. Qed.

Lemma example_test3_typed st (i : test3_in A) :
  test3_inv st → is_block (t3_mic i) →
  ∃ st' o, example_test3 st i = Some (st', o) ∧ test3_inv st' ∧
    is_block (out_left o) ∧ is_block (out_right o).
Proof.
  intros Hinv Hi. rewrite example_test3_eq by done.
  destruct (systime_get_delay_passed _ _); eexists _, _; (split; [done|]);
    split_and!; try done; try (by apply test3_next_inv); by apply length_test3_output.
Qed.

Lemma example_monitor_typed (c : Z) (i : monitor_in A) :
  count_ok c →
  ∃ c' o, example_monitor c i = Some (c', o) ∧ count_ok c' ∧
    is_block (out_left o) ∧ is_block (out_right o).
Proof.
  intros Hc. destruct (example_monitor_step c i) as (o & -> & Hl & Hr & _).
  eexists _, o. split; [done|]. rewrite Hl, Hr.
  split_and!; [by apply monitor_key_ok|apply length_arm_fill..].
Qed.

Lemma example_radar_typed st (i : radar_in A) :
  radar_inv st →
  ∃ st' o, example_radar st i = Some (st', o) ∧ radar_inv st' ∧
    is_block (out_left o) ∧ is_block (out_right o).
Proof.
  intros Hinv. destruct (example_radar_inv st i Hinv) as (st' & o & ? & ? & Hl & ?).
  exists st', o. rewrite Hl. split_and!; [done..|apply length_arm_fill|done].
Qed.

Lemma example_radar2_typed st (i : radar2_in A) :
  radar2_inv st →
  ∃ st' o, example_radar2 st i = Some (st', o) ∧ radar2_inv st' ∧
    is_block (out_left o) ∧ is_block (out_right o).
Proof.
  intros Hinv. rewrite example_radar2_eq by done. eexists _, _. split; [done|].
  pose proof Hinv as [_ Hb Hz _ _ _]. simpl. rewrite Hz.
  split_and!; [by apply radar2_next_inv|apply length_arm_fill|done].
Qed.

Lemma example_fft_typed st (i : fft_in A) :
  fft_inv st → is_block (fft_mic i) ∧ is_block (fft_wave i) →
  ∃ st' o, example_fft st i = Some (st', o) ∧ fft_inv st' ∧
    is_block (out_left o) ∧ is_block (out_right o).
Proof.
  pose proof filter_fits. intros Hinv [Hm Hw]. rewrite example_fft_eq by done.
  eexists _, _. split; [done|]. simpl.
  split_and!; [by apply fft_next_inv|done|by apply length_fft_output].
Qed.

#[export] Instance test1_safe : ModeSafe (test1_mode (A:=A)).
Proof.
  refine (@Build_ModeSafe A CFG test1_mode (λ _, True) (sources_ok) _ _ _); [by eexists _, _| |done].
  intros [] i _ [Hm Hw]. by eexists _, _.
Defined.

#[export] Instance test2_safe : ModeSafe (test2_mode (A:=A)).
Proof.
  refine (@Build_ModeSafe A CFG test2_mode test2_inv (test2_in_ok) _ _ _).
  - eexists _, _. split; [done|]. apply test2_init_inv.
  - apply example_test2_typed.
  - apply test2_btnpress_inv.
Defined.

#[export] Instance test3_safe b : boot_ok b → ModeSafe (test3_mode b).
Proof.
  intros (_ & _ & Hw).
  refine (@Build_ModeSafe A CFG (test3_mode b) test3_inv (λ i, is_block (t3_mic i)) _ _ _); [| |done].
  - eexists _, _. split; [done|]. by apply test3_init_inv.
  - apply example_test3_typed.
Defined.

#[export] Instance test4_safe b : boot_ok b → ModeSafe (test4_mode b).
Proof.
  intros (Hs & Hc & _).
  refine (@Build_ModeSafe A CFG (test4_mode b) test4_inv (λ _, True) _ _ _).
  - eexists _, _. split; [done|]. by apply test4_init_inv.
  - intros st i Hinv _. destruct (example_test4_inv st i Hinv) as (st' & o & ? & ? & _ & ? & ?).
    by exists st', o.
  - apply test4_btnpress_inv.
Defined.

#[export] Instance monitor_safe : ModeSafe (monitor_mode (A:=A)).
Proof.
  refine (@Build_ModeSafe A CFG monitor_mode count_ok (λ _, True) _ _ _); [|by intros; apply example_monitor_typed|done].
  eexists _, _. split; [done|]. unfold count_ok, MIN_COUNT, MAX_COUNT. lia.
Defined.

#[export] Instance radar_safe : ModeSafe (radar_mode (A:=A)).
Proof.
  refine (@Build_ModeSafe A CFG radar_mode radar_inv (λ _, True) _ _ _); [|by intros; apply example_radar_typed|done].
  destruct (radar_init_spec (A:=A)) as (st & log & ? & ? & _). by exists st, log.
Defined.

#[export] Instance radar2_safe : ModeSafe (radar2_mode (A:=A)).
Proof.
  refine (@Build_ModeSafe A CFG radar2_mode radar2_inv (λ _, True) _ _ _); [|by intros; apply example_radar2_typed|done].
  destruct (radar2_init_spec (A:=A)) as (st & Hinit & ? & _). exists st, [].
  simpl. by rewrite Hinit.
Defined.

#[export] Instance fft_safe : ModeSafe (fft_mode (A:=A)).
Proof.
  refine (@Build_ModeSafe A CFG fft_mode fft_inv (λ i, is_block (fft_mic i) ∧ is_block (fft_wave i)) _ _ _);
    [|apply example_fft_typed|done].
  destruct (fft_init_spec (A:=A) filter_fits) as (st & Hinit & ? & _). exists st, [].
  simpl. by rewrite Hinit.
Defined.

(** The contract of the mode that [SYSMODE] selects. *)
Definition example_mode_safe (s : sysmode) b (Hb : boot_ok b) :
    ModeSafe (example_mode s b) :=
  match s with
  | SYSMODE_TEST1 => test1_safe
  | SYSMODE_TEST2 => test2_safe
  | SYSMODE_TEST3 => test3_safe b Hb
  | SYSMODE_TEST4 => test4_safe b Hb
  | SYSMODE_MONITOR => monitor_safe
  | SYSMODE_RADAR => radar_safe
  | SYSMODE_RADAR2 => radar2_safe
  | SYSMODE_FFT => fft_safe
  end.

End Contracts.

(** * The button of the effects mode *)

Section Button.
Context {A : Type} {SA : Scalar A} {CFG : Config}.
Implicit Types (st : test2_state A) (i : test2_in A).

(** The inputs of a period with the two sources exchanged. *)
Definition swap_sources i : test2_in A :=
  Test2In (in_wave i) (in_mic i) (in_sin i) (in_key i).

Lemma test2_key_src st b key :
  test2_key (set_src st b) key = (set_src (test2_key st key).1 b, (test2_key st key).2).
Proof. unfold test2_key. destruct key; [|done]. by repeat case_decide. Qed.

Lemma test2_effect_src st b x sn :
  test2_effect (set_src st b) x sn =
    (λ r, (set_src r.1 b, r.2)) <$> test2_effect st x sn.
Proof.
  unfold test2_effect, test2_flanger, test2_ringmod. cbn.
  destruct (curr_effect st); try done.
  - case_match. destruct (store (flanger_coeffs st) _ _) as [c1|]; [|done]. cbn.
    by destruct (store c1 _ _).
  - by case_match.
Qed.

(** The button exchanges the sources.  A press of the button followed
    by a block period prints the name of the new source and then gives, for
    every effect and every key, the output that the period would have given
    without the press had the microphone and the waveform generator been
    exchanged; the state differs in the selected source only. *)
Theorem test2_button_swaps st i :
  run (mode_step test2_mode) st [btn_press; block_period i] =
    r ← example_test2 st (swap_sources i);
    Some (set_src r.1 (negb (audio_src_mic st)),
          [BlockOut [] [] [if negb (audio_src_mic st) then msg_src_mic else msg_src_wave];
           r.2]).
Proof.
  cbn [run mode_step test2_mode m_btnpress m_block example_test2_btnpress].
  cbn [mbind option_bind]. unfold example_test2. cbn [audio_src_mic set_src in_key
    in_mic in_wave in_sin swap_sources].
  rewrite test2_key_src. destruct (test2_key st (in_key i)) as [st1 log]. cbn [fst snd].
  rewrite test2_effect_src.
  replace (if negb (audio_src_mic st) then in_mic i else in_wave i)
    with (if audio_src_mic st then in_wave i else in_mic i)
    by (by destruct (audio_src_mic st)).
  by destruct (test2_effect st1 _ _) as [[st2 out]|].
Qed.

End Button.

(** * The system *)

(** C13: whatever mode is built, the system is safe.  For every value of
    [SYSMODE], once the reference blocks and the window read at start-up
    have the block size, the initialisation of the mode is defined, and
    along every sequence of button presses and block periods whose source
    blocks have the block size every handler is defined (no array is
    indexed out of range), the invariant of the mode holds at the end, and
    every block period writes two blocks of the block size. *)
Theorem system_run_safe {A : Type} {SA : Scalar A} {SL : ScalarLaws A} {CFG : Config}
    {RC : RadarConfig} {RO : RadarConfigOk} {SC : ShiftConfig} {SO : ShiftConfigOk}
    {FO : FftConfigOk} {TA : Trig A} {FA : Cfft A} {FL : CfftLaws A}
    {RA : Rfft A} {RL : RfftLaws A} {QA : Sqrt A}
    (s : sysmode) (b : boot A) (Hb : boot_ok b)
    (evs : list (event (m_in (example_mode s b)))) :
  let MS := example_mode_safe s b Hb in
  Forall (event_valid (example_mode s b)) evs →
  ∃ st log os, mode_run (example_mode s b) evs = Some (st, log, os) ∧
    m_inv st ∧ length os = length evs ∧
    ∀ k ev o, evs !! k = Some ev → os !! k = Some o →
      event_typed (example_mode s b) ev o.
Proof. intros MS. apply mode_safe_run. Qed.

(** * Examples *)

(** A build in which every mode is safe: blocks of 64 samples, a chirp of 8
    samples at offset 4 and a correlation buffer of 127. *)
Definition demo_radar64 : RadarConfig := {|
  RADAR_SIZE := 8; RADAR_OFFSET := 4; CORR_SIZE := 127;
  RADAR_F_START := 1000; RADAR_F_STOP := 3000; RADAR_PRINT_DELAY := 3;
|}.

Lemma demo_radar64_ok : @RadarConfigOk fft_config demo_radar64.
Proof. split; simpl; lia. Qed.

Lemma fft_shift_ok : @ShiftConfigOk fft_config shipped_shift.
Proof. split; simpl; [|lia..]. by apply (list_elem_of_lookup_2 _ 2%nat). Qed.

Lemma fft_filter_ok : @FftConfigOk fft_config.
Proof. unfold FftConfigOk, FILTER_SIZE. simpl. lia. Qed.

Definition demo_boot : boot Qc :=
  Boot (replicate 64 (qc 1 2)) (replicate 64 (qc 1 3)) (replicate 64 (qc 1 4)) 0.

Lemma demo_boot_ok : boot_ok (CFG:=fft_config) demo_boot.
Proof. by repeat split. Qed.

Definition demo_period (key : usart_char) : test2_in Qc :=
  Test2In (ramp 64) (replicate 64 (qc 1 2)) (replicate 64 (qc 1 1)) key.

Section Demo.
#[local] Existing Instances fft_config demo_radar64 demo_radar64_ok shipped_shift
  fft_shift_ok fft_filter_ok demo_sin demo_cfft demo_cfft_laws demo_rfft
  demo_rfft_laws demo_sqrt.

Definition demo_events : list (event (test2_in Qc)) :=
  [btn_press; block_period (demo_period (Some "f"%char));
   block_period (demo_period None)].

Lemma system_run_safe_witness :
  ∃ st log os,
    mode_run (example_mode SYSMODE_TEST2 demo_boot) demo_events = Some (st, log, os) ∧
    m_inv (ModeSafe:=example_mode_safe SYSMODE_TEST2 demo_boot demo_boot_ok) st ∧
    length os = length demo_events ∧
    ∀ k ev o, demo_events !! k = Some ev → os !! k = Some o →
      event_typed (example_mode SYSMODE_TEST2 demo_boot) ev o.
Proof.
  apply (system_run_safe SYSMODE_TEST2 demo_boot demo_boot_ok demo_events).
  by repeat constructor.
Defined.

End Demo.
