(* ===== verification/Preempt.v ===== *)
(** * Preempt: the button interrupt inside a block period

    The handler of the user button runs in an interrupt: it can land between
    any two statements of the block handler, not only between two block
    periods as [System] has it.  This file models that.  A block handler is
    cut into its stages, the runs of statements between which the
    interrupt may land ([stage]: an operation on the globals and on the
    locals of the call); a schedule is a list of stages and interrupts
    ([slot]), and [run_sched] runs it.

    Two schedules are equivalent when they are defined on the same states
    and end with the same globals, the same locals and the same lines, the
    lines up to their order ([sched_equiv], an equivalence for which
    concatenation is [Proper]).  An interrupt commutes with a stage when
    the two orders are equivalent ([commutes]); in the words of the
    literature on reduction, the interrupt is then a mover over the stage.
    The interrupts of a schedule all of whose stages they commute with can
    be moved to its end ([sched_sort]).

    For [SYSMODE_TEST2] and [SYSMODE_TEST4], the two modes whose button
    handler writes a global, every stage but the first commutes with the
    interrupt: the first stage is the only one that reads what the
    interrupt writes.  So every schedule of one block period is equivalent
    to one in which the interrupts that land before the first stage come
    first, the block handler runs without interruption, and the other
    interrupts follow ([sched_linear]), and such a schedule ends as the run
    of [mode_step] of [System] over the same presses and the block period
    does ([linear_events]): the atomic events of [System] lose nothing.  In
    [SYSMODE_TEST4] this needs the [ATOMIC] section of line 419: an
    interrupt between its two statements is lost. *)

From Stdlib Require Import Qcanon.
From S2P Require Import Prelude Scalar Numerics Board Effects Qpsk System.

(** * Schedules *)

Section Staged.
Context {St L M : Type}.

(** A stage of a block handler, on the globals and the locals of the call;
    it may print, and it is undefined when it leaves an array. *)
Definition stage : Type := St → L → option (St * L * list M).

(** An interrupt handler, on the globals. *)
Definition isr : Type := St → St * list M.

Inductive slot :=
  | run_stage (f : stage)
  | run_isr.

Implicit Types (h : isr) (f : stage) (sch : list slot) (st : St) (l : L).

(** A schedule, from the globals [st] and the locals [l]. *)
Fixpoint run_sched h sch st l : option (St * L * list M) :=
  match sch with
  | [] => Some (st, l, [])
  | run_stage f :: sch' =>
      r1 ← f st l;
      r2 ← run_sched h sch' r1.1.1 r1.1.2;
      Some (r2.1, r1.2 ++ r2.2)
  | run_isr :: sch' =>
      r2 ← run_sched h sch' (h st).1 l;
      Some (r2.1, (h st).2 ++ r2.2)
  end.

(** The stages of a schedule, in order, and the number of its interrupts. *)
Fixpoint stages_of sch : list stage :=
  match sch with
  | [] => []
  | run_stage f :: sch' => f :: stages_of sch'
  | run_isr :: sch' => stages_of sch'
  end.

Fixpoint isrs_of sch : nat :=
  match sch with
  | [] => 0
  | run_stage _ :: sch' => isrs_of sch'
  | run_isr :: sch' => S (isrs_of sch')
  end.

(** Results that differ in the order of the printed lines only. *)
Definition same_result : relation (option (St * L * list M)) :=
  option_Forall2 (prod_relation (=) (≡ₚ)).

Definition sched_equiv h : relation (list slot) :=
  λ sch1 sch2, ∀ st l, same_result (run_sched h sch1 st l) (run_sched h sch2 st l).

(** The interrupt can be moved across the stage. *)
Definition commutes h f : Prop :=
  sched_equiv h [run_isr; run_stage f] [run_stage f; run_isr].

#[export] Instance same_result_equiv : Equivalence same_result.
Proof. unfold same_result. apply _. Qed.

#[export] Instance sched_equiv_equiv h : Equivalence (sched_equiv h).
Proof.
  split.
  - by intros sch st l.
  - intros sch1 sch2 H st l. by symmetry.
  - intros sch1 sch2 sch3 H1 H2 st l. by trans (run_sched h sch2 st l).
Qed.

Lemma run_sched_app h sch1 sch2 st l :
  run_sched h (sch1 ++ sch2) st l =
    r1 ← run_sched h sch1 st l;
    r2 ← run_sched h sch2 r1.1.1 r1.1.2;
    Some (r2.1, r1.2 ++ r2.2).
Proof.
  revert st l. induction sch1 as [|[f|] sch1 IH]; intros st l; simpl.
  - by destruct (run_sched h sch2 st l) as [[??]|].
  - destruct (f st l) as [[[st1 l1] log1]|]; simpl; [|done]. rewrite IH.
    destruct (run_sched h sch1 st1 l1) as [[[st2 l2] log2]|]; simpl; [|done].
    destruct (run_sched h sch2 st2 l2) as [[??]|]; simpl; [|done].
    by rewrite app_assoc.
  - rewrite IH. destruct (run_sched h sch1 _ l) as [[[st2 l2] log2]|]; simpl; [|done].
    destruct (run_sched h sch2 st2 l2) as [[??]|]; simpl; [|done].
    by rewrite app_assoc.
Qed.

(** Equivalent schedules can be exchanged inside a schedule. *)
#[export] Instance sched_app_proper h :
  Proper (sched_equiv h ==> sched_equiv h ==> sched_equiv h) app.
Proof.
  intros s1 s1' H1 s2 s2' H2 st l. rewrite !run_sched_app.
  destruct (H1 st l) as [[[st1 l1] log1] [[??] log1'] [[=<-<-] Hlog1]|]; simpl in *;
    [|constructor].
  destruct (H2 st1 l1) as [[[st2 l2] log2] [[??] log2'] [[=<-<-] Hlog2]|]; simpl in *;
    constructor. split; simpl; [done|]. by rewrite Hlog1, Hlog2.
Qed.

#[export] Instance sched_cons_proper h s :
  Proper (sched_equiv h ==> sched_equiv h) (cons s).
Proof. intros s1 s2 H. by apply (sched_app_proper h [s] [s]). Qed.

(** An interrupt before stages it commutes with is an interrupt after
    them. *)
Lemma isr_moves_right h (fs : list stage) :
  Forall (commutes h) fs →
  sched_equiv h (run_isr :: (run_stage <$> fs)) ((run_stage <$> fs) ++ [run_isr]).
Proof.
  induction 1 as [|f fs Hf _ IH]; [done|]. rewrite fmap_cons.
  change (run_isr :: run_stage f :: (run_stage <$> fs))
    with ([run_isr; run_stage f] ++ (run_stage <$> fs)).
  unfold commutes in Hf. rewrite Hf. simpl. by rewrite IH.
Qed.

(** The interrupts of a schedule whose stages they commute with can all be
    moved to its end. *)
Lemma sched_sort h sch :
  Forall (commutes h) (stages_of sch) →
  sched_equiv h sch ((run_stage <$> stages_of sch) ++ replicate (isrs_of sch) run_isr).
Proof.
  induction sch as [|[f|] sch IH]; simpl; intros Hc.
  - done.
  - apply Forall_cons_1 in Hc as [_ Hc]. by rewrite <- IH.
  - rewrite (IH Hc) at 1.
    rewrite app_comm_cons, (isr_moves_right _ _ Hc), <- app_assoc. done.
Qed.

(** A schedule with a first stage: the interrupts before it, the stage,
    and the rest. *)
Lemma sched_split sch f (fs : list stage) :
  stages_of sch = f :: fs →
  ∃ k rest, sch = replicate k run_isr ++ run_stage f :: rest ∧ stages_of rest = fs ∧
    isrs_of sch = (k + isrs_of rest)%nat.
Proof.
  induction sch as [|[g|] sch IH]; simpl; [done|..].
  - intros [= -> <-]. by exists 0%nat, sch.
  - intros (k & rest & -> & ? & Hn)%IH. exists (S k), rest. simpl. by rewrite Hn.
Qed.

(** Linearisation: when every stage but the first commutes with the
    interrupt, a schedule is equivalent to the interrupts that land before
    the first stage, the stages without interruption, and the other
    interrupts. *)
Lemma sched_linear h sch f (fs : list stage) :
  stages_of sch = f :: fs → Forall (commutes h) fs →
  ∃ k0 k1, isrs_of sch = (k0 + k1)%nat ∧
    sched_equiv h sch
      (replicate k0 run_isr ++ (run_stage <$> f :: fs) ++ replicate k1 run_isr).
Proof.
  intros (k0 & rest & -> & <- & Hn)%sched_split Hc.
  exists k0, (isrs_of rest). split; [done|].
  rewrite (sched_sort h rest Hc) at 1. done.
Qed.

End Staged.

Arguments stage : clear implicits.
Arguments isr : clear implicits.
Arguments slot : clear implicits.

(** * Schedules and the events of the driver *)

(** A schedule in which the block handler runs without interruption is a
    sequence of events of [System]: the interrupts before the block period
    are button presses before it, the others button presses after it. *)
Section Events.
Context {A L : Type} (m : mode A) (out : L → list A).
Implicit Types (st : m_state m) (l : L) (i : m_in m).

Abbreviation slot_m := (slot (m_state m) L (m_msg m)).

(** The events of one block period with [k0] presses before and [k1]
    presses after it. *)
Definition period_events (k0 k1 : nat) i : list (event (m_in m)) :=
  replicate k0 btn_press ++ [block_period i] ++ replicate k1 btn_press.

(** A result of a schedule against a result of the events: the same
    globals, the same lines up to their order, and the output block of the
    period in the locals. *)
Definition matches (k0 : nat) :
    option (m_state m * L * list (m_msg m)) →
    option (m_state m * list (block_out A (m_msg m))) → Prop :=
  option_Forall2 (λ r ro,
    r.1.1 = ro.1 ∧ r.2 ≡ₚ concat (out_log <$> ro.2) ∧
    ∃ o, ro.2 !! k0 = Some o ∧ out r.1.2 = out_left o).

(** A stage that is the block handler of the mode. *)
Definition is_period (per : stage (m_state m) L (m_msg m)) i : Prop :=
  ∀ st l, option_Forall2 (λ a r, a.1.1 = r.1 ∧ out a.1.2 = out_left r.2 ∧ a.2 = out_log r.2)
            (per st l) (m_block m st i).

Lemma matches_same_result k0 r r' ro :
  same_result r r' → matches k0 r' ro → matches k0 r ro.
Proof.
  intros [[[??]?] [[??]?] [[=->->] Hl]|]; [|done].
  intros Hm. inversion_clear Hm as [?? (? & Hl' & ?)|]. constructor.
  simpl in *. split_and!; [done| |done]. by rewrite Hl.
Qed.

(** Presses after the period. *)
Lemma presses_events (k : nat) : ∀ st l,
  option_Forall2 (λ r ro, r.1 = (ro.1, l) ∧ r.2 = concat (out_log <$> ro.2))
    (run_sched (m_btnpress m) (replicate k run_isr : list slot_m) st l)
    (run (mode_step m) st (replicate k btn_press)).
Proof.
  induction k as [|k IH]; intros st l; simpl; [by constructor|].
  destruct (m_btnpress m st) as [st1 log1] eqn:E. simpl.
  destruct (IH st1 l) as [[[??]?] [??] [Hst Hlog]|]; simpl in *; constructor.
  by simplify_eq/=.
Qed.

(** The period and the presses after it. *)
Lemma period_presses per i (k1 : nat) st l :
  is_period per i →
  matches 0 (run_sched (m_btnpress m) (run_stage per :: replicate k1 run_isr) st l)
    (run (mode_step m) st (block_period i :: replicate k1 btn_press)).
Proof.
  intros Hper. unfold matches. simpl.
  destruct (Hper st l) as [[[st1 l1] log1] [st1' o] (Hst & Ho & Hlog)|]; simpl in *;
    [|constructor]. subst.
  destruct (presses_events k1 st1' l1) as [[[??]?] [??] [Hst Hlog']|]; simpl in *;
    constructor. simplify_eq/=. split_and!; [done..|by exists o].
Qed.

(** The presses before the period, the period and the presses after it. *)
Lemma linear_events per i (k0 k1 : nat) : ∀ st l,
  is_period per i →
  matches k0
    (run_sched (m_btnpress m)
       (replicate k0 run_isr ++ [run_stage per] ++ replicate k1 run_isr) st l)
    (run (mode_step m) st (period_events k0 k1 i)).
Proof.
  unfold period_events, matches.
  induction k0 as [|k0 IH]; intros st l Hper; [by apply period_presses|]. simpl.
  destruct (m_btnpress m st) as [st1 log1] eqn:E. simpl.
  specialize (IH st1 l Hper). simpl in IH.
  destruct IH as [[[??]?] [??] (Hst & Hlog & o & Ho & Hout)|]; simpl in *;
    constructor. simpl. subst. split_and!; [done|by rewrite Hlog|by exists o].
Qed.

(** Preemption against the events of the driver: when every stage of the
    block handler but the first commutes with the button handler, a
    schedule of one block period ends as the events of [System] do in
    which the presses that land before the first stage come before the
    period and the others after it. *)
Lemma preemption_events (sch : list slot_m) f fs per i st l :
  stages_of sch = f :: fs → Forall (commutes (m_btnpress m)) fs →
  sched_equiv (m_btnpress m) (run_stage <$> f :: fs) [run_stage per] →
  is_period per i →
  ∃ k0 k1, isrs_of sch = (k0 + k1)%nat ∧
    matches k0 (run_sched (m_btnpress m) sch st l)
      (run (mode_step m) st (period_events k0 k1 i)).
Proof.
  intros Hs Hc Hstages Hper.
  destruct (sched_linear (m_btnpress m) sch _ _ Hs Hc) as (k0 & k1 & Hn & Heq).
  exists k0, k1. split; [done|].
  eapply matches_same_result; [|by apply linear_events].
  rewrite (Heq st l). by apply sched_app_proper, sched_app_proper.
Qed.

End Events.

(** * The effects mode *)

Section Test2.
Context {A : Type} {SA : Scalar A} {CFG : Config}.
Implicit Types (st : test2_state A) (i : test2_in A).

#[local] Abbreviation stage2 := (stage (test2_state A) (list A) test2_msg).

(** Lines 110-116: the block of the selected source.  This is the one read
    of [audio_src_mic]. *)
Definition t2_read i : stage2 :=
  λ st _, Some (st, if audio_src_mic st then in_mic i else in_wave i, []).

(** Lines 118-154: the key switch. *)
Definition t2_key i : stage2 :=
  λ st inpdata, Some ((test2_key st (in_key i)).1, inpdata, (test2_key st (in_key i)).2).

(** Lines 156-229: the effect switch and the sinks; the local is the
    output block from here on. *)
Definition t2_effect i : stage2 :=
  λ st inpdata, r ← test2_effect st inpdata (in_sin i); Some (r.1, r.2, []).

Definition test2_stages i : list stage2 := [t2_read i; t2_key i; t2_effect i].

(** The block handler as one stage. *)
Definition test2_period i : stage2 :=
  λ st _, r ← example_test2 st i; Some (r.1, out_left r.2, out_log r.2).

(** The button handler as the interrupt. *)
Definition test2_isr : isr (test2_state A) test2_msg := example_test2_btnpress.

Lemma test2_stages_period i :
  sched_equiv test2_isr (run_stage <$> test2_stages i) [run_stage (test2_period i)].
Proof.
  intros st l. unfold test2_period, example_test2, test2_stages.
  cbn [fmap list_fmap run_sched]. unfold t2_read, t2_key, t2_effect. simpl.
  destruct (test2_key st (in_key i)) as [st1 log]. simpl.
  destruct (test2_effect st1 _ _) as [[st2 out]|]; simpl; [|constructor].
  by rewrite !app_nil_r.
Qed.

Lemma test2_period_block i : is_period test2_mode id (test2_period i) i.
Proof.
  intros st l. unfold test2_period. simpl.
  destruct (example_test2 st i) as [[st' o]|] eqn:E; simpl; constructor.
  split_and!; [done| |done]. simpl. unfold example_test2 in E.
  destruct (test2_key _ _), (test2_effect _ _ _) as [[??]|]; by simplify_eq/=.
Qed.

Lemma test2_key_keeps_src st key :
  audio_src_mic (test2_key st key).1 = audio_src_mic st.
Proof. unfold test2_key. destruct key; [|done]. by repeat case_decide. Qed.

Lemma test2_effect_keeps_src st x sn r :
  test2_effect st x sn = Some r → audio_src_mic r.1 = audio_src_mic st.
Proof.
  unfold test2_effect, test2_flanger, test2_ringmod.
  destruct (curr_effect st); intros; simplify_eq/=; try done.
  - repeat case_match; simplify_option_eq; done.
  - by case_match.
Qed.

Lemma t2_key_commutes i : commutes test2_isr (t2_key i).
Proof.
  intros st l. unfold test2_isr, example_test2_btnpress. simpl.
  rewrite test2_key_src, test2_key_keeps_src. simpl.
  constructor. split; simpl; [done|]. rewrite !app_nil_r. apply Permutation_cons_append.
Qed.

Lemma t2_effect_commutes i : commutes test2_isr (t2_effect i).
Proof.
  intros st l. cbn [run_sched].
  unfold test2_isr, example_test2_btnpress, t2_effect. cbn [fst snd].
  rewrite test2_effect_src.
  destruct (test2_effect st l (in_sin i)) as [[st2 out]|] eqn:E; [|constructor].
  pose proof (test2_effect_keeps_src _ _ _ _ E) as Hs. simpl in Hs.
  cbn [fmap option_fmap option_map mbind option_bind fst snd]. rewrite Hs.
  by constructor.
Qed.

End Test2.

(** * The modem *)

Section Test4.
Context {A : Type} {SA : Scalar A} {CFG : Config} (b0 : boot A).
Implicit Types (st : test4_state A) (i : test4_in A).

(** The locals of a call: the latched request [qpsk_newmsg] and the output
    block. *)
#[local] Abbreviation stage4 := (stage (test4_state A) (bool * list A) test4_msg).

(** The first statement inside [ATOMIC] (line 419):
    [qpsk_newmsg = qpsk_newmsg_g]. *)
Definition t4_read : stage4 :=
  λ st l, Some (st, (qpsk_newmsg_g st, l.2), []).

(** The second one: [qpsk_newmsg_g = false]. *)
Definition t4_clear : stage4 :=
  λ st l, Some (set_newmsg_g st false, l, []).

(** The [ATOMIC] section of line 419: both statements, with interrupts
    disabled. *)
Definition t4_latch : stage4 :=
  λ st l, r ← t4_read st l; t4_clear r.1.1 r.1.2.

(** Lines 420-425. *)
Definition t4_arm i : stage4 :=
  λ st l, let r := if l.1 then test4_arm st (now_arm i) else (st, []) in
          Some (r.1, l, r.2).

(** Lines 427-475: the output block and the sinks. *)
Definition t4_transmit : stage4 :=
  λ st l, output ← test4_transmit st; Some (st, (l.1, output), []).

(** Lines 477-484. *)
Definition t4_advance : stage4 :=
  λ st l, Some (set_curr_symbol st (test4_advance (curr_symbol st)), l, []).

(** Lines 487-577. *)
Definition t4_receive i : stage4 :=
  λ st l, r ← test4_receive st (rx_mic i) (now_check i) (now_check2 i);
          Some (r.1, l, r.2).

Definition test4_stages i : list stage4 :=
  [t4_latch; t4_arm i; t4_transmit; t4_advance; t4_receive i].

(** The block handler as one stage. *)
Definition test4_period i : stage4 :=
  λ st _, r ← example_test4 st i;
          Some (r.1, (qpsk_newmsg_g st, out_left r.2), out_log r.2).

Definition test4_isr : isr (test4_state A) test4_msg := example_test4_btnpress.

Lemma test4_stages_period i :
  sched_equiv test4_isr (run_stage <$> test4_stages i) [run_stage (test4_period i)].
Proof.
  intros st l. unfold test4_period, example_test4, test4_stages.
  cbn [fmap list_fmap run_sched].
  unfold t4_latch, t4_read, t4_clear, t4_arm, t4_transmit, t4_advance, t4_receive. simpl.
  destruct (qpsk_newmsg_g st); simpl;
    (destruct (test4_transmit _) as [out|]; simpl; [|constructor]);
    (destruct (test4_receive _ _ _ _) as [[st' log]|]; simpl; [|constructor]);
    by rewrite !app_nil_r.
Qed.

Lemma test4_period_block i : is_period (test4_mode b0) snd (test4_period i) i.
Proof.
  intros st l. unfold test4_period. simpl.
  destruct (example_test4 st i) as [[st' o]|]; simpl; by constructor.
Qed.

Lemma test4_receive_flag st b (mic : list A) n1 n2 :
  test4_receive (set_newmsg_g st b) mic n1 n2 =
    (λ r, (set_newmsg_g r.1 b, r.2)) <$> test4_receive st mic n1 n2.
Proof.
  unfold test4_receive. rewrite (qpsk_detect_refs (set_newmsg_g st b) st) by done.
  cbn [enable_receiver receiver_timer set_newmsg_g].
  destruct (_ && _); [|done]. destruct (systime_get_delay_passed _ _); [done|].
  by destruct (qpsk_detect st mic).
Qed.

Lemma t4_arm_commutes i : commutes test4_isr (t4_arm i).
Proof.
  intros st l. simpl. constructor. split; simpl; [by destruct l.1|].
  rewrite !app_nil_r. destruct l.1; simpl; [|done]. apply Permutation_swap.
Qed.

Lemma t4_transmit_commutes : commutes test4_isr t4_transmit.
Proof.
  intros st l. cbn [run_sched]. unfold test4_isr, example_test4_btnpress, t4_transmit.
  cbn [fst snd]. change (test4_transmit (set_newmsg_g st true)) with (test4_transmit st).
  destruct (test4_transmit st); simpl; by constructor.
Qed.

Lemma t4_advance_commutes : commutes test4_isr t4_advance.
Proof. intros st l. simpl. by constructor. Qed.

Lemma t4_receive_commutes i : commutes test4_isr (t4_receive i).
Proof.
  intros st l. cbn [run_sched]. unfold test4_isr, example_test4_btnpress, t4_receive.
  cbn [fst snd]. rewrite test4_receive_flag.
  destruct (test4_receive st _ _ _) as [[st' log]|]; simpl; constructor.
  split; simpl; [done|]. rewrite app_nil_r. apply Permutation_cons_append.
Qed.

(** The two statements of the [ATOMIC] section, and an interrupt between
    them: the latch is clear and so is the flag. *)
Lemma split_latch st l :
  run_sched test4_isr [run_stage t4_read; run_isr; run_stage t4_clear] st l =
    Some (set_newmsg_g st false, (qpsk_newmsg_g st, l.2), [msg_transmitting]).
Proof. done. Qed.

End Test4.

(** C23: the button interrupt inside a block period of the effects mode.
    Whatever the number of interrupts and wherever they land between the
    stages of one call of [example_test2] (the read of the source, the key
    switch, the effect), the call ends as the events of the driver do in
    which the presses that land before the read come before the block
    period and the others after it: undefined in the same cases, and
    otherwise with the same globals, the output block of the period and
    the same lines up to their order. *)
Theorem test2_preemption {A : Type} {SA : Scalar A} {CFG : Config}
    (st : test2_state A) (i : test2_in A) (inpdata : list A)
    (sch : list (slot (test2_state A) (list A) test2_msg)) :
  stages_of sch = test2_stages i →
  ∃ k0 k1, isrs_of sch = (k0 + k1)%nat ∧
    matches test2_mode id k0 (run_sched test2_isr sch st inpdata)
      (run (mode_step test2_mode) st (period_events test2_mode k0 k1 i)).
Proof.
  intros Hs. apply (preemption_events test2_mode id sch (t2_read i) [t2_key i; t2_effect i]
    (test2_period i) i); [done| | |].
  - rewrite !Forall_cons, Forall_nil.
    split_and!; [apply t2_key_commutes|apply t2_effect_commutes|done].
  - apply test2_stages_period.
  - apply test2_period_block.
Qed.

(** C16: the button interrupt inside a block period of the modem.  Wherever
    the interrupts land between the stages of one call of [example_test4]
    (the [ATOMIC] latch of the request, the arming of the receiver, the
    transmitter, the cursor, the receiver), the call ends as the events of
    the driver do in which the presses that land before the latch come
    before the block period and the others after it: no request is lost
    and none is served twice. *)
Theorem test4_preemption {A : Type} {SA : Scalar A} {CFG : Config} (b : boot A)
    (st : test4_state A) (i : test4_in A) (l : bool * list A)
    (sch : list (slot (test4_state A) (bool * list A) test4_msg)) :
  stages_of sch = test4_stages i →
  ∃ k0 k1, isrs_of sch = (k0 + k1)%nat ∧
    matches (test4_mode b) snd k0 (run_sched test4_isr sch st l)
      (run (mode_step (test4_mode b)) st (period_events (test4_mode b) k0 k1 i)).
Proof.
  intros Hs.
  apply (preemption_events (test4_mode b) snd sch t4_latch
    [t4_arm i; t4_transmit; t4_advance; t4_receive i] (test4_period i) i); [done| | |].
  - rewrite !Forall_cons, Forall_nil.
    split_and!; [apply t4_arm_commutes|apply t4_transmit_commutes|
      apply t4_advance_commutes|apply t4_receive_commutes|done].
  - apply test4_stages_period.
  - apply test4_period_block.
Qed.


(** * Examples *)

Section Demo.
#[local] Existing Instance small_config.

Definition demo_sched2 : list (slot (test2_state Qc) (list Qc) test2_msg) :=
  [run_isr; run_stage (t2_read (demo_period None)); run_isr;
   run_stage (t2_key (demo_period None));
   run_stage (t2_effect (demo_period None)); run_isr].

Lemma test2_preemption_witness :
  ∃ k0 k1, isrs_of demo_sched2 = (k0 + k1)%nat ∧
    matches test2_mode id k0 (run_sched test2_isr demo_sched2 test2_init [])
      (run (mode_step test2_mode) test2_init
         (period_events test2_mode k0 k1 (demo_period None))).
Proof. by apply (test2_preemption test2_init (demo_period None) [] demo_sched2). Defined.

Definition demo_sched4 : list (slot (test4_state Qc) (bool * list Qc) test4_msg) :=
  [run_stage t4_latch; run_isr; run_stage (t4_arm (demo_in 0));
   run_stage t4_transmit; run_isr; run_stage t4_advance;
   run_stage (t4_receive (demo_in 0))].

Lemma test4_preemption_witness :
  ∃ k0 k1, isrs_of demo_sched4 = (k0 + k1)%nat ∧
    matches (test4_mode demo_boot) snd k0
      (run_sched test4_isr demo_sched4 demo_state (false, []))
      (run (mode_step (test4_mode demo_boot)) demo_state
         (period_events (test4_mode demo_boot) k0 k1 (demo_in 0))).
Proof.
  by apply (test4_preemption demo_boot demo_state (demo_in 0) (false, []) demo_sched4).
Defined.


End Demo.
