(* ===== verification/Overflow.v ===== *)
(** * Overflow: the integer globals at their width

    The files of the modes keep the integer globals of [example.c] as
    unbounded integers.  This file writes the statements that update them
    with the arithmetic of their C types ([c_incr], [c_decr] and [c_add] of
    [Machine]: a signed result outside the range of the type is undefined)
    and shows that nothing is lost:

    - each update, taken at the declared type, is defined on every state of
      the invariant of its mode and gives the value the mode's handler
      computes ([test2_key_depth_c], [flanger_next_c_eq], [test4_advance_c_eq],
      [monitor_key_c_eq], [radar_countdown_c_eq], [radar2_sum_c_eq]);
    - every mode has a list of its integer globals with their types
      ([ModeInts]), and in every state a run of the system reaches each of
      them is a value of its type ([mode_ints_run]);
    - the guards are what keeps the updates defined: the sum of the peak
      indices of the averaging radar overflows when the window is long
      enough ([radar2_sum_overflows]), and the comparison of the cursor of
      the modem with [NUMEL(qpsk_msg) - 1] is unsigned, so that it is the
      bound of the message only because the message is not empty
      ([test4_advance_c_empty]). *)

From Stdlib Require Import Qcanon.
From S2P Require Import Prelude Machine Scalar Numerics Board Effects Qpsk Monitor.
From S2P Require Import Radar Radar2 Transforms FreqShift FastConv System.

(** * The updates at their types *)

Section Sites.
Context `{RC : RadarConfig}.

(** [bitcrush_depth++] under its guard (lines 142-144). *)
Definition depth_incr (bitcrush_depth : Z) : option Z :=
  if decide (bitcrush_depth < BITCRUSH_MAXDEPTH) then c_incr int_fast8_t bitcrush_depth
  else Some bitcrush_depth.

(** [bitcrush_depth--] under its guard (lines 148-150). *)
Definition depth_decr (bitcrush_depth : Z) : option Z :=
  if decide (bitcrush_depth > BITCRUSH_MINDEPTH) then c_decr int_fast8_t bitcrush_depth
  else Some bitcrush_depth.

(** The index update of the flanger (lines 168-177) on an [int_fast16_t]. *)
Definition flanger_next_c (idx : Z) (neg : bool) : option (Z * bool) :=
  if neg then
    idx' ← c_decr int_fast16_t idx;
    Some (idx', if decide (idx' ≤ 0) then false else neg)
  else
    idx' ← c_incr int_fast16_t idx;
    Some (idx', if decide (FLANGER_TAPS - 2 ≤ idx') then true else neg).

(** The cursor update (lines 478-484) on an [int_fast32_t].  [NUMEL] is a
    quotient of two [sizeof]: the subtraction and the comparison of line
    479 are unsigned, at the 32 bits of [size_t] on the board. *)
Definition test4_advance_c (msg_len : nat) (curr : Z) : option Z :=
  if bool_decide (0 ≤ curr) then
    if bool_decide (wrap uint32_t (Z.of_nat msg_len - 1) ≤ wrap uint32_t curr)
    then Some (-1) else c_incr int_fast32_t curr
  else Some curr.

(** [count_1++] and [count_1--] under their guards (lines 641-643 and
    647-649). *)
Definition count_incr (count_1 : Z) : option Z :=
  if decide (count_1 < MAX_COUNT) then c_incr c_int_t count_1 else Some count_1.

Definition count_decr (count_1 : Z) : option Z :=
  if decide (count_1 > MIN_COUNT) then c_decr c_int_t count_1 else Some count_1.

(** The condition of line 700, [radar_trig && (--radar_trig_delay == 0)]:
    the delay after it and whether the detection runs. *)
Definition radar_countdown_c (radar_trig radar_trig_delay : Z) : option (Z * bool) :=
  if decide (radar_trig ≠ 0) then
    d ← c_decr c_int_t radar_trig_delay; Some (d, bool_decide (d = 0))
  else Some (radar_trig_delay, false).

(** [max_i_average += max_i] and [--radar_print_cnt == 0] (lines 795 and
    797): the sum, the countdown and whether the report is printed. *)
Definition radar2_sum_c (max_i_average max_i radar_print_cnt : Z) :
    option (Z * Z * bool) :=
  sum_i ← c_add c_int_t max_i_average max_i;
  cnt ← c_decr c_int_t radar_print_cnt;
  Some (sum_i, cnt, bool_decide (cnt = 0)).

End Sites.

(** * The updates are those of the modes *)

(** Unfolds the arithmetic of a C type on a goal about literals. *)
Ltac unfold_width :=
  unfold c_incr, c_decr, c_add, fits, int_min, int_max, wrap,
    c_int_t, int_fast8_t, int_fast16_t, int_fast32_t, uint32_t in *;
  cbn [c_signed c_bits] in *;
  change (2 ^ (8 - 1)) with 128 in *; change (2 ^ (16 - 1)) with 32768 in *;
  change (2 ^ (32 - 1)) with 2147483648 in *; change (2 ^ 32) with 4294967296 in *.

Section Agree.
Context {A : Type} {SA : Scalar A} {CFG : Config}.

Lemma depth_incr_eq (d : Z) :
  BITCRUSH_MINDEPTH ≤ d ≤ BITCRUSH_MAXDEPTH →
  depth_incr d = Some (if decide (d < BITCRUSH_MAXDEPTH) then d + 1 else d).
Proof.
  unfold depth_incr, BITCRUSH_MINDEPTH, BITCRUSH_MAXDEPTH. intros Hd.
  case_decide; [|done]. unfold_width. by rewrite decide_True by lia.
Qed.

Lemma depth_decr_eq (d : Z) :
  BITCRUSH_MINDEPTH ≤ d ≤ BITCRUSH_MAXDEPTH →
  depth_decr d = Some (if decide (d > BITCRUSH_MINDEPTH) then d - 1 else d).
Proof.
  unfold depth_decr, BITCRUSH_MINDEPTH, BITCRUSH_MAXDEPTH. intros Hd.
  case_decide; [|done]. unfold_width. by rewrite decide_True by lia.
Qed.

(** The two keys of the bit depth, at the width of [bitcrush_depth]. *)
Lemma test2_key_depth_c (st : test2_state A) :
  test2_inv st →
  depth_incr (bitcrush_depth st) = Some (bitcrush_depth (test2_key st (Some "+"%char)).1) ∧
  depth_decr (bitcrush_depth st) = Some (bitcrush_depth (test2_key st (Some "-"%char)).1).
Proof.
  intros [_ Hd _ _ _ _]. by rewrite depth_incr_eq, depth_decr_eq.
Qed.

(** The sweep of the flanger, at the width of [flanger_delay_idx]. *)
Lemma flanger_next_c_eq (idx : Z) (neg : bool) :
  sweep_ok (idx, neg) → flanger_next_c idx neg = Some (flanger_next idx neg).
Proof.
  unfold sweep_ok, flanger_next_c, flanger_next, FLANGER_TAPS. simpl. intros (Hi & Hn & Hp).
  destruct neg; unfold_width; by rewrite decide_True by lia.
Qed.

(** The cursor of the modem, at the width of [curr_symbol] and with the
    unsigned comparison of line 479. *)
Lemma test4_advance_c_eq (curr : Z) :
  -1 ≤ curr < Z.of_nat QPSK_MSG_LEN →
  test4_advance_c QPSK_MSG_LEN curr = Some (test4_advance curr).
Proof.
  unfold test4_advance_c, test4_advance, QPSK_MSG_LEN. intros Hc.
  case_bool_decide; [|done]. unfold_width.
  rewrite !Z.mod_small by lia. simpl.
  case_bool_decide; [done|]. by rewrite decide_True by lia.
Qed.

(** With an empty message the bound of line 479 wraps round to the largest
    [size_t]: the cursor is never reset. *)
Lemma test4_advance_c_empty (curr : Z) :
  0 ≤ curr < int_max int_fast32_t →
  test4_advance_c 0 curr = Some (curr + 1).
Proof.
  unfold test4_advance_c. intros Hc. rewrite bool_decide_true by lia. unfold_width.
  change ((Z.of_nat 0 - 1) mod 4294967296) with 4294967295.
  rewrite Z.mod_small by lia. rewrite bool_decide_false by lia.
  by rewrite decide_True by lia.
Qed.

(** The counter of the monitor, at the width of [int]. *)
Lemma monitor_key_c_eq (count_1 : Z) :
  count_ok count_1 →
  count_incr count_1 = Some (monitor_key count_1 (Some "+"%char)).1 ∧
  count_decr count_1 = Some (monitor_key count_1 (Some "-"%char)).1.
Proof.
  unfold count_ok, count_incr, count_decr. intros Hc. simpl.
  unfold MIN_COUNT, MAX_COUNT in *. split; case_decide; try done; unfold_width; by rewrite decide_True by lia.
Qed.

End Agree.

(** * The radar modes *)

(** The sizes of the radar as values of [int]. *)
Class IntsFit `{RC : RadarConfig} : Prop := {
  corr_fits_int : Z.of_nat CORR_SIZE ≤ int_max c_int_t;
  delay_fits_int : RADAR_PRINT_DELAY ≤ int_max c_int_t;
  sum_fits_int : RADAR_PRINT_DELAY * Z.of_nat CORR_SIZE ≤ int_max c_int_t;
}.

Section RadarInts.
Context {A : Type} {SA : Scalar A} {SL : ScalarLaws A} {CFG : Config}
  {RC : RadarConfig} {RO : RadarConfigOk} {TA : Trig A}.

(** What [radar_inv] does not say of the integers of the radar: the delay
    is in [0, 3] also when no detection is pending, and the zero of the
    distance is an index of the correlation buffer. *)
Definition radar_ints_inv (st : radar_state A) : Prop :=
  0 ≤ radar_trig_delay st ≤ 3 ∧ 0 ≤ index_0 st ≤ Z.of_nat CORR_SIZE.

(** The countdown of line 700, at the width of [int]. *)
Lemma radar_countdown_c_eq (st : radar_state A) :
  radar_inv st →
  radar_countdown_c (radar_trig st) (radar_trig_delay st) =
    Some (if decide (radar_trig st ≠ 0)
          then (radar_trig_delay st - 1, bool_decide (radar_trig_delay st - 1 = 0))
          else (radar_trig_delay st, false)).
Proof.
  intros [_ _ _ _ Ht]. unfold radar_countdown_c. case_decide; [|done].
  destruct Ht as [|[_ Hd]]; [done|]. unfold_width. by rewrite decide_True by lia.
Qed.

Lemma radar_key_ints (st : radar_state A) (max_i : Z) key :
  radar_trig_delay (radar_key st max_i key).1 = radar_trig_delay st ∧
  (index_0 (radar_key st max_i key).1 = index_0 st ∨
   index_0 (radar_key st max_i key).1 = max_i).
Proof. destruct key as [k|]; simpl; [case_decide|]; auto. Qed.

(** A call keeps the delay and the zero of the distance in their ranges. *)
Lemma example_radar_ints (st : radar_state A) i st' o :
  radar_inv st → radar_ints_inv st →
  example_radar st i = Some (st', o) → radar_ints_inv st'.
Proof.
  intros Hinv [Hd Hi]. unfold example_radar.
  set (pre := if decide (radar_trig st ≠ 0) then _ else _).
  assert (radar_ints_inv pre.1) as Hpre.
  { subst pre. destruct Hinv as [_ _ _ _ Ht]. case_decide; [|done].
    destruct Ht as [|[_ ?]]; [done|]. split; simpl; [lia|done]. }
  destruct pre as [st1 fire]. intros ([st0 log] & Hmid & Htail)%bind_Some.
  assert (radar_ints_inv st0) as [Hd0 Hi0].
  { destruct fire; [|by simplify_eq]. rewrite radar_detect_eq in Hmid. simplify_eq.
    destruct Hpre as [Hd1 Hi1].
    destruct (radar_key_ints (detected st1 (rad_mic i))
                (peak_search (radar_corr st1 (rad_mic i))).1 (rad_key i)) as [Hkd Hki].
    pose proof (peak_search_range (radar_corr st1 (rad_mic i))).
    split; [by rewrite Hkd|]. by destruct Hki as [->| ->]. }
  destruct (systime_get_delay_passed _ _); simplify_eq; split; simpl; done || lia.
Qed.

(** The sum and the countdown of the averaging radar, at the width of
    [int]: defined when [RADAR_PRINT_DELAY] peak indices sum to an [int]. *)
Lemma radar2_sum_c_eq {IF : IntsFit} (st : radar2_state A) (max_i : Z) :
  radar2_inv st → 0 ≤ max_i ≤ Z.of_nat CORR_SIZE →
  radar2_sum_c (max_i_average st) max_i (radar_print_cnt st) =
    Some (max_i_average st + max_i, radar_print_cnt st - 1,
          bool_decide (radar_print_cnt st - 1 = 0)).
Proof.
  intros [_ _ _ _ Hn Hs] Hm. pose proof sum_fits_int. pose proof delay_fits_int.
  unfold radar2_sum_c. rewrite c_add_fits, c_decr_fits; [done|done| |done|].
  - pose proof (int_min_nonpos c_int_t). lia.
  - pose proof (int_min_nonpos c_int_t). unfold fits. nia.
Qed.

(** Past the largest [int] the sum is undefined. *)
Lemma radar2_sum_overflows (max_i_average max_i radar_print_cnt : Z) :
  int_max c_int_t < max_i_average + max_i →
  radar2_sum_c max_i_average max_i radar_print_cnt = None.
Proof.
  intros Hs. unfold radar2_sum_c, c_add. simpl.
  rewrite decide_False; [done|]. unfold fits. lia.
Qed.

End RadarInts.

(** * The integers of a mode *)

(** A mode with its integer globals: their types and values in a state,
    each a value of its type on the invariant of the mode. *)
Class ModeInts {A : Type} {CFG : Config} (m : mode A) := {
  m_safe :: ModeSafe m;
  m_ints : m_state m → list (c_int * Z);
  m_ints_fit st : m_inv st → Forall (λ p, fits p.1 p.2) (m_ints st);
}.

(** In every state a run reaches, every integer global is a value of its
    type. *)
Lemma mode_ints_run {A : Type} {CFG : Config} (m : mode A) {MI : ModeInts m}
    (evs : list (event (m_in m))) :
  Forall (event_valid m) evs →
  ∃ st log os, mode_run m evs = Some (st, log, os) ∧
    Forall (λ p, fits p.1 p.2) (m_ints st).
Proof.
  intros Hevs. destruct (mode_safe_run m evs Hevs) as (st & log & os & Hrun & Hinv & _).
  exists st, log, os. split; [done|]. by apply m_ints_fit.
Qed.

Section Instances.
Context {A : Type} {SA : Scalar A} {SL : ScalarLaws A} {CFG : Config}
  {RC : RadarConfig} {RO : RadarConfigOk} {IF : IntsFit} {SC : ShiftConfig}
  {SO : ShiftConfigOk} {FO : FftConfigOk} {TA : Trig A} {FA : Cfft A} {FL : CfftLaws A}
  {RA : Rfft A} {RL : RfftLaws A} {QA : Sqrt A}.
Implicit Types (b : boot A).

(** A mode without integer globals. *)
Definition no_ints (m : mode A) (MS : ModeSafe m) : ModeInts m :=
  {| m_safe := MS; m_ints := λ _, []; m_ints_fit := λ _ _, Forall_nil_2 _ |}.

(** [bitcrush_depth] (line 56) and [flanger_delay_idx] (line 70). *)
Definition test2_ints (st : test2_state A) : list (c_int * Z) :=
  [(int_fast8_t, bitcrush_depth st); (int_fast16_t, flanger_delay_idx st)].

(** [curr_symbol] (line 418). *)
Definition test4_ints (st : test4_state A) : list (c_int * Z) :=
  [(int_fast32_t, curr_symbol st)].

(** [count_1] (line 593). *)
Definition monitor_ints (count_1 : Z) : list (c_int * Z) := [(c_int_t, count_1)].

(** [radar_trig], [radar_trig_delay] and [index_0] (lines 673-675). *)
Definition radar_ints (st : radar_state A) : list (c_int * Z) :=
  [(c_int_t, radar_trig st); (c_int_t, radar_trig_delay st); (c_int_t, index_0 st)].

(** [radar_print_cnt] and [max_i_average] (lines 750 and 752). *)
Definition radar2_ints (st : radar2_state A) : list (c_int * Z) :=
  [(c_int_t, radar_print_cnt st); (c_int_t, max_i_average st)].

Lemma test2_ints_fit (st : test2_state A) :
  test2_inv st → Forall (λ p, fits p.1 p.2) (test2_ints st).
Proof.
  intros [_ Hd [Hs _] _ _ _]. unfold test2_ints.
  unfold BITCRUSH_MINDEPTH, BITCRUSH_MAXDEPTH, FLANGER_TAPS in *. simpl in Hs.
  repeat constructor; simpl; unfold_width; lia.
Qed.

Lemma test4_ints_fit (st : test4_state A) :
  test4_inv st → Forall (λ p, fits p.1 p.2) (test4_ints st).
Proof.
  intros [_ Hc _ _]. unfold QPSK_MSG_LEN in Hc.
  repeat constructor; simpl; unfold_width; lia.
Qed.

Lemma monitor_ints_fit (c : Z) : count_ok c → Forall (λ p, fits p.1 p.2) (monitor_ints c).
Proof.
  unfold count_ok, MIN_COUNT, MAX_COUNT. intros Hc.
  repeat constructor; simpl; unfold_width; lia.
Qed.

Lemma radar_ints_fit (st : radar_state A) :
  radar_inv st ∧ radar_ints_inv st → Forall (λ p, fits p.1 p.2) (radar_ints st).
Proof.
  intros [[_ _ _ _ Ht] [Hd Hi]]. pose proof corr_fits_int.
  repeat constructor; simpl; unfold_width; lia.
Qed.

Lemma radar2_ints_fit (st : radar2_state A) :
  radar2_inv st → Forall (λ p, fits p.1 p.2) (radar2_ints st).
Proof.
  intros [_ _ _ _ Hn Hs]. pose proof sum_fits_int. pose proof delay_fits_int.
  repeat constructor; simpl; unfold_width; nia.
Qed.

(** The radar keeps the invariant of its integers. *)
Definition radar_ints_safe : ModeSafe (radar_mode (A:=A)).
Proof.
  refine (@Build_ModeSafe A CFG radar_mode (λ st, radar_inv st ∧ radar_ints_inv st)
            (λ _, True) _ _ _); [| |done].
  - destruct (radar_init_spec (A:=A)) as (st & log & Hinit & ? & _ & _ & _ & _ & Hi).
    exists st, log. split_and!; [done..|]. split; [|rewrite Hi; lia].
    revert Hinit. unfold example_radar_init. rewrite chirp_init_run. simpl.
    by intros [= <- _].
  - intros st i [Hinv Hints] _.
    destruct (example_radar_typed st i Hinv) as (st' & o & Hrun & ? & ? & ?).
    exists st', o. split_and!; [done..| |done|done]. by apply (example_radar_ints st i st' o).
Defined.

Definition test2_mode_ints : ModeInts (test2_mode (A:=A)) :=
  {| m_safe := test2_safe; m_ints := test2_ints; m_ints_fit := test2_ints_fit |}.

Definition test4_mode_ints b (Hb : boot_ok b) : ModeInts (test4_mode b).
Proof.
  refine {| m_safe := test4_safe b Hb; m_ints := test4_ints |}.
  destruct Hb as (? & ? & ?). apply test4_ints_fit.
Defined.

Definition monitor_mode_ints : ModeInts (monitor_mode (A:=A)) :=
  {| m_safe := monitor_safe; m_ints := monitor_ints; m_ints_fit := monitor_ints_fit |}.

Definition radar_mode_ints : ModeInts (radar_mode (A:=A)) :=
  {| m_safe := radar_ints_safe; m_ints := radar_ints; m_ints_fit := radar_ints_fit |}.

Definition radar2_mode_ints : ModeInts (radar2_mode (A:=A)) :=
  {| m_safe := radar2_safe; m_ints := radar2_ints; m_ints_fit := radar2_ints_fit |}.

(** The integer globals of the mode that [SYSMODE] selects.  The
    pass-through, the frequency shifter and the overlap-add filter have
    none. *)
Definition example_mode_ints (s : sysmode) b (Hb : boot_ok b) :
    ModeInts (example_mode s b) :=
  match s with
  | SYSMODE_TEST1 => no_ints test1_mode test1_safe
  | SYSMODE_TEST2 => test2_mode_ints
  | SYSMODE_TEST3 => no_ints (test3_mode b) (test3_safe b Hb)
  | SYSMODE_TEST4 => test4_mode_ints b Hb
  | SYSMODE_MONITOR => monitor_mode_ints
  | SYSMODE_RADAR => radar_mode_ints
  | SYSMODE_RADAR2 => radar2_mode_ints
  | SYSMODE_FFT => no_ints fft_mode fft_safe
  end.

End Instances.

(** C17: no integer global overflows.  For every value of [SYSMODE], once
    the sizes of the radar are values of [int] and [RADAR_PRINT_DELAY] peak
    indices sum to one, every run of the system over button presses and
    block periods is defined and ends in a state in which every integer
    global ([bitcrush_depth], [flanger_delay_idx], [curr_symbol],
    [count_1], [radar_trig], [radar_trig_delay], [index_0],
    [radar_print_cnt], [max_i_average]) is a value of the C type it is
    declared with, the [fast] types taken at their least width. *)
Theorem system_ints_fit {A : Type} {SA : Scalar A} {SL : ScalarLaws A} {CFG : Config}
    {RC : RadarConfig} {RO : RadarConfigOk} {IF : IntsFit} {SC : ShiftConfig}
    {SO : ShiftConfigOk} {FO : FftConfigOk} {TA : Trig A} {FA : Cfft A} {FL : CfftLaws A}
    {RA : Rfft A} {RL : RfftLaws A} {QA : Sqrt A}
    (s : sysmode) (b : boot A) (Hb : boot_ok b)
    (evs : list (event (m_in (example_mode s b)))) :
  let MI := example_mode_ints s b Hb in
  Forall (event_valid (example_mode s b)) evs →
  ∃ st log os, mode_run (example_mode s b) evs = Some (st, log, os) ∧
    Forall (λ p, fits p.1 p.2) (m_ints st).
Proof. intros MI. apply mode_ints_run. Qed.

(** C28: the sum of the peak indices never overflows.  In a state of the
    invariant of the averaging radar, when [RADAR_PRINT_DELAY] peak indices
    sum to an [int], the statements [max_i_average += max_i] and
    [--radar_print_cnt] of lines 795 and 797, taken at the width of [int]
    and on the peak index of the block, are defined and give the sum and
    the countdown of the state that [example_radar] of SYSMODE_RADAR2
    leaves when it does not print. *)
Theorem radar2_sum_width {A : Type} {SA : Scalar A} {SL : ScalarLaws A} {CFG : Config}
    {RC : RadarConfig} {RO : RadarConfigOk} {IF : IntsFit}
    (st : radar2_state A) (i : radar2_in A) :
  radar2_inv st →
  let max_i := (peak_search (chirp_corr (radar2_waveform st) (rad2_mic i))).1 in
  ∃ sum_i cnt print,
    radar2_sum_c (max_i_average st) max_i (radar_print_cnt st) = Some (sum_i, cnt, print) ∧
    fits c_int_t sum_i ∧ fits c_int_t cnt ∧
    (print = false →
     max_i_average (radar2_next st i).1 = sum_i ∧ radar_print_cnt (radar2_next st i).1 = cnt).
Proof.
  intros Hinv max_i. pose proof (peak_search_range (chirp_corr (radar2_waveform st) (rad2_mic i))).
  eexists _, _, _. split; [by apply radar2_sum_c_eq|].
  destruct Hinv as [_ _ _ _ Hn Hs]. pose proof sum_fits_int. pose proof delay_fits_int.
  split_and!; [unfold_width; nia..|]. intros Hp%bool_decide_eq_false.
  unfold radar2_next. by rewrite bool_decide_false.
Qed.

(** * Examples *)

Lemma small_ints_fit : @IntsFit small_radar.
Proof. by split. Qed.

Lemma demo_ints_fit : @IntsFit demo_radar64.
Proof. by split. Qed.

Section Demo.
#[local] Existing Instances fft_config demo_radar64 demo_radar64_ok demo_ints_fit
  shipped_shift fft_shift_ok fft_filter_ok demo_sin demo_cfft demo_cfft_laws demo_rfft
  demo_rfft_laws demo_sqrt.

(** Three block periods of the averaging radar: the window is summed and
    the countdown is reset. *)
Definition demo_radar2_events : list (event (radar2_in Qc)) :=
  replicate 3 (block_period (Radar2In (replicate 64 (qc 1 2)) None)).

Lemma system_ints_fit_witness :
  ∃ st log os,
    mode_run (example_mode SYSMODE_RADAR2 demo_boot) demo_radar2_events = Some (st, log, os) ∧
    Forall (λ p, fits p.1 p.2)
      (m_ints (ModeInts:=example_mode_ints SYSMODE_RADAR2 demo_boot demo_boot_ok) st).
Proof.
  apply (system_ints_fit SYSMODE_RADAR2 demo_boot demo_boot_ok demo_radar2_events).
  by repeat constructor.
Defined.

End Demo.

Section SmallDemo.
#[local] Existing Instances small_config small_radar small_radar_ok small_ints_fit.

Lemma radar2_sum_width_witness :
  let i := Radar2In [qc 1 1; qc 2 1; qc 0 1; qc 0 1] None in
  let max_i := (peak_search (chirp_corr (radar2_waveform demo_radar2) (rad2_mic i))).1 in
  ∃ sum_i cnt print,
    radar2_sum_c (max_i_average demo_radar2) max_i (radar_print_cnt demo_radar2)
      = Some (sum_i, cnt, print) ∧
    fits c_int_t sum_i ∧ fits c_int_t cnt ∧
    (print = false →
     max_i_average (radar2_next demo_radar2 i).1 = sum_i ∧
     radar_print_cnt (radar2_next demo_radar2 i).1 = cnt).
Proof.
  apply (radar2_sum_width demo_radar2 (Radar2In [qc 1 1; qc 2 1; qc 0 1; qc 0 1] None)).
  apply demo_radar2_inv.
Defined.

End SmallDemo.
